(** * ProjectEscrowImproved: a shallow embedding of the escrow contract

    The contract [ProjectEscrowImproved] (Solidity ^0.8.19) is embedded as
    pure functions over an explicit storage record.  Every external function
    becomes a computation in a small state/error/writer monad:
    - [uint256] and [address] values are [N]; arithmetic is the checked
      arithmetic of Solidity 0.8 (overflow, underflow, division by zero and
      out-of-range array access abort the call);
    - [mapping]s are [gmap]s read with the zero default, [mapping(address =>
      bool)] is the [gset] of keys mapped to [true];
    - a [require] that fails aborts the call with its message and the whole
      call is rolled back;
    - the log of a call lists the emitted events and the outbound value
      transfers in program order; each transfer carries the storage as it
      stands when the recipient is handed control;
    - a transfer to an account that refuses it aborts the call; which
      accounts refuse is a component of the state that the contract cannot
      write and that may change between transactions. *)

From stdpp Require Import gmap strings list fin_maps.
From Stdlib Require Import NArith Lia.

Local Open Scope string_scope.
Local Open Scope list_scope.
Local Open Scope N_scope.

(** ** Enumerations *)

Module ProjectStatus.
Inductive t := CREATED | ACTIVE | COMPLETED | CANCELLED | DISPUTED.
Definition eqb (a b : t) : bool :=
  match a, b with
  | CREATED, CREATED | ACTIVE, ACTIVE | COMPLETED, COMPLETED
  | CANCELLED, CANCELLED | DISPUTED, DISPUTED => true
  | _, _ => false
  end.
End ProjectStatus.

Module MilestoneStatus.
Inductive t := PENDING | SUBMITTED | APPROVED | REJECTED | DISPUTED.
Definition eqb (a b : t) : bool :=
  match a, b with
  | PENDING, PENDING | SUBMITTED, SUBMITTED | APPROVED, APPROVED
  | REJECTED, REJECTED | DISPUTED, DISPUTED => true
  | _, _ => false
  end.
End MilestoneStatus.

(** ** Structs *)

(** [address] and [uint256] values are natural numbers. *)
Abbreviation address := N (only parsing).
Abbreviation uint256 := N (only parsing).

Definition MAX_UINT256 : N := 2 ^ 256 - 1.

Record Milestone := mkMilestone {
  m_description : string;
  m_amount : uint256;
  m_deadline : uint256;
  m_status : MilestoneStatus.t;
  m_deliverableHash : string;
  m_submittedAt : uint256
}.

Record Project := mkProject {
  p_id : uint256;
  p_client : address;
  p_freelancer : address;
  p_title : string;
  p_descriptionHash : string;
  p_totalAmount : uint256;
  p_status : ProjectStatus.t;
  p_createdAt : uint256;
  p_acceptedAt : uint256;
  p_fundsDeposited : bool
}.

Record Dispute := mkDispute {
  d_projectId : uint256;
  d_milestoneId : uint256;
  d_initiator : address;
  d_reason : string;
  d_isResolved : bool;
  d_createdAt : uint256;
  d_hasVoted : gset N;
  d_votes : gmap N N;
  d_voteCount : uint256
}.

(** The zero-initialised structs a [mapping] yields for an untouched key. *)
Definition zeroProject : Project :=
  mkProject 0 0 0 EmptyString EmptyString 0 ProjectStatus.CREATED 0 0 false.

Definition zeroDispute : Dispute :=
  mkDispute 0 0 0 EmptyString false 0 ∅ ∅ 0.

(** ** Contract storage *)

Record Storage := mkStorage {
  owner : address;              (* Ownable *)
  paused : bool;                (* Pausable *)
  locked : bool;                (* ReentrancyGuard: _status == _ENTERED *)
  balance : N;                  (* address(this).balance *)
  projectCounter : uint256;
  disputeCounter : uint256;
  platformFeePercent : uint256;
  projects : gmap N Project;
  projectMilestones : gmap N (list Milestone);
  disputes : gmap N Dispute;
  userProjects : gmap N (list N);
  userRatings : gmap N N;
  userRatingCount : gmap N N;
  isAdmin : gset N;
  adminList : list N;
  (* Not storage of the contract but the world around it: the accounts
     whose code rejects a plain transfer (no payable receive function, or
     one that needs more than the 2300 gas a transfer forwards). *)
  refusing : gset N
}.

Definition DISPUTE_TIMEOUT : uint256 := 3 * 86400.
Definition AUTO_APPROVE_TIMEOUT : uint256 := 7 * 86400.
Definition REQUIRED_ADMIN_VOTES : uint256 := 2.

(** Field updates. *)
Definition set_paused (b : bool) (s : Storage) : Storage :=
  mkStorage (owner s) b (locked s) (balance s) (projectCounter s)
    (disputeCounter s) (platformFeePercent s) (projects s)
    (projectMilestones s) (disputes s) (userProjects s) (userRatings s)
    (userRatingCount s) (isAdmin s) (adminList s) (refusing s).

Definition set_locked (b : bool) (s : Storage) : Storage :=
  mkStorage (owner s) (paused s) b (balance s) (projectCounter s)
    (disputeCounter s) (platformFeePercent s) (projects s)
    (projectMilestones s) (disputes s) (userProjects s) (userRatings s)
    (userRatingCount s) (isAdmin s) (adminList s) (refusing s).

Definition set_balance (b : N) (s : Storage) : Storage :=
  mkStorage (owner s) (paused s) (locked s) b (projectCounter s)
    (disputeCounter s) (platformFeePercent s) (projects s)
    (projectMilestones s) (disputes s) (userProjects s) (userRatings s)
    (userRatingCount s) (isAdmin s) (adminList s) (refusing s).

Definition set_projectCounter (n : uint256) (s : Storage) : Storage :=
  mkStorage (owner s) (paused s) (locked s) (balance s) n
    (disputeCounter s) (platformFeePercent s) (projects s)
    (projectMilestones s) (disputes s) (userProjects s) (userRatings s)
    (userRatingCount s) (isAdmin s) (adminList s) (refusing s).

Definition set_disputeCounter (n : uint256) (s : Storage) : Storage :=
  mkStorage (owner s) (paused s) (locked s) (balance s) (projectCounter s)
    n (platformFeePercent s) (projects s)
    (projectMilestones s) (disputes s) (userProjects s) (userRatings s)
    (userRatingCount s) (isAdmin s) (adminList s) (refusing s).

Definition set_platformFeePercent (n : uint256) (s : Storage) : Storage :=
  mkStorage (owner s) (paused s) (locked s) (balance s) (projectCounter s)
    (disputeCounter s) n (projects s)
    (projectMilestones s) (disputes s) (userProjects s) (userRatings s)
    (userRatingCount s) (isAdmin s) (adminList s) (refusing s).

Definition set_project (i : N) (p : Project) (s : Storage) : Storage :=
  mkStorage (owner s) (paused s) (locked s) (balance s) (projectCounter s)
    (disputeCounter s) (platformFeePercent s) (<[i:=p]> (projects s))
    (projectMilestones s) (disputes s) (userProjects s) (userRatings s)
    (userRatingCount s) (isAdmin s) (adminList s) (refusing s).

Definition set_milestones (i : N) (ms : list Milestone) (s : Storage) : Storage :=
  mkStorage (owner s) (paused s) (locked s) (balance s) (projectCounter s)
    (disputeCounter s) (platformFeePercent s) (projects s)
    (<[i:=ms]> (projectMilestones s)) (disputes s) (userProjects s)
    (userRatings s) (userRatingCount s) (isAdmin s) (adminList s) (refusing s).

Definition set_dispute (i : N) (d : Dispute) (s : Storage) : Storage :=
  mkStorage (owner s) (paused s) (locked s) (balance s) (projectCounter s)
    (disputeCounter s) (platformFeePercent s) (projects s)
    (projectMilestones s) (<[i:=d]> (disputes s)) (userProjects s)
    (userRatings s) (userRatingCount s) (isAdmin s) (adminList s) (refusing s).

Definition set_userProjects (u : address) (l : list N) (s : Storage) : Storage :=
  mkStorage (owner s) (paused s) (locked s) (balance s) (projectCounter s)
    (disputeCounter s) (platformFeePercent s) (projects s)
    (projectMilestones s) (disputes s) (<[u:=l]> (userProjects s))
    (userRatings s) (userRatingCount s) (isAdmin s) (adminList s) (refusing s).

Definition set_rating (u : address) (total count : N) (s : Storage) : Storage :=
  mkStorage (owner s) (paused s) (locked s) (balance s) (projectCounter s)
    (disputeCounter s) (platformFeePercent s) (projects s)
    (projectMilestones s) (disputes s) (userProjects s)
    (<[u:=total]> (userRatings s)) (<[u:=count]> (userRatingCount s))
    (isAdmin s) (adminList s) (refusing s).

Definition set_admins (members : gset N) (l : list N) (s : Storage) : Storage :=
  mkStorage (owner s) (paused s) (locked s) (balance s) (projectCounter s)
    (disputeCounter s) (platformFeePercent s) (projects s)
    (projectMilestones s) (disputes s) (userProjects s) (userRatings s)
    (userRatingCount s) members l (refusing s).

(** The world changes: [w] are the accounts that refuse a transfer from
    now on. *)
Definition set_refusing (w : gset N) (s : Storage) : Storage :=
  mkStorage (owner s) (paused s) (locked s) (balance s) (projectCounter s)
    (disputeCounter s) (platformFeePercent s) (projects s)
    (projectMilestones s) (disputes s) (userProjects s) (userRatings s)
    (userRatingCount s) (isAdmin s) (adminList s) w.

(** Struct field updates. *)
Definition m_set_status (st : MilestoneStatus.t) (m : Milestone) : Milestone :=
  mkMilestone (m_description m) (m_amount m) (m_deadline m) st
    (m_deliverableHash m) (m_submittedAt m).

Definition m_set_submission (h : string) (t : uint256) (m : Milestone) : Milestone :=
  mkMilestone (m_description m) (m_amount m) (m_deadline m)
    MilestoneStatus.SUBMITTED h t.

Definition p_set_status (st : ProjectStatus.t) (p : Project) : Project :=
  mkProject (p_id p) (p_client p) (p_freelancer p) (p_title p)
    (p_descriptionHash p) (p_totalAmount p) st (p_createdAt p)
    (p_acceptedAt p) (p_fundsDeposited p).

(** The three writes of a vote: [hasVoted[msg.sender] = true],
    [votes[msg.sender] = pct], [voteCount++]. *)
Definition voted (msg_sender : N) (pct : uint256) (d : Dispute) : Dispute :=
  mkDispute (d_projectId d) (d_milestoneId d) (d_initiator d) (d_reason d)
    (d_isResolved d) (d_createdAt d) (d_hasVoted d ∪ {[msg_sender]})
    (<[msg_sender:=pct]> (d_votes d)) (d_voteCount d + 1).

Definition d_set_resolved (d : Dispute) : Dispute :=
  mkDispute (d_projectId d) (d_milestoneId d) (d_initiator d) (d_reason d)
    true (d_createdAt d) (d_hasVoted d) (d_votes d) (d_voteCount d).

(** Mapping reads, with the zero default of an untouched slot. *)
Definition getProject (s : Storage) (i : N) : Project :=
  default zeroProject (projects s !! i).

Definition getMilestones (s : Storage) (i : N) : list Milestone :=
  default [] (projectMilestones s !! i).

Definition getDispute (s : Storage) (i : N) : Dispute :=
  default zeroDispute (disputes s !! i).

Definition getVote (d : Dispute) (a : address) : N :=
  default 0 (d_votes d !! a).

Definition hasVoted (d : Dispute) (a : address) : bool :=
  bool_decide (a ∈ d_hasVoted d).

Definition isAdminb (s : Storage) (a : address) : bool :=
  bool_decide (a ∈ isAdmin s).

(** ** Events and outbound transfers *)

Inductive Event :=
| ProjectCreated (projectId : N) (client : address) (totalAmount : N)
| ProjectAccepted (projectId : N) (freelancer : address)
| FundsDeposited (projectId : N) (amount : N)
| MilestoneSubmitted (projectId milestoneId : N) (deliverableHash : string)
| MilestoneApproved (projectId milestoneId : N)
| MilestoneAutoApproved (projectId milestoneId : N)
| PaymentReleased (projectId milestoneId amount : N)
| DisputeRaised (disputeId projectId : N) (initiator : address)
| DisputeVoted (disputeId : N) (admin : address) (percentage : N)
| DisputeResolved (disputeId percentageToFreelancer : N)
| UserRated (user : address) (rating : N)
| AdminAdded (admin : address)
| AdminRemoved (admin : address)
| ContractPaused (by_ : address)
| ContractUnpaused (by_ : address)
(* [recipient.transfer(amount)]: [seen] is the storage at the moment the
   recipient receives control, i.e. what a call made from inside the
   transfer would read. *)
| Transfer (recipient : address) (amount : N) (seen : Storage).

(** ** The execution monad *)

Inductive Result (A : Type) :=
| Ok (a : A)
| Revert (msg : string).
Arguments Ok {A} a.
Arguments Revert {A} msg.

Definition M (A : Type) : Type := Storage → Result (A * Storage * list Event).

Definition ret {A} (a : A) : M A := fun s => Ok (a, s, []).

Definition bind {A B} (m : M A) (f : A → M B) : M B := fun s =>
  match m s with
  | Ok (a, s1, l1) =>
      match f a s1 with
      | Ok (b, s2, l2) => Ok (b, s2, l1 ++ l2)
      | Revert e => Revert e
      end
  | Revert e => Revert e
  end.

Declare Scope evm_scope.
Delimit Scope evm_scope with evm.
Notation "x <- m ;; k" := (bind m (fun x => k))
  (at level 100, m at next level, k at level 200, right associativity) : evm_scope.
Notation "m ;; k" := (bind m (fun _ => k))
  (at level 100, k at level 200, right associativity) : evm_scope.
Local Open Scope evm_scope.

Definition get : M Storage := fun s => Ok (s, s, []).
Definition modify (f : Storage → Storage) : M unit := fun s => Ok (tt, f s, []).
Definition emit (e : Event) : M unit := fun s => Ok (tt, s, [e]).
Definition revert {A} (msg : string) : M A := fun _ => Revert msg.

Definition require (b : bool) (msg : string) : M unit :=
  if b then ret tt else revert msg.

(** A result whose log is preceded by [l]. *)
Definition prepend {A} (l : list Event) (r : Result (A * Storage * list Event))
    : Result (A * Storage * list Event) :=
  match r with
  | Ok (a, s, l') => Ok (a, s, l ++ l')
  | Revert e => Revert e
  end.

(** ** Checked arithmetic and external calls *)

Definition checked_add (a b : uint256) : M uint256 :=
  if a + b <=? MAX_UINT256 then ret (a + b) else revert "Panic(0x11)".

Definition checked_mul (a b : uint256) : M uint256 :=
  if a * b <=? MAX_UINT256 then ret (a * b) else revert "Panic(0x11)".

Definition checked_sub (a b : uint256) : M uint256 :=
  if b <=? a then ret (a - b) else revert "Panic(0x11)".

Definition checked_div (a b : uint256) : M uint256 :=
  if b =? 0 then revert "Panic(0x12)" else ret (a / b).

(** [recipient.transfer(amount)] hands the recipient [amount] and 2300 gas.
    It aborts, and with it the whole call, when the contract does not hold
    [amount] and when the recipient refuses the payment. *)
Definition transfer (recipient : address) (amount : uint256) : M unit := fun s =>
  if amount <=? balance s then
    if bool_decide (recipient ∈ refusing s) then Revert "Transfer failed"
    else
      let s' := set_balance (balance s - amount) s in
      Ok (tt, s', [Transfer recipient amount s'])
  else Revert "Transfer failed".

(** Storage pointers. [milestoneAt] is the bounds-checked array access
    [projectMilestones[_projectId][_milestoneId]]. *)
Definition milestoneAt (_projectId _milestoneId : uint256) : M Milestone :=
  s <- get ;;
  match getMilestones s _projectId !! N.to_nat _milestoneId with
  | Some m => ret m
  | None => revert "Panic(0x32)"
  end.

Definition updMilestone (_projectId _milestoneId : uint256)
    (f : Milestone → Milestone) (s : Storage) : Storage :=
  set_milestones _projectId
    (alter f (N.to_nat _milestoneId) (getMilestones s _projectId)) s.

Definition updProject (_projectId : uint256) (f : Project → Project)
    (s : Storage) : Storage :=
  set_project _projectId (f (getProject s _projectId)) s.

Definition updDispute (_disputeId : uint256) (f : Dispute → Dispute)
    (s : Storage) : Storage :=
  set_dispute _disputeId (f (getDispute s _disputeId)) s.

Definition pushUserProject (u : address) (_projectId : uint256) (s : Storage) : Storage :=
  set_userProjects u (default [] (userProjects s !! u) ++ [_projectId]) s.

(** ** Inherited modifiers *)

(** The contract inherits Ownable, Pausable and ReentrancyGuard from
    OpenZeppelin; their sources are not part of the repository. *)

(** Modelled from the spec: Ownable's [onlyOwner] guard, the owner-only
    capability check of section 4.6. *)
Definition onlyOwner (msg_sender : address) : M unit :=
  s <- get ;;
  require (msg_sender =? owner s) "Ownable: caller is not the owner".

(** Modelled from the spec: Pausable's [whenNotPaused] gate, the boolean
    switch of section 4.6 that rejects the call while it is active. *)
Definition whenNotPaused : M unit :=
  s <- get ;; require (negb (paused s)) "Pausable: paused".

(** Modelled from the spec: Pausable's [whenPaused] gate, the converse of
    [whenNotPaused], which guards [_unpause]. *)
Definition whenPaused : M unit :=
  s <- get ;; require (paused s) "Pausable: not paused".

(** Modelled from the spec: ReentrancyGuard's [nonReentrant], the exclusive
    lock of section 4.6: taken on entry and held for the whole body, it
    makes a nested entry fail at once, and it is released on exit. *)
Definition nonReentrant {A} (body : M A) : M A :=
  s <- get ;;
  require (negb (locked s)) "ReentrancyGuard: reentrant call" ;;
  modify (set_locked true) ;;
  r <- body ;;
  modify (set_locked false) ;;
  ret r.

(** ** Deployment *)

(** The storage the constructor leaves.  The world starts with no account
    refusing transfers; [reach_world] below lets it be any other. *)
Definition constructor (msg_sender : address) : Storage :=
  mkStorage msg_sender false false 0 0 0 2 ∅ ∅ ∅ ∅ ∅ ∅ {[msg_sender]} [msg_sender]
    ∅.

(** ** Views *)

Definition allMilestonesApproved (s : Storage) (_projectId : uint256) : bool :=
  forallb (fun m => MilestoneStatus.eqb (m_status m) MilestoneStatus.APPROVED)
    (getMilestones s _projectId).

(** Division in a view: Solidity's [/] aborts on a zero divisor. *)
Definition div256 (a b : uint256) : Result uint256 :=
  if b =? 0 then Revert "Panic(0x12)" else Ok (a / b).

Definition getUserRating (s : Storage) (_user : address) : Result uint256 :=
  if default 0 (userRatingCount s !! _user) =? 0 then Ok 0
  else div256 (default 0 (userRatings s !! _user))
              (default 0 (userRatingCount s !! _user)).

Definition getAdminList (s : Storage) : list address := adminList s.

Definition getContractBalance (s : Storage) : uint256 := balance s.

Definition canAutoApprove (s : Storage) (block_timestamp : uint256)
    (_projectId _milestoneId : uint256) : Result bool :=
  if projectCounter s <=? _projectId then Ok false
  else if N.of_nat (length (getMilestones s _projectId)) <=? _milestoneId then Ok false
  else match getMilestones s _projectId !! N.to_nat _milestoneId with
       | None => Revert "Panic(0x32)"
       | Some milestone =>
           if MilestoneStatus.eqb (m_status milestone) MilestoneStatus.SUBMITTED then
             if m_submittedAt milestone + AUTO_APPROVE_TIMEOUT <=? MAX_UINT256
             then Ok (m_submittedAt milestone + AUTO_APPROVE_TIMEOUT <=? block_timestamp)
             else Revert "Panic(0x11)"
           else Ok false
       end.

(** The loop of [removeAdmin]: the first slot holding [_admin] is overwritten
    with the last element and the array is popped. *)
Definition swap_pop (i : nat) (l : list address) : list address :=
  match last l with
  | Some y => removelast (<[i:=y]> l)
  | None => l
  end.

Fixpoint removeAdmin_loop (n i : nat) (_admin : address) (l : list address)
    : list address :=
  match n with
  | O => l
  | S n' =>
      match l !! i with
      | Some x => if x =? _admin then swap_pop i l
                  else removeAdmin_loop n' (S i) _admin l
      | None => l
      end
  end.

(** The loop of [_executeDisputeResolution] over [adminList]. *)
Fixpoint tallyVotes (admins : list address) (dispute : Dispute)
    (totalPercentage validVotes : uint256) : M (uint256 * uint256) :=
  match admins with
  | [] => ret (totalPercentage, validVotes)
  | admin :: rest =>
      if hasVoted dispute admin then
        t <- checked_add totalPercentage (getVote dispute admin) ;;
        v <- checked_add validVotes 1 ;;
        tallyVotes rest dispute t v
      else tallyVotes rest dispute totalPercentage validVotes
  end.

(** The milestones pushed by [createProject]. *)
Fixpoint newMilestones (descs : list string) (amounts deadlines : list uint256)
    : list Milestone :=
  match descs, amounts, deadlines with
  | d :: descs', a :: amounts', t :: deadlines' =>
      mkMilestone d a t MilestoneStatus.PENDING EmptyString 0
        :: newMilestones descs' amounts' deadlines'
  | _, _, _ => []
  end.

(** ** External functions *)

Section Calls.

Variable msg_sender : address.
Variable block_timestamp : uint256.

Definition onlyClient (_projectId : uint256) : M unit :=
  s <- get ;;
  require (msg_sender =? p_client (getProject s _projectId))
    "Only client can call this".

Definition onlyFreelancer (_projectId : uint256) : M unit :=
  s <- get ;;
  require (msg_sender =? p_freelancer (getProject s _projectId))
    "Only freelancer can call this".

Definition onlyParticipant (_projectId : uint256) : M unit :=
  s <- get ;;
  require ((msg_sender =? p_client (getProject s _projectId))
           || (msg_sender =? p_freelancer (getProject s _projectId)))
    "Only project participants can call this".

Definition projectExists (_projectId : uint256) : M unit :=
  s <- get ;;
  require (_projectId <? projectCounter s) "Project does not exist".

Definition onlyAdmin : M unit :=
  s <- get ;;
  require (isAdminb s msg_sender || (msg_sender =? owner s))
    "Only admin can call this".

Definition addAdmin (_admin : address) : M unit :=
  onlyOwner msg_sender ;;
  s <- get ;;
  require (negb (isAdminb s _admin)) "Already an admin" ;;
  require (negb (_admin =? 0)) "Invalid address" ;;
  modify (fun s => set_admins (isAdmin s ∪ {[_admin]}) (adminList s ++ [_admin]) s) ;;
  emit (AdminAdded _admin).

Definition removeAdmin (_admin : address) : M unit :=
  onlyOwner msg_sender ;;
  s <- get ;;
  require (isAdminb s _admin) "Not an admin" ;;
  require (1 <? N.of_nat (length (adminList s))) "Cannot remove last admin" ;;
  modify (fun s => set_admins (isAdmin s ∖ {[_admin]})
                     (removeAdmin_loop (length (adminList s)) 0 _admin (adminList s)) s) ;;
  emit (AdminRemoved _admin).

(** [_pause] and [_unpause] are Pausable's, behind its own gates; only the
    events the contract itself emits are logged. *)
Definition pause : M unit :=
  onlyOwner msg_sender ;;
  whenNotPaused ;;
  modify (set_paused true) ;;
  emit (ContractPaused msg_sender).

Definition unpause : M unit :=
  onlyOwner msg_sender ;;
  whenPaused ;;
  modify (set_paused false) ;;
  emit (ContractUnpaused msg_sender).

(** The validation loop of [createProject]. *)
Fixpoint sumMilestoneAmounts (amounts deadlines : list uint256)
    (totalAmount : uint256) : M uint256 :=
  match amounts, deadlines with
  | a :: amounts', d :: deadlines' =>
      require (0 <? a) "Milestone amount must be > 0" ;;
      require (block_timestamp <? d) "Deadline must be in future" ;;
      totalAmount' <- checked_add totalAmount a ;;
      sumMilestoneAmounts amounts' deadlines' totalAmount'
  | _, _ => ret totalAmount
  end.

Definition createProject (_title _descriptionHash : string)
    (_milestoneDescriptions : list string)
    (_milestoneAmounts _milestoneDeadlines : list uint256)
    (msg_value : uint256) : M uint256 :=
  modify (fun s => set_balance (balance s + msg_value) s) ;;
  whenNotPaused ;;
  require (0 <? N.of_nat (length _milestoneDescriptions))
    "At least one milestone required" ;;
  require ((N.of_nat (length _milestoneDescriptions) =? N.of_nat (length _milestoneAmounts))
           && (N.of_nat (length _milestoneAmounts) =? N.of_nat (length _milestoneDeadlines)))
    "Milestone arrays must be same length" ;;
  totalAmount <- sumMilestoneAmounts _milestoneAmounts _milestoneDeadlines 0 ;;
  require (totalAmount <=? msg_value) "Insufficient funds deposited" ;;
  s <- get ;;
  let projectId := projectCounter s in
  next <- checked_add projectId 1 ;;
  modify (set_projectCounter next) ;;
  modify (updProject projectId (fun p =>
    mkProject projectId msg_sender (p_freelancer p) _title _descriptionHash
      totalAmount ProjectStatus.CREATED block_timestamp (p_acceptedAt p) true)) ;;
  modify (fun s => set_milestones projectId
    (getMilestones s projectId
       ++ newMilestones _milestoneDescriptions _milestoneAmounts _milestoneDeadlines) s) ;;
  modify (pushUserProject msg_sender projectId) ;;
  (if totalAmount <? msg_value then
     d <- checked_sub msg_value totalAmount ;; transfer msg_sender d
   else ret tt) ;;
  emit (ProjectCreated projectId msg_sender totalAmount) ;;
  emit (FundsDeposited projectId totalAmount) ;;
  ret projectId.

Definition acceptProject (_projectId : uint256) : M unit :=
  projectExists _projectId ;;
  whenNotPaused ;;
  s <- get ;;
  let project := getProject s _projectId in
  require (ProjectStatus.eqb (p_status project) ProjectStatus.CREATED)
    "Project not available" ;;
  require (p_freelancer project =? 0) "Project already accepted" ;;
  require (negb (msg_sender =? p_client project))
    "Client cannot accept own project" ;;
  modify (updProject _projectId (fun p =>
    mkProject (p_id p) (p_client p) msg_sender (p_title p) (p_descriptionHash p)
      (p_totalAmount p) ProjectStatus.ACTIVE (p_createdAt p) block_timestamp
      (p_fundsDeposited p))) ;;
  modify (pushUserProject msg_sender _projectId) ;;
  emit (ProjectAccepted _projectId msg_sender).

Definition submitMilestone (_projectId _milestoneId : uint256)
    (_deliverableHash : string) : M unit :=
  projectExists _projectId ;;
  onlyFreelancer _projectId ;;
  whenNotPaused ;;
  s <- get ;;
  require (ProjectStatus.eqb (p_status (getProject s _projectId)) ProjectStatus.ACTIVE)
    "Project not active" ;;
  require (_milestoneId <? N.of_nat (length (getMilestones s _projectId)))
    "Invalid milestone" ;;
  milestone <- milestoneAt _projectId _milestoneId ;;
  require (MilestoneStatus.eqb (m_status milestone) MilestoneStatus.PENDING)
    "Milestone not pending" ;;
  require (0 <? N.of_nat (String.length _deliverableHash))
    "Deliverable hash required" ;;
  modify (updMilestone _projectId _milestoneId
            (m_set_submission _deliverableHash block_timestamp)) ;;
  emit (MilestoneSubmitted _projectId _milestoneId _deliverableHash).

Definition _releaseMilestonePayment (_projectId _milestoneId : uint256) : M unit :=
  modify (updMilestone _projectId _milestoneId
            (m_set_status MilestoneStatus.APPROVED)) ;;
  milestone <- milestoneAt _projectId _milestoneId ;;
  s <- get ;;
  product <- checked_mul (m_amount milestone) (platformFeePercent s) ;;
  platformFee <- checked_div product 100 ;;
  freelancerAmount <- checked_sub (m_amount milestone) platformFee ;;
  transfer (p_freelancer (getProject s _projectId)) freelancerAmount ;;
  transfer (owner s) platformFee ;;
  emit (MilestoneApproved _projectId _milestoneId) ;;
  emit (PaymentReleased _projectId _milestoneId freelancerAmount) ;;
  s <- get ;;
  if allMilestonesApproved s _projectId then
    modify (updProject _projectId (p_set_status ProjectStatus.COMPLETED))
  else ret tt.

Definition approveMilestone (_projectId _milestoneId : uint256) : M unit :=
  projectExists _projectId ;;
  onlyClient _projectId ;;
  nonReentrant (
    whenNotPaused ;;
    s <- get ;;
    require (ProjectStatus.eqb (p_status (getProject s _projectId)) ProjectStatus.ACTIVE)
      "Project not active" ;;
    require (_milestoneId <? N.of_nat (length (getMilestones s _projectId)))
      "Invalid milestone" ;;
    milestone <- milestoneAt _projectId _milestoneId ;;
    require (MilestoneStatus.eqb (m_status milestone) MilestoneStatus.SUBMITTED)
      "Milestone not submitted" ;;
    _releaseMilestonePayment _projectId _milestoneId).

Definition autoApproveMilestone (_projectId _milestoneId : uint256) : M unit :=
  projectExists _projectId ;;
  nonReentrant (
    whenNotPaused ;;
    s <- get ;;
    require (ProjectStatus.eqb (p_status (getProject s _projectId)) ProjectStatus.ACTIVE)
      "Project not active" ;;
    require (_milestoneId <? N.of_nat (length (getMilestones s _projectId)))
      "Invalid milestone" ;;
    milestone <- milestoneAt _projectId _milestoneId ;;
    require (MilestoneStatus.eqb (m_status milestone) MilestoneStatus.SUBMITTED)
      "Milestone not submitted" ;;
    due <- checked_add (m_submittedAt milestone) AUTO_APPROVE_TIMEOUT ;;
    require (due <=? block_timestamp) "Auto-approval timeout not reached" ;;
    emit (MilestoneAutoApproved _projectId _milestoneId) ;;
    _releaseMilestonePayment _projectId _milestoneId).

Definition raiseDispute (_projectId _milestoneId : uint256) (_reason : string)
    : M uint256 :=
  projectExists _projectId ;;
  onlyParticipant _projectId ;;
  whenNotPaused ;;
  s <- get ;;
  require (ProjectStatus.eqb (p_status (getProject s _projectId)) ProjectStatus.ACTIVE)
    "Project not active" ;;
  require (_milestoneId <? N.of_nat (length (getMilestones s _projectId)))
    "Invalid milestone" ;;
  milestone <- milestoneAt _projectId _milestoneId ;;
  require (MilestoneStatus.eqb (m_status milestone) MilestoneStatus.SUBMITTED)
    "Can only dispute submitted milestones" ;;
  limit <- checked_add (m_submittedAt milestone) DISPUTE_TIMEOUT ;;
  require (block_timestamp <=? limit) "Dispute period expired" ;;
  let disputeId := disputeCounter s in
  next <- checked_add disputeId 1 ;;
  modify (set_disputeCounter next) ;;
  modify (updDispute disputeId (fun d =>
    mkDispute _projectId _milestoneId msg_sender _reason false block_timestamp
      (d_hasVoted d) (d_votes d) 0)) ;;
  modify (updProject _projectId (p_set_status ProjectStatus.DISPUTED)) ;;
  modify (updMilestone _projectId _milestoneId
            (m_set_status MilestoneStatus.DISPUTED)) ;;
  emit (DisputeRaised disputeId _projectId msg_sender) ;;
  ret disputeId.

Definition _executeDisputeResolution (_disputeId : uint256) : M unit :=
  nonReentrant (
    s <- get ;;
    let dispute := getDispute s _disputeId in
    require (negb (d_isResolved dispute)) "Already resolved" ;;
    tally <- tallyVotes (adminList s) dispute 0 0 ;;
    avgPercentage <- checked_div (fst tally) (snd tally) ;;
    let projectId := d_projectId dispute in
    let milestoneId := d_milestoneId dispute in
    milestone <- milestoneAt projectId milestoneId ;;
    product <- checked_mul (m_amount milestone) avgPercentage ;;
    freelancerAmount <- checked_div product 100 ;;
    clientAmount <- checked_sub (m_amount milestone) freelancerAmount ;;
    (if 0 <? freelancerAmount
     then transfer (p_freelancer (getProject s projectId)) freelancerAmount
     else ret tt) ;;
    (if 0 <? clientAmount
     then transfer (p_client (getProject s projectId)) clientAmount
     else ret tt) ;;
    modify (updDispute _disputeId d_set_resolved) ;;
    modify (updMilestone projectId milestoneId
              (m_set_status MilestoneStatus.APPROVED)) ;;
    modify (updProject projectId (p_set_status ProjectStatus.ACTIVE)) ;;
    emit (DisputeResolved _disputeId avgPercentage)).

Definition voteOnDispute (_disputeId _percentageToFreelancer : uint256) : M unit :=
  onlyAdmin ;;
  whenNotPaused ;;
  s <- get ;;
  require (_disputeId <? disputeCounter s) "Dispute does not exist" ;;
  let dispute := getDispute s _disputeId in
  require (negb (d_isResolved dispute)) "Dispute already resolved" ;;
  require (_percentageToFreelancer <=? 100) "Invalid percentage" ;;
  require (negb (hasVoted dispute msg_sender)) "Already voted" ;;
  voteCount <- checked_add (d_voteCount dispute) 1 ;;
  modify (updDispute _disputeId (voted msg_sender _percentageToFreelancer)) ;;
  emit (DisputeVoted _disputeId msg_sender _percentageToFreelancer) ;;
  if REQUIRED_ADMIN_VOTES <=? voteCount
  then _executeDisputeResolution _disputeId
  else ret tt.

Definition rateUser (_user : address) (_rating : uint256) : M unit :=
  whenNotPaused ;;
  require ((1 <=? _rating) && (_rating <=? 5)) "Rating must be between 1 and 5" ;;
  s <- get ;;
  total <- checked_add (default 0 (userRatings s !! _user)) _rating ;;
  count <- checked_add (default 0 (userRatingCount s !! _user)) 1 ;;
  modify (set_rating _user total count) ;;
  emit (UserRated _user _rating).

Definition cancelProject (_projectId : uint256) : M unit :=
  projectExists _projectId ;;
  onlyClient _projectId ;;
  nonReentrant (
    whenNotPaused ;;
    s <- get ;;
    let project := getProject s _projectId in
    require (ProjectStatus.eqb (p_status project) ProjectStatus.CREATED)
      "Can only cancel created projects" ;;
    require (p_freelancer project =? 0) "Cannot cancel accepted project" ;;
    modify (updProject _projectId (p_set_status ProjectStatus.CANCELLED)) ;;
    transfer (p_client project) (p_totalAmount project)).

Definition setPlatformFee (_feePercent : uint256) : M unit :=
  onlyOwner msg_sender ;;
  require (_feePercent <=? 10) "Fee cannot exceed 10%" ;;
  modify (set_platformFeePercent _feePercent).

End Calls.

(** ** Transactions *)

Inductive Call :=
| AddAdmin (_admin : address)
| RemoveAdmin (_admin : address)
| Pause
| Unpause
| CreateProject (_title _descriptionHash : string)
    (_milestoneDescriptions : list string)
    (_milestoneAmounts _milestoneDeadlines : list uint256) (msg_value : uint256)
| AcceptProject (_projectId : uint256)
| SubmitMilestone (_projectId _milestoneId : uint256) (_deliverableHash : string)
| ApproveMilestone (_projectId _milestoneId : uint256)
| AutoApproveMilestone (_projectId _milestoneId : uint256)
| RaiseDispute (_projectId _milestoneId : uint256) (_reason : string)
| VoteOnDispute (_disputeId _percentageToFreelancer : uint256)
| RateUser (_user : address) (_rating : uint256)
| CancelProject (_projectId : uint256)
| SetPlatformFee (_feePercent : uint256).

Definition void {A} (m : M A) : M unit := _ <- m ;; ret tt.

Definition dispatch (msg_sender : address) (block_timestamp : uint256)
    (c : Call) : M unit :=
  match c with
  | AddAdmin a => addAdmin msg_sender a
  | RemoveAdmin a => removeAdmin msg_sender a
  | Pause => pause msg_sender
  | Unpause => unpause msg_sender
  | CreateProject t h ds am dl v =>
      void (createProject msg_sender block_timestamp t h ds am dl v)
  | AcceptProject p => acceptProject msg_sender block_timestamp p
  | SubmitMilestone p m h => submitMilestone msg_sender block_timestamp p m h
  | ApproveMilestone p m => approveMilestone msg_sender p m
  | AutoApproveMilestone p m => autoApproveMilestone block_timestamp p m
  | RaiseDispute p m r => void (raiseDispute msg_sender block_timestamp p m r)
  | VoteOnDispute d pct => voteOnDispute msg_sender d pct
  | RateUser u r => rateUser u r
  | CancelProject p => cancelProject msg_sender p
  | SetPlatformFee f => setPlatformFee msg_sender f
  end.

(** A transaction either commits the storage its call produced or, when the
    call aborts, leaves the storage as it was. *)
Definition exec (msg_sender : address) (block_timestamp : uint256) (c : Call)
    (s : Storage) : Storage :=
  match dispatch msg_sender block_timestamp c s with
  | Ok (_, s', _) => s'
  | Revert _ => s
  end.

Definition transfers (l : list Event) : list (address * uint256) :=
  omap (fun e => match e with
                 | Transfer r a _ => Some (r, a)
                 | _ => None
                 end) l.

Definition snapshots (l : list Event) : list Storage :=
  omap (fun e => match e with
                 | Transfer _ _ seen => Some seen
                 | _ => None
                 end) l.

(** States reachable from a deployment by [deployer] through transactions.
    Callers, times and arguments range over all of [N], and between two
    transactions any account may start or stop refusing transfers, so the
    set contains every state the deployed contract can reach. *)
Inductive reachable (deployer : address) : Storage → Prop :=
| reach_init : reachable deployer (constructor deployer)
| reach_step s msg_sender block_timestamp c :
    reachable deployer s →
    reachable deployer (exec msg_sender block_timestamp c s)
| reach_world s w :
    reachable deployer s →
    reachable deployer (set_refusing w s).

(** ** Error taxonomy *)

Inductive ErrorKind :=
| ValidationError | AuthorizationError | StateError | TimeoutError
| UnavailableError.

(** Modelled from the spec: the taxonomy of section 7 applied to the revert
    messages of the contract (the contract itself only carries the
    messages).  Arithmetic panics, failed transfers and the re-entrancy
    rejection are outside the taxonomy. *)
Definition error_table : list (string * ErrorKind) :=
  [ ("At least one milestone required", ValidationError);
    ("Milestone arrays must be same length", ValidationError);
    ("Milestone amount must be > 0", ValidationError);
    ("Deadline must be in future", ValidationError);
    ("Insufficient funds deposited", ValidationError);
    ("Deliverable hash required", ValidationError);
    ("Rating must be between 1 and 5", ValidationError);
    ("Fee cannot exceed 10%", ValidationError);
    ("Invalid percentage", ValidationError);
    ("Invalid address", ValidationError);
    ("Invalid milestone", ValidationError);
    ("Only client can call this", AuthorizationError);
    ("Only freelancer can call this", AuthorizationError);
    ("Only project participants can call this", AuthorizationError);
    ("Only admin can call this", AuthorizationError);
    ("Ownable: caller is not the owner", AuthorizationError);
    ("Client cannot accept own project", AuthorizationError);
    ("Project not available", StateError);
    ("Project already accepted", StateError);
    ("Project not active", StateError);
    ("Milestone not pending", StateError);
    ("Milestone not submitted", StateError);
    ("Can only dispute submitted milestones", StateError);
    ("Dispute already resolved", StateError);
    ("Already resolved", StateError);
    ("Already voted", StateError);
    ("Can only cancel created projects", StateError);
    ("Cannot cancel accepted project", StateError);
    ("Already an admin", StateError);
    ("Not an admin", StateError);
    ("Cannot remove last admin", StateError);
    ("Dispute period expired", TimeoutError);
    ("Auto-approval timeout not reached", TimeoutError);
    ("Pausable: paused", UnavailableError) ].

Definition error_kind (msg : string) : option ErrorKind :=
  snd <$> find (fun p => String.eqb (fst p) msg) error_table.

Definition fails_with {A} (r : Result A) (k : ErrorKind) : Prop :=
  ∃ msg, r = Revert msg ∧ error_kind msg = Some k.

(** ** Derived notions used in the statements *)

Definition milestoneOf (s : Storage) (_projectId _milestoneId : uint256)
    : option Milestone :=
  getMilestones s _projectId !! N.to_nat _milestoneId.

(** The edges of the milestone status machine. *)
Definition status_step (a b : MilestoneStatus.t) : bool :=
  match a, b with
  | MilestoneStatus.PENDING, MilestoneStatus.SUBMITTED
  | MilestoneStatus.SUBMITTED, MilestoneStatus.APPROVED
  | MilestoneStatus.SUBMITTED, MilestoneStatus.DISPUTED
  | MilestoneStatus.DISPUTED, MilestoneStatus.APPROVED => true
  | _, _ => false
  end.

(** One transaction's effect on the milestones: a milestone that exists
    keeps its slot and its status stays or moves along one edge; a
    milestone that appears is PENDING. *)
Definition evolves (s s' : Storage) : Prop :=
  ∀ pid mid,
    match milestoneOf s pid mid with
    | Some m =>
        ∃ m', milestoneOf s' pid mid = Some m'
              ∧ (m_status m' = m_status m
                 ∨ status_step (m_status m) (m_status m') = true)
    | None =>
        ∀ m', milestoneOf s' pid mid = Some m' →
              m_status m' = MilestoneStatus.PENDING
    end.

(** When the fee arithmetic of a release is in order and the contract holds
    the amount to pay. *)
Definition release_ok (m : Milestone) (s : Storage) : bool :=
  (m_amount m * platformFeePercent s <=? MAX_UINT256)
  && (m_amount m * platformFeePercent s / 100 <=? m_amount m)
  && (m_amount m <=? balance s).

(** Storage and log that [_releaseMilestonePayment] leaves behind. *)
Definition released (pid mid : uint256) (m : Milestone) (s : Storage)
    : Storage * list Event :=
  let fee := m_amount m * platformFeePercent s / 100 in
  let payee := m_amount m - fee in
  let s1 := updMilestone pid mid (m_set_status MilestoneStatus.APPROVED) s in
  let s2 := set_balance (balance s - payee) s1 in
  let s3 := set_balance (balance s - payee - fee) s2 in
  (if allMilestonesApproved s3 pid
   then updProject pid (p_set_status ProjectStatus.COMPLETED) s3 else s3,
   [Transfer (p_freelancer (getProject s pid)) payee s2;
    Transfer (owner s) fee s3;
    MilestoneApproved pid mid; PaymentReleased pid mid payee]).

(** Storage and log that [_executeDisputeResolution] leaves behind when the
    average of the votes is [avg]. *)
Definition resolved (did : uint256) (m : Milestone) (avg : uint256)
    (s : Storage) : Storage * list Event :=
  let d := getDispute s did in
  let pid := d_projectId d in
  let mid := d_milestoneId d in
  let freelancerAmount := m_amount m * avg / 100 in
  let clientAmount := m_amount m - freelancerAmount in
  let s0 := set_locked true s in
  let s1 := if 0 <? freelancerAmount
            then set_balance (balance s0 - freelancerAmount) s0 else s0 in
  let s2 := if 0 <? clientAmount
            then set_balance (balance s1 - clientAmount) s1 else s1 in
  (set_locked false
     (updProject pid (p_set_status ProjectStatus.ACTIVE)
        (updMilestone pid mid (m_set_status MilestoneStatus.APPROVED)
           (updDispute did d_set_resolved s2))),
   (if 0 <? freelancerAmount
    then [Transfer (p_freelancer (getProject s pid)) freelancerAmount s1]
    else [])
   ++ (if 0 <? clientAmount
       then [Transfer (p_client (getProject s pid)) clientAmount s2]
       else [])
   ++ [DisputeResolved did avg]).

(** The admins of the roster, in roster order, whose vote is recorded. *)
Definition voters (s : Storage) (d : Dispute) : list address :=
  List.filter (hasVoted d) (adminList s).

Definition avg_vote (s : Storage) (d : Dispute) : N :=
  foldr (fun a acc => getVote d a + acc) 0 (voters s d)
  / N.of_nat (length (voters s d)).

Definition sum_votes (d : Dispute) (l : list address) : N :=
  foldr (fun a acc => getVote d a + acc) 0 l.

(** Sum of a list of amounts. *)
Definition sumN (l : list N) : N := foldr N.add 0 l.

(** Transfers of non-zero amounts only, as [_executeDisputeResolution]
    issues them. *)
Definition nonzero (l : list (address * uint256)) : list (address * uint256) :=
  List.filter (fun p => 0 <? snd p) l.

Arguments released : simpl never.

(** Invariant of the reachable states: slots beyond the project counter
    are untouched; every unresolved dispute points at a DISPUTED milestone
    and no two of them at the same one; the roster is non-empty, without
    repetition, and lists exactly the flagged admins. *)
Record Core (s : Storage) : Prop := mkCore {
  inv_fresh : ∀ pid, projectCounter s ≤ pid →
      projects s !! pid = None ∧ projectMilestones s !! pid = None;
  inv_dispute : ∀ did, did < disputeCounter s →
      d_isResolved (getDispute s did) = false →
      ∃ m, milestoneOf s (d_projectId (getDispute s did))
                         (d_milestoneId (getDispute s did)) = Some m
           ∧ m_status m = MilestoneStatus.DISPUTED;
  inv_dispute_inj : ∀ d1 d2, d1 < disputeCounter s → d2 < disputeCounter s →
      d_isResolved (getDispute s d1) = false →
      d_isResolved (getDispute s d2) = false →
      d_projectId (getDispute s d1) = d_projectId (getDispute s d2) →
      d_milestoneId (getDispute s d1) = d_milestoneId (getDispute s d2) →
      d1 = d2;
  inv_admin_nonempty : adminList s ≠ [];
  inv_admin_nodup : NoDup (adminList s);
  inv_admin_member : ∀ a, a ∈ isAdmin s ↔ a ∈ adminList s
}.

(** Between transactions the re-entrancy lock is free as well. *)
Definition Inv (s : Storage) : Prop := locked s = false ∧ Core s.

(** The calls that move escrowed value out of the contract. *)
Definition pays_out (c : Call) : bool :=
  match c with
  | ApproveMilestone _ _ | AutoApproveMilestone _ _ | VoteOnDispute _ _
  | CancelProject _ => true
  | _ => false
  end.

(** The functions gated by [whenNotPaused]. *)
Definition pause_gated (c : Call) : bool :=
  match c with
  | AddAdmin _ | RemoveAdmin _ | Pause | Unpause | SetPlatformFee _ => false
  | _ => true
  end.

(** The modifiers a function lists before [whenNotPaused]. *)
Definition guards_before_pause (msg_sender : address) (c : Call) (s : Storage)
    : bool :=
  match c with
  | AcceptProject p => p <? projectCounter s
  | SubmitMilestone p _ _ =>
      (p <? projectCounter s) && (msg_sender =? p_freelancer (getProject s p))
  | ApproveMilestone p _ | CancelProject p =>
      (p <? projectCounter s) && (msg_sender =? p_client (getProject s p))
      && negb (locked s)
  | AutoApproveMilestone p _ => (p <? projectCounter s) && negb (locked s)
  | RaiseDispute p _ _ =>
      (p <? projectCounter s)
      && ((msg_sender =? p_client (getProject s p))
          || (msg_sender =? p_freelancer (getProject s p)))
  | VoteOnDispute _ _ => isAdminb s msg_sender || (msg_sender =? owner s)
  | _ => true
  end.

(** A run is a list of transactions: caller, time and call. *)
Definition exec_run (run : list (address * uint256 * Call)) (s : Storage)
    : Storage :=
  foldl (fun s t => exec (fst (fst t)) (snd (fst t)) (snd t) s) s run.

(** A status reachable from another along the edges of the machine. *)
Definition status_path : relation MilestoneStatus.t :=
  rtc (fun a b => status_step a b = true).

(** ** Sample runs *)

Module Sample.

Definition deployer : address := 1.
Definition client : address := 10.
Definition freelancer : address := 20.
Definition admin2 : address := 2.
Definition admin3 : address := 3.

(** One milestone of 1000, accepted and submitted at time 1002. *)
Definition submitted : Storage :=
  exec freelancer 1002 (SubmitMilestone 0 0 "QmHash123")
    (exec freelancer 1001 (AcceptProject 0)
       (exec client 1000
          (CreateProject "Test Project" "hash" ["Milestone 1"] [1000] [700000] 1000)
          (exec deployer 2 (AddAdmin admin3)
             (exec deployer 1 (AddAdmin admin2) (constructor deployer))))).

(** The client disputes it and the deployer votes 60. *)
Definition one_vote : Storage :=
  exec deployer 1004 (VoteOnDispute 0 60)
    (exec client 1003 (RaiseDispute 0 0 "Work incomplete") submitted).

(** Both votes are in and the dispute is resolved. *)
Definition resolved : Storage := exec admin2 1005 (VoteOnDispute 0 40) one_vote.

(** The approved milestone after a manual approval. *)
Definition approved : Storage := exec client 1003 (ApproveMilestone 0 0) submitted.

(** What the freelancer is handed with the payment of that approval. *)
Definition approval_seen : Storage :=
  set_balance 20
    (updMilestone 0 0 (m_set_status MilestoneStatus.APPROVED)
       (set_locked true submitted)).

(** A paused contract. *)
Definition halted : Storage := exec deployer 1 Pause (constructor deployer).

(** The contract paused while the sample milestone awaits approval. *)
Definition halted_submitted : Storage := exec deployer 2000 Pause submitted.

(** The deployer adds a second admin and then leaves the roster. *)
Definition deployer_left : Storage :=
  exec deployer 2 (RemoveAdmin deployer)
    (exec deployer 1 (AddAdmin admin2) (constructor deployer)).

(** The sample milestone awaits approval and the freelancer has become an
    account that refuses transfers. *)
Definition unpayable : Storage := set_refusing {[freelancer]} submitted.

(** Two ratings, 5 and 4, for the freelancer. *)
Definition rated : Storage :=
  exec client 11 (RateUser freelancer 4)
    (exec client 10 (RateUser freelancer 5) (constructor deployer)).

End Sample.

(** ** Further views *)

Definition getProjectMilestones (s : Storage) (_projectId : uint256)
    : Result (list Milestone) :=
  if _projectId <? projectCounter s then Ok (getMilestones s _projectId)
  else Revert "Project does not exist".

Definition getUserProjects (s : Storage) (_user : address) : list uint256 :=
  default [] (userProjects s !! _user).

(** The first loop of [getDisputeVotes]: the admins that voted are written,
    in roster order, to the front of the two scratch arrays.  The array
    writes are bounds-checked and [count++] is checked. *)
Fixpoint collectVotes (admins : list address) (dispute : Dispute)
    (tempVoters : list address) (tempPercentages : list uint256)
    (count : uint256)
    : Result (list address * list uint256 * uint256) :=
  match admins with
  | [] => Ok (tempVoters, tempPercentages, count)
  | admin :: rest =>
      if hasVoted dispute admin then
        if count <? N.of_nat (length tempVoters) then
          if count <? N.of_nat (length tempPercentages) then
            if count + 1 <=? MAX_UINT256 then
              collectVotes rest dispute
                (<[N.to_nat count := admin]> tempVoters)
                (<[N.to_nat count := getVote dispute admin]> tempPercentages)
                (count + 1)
            else Revert "Panic(0x11)"
          else Revert "Panic(0x32)"
        else Revert "Panic(0x32)"
      else collectVotes rest dispute tempVoters tempPercentages count
  end.

(** The second loop of [getDisputeVotes]: slots [i .. i + n) of the scratch
    arrays are copied to the result arrays. *)
Fixpoint copyVotes (n i : nat) (tempVoters : list address)
    (tempPercentages : list uint256) (voters : list address)
    (percentages : list uint256)
    : Result (list address * list uint256) :=
  match n with
  | O => Ok (voters, percentages)
  | S n' =>
      match tempVoters !! i, tempPercentages !! i with
      | Some v, Some p =>
          if (i <? length voters)%nat && (i <? length percentages)%nat then
            copyVotes n' (S i) tempVoters tempPercentages
              (<[i := v]> voters) (<[i := p]> percentages)
          else Revert "Panic(0x32)"
      | _, _ => Revert "Panic(0x32)"
      end
  end.

Definition getDisputeVotes (s : Storage) (_disputeId : uint256)
    : Result (uint256 * bool * list address * list uint256) :=
  if _disputeId <? disputeCounter s then
    let dispute := getDispute s _disputeId in
    let n := length (adminList s) in
    match collectVotes (adminList s) dispute (replicate n 0) (replicate n 0) 0
    with
    | Ok (tempVoters, tempPercentages, count) =>
        match copyVotes (N.to_nat count) 0 tempVoters tempPercentages
                (replicate (N.to_nat count) 0) (replicate (N.to_nat count) 0)
        with
        | Ok (voters, percentages) =>
            Ok (d_voteCount dispute, d_isResolved dispute, voters, percentages)
        | Revert e => Revert e
        end
    | Revert e => Revert e
    end
  else Revert "Dispute does not exist".

(** ** Notions used in the further statements *)

(** The edges of the project status machine. *)
Definition project_step (a b : ProjectStatus.t) : bool :=
  match a, b with
  | ProjectStatus.CREATED, ProjectStatus.ACTIVE
  | ProjectStatus.CREATED, ProjectStatus.CANCELLED
  | ProjectStatus.ACTIVE, ProjectStatus.COMPLETED
  | ProjectStatus.ACTIVE, ProjectStatus.DISPUTED
  | ProjectStatus.DISPUTED, ProjectStatus.ACTIVE => true
  | _, _ => false
  end.

Definition project_path : relation ProjectStatus.t :=
  rtc (fun a b => project_step a b = true).

(** Amounts of the milestones of a list that are not APPROVED. *)
Definition held (ms : list Milestone) : N :=
  sumN (map (fun m =>
               if MilestoneStatus.eqb (m_status m) MilestoneStatus.APPROVED
               then 0 else m_amount m) ms).

(** What the contract owes on a project: nothing once it is CANCELLED,
    otherwise the amounts of its milestones not yet APPROVED. *)
Definition project_escrow (s : Storage) (pid : N) : N :=
  if ProjectStatus.eqb (p_status (getProject s pid)) ProjectStatus.CANCELLED
  then 0 else held (getMilestones s pid).

Definition project_ids (s : Storage) : list N :=
  map N.of_nat (seq 0 (N.to_nat (projectCounter s))).

Definition escrowed (s : Storage) : N :=
  sumN (map (project_escrow s) (project_ids s)).

(** The storage after the steps of a successful call, the lock apart. *)
Definition accepted_state (msg_sender block_timestamp pid : N) (s : Storage)
    : Storage :=
  pushUserProject msg_sender pid
    (updProject pid (fun p =>
       mkProject (p_id p) (p_client p) msg_sender (p_title p)
         (p_descriptionHash p) (p_totalAmount p) ProjectStatus.ACTIVE
         (p_createdAt p) block_timestamp (p_fundsDeposited p)) s).

Definition created_state (msg_sender block_timestamp : N)
    (title hash : string) (descs : list string) (amounts deadlines : list N)
    (s : Storage) : Storage :=
  set_balance (balance s + sumN amounts)
    (pushUserProject msg_sender (projectCounter s)
       (set_milestones (projectCounter s)
          (getMilestones s (projectCounter s)
             ++ newMilestones descs amounts deadlines)
          (updProject (projectCounter s) (fun p =>
             mkProject (projectCounter s) msg_sender (p_freelancer p) title
               hash (sumN amounts) ProjectStatus.CREATED block_timestamp
               (p_acceptedAt p) true)
             (set_projectCounter (projectCounter s + 1) s)))).

Definition approved_state (pid mid : N) (m : Milestone) (s : Storage)
    : Storage :=
  let s1 := updMilestone pid mid (m_set_status MilestoneStatus.APPROVED) s in
  let s2 := set_balance (balance s - m_amount m) s1 in
  if allMilestonesApproved s1 pid
  then updProject pid (p_set_status ProjectStatus.COMPLETED) s2 else s2.

Definition raised_state (msg_sender block_timestamp pid mid : N)
    (reason : string) (s : Storage) : Storage :=
  updMilestone pid mid (m_set_status MilestoneStatus.DISPUTED)
    (updProject pid (p_set_status ProjectStatus.DISPUTED)
       (updDispute (disputeCounter s)
          (fun d => mkDispute pid mid msg_sender reason false block_timestamp
                      (d_hasVoted d) (d_votes d) 0)
          (set_disputeCounter (disputeCounter s + 1) s))).

Definition resolved_state (did : N) (m : Milestone) (s : Storage) : Storage :=
  let d := getDispute s did in
  set_balance (balance s - m_amount m)
    (updProject (d_projectId d) (p_set_status ProjectStatus.ACTIVE)
       (updMilestone (d_projectId d) (d_milestoneId d)
          (m_set_status MilestoneStatus.APPROVED)
          (updDispute did d_set_resolved s))).

Definition cancelled_state (pid : N) (s : Storage) : Storage :=
  set_balance (balance s - p_totalAmount (getProject s pid))
    (updProject pid (p_set_status ProjectStatus.CANCELLED) s).

(** What a successful transaction has checked and what it leaves behind,
    on a storage whose lock is free. *)
Definition effect (msg_sender block_timestamp : N) (c : Call)
    (s s' : Storage) : Prop :=
  match c with
  | AddAdmin a =>
      msg_sender = owner s ∧ (a ∉ isAdmin s) ∧ a ≠ 0
      ∧ s' = set_admins (isAdmin s ∪ {[a]}) (adminList s ++ [a]) s
  | RemoveAdmin a =>
      msg_sender = owner s ∧ a ∈ isAdmin s ∧ (1 < length (adminList s))%nat
      ∧ s' = set_admins (isAdmin s ∖ {[a]})
               (removeAdmin_loop (length (adminList s)) 0 a (adminList s)) s
  | Pause =>
      msg_sender = owner s ∧ paused s = false ∧ s' = set_paused true s
  | Unpause =>
      msg_sender = owner s ∧ paused s = true ∧ s' = set_paused false s
  | CreateProject title hash descs amounts deadlines msg_value =>
      paused s = false ∧ descs ≠ []
      ∧ length descs = length amounts ∧ length amounts = length deadlines
      ∧ Forall (fun a => 0 < a) amounts
      ∧ Forall (fun d => block_timestamp < d) deadlines
      ∧ sumN amounts ≤ msg_value ∧ sumN amounts ≤ MAX_UINT256
      ∧ s' = created_state msg_sender block_timestamp title hash descs
               amounts deadlines s
  | AcceptProject pid =>
      pid < projectCounter s ∧ paused s = false
      ∧ p_status (getProject s pid) = ProjectStatus.CREATED
      ∧ p_freelancer (getProject s pid) = 0
      ∧ msg_sender ≠ p_client (getProject s pid)
      ∧ s' = accepted_state msg_sender block_timestamp pid s
  | SubmitMilestone pid mid hash =>
      ∃ m, milestoneOf s pid mid = Some m
        ∧ pid < projectCounter s
        ∧ msg_sender = p_freelancer (getProject s pid)
        ∧ paused s = false
        ∧ p_status (getProject s pid) = ProjectStatus.ACTIVE
        ∧ m_status m = MilestoneStatus.PENDING
        ∧ hash ≠ EmptyString
        ∧ s' = updMilestone pid mid (m_set_submission hash block_timestamp) s
  | ApproveMilestone pid mid =>
      ∃ m, milestoneOf s pid mid = Some m
        ∧ pid < projectCounter s
        ∧ msg_sender = p_client (getProject s pid)
        ∧ paused s = false
        ∧ p_status (getProject s pid) = ProjectStatus.ACTIVE
        ∧ m_status m = MilestoneStatus.SUBMITTED
        ∧ release_ok m s = true
        ∧ s' = approved_state pid mid m s
  | AutoApproveMilestone pid mid =>
      ∃ m, milestoneOf s pid mid = Some m
        ∧ pid < projectCounter s
        ∧ paused s = false
        ∧ p_status (getProject s pid) = ProjectStatus.ACTIVE
        ∧ m_status m = MilestoneStatus.SUBMITTED
        ∧ m_submittedAt m + AUTO_APPROVE_TIMEOUT ≤ block_timestamp
        ∧ release_ok m s = true
        ∧ s' = approved_state pid mid m s
  | RaiseDispute pid mid reason =>
      ∃ m, milestoneOf s pid mid = Some m
        ∧ pid < projectCounter s
        ∧ (msg_sender = p_client (getProject s pid)
           ∨ msg_sender = p_freelancer (getProject s pid))
        ∧ paused s = false
        ∧ p_status (getProject s pid) = ProjectStatus.ACTIVE
        ∧ m_status m = MilestoneStatus.SUBMITTED
        ∧ block_timestamp ≤ m_submittedAt m + DISPUTE_TIMEOUT
        ∧ s' = raised_state msg_sender block_timestamp pid mid reason s
  | VoteOnDispute did pct =>
      (msg_sender ∈ isAdmin s ∨ msg_sender = owner s)
      ∧ paused s = false
      ∧ did < disputeCounter s
      ∧ d_isResolved (getDispute s did) = false
      ∧ pct ≤ 100
      ∧ (msg_sender ∉ d_hasVoted (getDispute s did))
      ∧ if REQUIRED_ADMIN_VOTES <=? d_voteCount (getDispute s did) + 1
        then ∃ m,
               milestoneOf s (d_projectId (getDispute s did))
                 (d_milestoneId (getDispute s did)) = Some m
               ∧ m_amount m ≤ balance s
               ∧ s' = resolved_state did m
                        (updDispute did (voted msg_sender pct) s)
        else s' = updDispute did (voted msg_sender pct) s
  | RateUser user rating =>
      paused s = false ∧ 1 ≤ rating ∧ rating ≤ 5
      ∧ s' = set_rating user
               (default 0 (userRatings s !! user) + rating)
               (default 0 (userRatingCount s !! user) + 1) s
  | CancelProject pid =>
      pid < projectCounter s
      ∧ msg_sender = p_client (getProject s pid)
      ∧ paused s = false
      ∧ p_status (getProject s pid) = ProjectStatus.CREATED
      ∧ p_freelancer (getProject s pid) = 0
      ∧ p_totalAmount (getProject s pid) ≤ balance s
      ∧ s' = cancelled_state pid s
  | SetPlatformFee fee =>
      msg_sender = owner s ∧ fee ≤ 10 ∧ s' = set_platformFeePercent fee s
  end.


(** The rating points of a user lie between one and five times the number
    of ratings. *)
Definition rating_bounds (s : Storage) (u : address) : Prop :=
  default 0 (userRatingCount s !! u) ≤ default 0 (userRatings s !! u)
  ∧ default 0 (userRatings s !! u) ≤ 5 * default 0 (userRatingCount s !! u).

(** Invariant of the votes: dispute slots beyond the counter are untouched;
    every recorded vote is a percentage; the vote count is the number of
    addresses flagged as having voted; a dispute is resolved by the vote
    that reaches the quorum. *)
Record Votes (s : Storage) : Prop := mkVotes {
  votes_fresh : ∀ did, disputeCounter s ≤ did → disputes s !! did = None;
  votes_range : ∀ did a, getVote (getDispute s did) a ≤ 100;
  votes_count : ∀ did,
      d_voteCount (getDispute s did)
      = N.of_nat (size (d_hasVoted (getDispute s did)));
  votes_quorum : ∀ did, did < disputeCounter s →
      if d_isResolved (getDispute s did)
      then d_voteCount (getDispute s did) = REQUIRED_ADMIN_VOTES
      else d_voteCount (getDispute s did) < REQUIRED_ADMIN_VOTES
}.

(** Invariant of the disputes: a project is DISPUTED exactly while a dispute
    on it is unresolved, and there is one such dispute at most. *)
Record Disputed (s : Storage) : Prop := mkDisputed {
  dis_status : ∀ did, did < disputeCounter s →
      d_isResolved (getDispute s did) = false →
      p_status (getProject s (d_projectId (getDispute s did)))
      = ProjectStatus.DISPUTED;
  dis_single : ∀ d1 d2, d1 < disputeCounter s → d2 < disputeCounter s →
      d_isResolved (getDispute s d1) = false →
      d_isResolved (getDispute s d2) = false →
      d_projectId (getDispute s d1) = d_projectId (getDispute s d2) →
      d1 = d2;
  dis_open : ∀ pid,
      p_status (getProject s pid) = ProjectStatus.DISPUTED →
      ∃ did, did < disputeCounter s
             ∧ d_isResolved (getDispute s did) = false
             ∧ d_projectId (getDispute s did) = pid
}.

(** Invariant of the funds: a project not yet accepted has no freelancer and
    only PENDING milestones; the total of a project is the sum of its
    milestone amounts; a COMPLETED project has only APPROVED milestones; the
    balance is what the contract owes on its projects. *)
Record Funds (s : Storage) : Prop := mkFunds {
  fun_created : ∀ pid,
      p_status (getProject s pid) = ProjectStatus.CREATED →
      p_freelancer (getProject s pid) = 0
      ∧ Forall (fun m => m_status m = MilestoneStatus.PENDING)
          (getMilestones s pid);
  fun_total : ∀ pid,
      p_totalAmount (getProject s pid)
      = sumN (map m_amount (getMilestones s pid));
  fun_completed : ∀ pid,
      p_status (getProject s pid) = ProjectStatus.COMPLETED →
      allMilestonesApproved s pid = true;
  fun_balance : balance s = escrowed s
}.

(** A project on which no call can act any more: COMPLETED, CANCELLED, or
    ACTIVE with every milestone APPROVED. *)
Definition settled (s : Storage) (pid : N) : bool :=
  match p_status (getProject s pid) with
  | ProjectStatus.COMPLETED | ProjectStatus.CANCELLED => true
  | ProjectStatus.ACTIVE => allMilestonesApproved s pid
  | _ => false
  end.

(** What client and freelancer agreed on: the fields of a project and of its
    milestones that are written at creation only. *)
Definition terms (s : Storage) (pid : N)
    : (N * address * string * string * N * N * bool)
      * list (string * N * N) :=
  let p := getProject s pid in
  ((p_id p, p_client p, p_title p, p_descriptionHash p, p_totalAmount p,
    p_createdAt p, p_fundsDeposited p),
   map (fun m => (m_description m, m_amount m, m_deadline m))
     (getMilestones s pid)).

(** A project that has a freelancer at work or had one: every status but
    CREATED and CANCELLED. *)
Definition accepted (st : ProjectStatus.t) : bool :=
  match st with
  | ProjectStatus.CREATED | ProjectStatus.CANCELLED => false
  | _ => true
  end.

(** Invariant of the per-user index: the list of a user holds, without
    repetition, the projects the user created and the projects the user
    accepted. *)
Record Index (s : Storage) : Prop := mkIndex {
  idx_member : ∀ u pid,
      pid ∈ getUserProjects s u
      ↔ pid < projectCounter s
        ∧ (u = p_client (getProject s pid)
           ∨ (u = p_freelancer (getProject s pid)
              ∧ accepted (p_status (getProject s pid)) = true));
  idx_nodup : ∀ u, NoDup (getUserProjects s u)
}.

(** A milestone as the calls leave it: a positive amount, and a deliverable
    hash and a submission time exactly once it has been submitted. *)
Definition wf_milestone (m : Milestone) : Prop :=
  0 < m_amount m
  ∧ (m_status m = MilestoneStatus.PENDING →
     m_deliverableHash m = EmptyString ∧ m_submittedAt m = 0)
  ∧ (m_status m ≠ MilestoneStatus.PENDING →
     m_deliverableHash m ≠ EmptyString).

(** Invariant of the records: an existing project carries its own id, the
    deposit flag and at least one milestone, and every milestone is as the
    calls leave it. *)
Record Shape (s : Storage) : Prop := mkShape {
  shp_project : ∀ pid, pid < projectCounter s →
      p_id (getProject s pid) = pid
      ∧ p_fundsDeposited (getProject s pid) = true
      ∧ getMilestones s pid ≠ [];
  shp_milestones : ∀ pid, Forall wf_milestone (getMilestones s pid)
}.

(** Invariant of the dispute records: a dispute names an existing project
    that was accepted, it was raised by the client or the freelancer of that
    project, and once it is resolved its milestone is APPROVED. *)
Definition Parties (s : Storage) : Prop :=
  ∀ did, did < disputeCounter s →
    let d := getDispute s did in
    let project := getProject s (d_projectId d) in
    d_projectId d < projectCounter s
    ∧ accepted (p_status project) = true
    ∧ (d_initiator d = p_client project
       ∨ d_initiator d = p_freelancer project)
    ∧ (d_isResolved d = true →
       (m_status <$> milestoneOf s (d_projectId d) (d_milestoneId d))
       = Some MilestoneStatus.APPROVED).

(** Invariant of the milestone statuses: no milestone is REJECTED; a
    DISPUTED milestone is the one named by an unresolved dispute; a
    CANCELLED project has no freelancer and only PENDING milestones. *)
Record Statuses (s : Storage) : Prop := mkStatuses {
  sta_rejected : ∀ pid mid m, milestoneOf s pid mid = Some m →
      m_status m ≠ MilestoneStatus.REJECTED;
  sta_disputed : ∀ pid mid m, milestoneOf s pid mid = Some m →
      m_status m = MilestoneStatus.DISPUTED →
      ∃ did, did < disputeCounter s
             ∧ d_isResolved (getDispute s did) = false
             ∧ d_projectId (getDispute s did) = pid
             ∧ d_milestoneId (getDispute s did) = mid;
  sta_cancelled : ∀ pid,
      p_status (getProject s pid) = ProjectStatus.CANCELLED →
      p_freelancer (getProject s pid) = 0
      ∧ Forall (fun m => m_status m = MilestoneStatus.PENDING)
          (getMilestones s pid)
}.

(** ** The first contract *)

(** [ProjectEscrow], the contract that [ProjectEscrowImproved] grew out of.
    Its enums, its [Project] and [Milestone] structs, its modifiers and its
    views are those of the second contract, and its [Dispute] struct is the
    second's without the three vote fields; its functions are modelled on
    the storage of the second, of which they neither read nor write the
    pause switch, the admin roster and the vote fields. *)
Module V1.

Section Calls.

Variable msg_sender : address.
Variable block_timestamp : uint256.

Definition createProject (_title _descriptionHash : string)
    (_milestoneDescriptions : list string)
    (_milestoneAmounts _milestoneDeadlines : list uint256)
    (msg_value : uint256) : M uint256 :=
  modify (fun s => set_balance (balance s + msg_value) s) ;;
  require (0 <? N.of_nat (length _milestoneDescriptions))
    "At least one milestone required" ;;
  require ((N.of_nat (length _milestoneDescriptions) =? N.of_nat (length _milestoneAmounts))
           && (N.of_nat (length _milestoneAmounts) =? N.of_nat (length _milestoneDeadlines)))
    "Milestone arrays must be same length" ;;
  totalAmount <- sumMilestoneAmounts block_timestamp _milestoneAmounts
                   _milestoneDeadlines 0 ;;
  require (totalAmount <=? msg_value) "Insufficient funds deposited" ;;
  s <- get ;;
  let projectId := projectCounter s in
  next <- checked_add projectId 1 ;;
  modify (set_projectCounter next) ;;
  modify (updProject projectId (fun p =>
    mkProject projectId msg_sender (p_freelancer p) _title _descriptionHash
      totalAmount ProjectStatus.CREATED block_timestamp (p_acceptedAt p) true)) ;;
  modify (fun s => set_milestones projectId
    (getMilestones s projectId
       ++ newMilestones _milestoneDescriptions _milestoneAmounts _milestoneDeadlines) s) ;;
  modify (pushUserProject msg_sender projectId) ;;
  (if totalAmount <? msg_value then
     d <- checked_sub msg_value totalAmount ;; transfer msg_sender d
   else ret tt) ;;
  emit (ProjectCreated projectId msg_sender totalAmount) ;;
  emit (FundsDeposited projectId totalAmount) ;;
  ret projectId.

Definition acceptProject (_projectId : uint256) : M unit :=
  projectExists _projectId ;;
  s <- get ;;
  let project := getProject s _projectId in
  require (ProjectStatus.eqb (p_status project) ProjectStatus.CREATED)
    "Project not available" ;;
  require (p_freelancer project =? 0) "Project already accepted" ;;
  require (negb (msg_sender =? p_client project))
    "Client cannot accept own project" ;;
  modify (updProject _projectId (fun p =>
    mkProject (p_id p) (p_client p) msg_sender (p_title p) (p_descriptionHash p)
      (p_totalAmount p) ProjectStatus.ACTIVE (p_createdAt p) block_timestamp
      (p_fundsDeposited p))) ;;
  modify (pushUserProject msg_sender _projectId) ;;
  emit (ProjectAccepted _projectId msg_sender).

Definition submitMilestone (_projectId _milestoneId : uint256)
    (_deliverableHash : string) : M unit :=
  projectExists _projectId ;;
  onlyFreelancer msg_sender _projectId ;;
  s <- get ;;
  require (ProjectStatus.eqb (p_status (getProject s _projectId)) ProjectStatus.ACTIVE)
    "Project not active" ;;
  require (_milestoneId <? N.of_nat (length (getMilestones s _projectId)))
    "Invalid milestone" ;;
  milestone <- milestoneAt _projectId _milestoneId ;;
  require (MilestoneStatus.eqb (m_status milestone) MilestoneStatus.PENDING)
    "Milestone not pending" ;;
  require (0 <? N.of_nat (String.length _deliverableHash))
    "Deliverable hash required" ;;
  modify (updMilestone _projectId _milestoneId
            (m_set_submission _deliverableHash block_timestamp)) ;;
  emit (MilestoneSubmitted _projectId _milestoneId _deliverableHash).

(** The release is written out in the function itself. *)
Definition approveMilestone (_projectId _milestoneId : uint256) : M unit :=
  projectExists _projectId ;;
  onlyClient msg_sender _projectId ;;
  nonReentrant (
    s <- get ;;
    require (ProjectStatus.eqb (p_status (getProject s _projectId)) ProjectStatus.ACTIVE)
      "Project not active" ;;
    require (_milestoneId <? N.of_nat (length (getMilestones s _projectId)))
      "Invalid milestone" ;;
    milestone <- milestoneAt _projectId _milestoneId ;;
    require (MilestoneStatus.eqb (m_status milestone) MilestoneStatus.SUBMITTED)
      "Milestone not submitted" ;;
    modify (updMilestone _projectId _milestoneId
              (m_set_status MilestoneStatus.APPROVED)) ;;
    milestone <- milestoneAt _projectId _milestoneId ;;
    s <- get ;;
    product <- checked_mul (m_amount milestone) (platformFeePercent s) ;;
    platformFee <- checked_div product 100 ;;
    freelancerAmount <- checked_sub (m_amount milestone) platformFee ;;
    transfer (p_freelancer (getProject s _projectId)) freelancerAmount ;;
    transfer (owner s) platformFee ;;
    emit (MilestoneApproved _projectId _milestoneId) ;;
    emit (PaymentReleased _projectId _milestoneId freelancerAmount) ;;
    s <- get ;;
    if allMilestonesApproved s _projectId then
      modify (updProject _projectId (p_set_status ProjectStatus.COMPLETED))
    else ret tt).

(** No vote count is written: the struct has none. *)
Definition raiseDispute (_projectId _milestoneId : uint256) (_reason : string)
    : M uint256 :=
  projectExists _projectId ;;
  onlyParticipant msg_sender _projectId ;;
  s <- get ;;
  require (ProjectStatus.eqb (p_status (getProject s _projectId)) ProjectStatus.ACTIVE)
    "Project not active" ;;
  require (_milestoneId <? N.of_nat (length (getMilestones s _projectId)))
    "Invalid milestone" ;;
  milestone <- milestoneAt _projectId _milestoneId ;;
  require (MilestoneStatus.eqb (m_status milestone) MilestoneStatus.SUBMITTED)
    "Can only dispute submitted milestones" ;;
  limit <- checked_add (m_submittedAt milestone) DISPUTE_TIMEOUT ;;
  require (block_timestamp <=? limit) "Dispute period expired" ;;
  let disputeId := disputeCounter s in
  next <- checked_add disputeId 1 ;;
  modify (set_disputeCounter next) ;;
  modify (updDispute disputeId (fun d =>
    mkDispute _projectId _milestoneId msg_sender _reason false block_timestamp
      (d_hasVoted d) (d_votes d) (d_voteCount d))) ;;
  modify (updProject _projectId (p_set_status ProjectStatus.DISPUTED)) ;;
  modify (updMilestone _projectId _milestoneId
            (m_set_status MilestoneStatus.DISPUTED)) ;;
  emit (DisputeRaised disputeId _projectId msg_sender) ;;
  ret disputeId.

(** The owner settles a dispute with a percentage of his own. *)
Definition resolveDispute (_disputeId _percentageToFreelancer : uint256)
    : M unit :=
  onlyOwner msg_sender ;;
  nonReentrant (
    s <- get ;;
    require (_disputeId <? disputeCounter s) "Dispute does not exist" ;;
    let dispute := getDispute s _disputeId in
    require (negb (d_isResolved dispute)) "Dispute already resolved" ;;
    require (_percentageToFreelancer <=? 100) "Invalid percentage" ;;
    let projectId := d_projectId dispute in
    let milestoneId := d_milestoneId dispute in
    milestone <- milestoneAt projectId milestoneId ;;
    product <- checked_mul (m_amount milestone) _percentageToFreelancer ;;
    freelancerAmount <- checked_div product 100 ;;
    clientAmount <- checked_sub (m_amount milestone) freelancerAmount ;;
    (if 0 <? freelancerAmount
     then transfer (p_freelancer (getProject s projectId)) freelancerAmount
     else ret tt) ;;
    (if 0 <? clientAmount
     then transfer (p_client (getProject s projectId)) clientAmount
     else ret tt) ;;
    modify (updDispute _disputeId d_set_resolved) ;;
    modify (updMilestone projectId milestoneId
              (m_set_status MilestoneStatus.APPROVED)) ;;
    modify (updProject projectId (p_set_status ProjectStatus.ACTIVE)) ;;
    emit (DisputeResolved _disputeId _percentageToFreelancer)).

Definition rateUser (_user : address) (_rating : uint256) : M unit :=
  require ((1 <=? _rating) && (_rating <=? 5)) "Rating must be between 1 and 5" ;;
  s <- get ;;
  total <- checked_add (default 0 (userRatings s !! _user)) _rating ;;
  count <- checked_add (default 0 (userRatingCount s !! _user)) 1 ;;
  modify (set_rating _user total count) ;;
  emit (UserRated _user _rating).

Definition cancelProject (_projectId : uint256) : M unit :=
  projectExists _projectId ;;
  onlyClient msg_sender _projectId ;;
  nonReentrant (
    s <- get ;;
    let project := getProject s _projectId in
    require (ProjectStatus.eqb (p_status project) ProjectStatus.CREATED)
      "Can only cancel created projects" ;;
    require (p_freelancer project =? 0) "Cannot cancel accepted project" ;;
    modify (updProject _projectId (p_set_status ProjectStatus.CANCELLED)) ;;
    transfer (p_client project) (p_totalAmount project)).

End Calls.

End V1.
(** * Reasoning about the monad *)

Lemma bind_Ok {A B} (m : M A) (f : A → M B) s b s2 l :
  bind m f s = Ok (b, s2, l) →
  ∃ a s1 l1 l2, m s = Ok (a, s1, l1) ∧ f a s1 = Ok (b, s2, l2) ∧ l = l1 ++ l2.
Proof.
  unfold bind. destruct (m s) as [[[a s1] l1]|e]; [|discriminate].
  destruct (f a s1) as [[[b' s2'] l2]|e] eqn:Hf; [|discriminate].
  intros H; inversion H; subst. by exists a, s1, l1, l2.
Qed.

Lemma bind_Revert {A B} (m : M A) (f : A → M B) s e :
  bind m f s = Revert e →
  m s = Revert e ∨ ∃ a s1 l1, m s = Ok (a, s1, l1) ∧ f a s1 = Revert e.
Proof.
  unfold bind. destruct (m s) as [[[a s1] l1]|e']; [|intros [= ->]; by left].
  destruct (f a s1) as [[[b' s2'] l2]|e''] eqn:Hf; [discriminate|].
  intros [= ->]. right. by exists a, s1, l1.
Qed.

Lemma require_Ok b msg s u s' l :
  require b msg s = Ok (u, s', l) → b = true ∧ s' = s ∧ l = [].
Proof. destruct b; simpl; [intros [= <- <-]; auto | discriminate]. Qed.

Lemma require_true b msg s : b = true → require b msg s = Ok (tt, s, []).
Proof. by intros ->. Qed.

Lemma require_false b msg s : b = false → require b msg s = Revert msg.
Proof. by intros ->. Qed.

Lemma checked_add_Ok a b s r s' l :
  checked_add a b s = Ok (r, s', l) →
  r = a + b ∧ a + b ≤ MAX_UINT256 ∧ s' = s ∧ l = [].
Proof.
  unfold checked_add. destruct (a + b <=? MAX_UINT256) eqn:E; [|discriminate].
  intros [= <- <-]. apply N.leb_le in E. auto.
Qed.

Lemma checked_mul_Ok a b s r s' l :
  checked_mul a b s = Ok (r, s', l) →
  r = a * b ∧ a * b ≤ MAX_UINT256 ∧ s' = s ∧ l = [].
Proof.
  unfold checked_mul. destruct (a * b <=? MAX_UINT256) eqn:E; [|discriminate].
  intros [= <- <-]. apply N.leb_le in E. auto.
Qed.

Lemma checked_sub_Ok a b s r s' l :
  checked_sub a b s = Ok (r, s', l) → r = a - b ∧ b ≤ a ∧ s' = s ∧ l = [].
Proof.
  unfold checked_sub. destruct (b <=? a) eqn:E; [|discriminate].
  intros [= <- <-]. apply N.leb_le in E. auto.
Qed.

Lemma checked_div_Ok a b s r s' l :
  checked_div a b s = Ok (r, s', l) → r = a / b ∧ b ≠ 0 ∧ s' = s ∧ l = [].
Proof.
  unfold checked_div. destruct (b =? 0) eqn:E; [discriminate|].
  intros [= <- <-]. apply N.eqb_neq in E. auto.
Qed.

Lemma transfer_Ok r a s u s' l :
  transfer r a s = Ok (u, s', l) →
  a ≤ balance s ∧ s' = set_balance (balance s - a) s ∧ l = [Transfer r a s'].
Proof.
  unfold transfer. destruct (a <=? balance s) eqn:E; [|discriminate].
  case_bool_decide; [discriminate|].
  intros [= <- <-]. apply N.leb_le in E. auto.
Qed.

(** A transfer that went through was accepted by its recipient. *)
Lemma transfer_accepted r a s u s' l :
  transfer r a s = Ok (u, s', l) → r ∉ refusing s.
Proof.
  unfold transfer. destruct (a <=? balance s); [|discriminate].
  by case_bool_decide.
Qed.

Lemma transfer_refused {B} r a (f : unit → M B) s :
  r ∈ refusing s → a ≤ balance s →
  bind (transfer r a) f s = Revert "Transfer failed".
Proof.
  intros Hr Ha. unfold bind, transfer. apply N.leb_le in Ha. rewrite Ha.
  by rewrite bool_decide_eq_true_2.
Qed.

Lemma milestoneAt_Ok p i s m s' l :
  milestoneAt p i s = Ok (m, s', l) →
  getMilestones s p !! N.to_nat i = Some m ∧ s' = s ∧ l = [].
Proof.
  unfold milestoneAt, bind, get.
  destruct (getMilestones s p !! N.to_nat i) eqn:E; simpl; [|discriminate].
  intros [= <- <-]. auto.
Qed.

Lemma get_Ok s a s' l : get s = Ok (a, s', l) → a = s ∧ s' = s ∧ l = [].
Proof. unfold get. by intros [= <- <- <-]. Qed.

Lemma ret_Ok {A} (a : A) s b s' l :
  ret a s = Ok (b, s', l) → b = a ∧ s' = s ∧ l = [].
Proof. unfold ret. by intros [= <- <- <-]. Qed.

Lemma modify_Ok f s (u : unit) s' l :
  modify f s = Ok (u, s', l) → s' = f s ∧ l = [].
Proof. unfold modify. by intros [= <- <-]. Qed.

Lemma emit_Ok e s (u : unit) s' l :
  emit e s = Ok (u, s', l) → s' = s ∧ l = [e].
Proof. unfold emit. by intros [= <- <-]. Qed.

(** Inversion of a successful run, one primitive at a time. *)
Ltac minv1 :=
  match goal with
  | H : bind _ _ _ = Ok _ |- _ =>
      let a := fresh "a" in let s1 := fresh "s" in
      let l1 := fresh "l" in let l2 := fresh "l" in
      let H1 := fresh "H" in let H2 := fresh "H" in let H3 := fresh "H" in
      apply bind_Ok in H; destruct H as (a & s1 & l1 & l2 & H1 & H2 & H3);
      cbv beta in H2
  | H : require _ _ _ = Ok _ |- _ =>
      let Hb := fresh "Hreq" in
      apply require_Ok in H; destruct H as (Hb & -> & ->)
  | H : get _ = Ok _ |- _ =>
      apply get_Ok in H; destruct H as (? & ? & ?); subst
  | H : ret _ _ = Ok _ |- _ =>
      apply ret_Ok in H; destruct H as (? & ? & ?); subst
  | H : modify _ _ = Ok _ |- _ =>
      apply modify_Ok in H; destruct H as (? & ?); subst
  | H : emit _ _ = Ok _ |- _ =>
      apply emit_Ok in H; destruct H as (? & ?); subst
  | H : revert _ _ = Ok _ |- _ => discriminate H
  | H : checked_add _ _ _ = Ok _ |- _ =>
      apply checked_add_Ok in H; destruct H as (-> & ? & -> & ->)
  | H : checked_mul _ _ _ = Ok _ |- _ =>
      apply checked_mul_Ok in H; destruct H as (-> & ? & -> & ->)
  | H : checked_sub _ _ _ = Ok _ |- _ =>
      apply checked_sub_Ok in H; destruct H as (-> & ? & -> & ->)
  | H : checked_div _ _ _ = Ok _ |- _ =>
      apply checked_div_Ok in H; destruct H as (-> & ? & -> & ->)
  | H : transfer _ _ _ = Ok _ |- _ =>
      apply transfer_Ok in H; destruct H as (? & -> & ->)
  | H : milestoneAt _ _ _ = Ok _ |- _ =>
      apply milestoneAt_Ok in H; destruct H as (? & -> & ->)
  | H : (if ?b then _ else _) _ = Ok _ |- _ => destruct b eqn:?
  end.

Ltac minv := repeat minv1.

(** * Milestone storage *)

Lemma getMilestones_upd pid mid f s :
  getMilestones (updMilestone pid mid f s) pid
  = alter f (N.to_nat mid) (getMilestones s pid).
Proof. unfold getMilestones, updMilestone; simpl. by rewrite lookup_insert_eq. Qed.

Lemma getMilestones_upd_ne pid pid' mid f s :
  pid ≠ pid' →
  getMilestones (updMilestone pid mid f s) pid' = getMilestones s pid'.
Proof. intros. unfold getMilestones, updMilestone; simpl. by rewrite lookup_insert_ne. Qed.

Lemma milestoneOf_upd pid mid f s :
  milestoneOf (updMilestone pid mid f s) pid mid = f <$> milestoneOf s pid mid.
Proof. unfold milestoneOf. by rewrite getMilestones_upd, list_lookup_alter_eq. Qed.

Lemma milestoneOf_upd_ne pid mid pid' mid' f s :
  (pid', mid') ≠ (pid, mid) →
  milestoneOf (updMilestone pid mid f s) pid' mid' = milestoneOf s pid' mid'.
Proof.
  intros Hne. unfold milestoneOf. destruct (decide (pid = pid')) as [<-|Hp].
  - rewrite getMilestones_upd, list_lookup_alter_ne; [done|].
    intros E. apply N2Nat.inj in E. congruence.
  - by rewrite getMilestones_upd_ne.
Qed.

Lemma milestoneOf_lt s pid mid m :
  milestoneOf s pid mid = Some m →
  (mid <? N.of_nat (length (getMilestones s pid))) = true.
Proof.
  unfold milestoneOf. intros H. apply lookup_lt_Some in H.
  apply N.ltb_lt. lia.
Qed.

Lemma milestoneAt_eq pid mid s m :
  milestoneOf s pid mid = Some m → milestoneAt pid mid s = Ok (m, s, []).
Proof. unfold milestoneOf, milestoneAt, bind, get. by intros ->. Qed.

(** * The payment release *)

Lemma release_eq pid mid s m :
  milestoneOf s pid mid = Some m →
  release_ok m s = true →
  p_freelancer (getProject s pid) ∉ refusing s →
  owner s ∉ refusing s →
  _releaseMilestonePayment pid mid s =
    Ok (tt, fst (released pid mid m s), snd (released pid mid m s)).
Proof.
  intros Hm Hok Hf Ho. unfold release_ok in Hok. unfold milestoneOf in Hm.
  apply andb_prop in Hok as [Hok H3]. apply andb_prop in Hok as [H1 H2].
  pose proof H2 as H2'. apply N.leb_le in H2', H3.
  unfold _releaseMilestonePayment, bind, modify, milestoneAt, get, bind.
  rewrite getMilestones_upd, list_lookup_alter_eq, Hm. simpl.
  unfold checked_mul; simpl. rewrite H1. simpl.
  unfold checked_sub. rewrite H2. simpl.
  unfold transfer; simpl.
  set (fee := m_amount m * platformFeePercent s / 100) in *.
  replace (m_amount m - fee <=? balance s) with true
    by (symmetry; apply N.leb_le; lia).
  change (getProject (updMilestone pid mid _ s) pid) with (getProject s pid).
  rewrite (bool_decide_eq_false_2 _ Hf).
  simpl.
  replace (fee <=? balance s - _) with true by (symmetry; apply N.leb_le; lia).
  rewrite (bool_decide_eq_false_2 _ Ho).
  simpl. unfold released. simpl.
  destruct (allMilestonesApproved _ pid); reflexivity.
Qed.

(** A release whose payee or fee recipient refuses the payment aborts. *)
Lemma release_refused pid mid s m :
  milestoneOf s pid mid = Some m →
  release_ok m s = true →
  p_freelancer (getProject s pid) ∈ refusing s ∨ owner s ∈ refusing s →
  _releaseMilestonePayment pid mid s = Revert "Transfer failed".
Proof.
  intros Hm Hok Hr. unfold release_ok in Hok. unfold milestoneOf in Hm.
  apply andb_prop in Hok as [Hok H3]. apply andb_prop in Hok as [H1 H2].
  pose proof H2 as H2'. apply N.leb_le in H2', H3.
  unfold _releaseMilestonePayment, bind, modify, milestoneAt, get, bind.
  rewrite getMilestones_upd, list_lookup_alter_eq, Hm. simpl.
  unfold checked_mul; simpl. rewrite H1. simpl.
  unfold checked_sub. rewrite H2. simpl.
  unfold transfer; simpl.
  set (fee := m_amount m * platformFeePercent s / 100) in *.
  replace (m_amount m - fee <=? balance s) with true
    by (symmetry; apply N.leb_le; lia).
  change (getProject (updMilestone pid mid _ s) pid) with (getProject s pid).
  case_bool_decide as Hf; [done|]. simpl.
  replace (fee <=? balance s - _) with true by (symmetry; apply N.leb_le; lia).
  destruct Hr as [Hr|Hr]; [done|].
  by rewrite (bool_decide_eq_true_2 _ Hr).
Qed.

(** A release that went through paid two recipients who accepted. *)
Lemma release_accepted pid mid s u s' log :
  _releaseMilestonePayment pid mid s = Ok (u, s', log) →
  (p_freelancer (getProject s pid) ∉ refusing s) ∧ (owner s ∉ refusing s).
Proof.
  unfold _releaseMilestonePayment. intros H.
  repeat (first
    [ match goal with
      | H : transfer _ _ _ = Ok _ |- _ =>
          let Ha := fresh "Hacc" in
          pose proof (transfer_accepted _ _ _ _ _ _ H) as Ha;
          apply transfer_Ok in H; destruct H as (? & -> & ->)
      end
    | minv1 ]); subst; done.
Qed.

Lemma release_Ok pid mid s u s' log m :
  milestoneOf s pid mid = Some m →
  _releaseMilestonePayment pid mid s = Ok (u, s', log) →
  release_ok m s = true ∧ (s', log) = released pid mid m s.
Proof.
  intros Hm H. destruct (release_accepted _ _ _ _ _ _ H) as [Hf Ho].
  destruct (release_ok m s) eqn:Hok.
  - rewrite (release_eq _ _ _ _ Hm Hok Hf Ho) in H. destruct u.
    injection H as <- <-. split; [done|]. symmetry; apply surjective_pairing.
  - exfalso. unfold _releaseMilestonePayment in H. minv; subst.
    all: match goal with H : getMilestones _ _ !! _ = Some ?a |- _ =>
           unfold milestoneOf in Hm;
           rewrite getMilestones_upd, list_lookup_alter_eq, Hm in H; simpl in H;
           injection H as <- end.
    all: simpl in *; unfold release_ok in Hok.
    all: set (fee := m_amount m * platformFeePercent s / 100) in *.
    all: apply andb_false_iff in Hok as [Hok|Hok];
      [apply andb_false_iff in Hok as [Hok|Hok]|];
      apply N.leb_gt in Hok; lia.
Qed.

(** Reads through updates of unrelated fields. *)
Ltac frame :=
  repeat match goal with
  | |- context [getDispute (?f ?s) ?i] =>
      progress change (getDispute (f s) i) with (getDispute s i)
  | |- context [getProject (?f ?s) ?i] =>
      progress change (getProject (f s) i) with (getProject s i)
  | |- context [getMilestones (?f ?s) ?i] =>
      progress change (getMilestones (f s) i) with (getMilestones s i)
  | |- context [milestoneOf (?f ?s) ?i ?j] =>
      progress change (milestoneOf (f s) i j) with (milestoneOf s i j)
  | H : context [getDispute (?f ?s) ?i] |- _ =>
      progress change (getDispute (f s) i) with (getDispute s i) in H
  | H : context [getProject (?f ?s) ?i] |- _ =>
      progress change (getProject (f s) i) with (getProject s i) in H
  | H : context [getMilestones (?f ?s) ?i] |- _ =>
      progress change (getMilestones (f s) i) with (getMilestones s i) in H
  | H : context [milestoneOf (?f ?s) ?i ?j] |- _ =>
      progress change (milestoneOf (f s) i j) with (milestoneOf s i j) in H
  end.

(** * Manual and automatic approval *)

Lemma statusP_eqb a b : ProjectStatus.eqb a b = true ↔ a = b.
Proof. destruct a, b; simpl; split; congruence. Qed.

Lemma statusM_eqb a b : MilestoneStatus.eqb a b = true ↔ a = b.
Proof. destruct a, b; simpl; split; congruence. Qed.

Lemma nonReentrant_Ok {A} (body : M A) s r s' log :
  nonReentrant body s = Ok (r, s', log) →
  locked s = false ∧
  ∃ s1, body (set_locked true s) = Ok (r, s1, log) ∧ s' = set_locked false s1.
Proof.
  unfold nonReentrant. intros H. minv. simpl in *.
  apply Bool.negb_true_iff in Hreq. split; [done|].
  subst. rewrite app_nil_r. eexists; split; [eassumption|done].
Qed.

Lemma nonReentrant_eq {A} (body : M A) s r s1 log :
  locked s = false →
  body (set_locked true s) = Ok (r, s1, log) →
  nonReentrant body s = Ok (r, set_locked false s1, log).
Proof.
  intros Hl Hb. unfold nonReentrant, bind, get, require, modify, ret.
  rewrite Hl. simpl. rewrite Hb. simpl. by rewrite app_nil_r.
Qed.

Lemma nonReentrant_locked {A} (body : M A) s :
  locked s = true →
  nonReentrant body s = Revert "ReentrancyGuard: reentrant call".
Proof. intros Hl. unfold nonReentrant, bind, get, require. by rewrite Hl. Qed.


(** Inversion through the modifiers, then conditions as propositions. *)
Ltac xinv1 :=
  match goal with
  | H : nonReentrant _ _ = Ok _ |- _ =>
      let Hl := fresh "Hlock" in let s1 := fresh "s" in let Hb := fresh "Hbody" in
      apply nonReentrant_Ok in H; destruct H as (Hl & s1 & Hb & ->)
  | H : whenNotPaused _ = Ok _ |- _ => unfold whenNotPaused in H
  | H : whenPaused _ = Ok _ |- _ => unfold whenPaused in H
  | H : onlyOwner _ _ = Ok _ |- _ => unfold onlyOwner in H
  | H : onlyAdmin _ _ = Ok _ |- _ => unfold onlyAdmin in H
  | H : onlyClient _ _ _ = Ok _ |- _ => unfold onlyClient in H
  | H : onlyFreelancer _ _ _ = Ok _ |- _ => unfold onlyFreelancer in H
  | H : onlyParticipant _ _ _ = Ok _ |- _ => unfold onlyParticipant in H
  | H : projectExists _ _ = Ok _ |- _ => unfold projectExists in H
  | H : void _ _ = Ok _ |- _ => unfold void in H
  | _ => minv1
  end.

Ltac xinv := repeat xinv1.

Ltac props :=
  repeat match goal with
  | H : negb _ = true |- _ => apply Bool.negb_true_iff in H
  | H : negb _ = false |- _ => apply Bool.negb_false_iff in H
  | H : (_ && _) = true |- _ => apply andb_prop in H; destruct H
  | H : (_ <? _) = true |- _ => apply N.ltb_lt in H
  | H : (_ <? _) = false |- _ => apply N.ltb_ge in H
  | H : (_ <=? _) = true |- _ => apply N.leb_le in H
  | H : (_ <=? _) = false |- _ => apply N.leb_gt in H
  | H : (_ =? _) = true |- _ => apply N.eqb_eq in H
  | H : (_ =? _) = false |- _ => apply N.eqb_neq in H
  | H : ProjectStatus.eqb _ _ = true |- _ => apply statusP_eqb in H
  | H : MilestoneStatus.eqb _ _ = true |- _ => apply statusM_eqb in H
  end.

Lemma approve_Ok sender pid mid s u s' log :
  approveMilestone sender pid mid s = Ok (u, s', log) →
  ∃ m, milestoneOf s pid mid = Some m
    ∧ pid < projectCounter s
    ∧ sender = p_client (getProject s pid)
    ∧ locked s = false ∧ paused s = false
    ∧ p_status (getProject s pid) = ProjectStatus.ACTIVE
    ∧ m_status m = MilestoneStatus.SUBMITTED
    ∧ release_ok m s = true
    ∧ s' = set_locked false (fst (released pid mid m (set_locked true s)))
    ∧ log = snd (released pid mid m (set_locked true s)).
Proof.
  unfold approveMilestone. intros H. xinv. simpl in * |-.
  match goal with H : _releaseMilestonePayment _ _ _ = Ok _,
                  Hm : getMilestones _ _ !! _ = Some ?m |- _ =>
    apply (release_Ok _ _ _ _ _ _ m) in H; [destruct H as [Hok Hres]|exact Hm];
    exists m
  end.
  props. subst. rewrite <- Hres. done.
Qed.


(** * Symbolic execution *)

Lemma prepend_nil {A} (r : Result (A * Storage * list Event)) : prepend [] r = r.
Proof. by destruct r as [[[??]?]|]. Qed.

Lemma bind_assoc {A B C} (m : M A) (f : A → M B) (g : B → M C) s :
  bind (bind m f) g s = bind m (fun a => bind (f a) g) s.
Proof.
  unfold bind. destruct (m s) as [[[a s1] l1]|]; [|done].
  destruct (f a s1) as [[[b s2] l2]|]; [|done].
  destruct (g b s2) as [[[c s3] l3]|]; [|done]. by rewrite app_assoc.
Qed.

Lemma bind_ext {A B} (m : M A) (f g : A → M B) s :
  (∀ a s1, f a s1 = g a s1) → bind m f s = bind m g s.
Proof.
  intros H. unfold bind. destruct (m s) as [[[a s1] l1]|]; [|done].
  by rewrite H.
Qed.

Lemma bind_get {B} (f : Storage → M B) s : bind get f s = f s s.
Proof. unfold bind, get. by destruct (f s s) as [[[??]?]|]. Qed.

Lemma bind_ret {A B} (a : A) (f : A → M B) s : bind (ret a) f s = f a s.
Proof. unfold bind, ret. by destruct (f a s) as [[[??]?]|]. Qed.

Lemma bind_modify {B} g (f : unit → M B) s : bind (modify g) f s = f tt (g s).
Proof. unfold bind, modify. by destruct (f tt (g s)) as [[[??]?]|]. Qed.

Lemma bind_emit {B} e (f : unit → M B) s :
  bind (emit e) f s = prepend [e] (f tt s).
Proof. done. Qed.

Lemma bind_revert {A B} msg (f : A → M B) s : bind (revert msg) f s = Revert msg.
Proof. done. Qed.

Lemma bind_require {B} b msg (f : unit → M B) s :
  bind (require b msg) f s = if b then f tt s else Revert msg.
Proof. destruct b; [apply bind_ret | done]. Qed.

Lemma bind_if {A B} (b : bool) (m1 m2 : M A) (f : A → M B) s :
  bind (if b then m1 else m2) f s = if b then bind m1 f s else bind m2 f s.
Proof. by destruct b. Qed.

Lemma bind_checked_add {B} a b (f : N → M B) s :
  bind (checked_add a b) f s
  = if a + b <=? MAX_UINT256 then f (a + b) s else Revert "Panic(0x11)".
Proof. unfold checked_add. destruct (_ <=? _); [apply bind_ret|done]. Qed.

Lemma bind_checked_mul {B} a b (f : N → M B) s :
  bind (checked_mul a b) f s
  = if a * b <=? MAX_UINT256 then f (a * b) s else Revert "Panic(0x11)".
Proof. unfold checked_mul. destruct (_ <=? _); [apply bind_ret|done]. Qed.

Lemma bind_checked_sub {B} a b (f : N → M B) s :
  bind (checked_sub a b) f s
  = if b <=? a then f (a - b) s else Revert "Panic(0x11)".
Proof. unfold checked_sub. destruct (_ <=? _); [apply bind_ret|done]. Qed.

Lemma bind_checked_div {B} a b (f : N → M B) s :
  bind (checked_div a b) f s
  = if b =? 0 then Revert "Panic(0x12)" else f (a / b) s.
Proof. unfold checked_div. destruct (_ =? _); [done|apply bind_ret]. Qed.

Lemma bind_transfer {B} r a (f : unit → M B) s :
  bind (transfer r a) f s
  = if a <=? balance s
    then if bool_decide (r ∈ refusing s) then Revert "Transfer failed"
         else prepend [Transfer r a (set_balance (balance s - a) s)]
                (f tt (set_balance (balance s - a) s))
    else Revert "Transfer failed".
Proof. unfold bind, transfer. destruct (_ <=? _); [|done]. by case_bool_decide. Qed.

Lemma bind_milestoneAt {B} p i (f : Milestone → M B) s :
  bind (milestoneAt p i) f s
  = match milestoneOf s p i with
    | Some m => f m s
    | None => Revert "Panic(0x32)"
    end.
Proof.
  unfold milestoneAt, milestoneOf. rewrite bind_assoc, bind_get.
  destruct (_ !! _); [apply bind_ret|done].
Qed.

Lemma bind_nonReentrant {A B} (body : M A) (f : A → M B) s :
  bind (nonReentrant body) f s
  = if locked s then Revert "ReentrancyGuard: reentrant call"
    else bind body (fun r => bind (modify (set_locked false)) (fun _ => f r))
           (set_locked true s).
Proof.
  unfold nonReentrant.
  rewrite !bind_assoc, bind_get, bind_assoc, bind_require.
  destruct (locked s); simpl; [done|].
  rewrite bind_assoc, bind_modify, bind_assoc.
  apply bind_ext. intros r s1.
  by rewrite bind_assoc, !bind_modify, bind_ret.
Qed.

Lemma run_ret {A} (a : A) s : ret a s = Ok (a, s, []).
Proof. done. Qed.

Lemma run_modify g s : modify g s = Ok (tt, g s, []).
Proof. done. Qed.

Lemma run_emit e s : emit e s = Ok (tt, s, [e]).
Proof. done. Qed.

Lemma run_require b msg s :
  require b msg s = if b then Ok (tt, s, []) else Revert msg.
Proof. by destruct b. Qed.

Lemma run_nonReentrant {A} (body : M A) s :
  nonReentrant body s
  = if locked s then Revert "ReentrancyGuard: reentrant call"
    else bind body (fun r => bind (modify (set_locked false)) (fun _ => ret r))
           (set_locked true s).
Proof.
  unfold nonReentrant. rewrite bind_get, bind_require.
  destruct (locked s); simpl; [done|]. by rewrite bind_modify.
Qed.

Ltac mstep :=
  first
  [ rewrite bind_assoc | rewrite bind_get | rewrite bind_ret
  | rewrite bind_modify | rewrite bind_emit | rewrite bind_revert
  | rewrite bind_require | rewrite bind_if
  | rewrite bind_checked_add | rewrite bind_checked_mul
  | rewrite bind_checked_sub | rewrite bind_checked_div
  | rewrite bind_transfer | rewrite bind_milestoneAt
  | rewrite bind_nonReentrant | rewrite run_nonReentrant
  | rewrite run_ret | rewrite run_modify | rewrite run_emit
  | rewrite run_require ].

Ltac mred :=
  cbn [negb andb orb ProjectStatus.eqb MilestoneStatus.eqb]; cbv iota.

Ltac mrun :=
  unfold whenNotPaused, whenPaused, onlyOwner, onlyAdmin, onlyClient,
    onlyFreelancer, onlyParticipant, projectExists, void;
  repeat (mstep; cbv beta).


Lemma released_milestone pid mid m s :
  milestoneOf s pid mid = Some m →
  milestoneOf (fst (released pid mid m s)) pid mid
  = Some (m_set_status MilestoneStatus.APPROVED m).
Proof.
  intros Hm. unfold released; simpl fst.
  match goal with |- context [if ?b then _ else _] => destruct b end;
    (transitivity (milestoneOf
       (updMilestone pid mid (m_set_status MilestoneStatus.APPROVED) s) pid mid);
     [reflexivity|]); by rewrite milestoneOf_upd, Hm.
Qed.

Lemma released_milestone_ne pid mid pid' mid' m s :
  (pid', mid') ≠ (pid, mid) →
  milestoneOf (fst (released pid mid m s)) pid' mid' = milestoneOf s pid' mid'.
Proof.
  intros Hne. unfold released; simpl fst.
  match goal with |- context [if ?b then _ else _] => destruct b end;
    by apply (milestoneOf_upd_ne pid mid pid' mid').
Qed.

Lemma released_transfers pid mid m s :
  transfers (snd (released pid mid m s))
  = [(p_freelancer (getProject s pid),
      m_amount m - m_amount m * platformFeePercent s / 100);
     (owner s, m_amount m * platformFeePercent s / 100)].
Proof. done. Qed.

Lemma released_snapshots pid mid m s σ :
  milestoneOf s pid mid = Some m →
  σ ∈ snapshots (snd (released pid mid m s)) →
  locked σ = locked s
  ∧ milestoneOf σ pid mid = Some (m_set_status MilestoneStatus.APPROVED m)
  ∧ getProject σ pid = getProject s pid.
Proof.
  intros Hm. unfold released, snapshots. simpl.
  rewrite !elem_of_cons, elem_of_nil. intros [->|[->|[]]].
  all: split; [done|]; split; [|done]; frame; by rewrite milestoneOf_upd, Hm.
Qed.

Lemma released_frame pid mid m s :
  let s' := fst (released pid mid m s) in
  locked s' = locked s ∧ paused s' = paused s
  ∧ projectCounter s' = projectCounter s
  ∧ disputeCounter s' = disputeCounter s ∧ disputes s' = disputes s
  ∧ isAdmin s' = isAdmin s ∧ adminList s' = adminList s ∧ owner s' = owner s
  ∧ platformFeePercent s' = platformFeePercent s.
Proof. unfold released. simpl. by destruct (allMilestonesApproved _ _). Qed.

Lemma released_refusing pid mid m s :
  refusing (fst (released pid mid m s)) = refusing s.
Proof. unfold released. simpl. by destruct (allMilestonesApproved _ _). Qed.

Lemma released_balance pid mid m s :
  release_ok m s = true →
  balance (fst (released pid mid m s)) = balance s - m_amount m.
Proof.
  unfold release_ok. intros H.
  apply andb_prop in H as [H H3]. apply andb_prop in H as [_ H2].
  apply N.leb_le in H2, H3.
  unfold released. simpl.
  generalize dependent (m_amount m * platformFeePercent s / 100). intros fee ?.
  destruct (allMilestonesApproved _ _); simpl; lia.
Qed.

Lemma released_status pid mid m s :
  p_status (getProject (fst (released pid mid m s)) pid)
  = if allMilestonesApproved (fst (released pid mid m s)) pid
    then ProjectStatus.COMPLETED else p_status (getProject s pid).
Proof.
  unfold released. simpl.
  match goal with |- context [if ?b then _ else _] => destruct b eqn:E end.
  - change (allMilestonesApproved (updProject pid ?f ?x) pid)
      with (allMilestonesApproved x pid).
    rewrite E. unfold getProject, updProject. simpl.
    by rewrite lookup_insert_eq.
  - by rewrite E.
Qed.

Opaque released.

Lemma approve_eq pid mid s m :
  milestoneOf s pid mid = Some m →
  pid < projectCounter s →
  locked s = false → paused s = false →
  p_status (getProject s pid) = ProjectStatus.ACTIVE →
  m_status m = MilestoneStatus.SUBMITTED →
  release_ok m s = true →
  p_freelancer (getProject s pid) ∉ refusing s →
  owner s ∉ refusing s →
  approveMilestone (p_client (getProject s pid)) pid mid s =
    Ok (tt, set_locked false (fst (released pid mid m (set_locked true s))),
        snd (released pid mid m (set_locked true s))).
Proof.
  intros Hm Hp Hl Hpa Hst Hms Hok Hf Ho.
  unfold approveMilestone. mrun.
  apply N.ltb_lt in Hp. rewrite Hp, N.eqb_refl, Hl. simpl. rewrite Hpa. simpl.
  change (getProject (set_locked true s) pid) with (getProject s pid).
  rewrite Hst. simpl.
  change (getMilestones (set_locked true s) pid) with (getMilestones s pid).
  rewrite (milestoneOf_lt _ _ _ _ Hm).
  change (milestoneOf (set_locked true s) pid mid) with (milestoneOf s pid mid).
  rewrite Hm. mrun. rewrite Hms. simpl.
  unfold bind at 1. rewrite (release_eq pid mid _ m); [|done..].
  mrun. by rewrite app_nil_r.
Qed.

Lemma autoApprove_Ok now pid mid s u s' log :
  autoApproveMilestone now pid mid s = Ok (u, s', log) →
  ∃ m, milestoneOf s pid mid = Some m
    ∧ pid < projectCounter s
    ∧ locked s = false ∧ paused s = false
    ∧ p_status (getProject s pid) = ProjectStatus.ACTIVE
    ∧ m_status m = MilestoneStatus.SUBMITTED
    ∧ m_submittedAt m + AUTO_APPROVE_TIMEOUT ≤ MAX_UINT256
    ∧ m_submittedAt m + AUTO_APPROVE_TIMEOUT ≤ now
    ∧ release_ok m s = true
    ∧ s' = set_locked false (fst (released pid mid m (set_locked true s)))
    ∧ log = MilestoneAutoApproved pid mid
              :: snd (released pid mid m (set_locked true s)).
Proof.
  unfold autoApproveMilestone. intros H. xinv. simpl in * |-.
  match goal with H : _releaseMilestonePayment _ _ _ = Ok _,
                  Hm : getMilestones _ _ !! _ = Some ?m |- _ =>
    apply (release_Ok _ _ _ _ _ _ m) in H; [destruct H as [Hok Hres]|exact Hm];
    exists m
  end.
  props. subst. rewrite <- Hres. done.
Qed.

Lemma autoApprove_accepted now pid mid s u s' log :
  autoApproveMilestone now pid mid s = Ok (u, s', log) →
  (p_freelancer (getProject s pid) ∉ refusing s) ∧ (owner s ∉ refusing s).
Proof.
  unfold autoApproveMilestone. intros H. xinv. simpl in * |-.
  match goal with H : _releaseMilestonePayment _ _ _ = Ok _ |- _ =>
    apply release_accepted in H end.
  done.
Qed.

Lemma approve_accepted sender pid mid s u s' log :
  approveMilestone sender pid mid s = Ok (u, s', log) →
  (p_freelancer (getProject s pid) ∉ refusing s) ∧ (owner s ∉ refusing s).
Proof.
  unfold approveMilestone. intros H. xinv. simpl in * |-.
  match goal with H : _releaseMilestonePayment _ _ _ = Ok _ |- _ =>
    apply release_accepted in H end.
  done.
Qed.

Lemma autoApprove_eq now pid mid s m :
  milestoneOf s pid mid = Some m →
  pid < projectCounter s →
  locked s = false → paused s = false →
  p_status (getProject s pid) = ProjectStatus.ACTIVE →
  m_status m = MilestoneStatus.SUBMITTED →
  m_submittedAt m + AUTO_APPROVE_TIMEOUT ≤ MAX_UINT256 →
  m_submittedAt m + AUTO_APPROVE_TIMEOUT ≤ now →
  release_ok m s = true →
  p_freelancer (getProject s pid) ∉ refusing s →
  owner s ∉ refusing s →
  autoApproveMilestone now pid mid s =
    Ok (tt, set_locked false (fst (released pid mid m (set_locked true s))),
        MilestoneAutoApproved pid mid
          :: snd (released pid mid m (set_locked true s))).
Proof.
  intros Hm Hp Hl Hpa Hst Hms Hov Hdue Hok Hf Ho.
  unfold autoApproveMilestone. mrun.
  apply N.ltb_lt in Hp. rewrite Hp, Hl. simpl. rewrite Hpa. simpl.
  change (getProject (set_locked true s) pid) with (getProject s pid).
  rewrite Hst. simpl.
  change (getMilestones (set_locked true s) pid) with (getMilestones s pid).
  rewrite (milestoneOf_lt _ _ _ _ Hm).
  change (milestoneOf (set_locked true s) pid mid) with (milestoneOf s pid mid).
  rewrite Hm. mrun. rewrite Hms. simpl.
  apply N.leb_le in Hov, Hdue. rewrite Hov, Hdue.
  unfold bind at 1. rewrite (release_eq pid mid _ m); [|done..].
  mrun. by rewrite app_nil_r.
Qed.

Lemma autoApprove_refused now pid mid s m :
  milestoneOf s pid mid = Some m →
  pid < projectCounter s →
  locked s = false → paused s = false →
  p_status (getProject s pid) = ProjectStatus.ACTIVE →
  m_status m = MilestoneStatus.SUBMITTED →
  m_submittedAt m + AUTO_APPROVE_TIMEOUT ≤ MAX_UINT256 →
  m_submittedAt m + AUTO_APPROVE_TIMEOUT ≤ now →
  release_ok m s = true →
  p_freelancer (getProject s pid) ∈ refusing s ∨ owner s ∈ refusing s →
  autoApproveMilestone now pid mid s = Revert "Transfer failed".
Proof.
  intros Hm Hp Hl Hpa Hst Hms Hov Hdue Hok Hr.
  unfold autoApproveMilestone. mrun.
  apply N.ltb_lt in Hp. rewrite Hp, Hl. simpl. rewrite Hpa. simpl.
  change (getProject (set_locked true s) pid) with (getProject s pid).
  rewrite Hst. simpl.
  change (getMilestones (set_locked true s) pid) with (getMilestones s pid).
  rewrite (milestoneOf_lt _ _ _ _ Hm).
  change (milestoneOf (set_locked true s) pid mid) with (milestoneOf s pid mid).
  rewrite Hm. mrun. rewrite Hms. simpl.
  apply N.leb_le in Hov, Hdue. rewrite Hov, Hdue.
  unfold bind at 1. by rewrite (release_refused pid mid _ m).
Qed.

Lemma autoApprove_early now pid mid s m :
  milestoneOf s pid mid = Some m →
  pid < projectCounter s →
  locked s = false → paused s = false →
  p_status (getProject s pid) = ProjectStatus.ACTIVE →
  m_status m = MilestoneStatus.SUBMITTED →
  m_submittedAt m + AUTO_APPROVE_TIMEOUT ≤ MAX_UINT256 →
  now < m_submittedAt m + AUTO_APPROVE_TIMEOUT →
  autoApproveMilestone now pid mid s = Revert "Auto-approval timeout not reached".
Proof.
  intros Hm Hp Hl Hpa Hst Hms Hov Hdue.
  unfold autoApproveMilestone. mrun.
  apply N.ltb_lt in Hp. rewrite Hp, Hl. simpl. rewrite Hpa. simpl.
  change (getProject (set_locked true s) pid) with (getProject s pid).
  rewrite Hst. simpl.
  change (getMilestones (set_locked true s) pid) with (getMilestones s pid).
  rewrite (milestoneOf_lt _ _ _ _ Hm).
  change (milestoneOf (set_locked true s) pid mid) with (milestoneOf s pid mid).
  rewrite Hm. mrun. rewrite Hms. simpl.
  apply N.leb_le in Hov. apply N.leb_gt in Hdue. rewrite Hov, Hdue. done.
Qed.

Lemma release_ok_split m s :
  release_ok m s = true →
  m_amount m * platformFeePercent s ≤ MAX_UINT256
  ∧ m_amount m * platformFeePercent s / 100 ≤ m_amount m
  ∧ m_amount m ≤ balance s.
Proof. unfold release_ok. intros H. props. auto. Qed.

(** * Payout of a release *)

(** C2: every milestone released by manual or automatic approval pays the
    platform owner the fee [floor (amount * feePercent / 100)], computed
    without overflow, and pays the freelancer [amount - fee]; the two
    transfers are the only ones and add up to the milestone amount. *)
Theorem C2_release_fee_split msg_sender block_timestamp pid mid s s' log :
  approveMilestone msg_sender pid mid s = Ok (tt, s', log)
  ∨ autoApproveMilestone block_timestamp pid mid s = Ok (tt, s', log) →
  ∃ m fee payeeAmount,
    milestoneOf s pid mid = Some m
    ∧ fee = m_amount m * platformFeePercent s / 100
    ∧ m_amount m * platformFeePercent s ≤ MAX_UINT256
    ∧ payeeAmount = m_amount m - fee
    ∧ fee + payeeAmount = m_amount m
    ∧ transfers log = [(p_freelancer (getProject s pid), payeeAmount);
                       (owner s, fee)]
    ∧ (m_status <$> milestoneOf s' pid mid) = Some MilestoneStatus.APPROVED.
Proof.
  intros H.
  assert (∃ m pre, milestoneOf s pid mid = Some m ∧ release_ok m s = true
            ∧ s' = set_locked false (fst (released pid mid m (set_locked true s)))
            ∧ log = pre ++ snd (released pid mid m (set_locked true s))
            ∧ transfers pre = []) as (m & pre & Hm & Hok & -> & -> & Hpre).
  { destruct H as [H|H].
    - apply approve_Ok in H as (m & Hm & _ & _ & _ & _ & _ & _ & Hok & -> & ->).
      by exists m, [].
    - apply autoApprove_Ok in H
        as (m & Hm & _ & _ & _ & _ & _ & _ & _ & Hok & -> & ->).
      by exists m, [MilestoneAutoApproved pid mid]. }
  apply release_ok_split in Hok as (H1 & H2 & H3).
  exists m, (m_amount m * platformFeePercent s / 100),
    (m_amount m - m_amount m * platformFeePercent s / 100).
  repeat split; try done; [lia| |].
  - unfold transfers in *. rewrite omap_app, Hpre.
    exact (released_transfers pid mid m (set_locked true s)).
  - change (milestoneOf (set_locked false ?x) pid mid) with (milestoneOf x pid mid).
    rewrite released_milestone; [done|exact Hm].
Qed.

Lemma C2_witness :
  ∃ s' log,
    approveMilestone Sample.client 0 0 Sample.submitted = Ok (tt, s', log)
    ∧ transfers log = [(Sample.freelancer, 980); (Sample.deployer, 20)].
Proof.
  assert (approveMilestone Sample.client 0 0 Sample.submitted
          = Ok (tt, Sample.approved,
                [Transfer Sample.freelancer 980 Sample.approval_seen;
                 Transfer Sample.deployer 20
                   (set_balance 0 Sample.approval_seen);
                 MilestoneApproved 0 0; PaymentReleased 0 0 980])) as Hrun
    by (vm_compute; reflexivity).
  destruct (C2_release_fee_split Sample.client 0 0 0 Sample.submitted _ _
              (or_introl Hrun))
    as (m & fee & payee & Hm & -> & _ & -> & _ & Ht & _).
  eexists _, _. split; [exact Hrun|]. rewrite Ht.
  vm_compute in Hm. injection Hm as <-. vm_compute. reflexivity.
Defined.

(** C7, amended: [autoApproveMilestone] takes no account of the caller.  It
    succeeds exactly when the milestone exists, the contract is neither
    paused nor inside another guarded call, the project is ACTIVE, the
    milestone is SUBMITTED, the time is at or after [submittedAt + 7 days],
    the fee computation and the funds are in order and both the freelancer
    and the owner accept their payment.  With the guards passed, before that
    instant it fails with TimeoutError, and from that instant on it aborts
    when one of the two recipients refuses the payment.  When it succeeds,
    the milestone is APPROVED, the freelancer is paid the amount less the fee
    and the owner the fee, the contract holds the amount less, the project
    is COMPLETED if that was its last milestone, and the client's
    [approveMilestone] on the same storage yields the same storage and the
    same log, the [MilestoneAutoApproved] event apart. *)
Theorem C7_auto_approve msg_sender block_timestamp pid mid s :
  ((∃ s' log, dispatch msg_sender block_timestamp
                (AutoApproveMilestone pid mid) s = Ok (tt, s', log))
   ↔ ∃ m, milestoneOf s pid mid = Some m
       ∧ pid < projectCounter s
       ∧ locked s = false
       ∧ paused s = false
       ∧ p_status (getProject s pid) = ProjectStatus.ACTIVE
       ∧ m_status m = MilestoneStatus.SUBMITTED
       ∧ m_submittedAt m + AUTO_APPROVE_TIMEOUT ≤ MAX_UINT256
       ∧ m_submittedAt m + AUTO_APPROVE_TIMEOUT ≤ block_timestamp
       ∧ release_ok m s = true
       ∧ (p_freelancer (getProject s pid) ∉ refusing s)
       ∧ (owner s ∉ refusing s))
  ∧ (∀ m,
       milestoneOf s pid mid = Some m →
       pid < projectCounter s →
       locked s = false →
       paused s = false →
       p_status (getProject s pid) = ProjectStatus.ACTIVE →
       m_status m = MilestoneStatus.SUBMITTED →
       m_submittedAt m + AUTO_APPROVE_TIMEOUT ≤ MAX_UINT256 →
       (block_timestamp < m_submittedAt m + AUTO_APPROVE_TIMEOUT →
        fails_with (dispatch msg_sender block_timestamp
                      (AutoApproveMilestone pid mid) s) TimeoutError)
       ∧ (m_submittedAt m + AUTO_APPROVE_TIMEOUT ≤ block_timestamp →
          release_ok m s = true →
          p_freelancer (getProject s pid) ∈ refusing s
          ∨ owner s ∈ refusing s →
          dispatch msg_sender block_timestamp (AutoApproveMilestone pid mid) s
          = Revert "Transfer failed"))
  ∧ (∀ s' log,
       dispatch msg_sender block_timestamp (AutoApproveMilestone pid mid) s
       = Ok (tt, s', log) →
       ∃ m, milestoneOf s pid mid = Some m
         ∧ milestoneOf s' pid mid
           = Some (m_set_status MilestoneStatus.APPROVED m)
         ∧ transfers log
           = [(p_freelancer (getProject s pid),
               m_amount m - m_amount m * platformFeePercent s / 100);
              (owner s, m_amount m * platformFeePercent s / 100)]
         ∧ balance s' = balance s - m_amount m
         ∧ p_status (getProject s' pid)
           = (if allMilestonesApproved s' pid
              then ProjectStatus.COMPLETED else ProjectStatus.ACTIVE)
         ∧ ∃ log', log = MilestoneAutoApproved pid mid :: log'
             ∧ dispatch (p_client (getProject s pid)) block_timestamp
                 (ApproveMilestone pid mid) s = Ok (tt, s', log')).
Proof.
  simpl. split; [split|split].
  - intros (s' & log & H).
    destruct (autoApprove_accepted _ _ _ _ _ _ _ H) as [Hf Ho].
    apply autoApprove_Ok in H
      as (m & Hm & Hp & Hl & Hpa & Hst & Hms & Hov & Hdue & Hok & _).
    by exists m.
  - intros (m & Hm & Hp & Hl & Hpa & Hst & Hms & Hov & Hdue & Hok & Hf & Ho).
    eexists _, _. by apply (autoApprove_eq _ _ _ _ m).
  - intros m Hm Hp Hl Hpa Hst Hms Hov. split.
    + intros Hdue. eexists. split;
        [by apply (autoApprove_early _ _ _ _ m)|reflexivity].
    + intros Hdue Hok Hr. by apply (autoApprove_refused _ _ _ _ m).
  - intros s' log H.
    destruct (autoApprove_accepted _ _ _ _ _ _ _ H) as [Hf Ho].
    apply autoApprove_Ok in H
      as (m & Hm & Hp & Hl & Hpa & Hst & Hms & _ & Hdue & Hok & -> & ->).
    exists m. split; [done|]. split; [|split; [|split; [|split]]].
    + change (milestoneOf (set_locked false ?x) pid mid)
        with (milestoneOf x pid mid).
      by apply released_milestone.
    + exact (released_transfers pid mid m (set_locked true s)).
    + change (balance (set_locked false ?x)) with (balance x).
      by rewrite released_balance.
    + change (getProject (set_locked false ?x) pid) with (getProject x pid).
      change (allMilestonesApproved (set_locked false ?x) pid)
        with (allMilestonesApproved x pid).
      rewrite released_status.
      change (getProject (set_locked true s) pid) with (getProject s pid).
      by rewrite Hst.
    + eexists. split; [reflexivity|]. by apply approve_eq.
Qed.

Lemma C7_witness :
  (∃ s' log, dispatch Sample.admin2 (1002 + AUTO_APPROVE_TIMEOUT)
               (AutoApproveMilestone 0 0) Sample.submitted = Ok (tt, s', log))
  ∧ fails_with (dispatch Sample.admin2 (1001 + AUTO_APPROVE_TIMEOUT)
                  (AutoApproveMilestone 0 0) Sample.submitted) TimeoutError.
Proof.
  pose proof (C7_auto_approve Sample.admin2 (1002 + AUTO_APPROVE_TIMEOUT) 0 0
                Sample.submitted) as (H1 & _ & _).
  pose proof (C7_auto_approve Sample.admin2 (1001 + AUTO_APPROVE_TIMEOUT) 0 0
                Sample.submitted) as (_ & H2 & _).
  split.
  - apply H1.
    exists (mkMilestone "Milestone 1" 1000 700000
              MilestoneStatus.SUBMITTED "QmHash123" 1002).
    repeat split; vm_compute; congruence.
  - apply (H2 (mkMilestone "Milestone 1" 1000 700000
                 MilestoneStatus.SUBMITTED "QmHash123" 1002));
      vm_compute; congruence.
Defined.

(** C7, as stated, fails: the sample milestone is SUBMITTED in an ACTIVE
    project and its window has elapsed, yet anyone's [autoApproveMilestone]
    aborts, and so does the client's approval, once the freelancer is an
    account that refuses transfers; the abort is none of the errors of the
    taxonomy. *)
Lemma C7_counterexample :
  reachable Sample.deployer Sample.unpayable
  ∧ p_status (getProject Sample.unpayable 0) = ProjectStatus.ACTIVE
  ∧ milestoneOf Sample.unpayable 0 0
    = Some (mkMilestone "Milestone 1" 1000 700000
              MilestoneStatus.SUBMITTED "QmHash123" 1002)
  ∧ paused Sample.unpayable = false
  ∧ 1000 ≤ balance Sample.unpayable
  ∧ dispatch Sample.admin2 (1002 + AUTO_APPROVE_TIMEOUT)
      (AutoApproveMilestone 0 0) Sample.unpayable
    = Revert "Transfer failed"
  ∧ dispatch Sample.client (1002 + AUTO_APPROVE_TIMEOUT)
      (ApproveMilestone 0 0) Sample.unpayable
    = Revert "Transfer failed"
  ∧ error_kind "Transfer failed" = None.
Proof.
  split; [apply reach_world; repeat apply reach_step; apply reach_init|].
  repeat split; try (vm_compute; reflexivity).
  vm_compute. discriminate.
Qed.

(** C10: [getUserRating] never aborts.  With no rating recorded for the
    address it returns 0, where the division on its own would abort on the
    zero count; otherwise it returns the floor of the rating points over the
    rating count. *)
Theorem C10_getUserRating_total s _user :
  (∃ r, getUserRating s _user = Ok r)
  ∧ (default 0 (userRatingCount s !! _user) = 0 →
     getUserRating s _user = Ok 0
     ∧ div256 (default 0 (userRatings s !! _user))
              (default 0 (userRatingCount s !! _user))
       = Revert "Panic(0x12)")
  ∧ (0 < default 0 (userRatingCount s !! _user) →
     ∃ r, getUserRating s _user = Ok r
       ∧ r = default 0 (userRatings s !! _user)
             / default 0 (userRatingCount s !! _user)
       ∧ r * default 0 (userRatingCount s !! _user)
         ≤ default 0 (userRatings s !! _user)
       ∧ default 0 (userRatings s !! _user)
         < (r + 1) * default 0 (userRatingCount s !! _user)).
Proof.
  unfold getUserRating, div256.
  set (c := default 0 (userRatingCount s !! _user)).
  set (t := default 0 (userRatings s !! _user)).
  split; [|split].
  - destruct (c =? 0); eauto.
  - intros ->. done.
  - intros Hc. destruct (c =? 0) eqn:E; [apply N.eqb_eq in E; lia|].
    eexists. split; [reflexivity|]. split; [reflexivity|].
    pose proof (N.Div0.mul_div_le t c).
    pose proof (N.mul_succ_div_gt t c ltac:(lia)). lia.
Qed.

Lemma C10_witness :
  getUserRating (constructor Sample.deployer) Sample.freelancer = Ok 0
  ∧ getUserRating Sample.rated Sample.freelancer = Ok 4.
Proof.
  split.
  - apply (proj1 (proj2 (C10_getUserRating_total (constructor Sample.deployer)
                           Sample.freelancer))).
    reflexivity.
  - destruct (proj2 (proj2 (C10_getUserRating_total Sample.rated
                              Sample.freelancer)))
      as (r & Hr & -> & _); [vm_compute; reflexivity|].
    rewrite Hr. vm_compute. reflexivity.
Defined.

(** * Dispute resolution *)

Lemma tallyVotes_Ok l d t v s r s' log :
  tallyVotes l d t v s = Ok (r, s', log) →
  r = (t + sum_votes d (List.filter (hasVoted d) l),
       v + N.of_nat (length (List.filter (hasVoted d) l)))
  ∧ s' = s ∧ log = [].
Proof.
  revert t v log. induction l as [|a l IH]; intros t v log H; simpl in H.
  - unfold ret in H. injection H as <- <- <-. simpl.
    by rewrite !N.add_0_r.
  - simpl. destruct (hasVoted d a) eqn:Ha.
    + minv.
      match goal with H : tallyVotes _ _ _ _ _ = Ok _ |- _ =>
        apply IH in H as (Hr & Hs & Hl) end.
      subst. repeat split. simpl. f_equal; lia.
    + by apply IH.
Qed.

Lemma resolution_Ok did s u s' log :
  _executeDisputeResolution did s = Ok (u, s', log) →
  let d := getDispute s did in
  ∃ m, locked s = false
    ∧ d_isResolved d = false
    ∧ voters s d ≠ []
    ∧ milestoneOf s (d_projectId d) (d_milestoneId d) = Some m
    ∧ m_amount m * avg_vote s d ≤ MAX_UINT256
    ∧ m_amount m * avg_vote s d / 100 ≤ m_amount m
    ∧ (s', log) = resolved did m (avg_vote s d) s.
Proof.
  unfold _executeDisputeResolution. intros H. xinv.
  all: match goal with H : tallyVotes _ _ _ _ _ = Ok _ |- _ =>
         apply tallyVotes_Ok in H as (-> & -> & ->) end.
  all: simpl in * |-; rewrite !N.add_0_l in *; frame.
  all: match goal with Hm : getMilestones _ _ !! _ = Some ?m |- _ => exists m end.
  all: unfold resolved, avg_vote, voters, sum_votes in *.
  all: repeat match goal with
         | H : (0 <? ?x) = _ |- context [0 <? ?x] => rewrite H
         end.
  all: props.
  all: split; [done|]; split; [done|].
  all: split; [intros E; match goal with H : N.of_nat _ ≠ 0 |- _ => apply H end;
              by rewrite E|].
  all: split; [done|]; split; [done|]; split; [done|].
  all: subst; reflexivity.
Qed.

Lemma getDispute_upd did f s :
  getDispute (updDispute did f s) did = f (getDispute s did).
Proof. unfold getDispute, updDispute; simpl. by rewrite lookup_insert_eq. Qed.

Lemma getDispute_upd_ne did did' f s :
  did ≠ did' → getDispute (updDispute did f s) did' = getDispute s did'.
Proof. intros. unfold getDispute, updDispute; simpl. by rewrite lookup_insert_ne. Qed.

Lemma getProject_upd pid f s :
  getProject (updProject pid f s) pid = f (getProject s pid).
Proof. unfold getProject, updProject; simpl. by rewrite lookup_insert_eq. Qed.

Lemma getProject_upd_ne pid pid' f s :
  pid ≠ pid' → getProject (updProject pid f s) pid' = getProject s pid'.
Proof. intros. unfold getProject, updProject; simpl. by rewrite lookup_insert_ne. Qed.

Lemma resolved_transfers did m avg s :
  transfers (snd (resolved did m avg s))
  = nonzero
      [(p_freelancer (getProject s (d_projectId (getDispute s did))),
        m_amount m * avg / 100);
       (p_client (getProject s (d_projectId (getDispute s did))),
        m_amount m - m_amount m * avg / 100)].
Proof.
  unfold resolved, nonzero, transfers. simpl.
  destruct (0 <? m_amount m * avg / 100);
    destruct (0 <? m_amount m - m_amount m * avg / 100); reflexivity.
Qed.

Lemma resolved_last did m avg s :
  last (snd (resolved did m avg s)) = Some (DisputeResolved did avg).
Proof. unfold resolved. simpl. by rewrite !last_app. Qed.

(** What a recipient of a resolution transfer sees: the lock taken, and
    every record as it was before the resolution started. *)
Lemma resolved_snapshots did m avg s σ :
  σ ∈ snapshots (snd (resolved did m avg s)) →
  locked σ = true
  ∧ paused σ = paused s
  ∧ projectCounter σ = projectCounter s
  ∧ disputeCounter σ = disputeCounter s
  ∧ projects σ = projects s
  ∧ projectMilestones σ = projectMilestones s
  ∧ disputes σ = disputes s
  ∧ isAdmin σ = isAdmin s ∧ owner σ = owner s.
Proof.
  unfold resolved, snapshots. simpl.
  destruct (0 <? m_amount m * avg / 100);
    destruct (0 <? m_amount m - m_amount m * avg / 100); simpl;
    rewrite ?elem_of_cons, ?elem_of_nil; intros H;
    repeat destruct H as [H|H]; try done; subst; done.
Qed.

Lemma resolved_dispute did m avg s :
  getDispute (fst (resolved did m avg s)) did = d_set_resolved (getDispute s did).
Proof.
  unfold resolved. simpl fst. frame.
  destruct (0 <? _); destruct (0 <? _); frame; by rewrite getDispute_upd.
Qed.

Lemma resolved_dispute_ne did did' m avg s :
  did ≠ did' →
  getDispute (fst (resolved did m avg s)) did' = getDispute s did'.
Proof.
  intros. unfold resolved. simpl fst. frame.
  destruct (0 <? _); destruct (0 <? _); frame; by rewrite getDispute_upd_ne.
Qed.

Lemma resolved_milestone did m avg s :
  milestoneOf s (d_projectId (getDispute s did))
    (d_milestoneId (getDispute s did)) = Some m →
  milestoneOf (fst (resolved did m avg s)) (d_projectId (getDispute s did))
    (d_milestoneId (getDispute s did))
  = Some (m_set_status MilestoneStatus.APPROVED m).
Proof.
  intros Hm. unfold resolved. simpl fst. frame. rewrite milestoneOf_upd. frame.
  destruct (0 <? _); destruct (0 <? _); frame; by rewrite Hm.
Qed.

Lemma resolved_milestone_ne did m avg s pid mid :
  (pid, mid) ≠ (d_projectId (getDispute s did), d_milestoneId (getDispute s did)) →
  milestoneOf (fst (resolved did m avg s)) pid mid = milestoneOf s pid mid.
Proof.
  intros Hne. unfold resolved. simpl fst. frame.
  rewrite milestoneOf_upd_ne by done. frame.
  destruct (0 <? _); destruct (0 <? _); by frame.
Qed.

Lemma resolved_project did m avg s :
  getProject (fst (resolved did m avg s)) (d_projectId (getDispute s did))
  = p_set_status ProjectStatus.ACTIVE
      (getProject s (d_projectId (getDispute s did))).
Proof.
  unfold resolved. simpl fst. frame. rewrite getProject_upd. frame.
  destruct (0 <? _); destruct (0 <? _); by frame.
Qed.

Lemma resolved_frame did m avg s :
  let s' := fst (resolved did m avg s) in
  locked s' = false
  ∧ paused s' = paused s
  ∧ projectCounter s' = projectCounter s
  ∧ disputeCounter s' = disputeCounter s
  ∧ isAdmin s' = isAdmin s ∧ adminList s' = adminList s ∧ owner s' = owner s
  ∧ platformFeePercent s' = platformFeePercent s.
Proof.
  unfold resolved. simpl.
  destruct (0 <? _); destruct (0 <? _); done.
Qed.

Opaque resolved.

Lemma vote_Ok sender did pct s u s' log :
  voteOnDispute sender did pct s = Ok (u, s', log) →
  let d := getDispute s did in
  let sv := updDispute did (voted sender pct) s in
  (isAdminb s sender || (sender =? owner s)) = true
  ∧ paused s = false
  ∧ did < disputeCounter s
  ∧ d_isResolved d = false
  ∧ pct ≤ 100
  ∧ hasVoted d sender = false
  ∧ if REQUIRED_ADMIN_VOTES <=? d_voteCount d + 1
    then ∃ m, locked s = false
           ∧ voters sv (voted sender pct d) ≠ []
           ∧ milestoneOf s (d_projectId d) (d_milestoneId d) = Some m
           ∧ m_amount m * avg_vote sv (voted sender pct d) ≤ MAX_UINT256
           ∧ m_amount m * avg_vote sv (voted sender pct d) / 100 ≤ m_amount m
           ∧ s' = fst (resolved did m (avg_vote sv (voted sender pct d)) sv)
           ∧ log = DisputeVoted did sender pct
                     :: snd (resolved did m (avg_vote sv (voted sender pct d)) sv)
    else s' = sv ∧ log = [DisputeVoted did sender pct].
Proof.
  unfold voteOnDispute. intros H. xinv.
  - match goal with H : _executeDisputeResolution _ _ = Ok _ |- _ =>
      apply resolution_Ok in H; cbv zeta in H;
      destruct H as (m & Hl & Hr & Hv & Hm & Ha & Hb & Hres) end.
    rewrite getDispute_upd in *. simpl in Hm. frame.
    cbv zeta.
    props. repeat (split; [done|]).
    exists m. rewrite <- Hres. simpl. subst. done.
  - cbv zeta.
    props. repeat (split; [done|]). subst. done.
Qed.



(** C6: once the resolution triggered by a quorum vote has completed, the
    disputed milestone is APPROVED, the dispute is flagged resolved and the
    project is ACTIVE; it is not set to COMPLETED even when no milestone of
    the project is left unapproved. *)
Theorem C6_resolution_leaves_project_active :
  (∀ msg_sender did pct s s' log,
     voteOnDispute msg_sender did pct s = Ok (tt, s', log) →
     REQUIRED_ADMIN_VOTES ≤ d_voteCount (getDispute s did) + 1 →
     let pid := d_projectId (getDispute s did) in
     let mid := d_milestoneId (getDispute s did) in
     (m_status <$> milestoneOf s' pid mid) = Some MilestoneStatus.APPROVED
     ∧ d_isResolved (getDispute s' did) = true
     ∧ p_status (getProject s' pid) = ProjectStatus.ACTIVE)
  ∧ ((∃ log, voteOnDispute Sample.admin2 0 40 Sample.one_vote
               = Ok (tt, Sample.resolved, log))
     ∧ allMilestonesApproved Sample.resolved 0 = true
     ∧ p_status (getProject Sample.resolved 0) = ProjectStatus.ACTIVE).
Proof.
  split.
  - intros sender did pct s s' log H Hq. cbv zeta.
    apply vote_Ok in H. cbv zeta in H.
    destruct H as (_ & _ & _ & _ & _ & _ & H).
    apply N.leb_le in Hq. rewrite Hq in H.
    destruct H as (m & _ & Hv & Hm & Ha & Hb & -> & _).
    set (sv := updDispute did (voted sender pct) s) in *.
    assert (getDispute sv did = voted sender pct (getDispute s did)) as Hd
      by apply getDispute_upd.
    assert (d_projectId (getDispute s did) = d_projectId (getDispute sv did)
            ∧ d_milestoneId (getDispute s did) = d_milestoneId (getDispute sv did))
      as [-> ->] by (by rewrite Hd).
    rewrite resolved_milestone, resolved_dispute, resolved_project; [done|].
    rewrite Hd. exact Hm.
  - split; [eexists; vm_compute; reflexivity|].
    split; vm_compute; reflexivity.
Qed.

Lemma C6_witness :
  (m_status <$> milestoneOf Sample.resolved 0 0) = Some MilestoneStatus.APPROVED
  ∧ d_isResolved (getDispute Sample.resolved 0) = true
  ∧ p_status (getProject Sample.resolved 0) = ProjectStatus.ACTIVE.
Proof.
  apply (proj1 C6_resolution_leaves_project_active Sample.admin2 0 40
           Sample.one_vote Sample.resolved
           [DisputeVoted 0 Sample.admin2 40;
            Transfer Sample.freelancer 500
              (set_balance 500
                 (set_locked true
                    (updDispute 0 (voted Sample.admin2 40) Sample.one_vote)));
            Transfer Sample.client 500
              (set_balance 0
                 (set_locked true
                    (updDispute 0 (voted Sample.admin2 40) Sample.one_vote)));
            DisputeResolved 0 50]).
  - vm_compute. reflexivity.
  - vm_compute. congruence.
Defined.

(** * Re-entrancy *)

Lemma cancel_Ok sender pid s u s' log :
  cancelProject sender pid s = Ok (u, s', log) →
  locked s = false
  ∧ ∀ σ, σ ∈ snapshots log →
      locked σ = true
      ∧ p_status (getProject σ pid) = ProjectStatus.CANCELLED.
Proof.
  unfold cancelProject. intros H. xinv. split; [done|].
  subst. simpl. intros σ. unfold snapshots. simpl.
  rewrite elem_of_cons, elem_of_nil. intros [->|[]]. split; [done|].
  frame. by rewrite getProject_upd.
Qed.

(** While the lock is held no call that pays out can move value. *)
Lemma locked_no_payout sender now c σ s' log :
  locked σ = true → pays_out c = true →
  dispatch sender now c σ = Ok (tt, s', log) → transfers log = [].
Proof.
  intros Hl Hc H. destruct c; try discriminate Hc; simpl in H.
  - apply approve_Ok in H as (m & _ & _ & _ & Hl' & _). congruence.
  - apply autoApprove_Ok in H as (m & _ & _ & Hl' & _). congruence.
  - apply vote_Ok in H. cbv zeta in H.
    destruct H as (_ & _ & _ & _ & _ & _ & H).
    destruct (REQUIRED_ADMIN_VOTES <=? _).
    + destruct H as (m & Hl' & _). simpl in Hl'. congruence.
    + destruct H as [_ ->]. reflexivity.
  - apply cancel_Ok in H as [Hl' _]. congruence.
Qed.

(** C1 (as the contract has it): in every call that pays out, the
    re-entrancy lock is held at each outbound transfer, so that a call that
    pays out, made from inside the transfer, cannot move value a second
    time; an approval has set the milestone APPROVED, and a cancellation the
    project CANCELLED, before the first transfer. *)
Theorem C1_lock_held_at_every_transfer msg_sender block_timestamp c s s' log σ :
  pays_out c = true →
  dispatch msg_sender block_timestamp c s = Ok (tt, s', log) →
  σ ∈ snapshots log →
  locked σ = true
  ∧ (∀ sender' now' c' s'' log',
       pays_out c' = true →
       dispatch sender' now' c' σ = Ok (tt, s'', log') → transfers log' = [])
  ∧ match c with
    | ApproveMilestone pid mid | AutoApproveMilestone pid mid =>
        (m_status <$> milestoneOf σ pid mid) = Some MilestoneStatus.APPROVED
    | CancelProject pid =>
        p_status (getProject σ pid) = ProjectStatus.CANCELLED
    | _ => True
    end.
Proof.
  intros Hc H Hσ.
  assert (locked σ = true
          ∧ match c with
            | ApproveMilestone pid mid | AutoApproveMilestone pid mid =>
                (m_status <$> milestoneOf σ pid mid)
                = Some MilestoneStatus.APPROVED
            | CancelProject pid =>
                p_status (getProject σ pid) = ProjectStatus.CANCELLED
            | _ => True
            end) as [Hl Hst].
  { destruct c; try discriminate Hc; simpl in H.
    - apply approve_Ok in H as (m & Hm & _ & _ & _ & _ & _ & _ & _ & -> & ->).
      apply (released_snapshots _ _ m) in Hσ as (Hl & Hm' & _); [|exact Hm].
      rewrite Hm'. done.
    - apply autoApprove_Ok in H
        as (m & Hm & _ & _ & _ & _ & _ & _ & _ & _ & -> & ->).
      change (snapshots (?e :: ?l)) with (snapshots l) in Hσ.
      apply (released_snapshots _ _ m) in Hσ as (Hl & Hm' & _); [|exact Hm].
      rewrite Hm'. done.
    - apply vote_Ok in H. cbv zeta in H.
      destruct H as (_ & _ & _ & _ & _ & _ & H).
      destruct (REQUIRED_ADMIN_VOTES <=? _).
      + destruct H as (m & _ & _ & _ & _ & _ & -> & ->).
        change (snapshots (?e :: ?l)) with (snapshots l) in Hσ.
        apply resolved_snapshots in Hσ as (Hl & _). done.
      + destruct H as [_ ->]. by apply elem_of_nil in Hσ.
    - apply cancel_Ok in H as [_ H]. by apply H. }
  split; [exact Hl|]. split; [|exact Hst].
  intros sender' now' c' s'' log' Hc' H'.
  by apply (locked_no_payout sender' now' c' σ s'' log').
Qed.

Lemma C1_witness :
  locked Sample.approval_seen = true
  ∧ (m_status <$> milestoneOf Sample.approval_seen 0 0)
    = Some MilestoneStatus.APPROVED.
Proof.
  destruct (C1_lock_held_at_every_transfer Sample.client 1003
              (ApproveMilestone 0 0) Sample.submitted Sample.approved
              [Transfer Sample.freelancer 980 Sample.approval_seen;
               Transfer Sample.deployer 20 (set_balance 0 Sample.approval_seen);
               MilestoneApproved 0 0; PaymentReleased 0 0 980]
              Sample.approval_seen)
    as (Hl & _ & Hm).
  - reflexivity.
  - vm_compute. reflexivity.
  - unfold snapshots; simpl. apply list_elem_of_here.
  - exact (conj Hl Hm).
Defined.

(** C1, as stated, fails: when the second vote resolves the sample dispute,
    the recipient of the first transfer is handed control while the dispute
    is still unresolved and the milestone and the project are still
    DISPUTED; the three writes come after the transfers.  Likewise the
    COMPLETED status of a project is written after the approval's
    transfers. *)
Lemma C1_counterexample :
  (∃ s' log recipient amount seen,
     dispatch Sample.admin2 1005 (VoteOnDispute 0 40) Sample.one_vote
     = Ok (tt, s', log)
     ∧ log !! 1%nat = Some (Transfer recipient amount seen)
     ∧ d_isResolved (getDispute seen 0) = false
     ∧ d_isResolved (getDispute s' 0) = true
     ∧ (m_status <$> milestoneOf seen 0 0) = Some MilestoneStatus.DISPUTED
     ∧ (m_status <$> milestoneOf s' 0 0) = Some MilestoneStatus.APPROVED
     ∧ p_status (getProject seen 0) = ProjectStatus.DISPUTED
     ∧ p_status (getProject s' 0) = ProjectStatus.ACTIVE)
  ∧ (∃ s' log recipient amount seen,
       dispatch Sample.client 1003 (ApproveMilestone 0 0) Sample.submitted
       = Ok (tt, s', log)
       ∧ log !! 0%nat = Some (Transfer recipient amount seen)
       ∧ p_status (getProject seen 0) = ProjectStatus.ACTIVE
       ∧ p_status (getProject s' 0) = ProjectStatus.COMPLETED).
Proof.
  split.
  - eexists _, _, _, _, _. split; [vm_compute; reflexivity|].
    split; [reflexivity|]. repeat split; vm_compute; reflexivity.
  - eexists _, _, _, _, _. split; [vm_compute; reflexivity|].
    split; [reflexivity|]. repeat split; vm_compute; reflexivity.
Qed.

(** * The pause gate *)

Lemma exec_Revert sender now c s msg :
  dispatch sender now c s = Revert msg → exec sender now c s = s.
Proof. unfold exec. by intros ->. Qed.

(** C5 (as the contract has it): while the contract is paused, every
    function other than [pause], [unpause], [addAdmin], [removeAdmin] and
    [setPlatformFee] aborts and leaves the storage untouched; the abort is
    an UnavailableError whenever the modifiers listed before the pause gate
    (project existence, caller role, re-entrancy lock) let the call through,
    which is always the case for [createProject] and [rateUser]. *)
Theorem C5_paused_rejects msg_sender block_timestamp c s :
  paused s = true →
  pause_gated c = true →
  (∃ msg, dispatch msg_sender block_timestamp c s = Revert msg)
  ∧ exec msg_sender block_timestamp c s = s
  ∧ (guards_before_pause msg_sender c s = true →
     fails_with (dispatch msg_sender block_timestamp c s) UnavailableError).
Proof.
  intros Hp Hc.
  assert (∃ msg, dispatch msg_sender block_timestamp c s = Revert msg
                 ∧ (guards_before_pause msg_sender c s = true →
                    msg = "Pausable: paused")) as (msg & Hr & Hmsg).
  { destruct c; try discriminate Hc; simpl.
    - unfold createProject. mrun. simpl. rewrite Hp. simpl. eauto.
    - unfold acceptProject. mrun.
      destruct (_ <? _); [|by eexists]. rewrite Hp. simpl. eauto.
    - unfold submitMilestone. mrun.
      destruct (_ <? _); [|by eexists].
      destruct (_ =? _); [|by eexists]. rewrite Hp. simpl. eauto.
    - unfold approveMilestone. mrun.
      destruct (_ <? _); [|by eexists].
      destruct (_ =? _); [|by eexists].
      destruct (locked s); [by eexists|]. simpl. rewrite Hp. simpl. eauto.
    - unfold autoApproveMilestone. mrun.
      destruct (_ <? _); [|by eexists].
      destruct (locked s); [by eexists|]. simpl. rewrite Hp. simpl. eauto.
    - unfold raiseDispute. mrun.
      destruct (_ <? _); [|by eexists].
      destruct (_ || _); [|by eexists]. rewrite Hp. simpl. eauto.
    - unfold voteOnDispute. mrun.
      destruct (_ || _); [|by eexists]. rewrite Hp. simpl. eauto.
    - unfold rateUser. mrun. rewrite Hp. simpl. eauto.
    - unfold cancelProject. mrun.
      destruct (_ <? _); [|by eexists].
      destruct (_ =? _); [|by eexists].
      destruct (locked s); [by eexists|]. simpl. rewrite Hp. simpl. eauto. }
  split; [by exists msg|]. split; [by apply (exec_Revert _ _ _ _ msg)|].
  intros Hg. exists msg. split; [done|]. by rewrite (Hmsg Hg).
Qed.

Lemma C5_witness :
  (∃ msg, dispatch Sample.client 5 (RateUser Sample.freelancer 5) Sample.halted
          = Revert msg)
  ∧ exec Sample.client 5 (RateUser Sample.freelancer 5) Sample.halted
    = Sample.halted
  ∧ fails_with (dispatch Sample.client 5 (RateUser Sample.freelancer 5)
                  Sample.halted) UnavailableError.
Proof.
  destruct (C5_paused_rejects Sample.client 5 (RateUser Sample.freelancer 5)
              Sample.halted) as (H1 & H2 & H3).
  - vm_compute. reflexivity.
  - reflexivity.
  - split; [exact H1|]. split; [exact H2|]. apply H3. reflexivity.
Defined.

(** C5, as stated, fails for [setPlatformFee]: the owner changes the fee of
    a paused contract.  And a gated function need not answer with
    UnavailableError: a stranger's [approveMilestone] on the paused contract
    is turned down by [onlyClient] before the pause gate is reached. *)
Lemma C5_counterexample :
  (paused Sample.halted = true
   ∧ platformFeePercent Sample.halted = 2
   ∧ ∃ s', dispatch Sample.deployer 2 (SetPlatformFee 5) Sample.halted
           = Ok (tt, s', [])
           ∧ platformFeePercent s' = 5
           ∧ exec Sample.deployer 2 (SetPlatformFee 5) Sample.halted
             ≠ Sample.halted)
  ∧ (paused Sample.halted_submitted = true
     ∧ dispatch Sample.admin2 2001 (ApproveMilestone 0 0)
         Sample.halted_submitted
       = Revert "Only client can call this"
     ∧ error_kind "Only client can call this" = Some AuthorizationError).
Proof.
  split.
  - split; [vm_compute; reflexivity|]. split; [vm_compute; reflexivity|].
    eexists. split; [vm_compute; reflexivity|]. split; [reflexivity|].
    intros E. apply (f_equal platformFeePercent) in E. vm_compute in E.
    discriminate E.
  - split; [vm_compute; reflexivity|]. split; vm_compute; reflexivity.
Qed.

(** * The invariant *)

Lemma Core_frame s s' :
  projectCounter s' = projectCounter s →
  projects s' = projects s →
  projectMilestones s' = projectMilestones s →
  disputeCounter s' = disputeCounter s →
  disputes s' = disputes s →
  adminList s' = adminList s →
  isAdmin s' = isAdmin s →
  Core s → Core s'.
Proof.
  destruct s, s'; simpl. intros -> -> -> -> -> -> -> [H1 H2 H3 H4 H5 H6].
  constructor; assumption.
Qed.

Lemma Core_updProject pid f s :
  pid < projectCounter s → Core s → Core (updProject pid f s).
Proof.
  intros Hp [H1 H2 H3 H4 H5 H6]. constructor; try assumption.
  intros pid' Hle. simpl in Hle. destruct (H1 pid' Hle) as [Ha Hb].
  split; [|exact Hb].
  unfold updProject; simpl. rewrite lookup_insert_ne; [done|lia].
Qed.

Lemma Core_updMilestone pid mid f s m :
  pid < projectCounter s →
  milestoneOf s pid mid = Some m →
  m_status m ≠ MilestoneStatus.DISPUTED →
  Core s → Core (updMilestone pid mid f s).
Proof.
  intros Hp Hm Hst [H1 H2 H3 H4 H5 H6]. constructor; try assumption.
  - intros pid' Hle. simpl in Hle. destruct (H1 pid' Hle) as [Ha Hb].
    split; [exact Ha|].
    unfold updMilestone; simpl. rewrite lookup_insert_ne; [done|lia].
  - intros did Hd Hr. frame. destruct (H2 did Hd Hr) as (m' & Hm' & Hs').
    exists m'. split; [|done].
    rewrite milestoneOf_upd_ne; [done|].
    intros [= E1 E2]. rewrite E1, E2, Hm in Hm'. congruence.
Qed.

Lemma Core_voted did sender pct s :
  Core s → Core (updDispute did (voted sender pct) s).
Proof.
  intros [H1 H2 H3 H4 H5 H6].
  assert (∀ i, d_isResolved (getDispute (updDispute did (voted sender pct) s) i)
               = d_isResolved (getDispute s i)
             ∧ d_projectId (getDispute (updDispute did (voted sender pct) s) i)
               = d_projectId (getDispute s i)
             ∧ d_milestoneId (getDispute (updDispute did (voted sender pct) s) i)
               = d_milestoneId (getDispute s i)) as Hsame.
  { intros i. destruct (decide (did = i)) as [<-|Hne].
    - by rewrite getDispute_upd.
    - by rewrite getDispute_upd_ne. }
  constructor; try assumption.
  - intros i Hi. destruct (Hsame i) as (-> & -> & ->). frame. by apply H2.
  - intros d1 d2 Hd1 Hd2.
    destruct (Hsame d1) as (-> & -> & ->).
    destruct (Hsame d2) as (-> & -> & ->). by apply H3.
Qed.

Lemma Core_resolve did s :
  did < disputeCounter s →
  d_isResolved (getDispute s did) = false →
  d_projectId (getDispute s did) < projectCounter s →
  Core s →
  Core (updMilestone (d_projectId (getDispute s did))
          (d_milestoneId (getDispute s did))
          (m_set_status MilestoneStatus.APPROVED)
          (updDispute did d_set_resolved s)).
Proof.
  intros Hd Hr Hp [H1 H2 H3 H4 H5 H6]. constructor; try assumption.
  - intros pid' Hle. simpl in Hle. destruct (H1 pid' Hle) as [Ha Hb].
    split; [exact Ha|].
    unfold updMilestone; simpl. rewrite lookup_insert_ne; [done|lia].
  - intros i Hi. frame. simpl in Hi. destruct (decide (did = i)) as [<-|Hne].
    { by rewrite getDispute_upd. }
    rewrite getDispute_upd_ne by done. intros Hri.
    destruct (H2 i Hi Hri) as (m & Hm & Hs). exists m. split; [|done].
    rewrite milestoneOf_upd_ne; [by frame|].
    intros [= E1 E2]. apply Hne. symmetry. by apply H3.
  - intros d1 d2 Hd1 Hd2. frame. simpl in Hd1, Hd2.
    destruct (decide (did = d1)) as [<-|Hne1]; [by rewrite getDispute_upd|].
    destruct (decide (did = d2)) as [<-|Hne2]; [by rewrite getDispute_upd|].
    rewrite !getDispute_upd_ne by done. by apply H3.
Qed.

Lemma Core_raise pid mid sender reason now s m :
  pid < projectCounter s →
  milestoneOf s pid mid = Some m →
  m_status m = MilestoneStatus.SUBMITTED →
  Core s →
  Core (updMilestone pid mid (m_set_status MilestoneStatus.DISPUTED)
          (updDispute (disputeCounter s)
             (fun d => mkDispute pid mid sender reason false now
                         (d_hasVoted d) (d_votes d) 0)
             (set_disputeCounter (disputeCounter s + 1) s))).
Proof.
  intros Hp Hm Hst [H1 H2 H3 H4 H5 H6]. constructor; try assumption.
  - intros pid' Hle. simpl in Hle. destruct (H1 pid' Hle) as [Ha Hb].
    split; [exact Ha|].
    unfold updMilestone; simpl. rewrite lookup_insert_ne; [done|lia].
  - intros i Hi. frame. simpl in Hi.
    destruct (decide (disputeCounter s = i)) as [<-|Hne].
    + rewrite getDispute_upd. simpl. intros _.
      rewrite milestoneOf_upd. frame. rewrite Hm. simpl. eauto.
    + rewrite getDispute_upd_ne by done. frame. intros Hri.
      destruct (H2 i ltac:(lia) Hri) as (m' & Hm' & Hs'). exists m'.
      split; [|done]. rewrite milestoneOf_upd_ne; [by frame|].
      intros [= E1 E2]. rewrite E1, E2, Hm in Hm'. congruence.
  - intros d1 d2 Hd1 Hd2. frame. simpl in Hd1, Hd2.
    destruct (decide (disputeCounter s = d1)) as [<-|Hne1];
      destruct (decide (disputeCounter s = d2)) as [<-|Hne2]; try done.
    + rewrite getDispute_upd, getDispute_upd_ne by done. simpl. frame.
      intros _ Hr2 E1 E2.
      destruct (H2 d2 ltac:(lia) Hr2) as (m' & Hm' & Hs').
      rewrite <- E1, <- E2, Hm in Hm'. congruence.
    + rewrite getDispute_upd, getDispute_upd_ne by done. simpl. frame.
      intros Hr1 _ E1 E2.
      destruct (H2 d1 ltac:(lia) Hr1) as (m' & Hm' & Hs').
      rewrite E1, E2, Hm in Hm'. congruence.
    + rewrite !getDispute_upd_ne by done. frame. apply H3; lia.
Qed.

(** * The admin roster *)

Lemma swap_pop_lookup j (l : list address) y k :
  last l = Some y →
  (j < length l)%nat →
  swap_pop j l !! k
  = if decide (k < length l - 1)%nat
    then (if decide (k = j) then Some y else l !! k)
    else None.
Proof.
  intros Hy Hj. unfold swap_pop. rewrite Hy.
  rewrite List.removelast_firstn_len, length_insert.
  change (@List.firstn) with (@take).
  destruct (decide (k < length l - 1)%nat) as [Hk|Hk].
  - rewrite lookup_take_lt by lia. destruct (decide (k = j)) as [->|Hne].
    + by rewrite list_lookup_insert_eq.
    + by rewrite list_lookup_insert_ne.
  - apply lookup_take_ge. lia.
Qed.

Lemma swap_pop_length j (l : list address) :
  l ≠ [] → length (swap_pop j l) = (length l - 1)%nat.
Proof.
  intros Hl. unfold swap_pop. destruct (last l) as [y|] eqn:Hy.
  - rewrite List.removelast_firstn_len, length_insert.
    change (@List.firstn) with (@take). rewrite length_take, ?length_insert. lia.
  - apply last_None in Hy. done.
Qed.

Lemma swap_pop_elem j (l : list address) a x :
  NoDup l → l !! j = Some a →
  x ∈ swap_pop j l ↔ x ∈ l ∧ x ≠ a.
Proof.
  intros Hnd Hj.
  assert (j < length l)%nat as Hjl by (by apply lookup_lt_Some in Hj).
  destruct (last l) as [y|] eqn:Hy;
    [|apply last_None in Hy; subst; simpl in Hjl; lia].
  pose proof Hy as Hy'. rewrite last_lookup in Hy'.
  rewrite !list_elem_of_lookup. split.
  - intros [k Hk]. rewrite (swap_pop_lookup j l y k Hy Hjl) in Hk.
    destruct (decide (k < length l - 1)%nat) as [Hlt|]; [|done].
    destruct (decide (k = j)) as [->|Hne].
    + injection Hk as <-. split; [eauto|]. intros ->.
      pose proof (proj1 (NoDup_alt l) Hnd _ _ _ Hj Hy'). lia.
    + split; [eauto|]. intros ->.
      by pose proof (proj1 (NoDup_alt l) Hnd _ _ _ Hj Hk).
  - intros [[k Hk] Hne].
    destruct (decide (k = pred (length l))) as [->|Hlast].
    + exists j. rewrite (swap_pop_lookup j l y j Hy Hjl).
      rewrite Hy' in Hk. injection Hk as ->.
      destruct (decide (j < length l - 1)%nat) as [|Hge].
      * by rewrite decide_True.
      * assert (j = pred (length l)) as -> by lia. congruence.
    + exists k. rewrite (swap_pop_lookup j l y k Hy Hjl).
      apply lookup_lt_Some in Hk as Hkl.
      rewrite decide_True by lia. rewrite decide_False; [done|].
      intros ->. congruence.
Qed.

Lemma swap_pop_NoDup j (l : list address) a :
  NoDup l → l !! j = Some a → NoDup (swap_pop j l).
Proof.
  intros Hnd Hj.
  assert (j < length l)%nat as Hjl by (by apply lookup_lt_Some in Hj).
  destruct (last l) as [y|] eqn:Hy;
    [|apply last_None in Hy; subst; simpl in Hjl; lia].
  pose proof Hy as Hy'. rewrite last_lookup in Hy'.
  apply NoDup_alt. intros k1 k2 x H1 H2.
  rewrite (swap_pop_lookup j l y _ Hy Hjl) in H1.
  rewrite (swap_pop_lookup j l y _ Hy Hjl) in H2.
  destruct (decide (k1 < length l - 1)%nat); [|done].
  destruct (decide (k2 < length l - 1)%nat); [|done].
  destruct (decide (k1 = j)) as [->|]; destruct (decide (k2 = j)) as [->|];
    try done.
  - injection H1 as <-.
    pose proof (proj1 (NoDup_alt l) Hnd _ _ _ H2 Hy'). lia.
  - injection H2 as <-.
    pose proof (proj1 (NoDup_alt l) Hnd _ _ _ H1 Hy'). lia.
  - by apply (proj1 (NoDup_alt l) Hnd _ _ _ H1 H2).
Qed.

(** The loop stops at the first slot that holds the admin. *)
Lemma removeAdmin_loop_spec (l : list address) a n i :
  a ∈ l →
  (∀ k, (k < i)%nat → l !! k ≠ Some a) →
  (length l ≤ i + n)%nat →
  ∃ j, l !! j = Some a ∧ removeAdmin_loop n i a l = swap_pop j l.
Proof.
  intros Ha. revert i. induction n as [|n IH]; intros i Hbefore Hlen.
  - exfalso. apply list_elem_of_lookup in Ha as [k Hk].
    apply (Hbefore k); [|done]. apply lookup_lt_Some in Hk. lia.
  - simpl. destruct (l !! i) as [x|] eqn:Hi.
    + destruct (x =? a) eqn:E.
      * apply N.eqb_eq in E as ->. by exists i.
      * apply N.eqb_neq in E. apply IH; [|lia].
        intros k Hk. destruct (decide (k = i)) as [Hki|];
          [rewrite Hki, Hi; by intros [= ->]|apply Hbefore; lia].
    + exfalso. apply list_elem_of_lookup in Ha as [k Hk].
      apply (Hbefore k); [|done].
      apply lookup_lt_Some in Hk. apply lookup_ge_None in Hi. lia.
Qed.

Lemma Core_addAdmin a s :
  a ∉ isAdmin s → Core s →
  Core (set_admins (isAdmin s ∪ {[a]}) (adminList s ++ [a]) s).
Proof.
  intros Hna [H1 H2 H3 H4 H5 H6]. constructor; try assumption; simpl.
  - by destruct (adminList s).
  - apply NoDup_app. split; [done|]. split; [|apply NoDup_singleton].
    intros x Hx Hx'. apply list_elem_of_singleton in Hx' as ->.
    by apply Hna, H6.
  - intros x. rewrite elem_of_union, elem_of_app, elem_of_singleton,
      list_elem_of_singleton, H6. done.
Qed.

Lemma Core_removeAdmin a s :
  a ∈ isAdmin s → (1 < length (adminList s))%nat → Core s →
  Core (set_admins (isAdmin s ∖ {[a]})
          (removeAdmin_loop (length (adminList s)) 0 a (adminList s)) s).
Proof.
  intros Ha Hlen [H1 H2 H3 H4 H5 H6].
  destruct (removeAdmin_loop_spec (adminList s) a (length (adminList s)) 0)
    as (j & Hj & ->); [by apply H6|intros; lia|lia|].
  constructor; try assumption; simpl.
  - intros E. apply (f_equal length) in E.
    rewrite swap_pop_length in E by done. simpl in E. lia.
  - by apply (swap_pop_NoDup j _ a).
  - intros x. rewrite (swap_pop_elem j _ a) by done.
    rewrite elem_of_difference, elem_of_singleton, H6. done.
Qed.

Lemma Core_create f ms s :
  Core s →
  Core (set_milestones (projectCounter s)
          (getMilestones s (projectCounter s) ++ ms)
          (updProject (projectCounter s) f
             (set_projectCounter (projectCounter s + 1) s))).
Proof.
  intros [H1 H2 H3 H4 H5 H6]. constructor; try assumption; simpl.
  - intros pid Hle. destruct (H1 pid ltac:(lia)) as [Ha Hb].
    rewrite !lookup_insert_ne by lia. done.
  - intros did Hd. frame. intros Hr.
    destruct (H2 did Hd Hr) as (m & Hm & Hs). exists m. split; [|done].
    unfold milestoneOf in *.
    set (pid := d_projectId (getDispute s did)) in *.
    destruct (decide (projectCounter s = pid)) as [E|Hne].
    + unfold getMilestones at 1. simpl. rewrite <- E, lookup_insert_eq. simpl.
      rewrite <- E in Hm. by apply lookup_app_l_Some.
    + unfold getMilestones at 1. simpl. by rewrite lookup_insert_ne.
Qed.

Lemma Core_set_locked b s : Core s → Core (set_locked b s).
Proof. by apply Core_frame. Qed.

Lemma Core_unlock b s : Core (set_locked b s) → Core s.
Proof. by apply Core_frame. Qed.

Lemma milestone_project_exists s pid mid m :
  Core s → milestoneOf s pid mid = Some m → pid < projectCounter s.
Proof.
  intros [H1 _ _ _ _ _] Hm. destruct (N.lt_ge_cases pid (projectCounter s))
    as [|Hge]; [done|].
  destruct (H1 pid Hge) as [_ Hn].
  unfold milestoneOf, getMilestones in Hm. by rewrite Hn in Hm.
Qed.

Transparent released resolved.

Lemma Core_released pid mid m s :
  pid < projectCounter s →
  milestoneOf s pid mid = Some m →
  m_status m = MilestoneStatus.SUBMITTED →
  Core s → Core (fst (released pid mid m s)).
Proof.
  intros Hp Hm Hst HC. unfold released. simpl fst.
  assert (Core (updMilestone pid mid (m_set_status MilestoneStatus.APPROVED) s))
    as HC'.
  { apply (Core_updMilestone _ _ _ _ m); try done. by rewrite Hst. }
  destruct (allMilestonesApproved _ _).
  - eapply Core_frame; cycle -1;
      [apply (Core_updProject pid (p_set_status ProjectStatus.COMPLETED));
       [|exact HC']; done|reflexivity..].
  - eapply Core_frame; cycle -1; [exact HC'|reflexivity..].
Qed.

Lemma Core_resolved did m avg s :
  did < disputeCounter s →
  d_isResolved (getDispute s did) = false →
  Core s → Core (fst (resolved did m avg s)).
Proof.
  intros Hd Hr HC. unfold resolved. simpl fst.
  destruct (inv_dispute s HC did Hd Hr) as (m' & Hm' & _).
  pose proof (milestone_project_exists _ _ _ _ HC Hm') as Hp.
  pose proof (Core_resolve did s Hd Hr Hp HC) as HC'.
  eapply Core_frame; cycle -1;
    [apply (Core_updProject (d_projectId (getDispute s did))
              (p_set_status ProjectStatus.ACTIVE)); [|exact HC']; done|..];
    destruct (0 <? _); destruct (0 <? _); reflexivity.
Qed.

Opaque released resolved.

Lemma sum_state now amounts deadlines t s r s' l :
  sumMilestoneAmounts now amounts deadlines t s = Ok (r, s', l) →
  s' = s ∧ l = [].
Proof.
  revert deadlines t l.
  induction amounts as [|a amounts IH]; intros [|d deadlines] t l H;
    simpl in H; try (by apply ret_Ok in H as (_ & -> & ->)).
  minv. match goal with H : sumMilestoneAmounts _ _ _ _ _ = Ok _ |- _ =>
    apply IH in H as [-> ->] end. by subst.
Qed.

Lemma Inv_init deployer : Inv (constructor deployer).
Proof.
  split; [done|]. constructor; simpl.
  - done.
  - intros did Hd. lia.
  - intros d1 d2 Hd. lia.
  - done.
  - apply NoDup_singleton.
  - intros a. by rewrite elem_of_singleton, list_elem_of_singleton.
Qed.

Lemma Inv_dispatch msg_sender block_timestamp c s s' log :
  Inv s → dispatch msg_sender block_timestamp c s = Ok (tt, s', log) → Inv s'.
Proof.
  intros [Hl HC] H. destruct c; simpl in H.
  - (* addAdmin *)
    unfold addAdmin in H. xinv. split; [first [exact Hl|reflexivity]|].
    apply Core_addAdmin; [|done].
    unfold isAdminb in *. props.
    match goal with H : bool_decide _ = false |- _ =>
      by apply bool_decide_eq_false in H end.
  - (* removeAdmin *)
    unfold removeAdmin in H. xinv. split; [first [exact Hl|reflexivity]|].
    unfold isAdminb in *. props.
    apply Core_removeAdmin; [|lia|done].
    match goal with H : bool_decide _ = true |- _ =>
      by apply bool_decide_eq_true in H end.
  - unfold pause in H. xinv. split; [first [exact Hl|reflexivity]|]. by apply (Core_frame s).
  - unfold unpause in H. xinv. split; [first [exact Hl|reflexivity]|]. by apply (Core_frame s).
  - (* createProject *)
    unfold createProject in H. xinv.
    all: match goal with H : sumMilestoneAmounts _ _ _ _ _ = Ok _ |- _ =>
           apply sum_state in H as [-> ->] end.
    all: (split; [first [exact Hl|reflexivity]|]); simpl in *.
    all: eapply Core_frame; cycle -1;
      [eapply (Core_create _ _ s); exact HC|reflexivity..].
  - (* acceptProject *)
    unfold acceptProject in H. xinv. split; [first [exact Hl|reflexivity]|]. props.
    eapply Core_frame; cycle -1;
      [eapply (Core_updProject _projectId _ s); [done|exact HC]|reflexivity..].
  - (* submitMilestone *)
    unfold submitMilestone in H. xinv. split; [first [exact Hl|reflexivity]|]. props.
    match goal with Hm : getMilestones _ _ !! _ = Some ?m |- _ =>
      apply (Core_updMilestone _ _ _ _ m); try done end.
    congruence.
  - (* approveMilestone *)
    apply approve_Ok in H as (m & Hm & Hp & _ & _ & _ & _ & Hst & _ & -> & _).
    split; [reflexivity|]. apply Core_set_locked. apply Core_released; try done.
    by apply Core_set_locked.
  - (* autoApproveMilestone *)
    apply autoApprove_Ok in H
      as (m & Hm & Hp & _ & _ & _ & Hst & _ & _ & _ & -> & _).
    split; [reflexivity|]. apply Core_set_locked. apply Core_released; try done.
    by apply Core_set_locked.
  - (* raiseDispute *)
    unfold raiseDispute in H. xinv. split; [first [exact Hl|reflexivity]|]. props. simpl in *.
    match goal with Hm : getMilestones _ _ !! _ = Some ?m |- _ =>
      eapply Core_frame; cycle -1;
        [apply (Core_updProject _projectId (p_set_status ProjectStatus.DISPUTED));
         [|eapply (Core_raise _ _ _ _ _ _ m); [| |done|exact HC]; done]; done
        |reflexivity..]
    end.
  - (* voteOnDispute *)
    apply vote_Ok in H. cbv zeta in H.
    destruct H as (_ & _ & Hd & Hr & _ & _ & H).
    destruct (REQUIRED_ADMIN_VOTES <=? _).
    + destruct H as (m & _ & _ & _ & _ & _ & -> & _). split.
      * apply resolved_frame.
      * apply Core_resolved; [done| |by apply Core_voted].
        by rewrite getDispute_upd.
    + destruct H as [-> _]. split; [first [exact Hl|reflexivity]|]. by apply Core_voted.
  - unfold rateUser in H. xinv. split; [first [exact Hl|reflexivity]|]. by apply (Core_frame s).
  - (* cancelProject *)
    unfold cancelProject in H. xinv. split; [first [exact Hl|reflexivity]|]. props. simpl in *.
    eapply Core_frame; cycle -1;
      [eapply (Core_updProject _projectId _ s); [done|exact HC]|reflexivity..].
  - unfold setPlatformFee in H. xinv. split; [first [exact Hl|reflexivity]|]. by apply (Core_frame s).
Qed.

Lemma Inv_exec msg_sender block_timestamp c s :
  Inv s → Inv (exec msg_sender block_timestamp c s).
Proof.
  intros HI. unfold exec.
  destruct (dispatch _ _ _ _) as [[[[] s'] log]|] eqn:H; [|done].
  by apply (Inv_dispatch _ _ _ _ _ _ HI H).
Qed.

Lemma reachable_Inv deployer s : reachable deployer s → Inv s.
Proof.
  induction 1 as [| |s w _ [Hl HC]]; [apply Inv_init|by apply Inv_exec|].
  split; [exact Hl|]. by apply (Core_frame s).
Qed.

(** * Effect of a transaction on the roster *)

Lemma dispatch_adminList msg_sender block_timestamp c s s' log :
  dispatch msg_sender block_timestamp c s = Ok (tt, s', log) →
  adminList s'
  = match c with
    | AddAdmin a => adminList s ++ [a]
    | RemoveAdmin a =>
        removeAdmin_loop (length (adminList s)) 0 a (adminList s)
    | _ => adminList s
    end.
Proof.
  intros H. destruct c; simpl in H.
  - unfold addAdmin in H. by xinv.
  - unfold removeAdmin in H. by xinv.
  - unfold pause in H. by xinv.
  - unfold unpause in H. by xinv.
  - unfold createProject in H. xinv.
    all: match goal with H : sumMilestoneAmounts _ _ _ _ _ = Ok _ |- _ =>
           apply sum_state in H as [-> ->] end.
    all: done.
  - unfold acceptProject in H. by xinv.
  - unfold submitMilestone in H. by xinv.
  - apply approve_Ok in H as (m & _ & _ & _ & _ & _ & _ & _ & _ & -> & _).
    destruct (released_frame _projectId _milestoneId m (set_locked true s))
      as (_ & _ & _ & _ & _ & _ & Ha & _). exact Ha.
  - apply autoApprove_Ok in H
      as (m & _ & _ & _ & _ & _ & _ & _ & _ & _ & -> & _).
    destruct (released_frame _projectId _milestoneId m (set_locked true s))
      as (_ & _ & _ & _ & _ & _ & Ha & _). exact Ha.
  - unfold raiseDispute in H. by xinv.
  - apply vote_Ok in H. cbv zeta in H.
    destruct H as (_ & _ & _ & _ & _ & _ & H).
    destruct (REQUIRED_ADMIN_VOTES <=? _).
    + destruct H as (m & _ & _ & _ & _ & _ & -> & _).
      match goal with |- adminList (fst (resolved ?d ?m ?a ?x)) = _ =>
        destruct (resolved_frame d m a x) as (_ & _ & _ & _ & _ & Ha & _) end.
      exact Ha.
    + by destruct H as [-> _].
  - unfold rateUser in H. by xinv.
  - unfold cancelProject in H. by xinv.
  - unfold setPlatformFee in H. by xinv.
Qed.

Lemma swap_pop_head j (l : list N) a d :
  NoDup l → l !! j = Some a → head l = Some d → a ≠ d →
  (1 < length l)%nat → head (swap_pop j l) = Some d.
Proof.
  intros Hnd Hj Hd Hne Hlen.
  assert (j < length l)%nat as Hjl by (by apply lookup_lt_Some in Hj).
  destruct (last l) as [y|] eqn:Hy;
    [|apply last_None in Hy; subst; simpl in Hjl; lia].
  rewrite head_lookup in *.
  rewrite (swap_pop_lookup j l y 0 Hy Hjl).
  rewrite decide_True by lia. rewrite decide_False; [done|].
  intros <-. congruence.
Qed.

Lemma addAdmin_eq sender a s :
  sender = owner s → a ∉ isAdmin s → a ≠ 0 →
  addAdmin sender a s
  = Ok (tt, set_admins (isAdmin s ∪ {[a]}) (adminList s ++ [a]) s,
        [AdminAdded a]).
Proof.
  intros -> Ha Hz. unfold addAdmin. mrun. rewrite N.eqb_refl.
  unfold isAdminb. rewrite bool_decide_eq_false_2 by done. simpl.
  apply N.eqb_neq in Hz. rewrite Hz. done.
Qed.

Lemma removeAdmin_eq sender a s :
  sender = owner s → a ∈ isAdmin s → (1 < length (adminList s))%nat →
  removeAdmin sender a s
  = Ok (tt, set_admins (isAdmin s ∖ {[a]})
              (removeAdmin_loop (length (adminList s)) 0 a (adminList s)) s,
        [AdminRemoved a]).
Proof.
  intros -> Ha Hlen. unfold removeAdmin. mrun. rewrite N.eqb_refl.
  unfold isAdminb. rewrite bool_decide_eq_true_2 by done.
  replace (1 <? N.of_nat (length (adminList s))) with true
    by (symmetry; apply N.ltb_lt; lia).
  done.
Qed.

(** C9 (as the contract has it): in every reachable state the roster has
    at least one member; the deployer is its only member at deployment and
    remains its first member across every transaction other than a
    [removeAdmin] of the deployer.  [addAdmin] succeeds only by appending
    an address that is neither a member nor zero; [removeAdmin] by the
    owner fails with StateError on a non-member and on a roster of one, and
    otherwise overwrites the member's slot with the last element and drops
    the last slot. *)
Theorem C9_roster deployer s :
  reachable deployer s →
  adminList (constructor deployer) = [deployer]
  ∧ (1 ≤ length (adminList s))%nat
  ∧ (∀ msg_sender block_timestamp c,
       head (adminList s) = Some deployer →
       c ≠ RemoveAdmin deployer →
       head (adminList (exec msg_sender block_timestamp c s)) = Some deployer)
  ∧ (∀ msg_sender a s' log,
       addAdmin msg_sender a s = Ok (tt, s', log) →
       adminList s' = (adminList s ++ [a]) ∧ (a ∉ adminList s) ∧ a ≠ 0)
  ∧ (∀ a, (a ∈ adminList s ∨ a = 0) →
       ∃ msg, addAdmin (owner s) a s = Revert msg)
  ∧ (∀ a, (a ∉ adminList s ∨ length (adminList s) = 1%nat) →
       fails_with (removeAdmin (owner s) a s) StateError)
  ∧ (∀ a, a ∈ adminList s → (1 < length (adminList s))%nat →
       ∃ j s',
         adminList s !! j = Some a
         ∧ removeAdmin (owner s) a s = Ok (tt, s', [AdminRemoved a])
         ∧ adminList s' = swap_pop j (adminList s)
         ∧ length (adminList s') = (length (adminList s) - 1)%nat
         ∧ ∀ x, x ∈ adminList s' ↔ x ∈ adminList s ∧ x ≠ a).
Proof.
  intros Hr. pose proof (reachable_Inv _ _ Hr) as [Hl HC].
  pose proof HC as [H1 H2 H3 H4 H5 H6].
  split; [done|]. split; [destruct (adminList s); [done|simpl; lia]|].
  split; [|split; [|split; [|split]]].
  - intros sender now c Hhead Hc. unfold exec.
    destruct (dispatch _ _ _ _) as [[[[] s'] log]|] eqn:H; [|done].
    rewrite (dispatch_adminList _ _ _ _ _ _ H). destruct c; try done.
    + destruct (adminList s); [done|]. done.
    + simpl in H. unfold removeAdmin in H. xinv. unfold isAdminb in *. props.
      match goal with H : bool_decide _ = true |- _ =>
        apply bool_decide_eq_true in H; apply H6 in H; rename H into Hin end.
      destruct (removeAdmin_loop_spec (adminList s) _admin
                  (length (adminList s)) 0) as (j & Hj & ->);
        [done|intros; lia|lia|].
      apply (swap_pop_head j _ _admin); try done; [congruence|lia].
  - intros sender a s' log H. unfold addAdmin in H. xinv.
    unfold isAdminb in *. props. split; [done|]. split; [|done].
    match goal with H : bool_decide _ = false |- _ =>
      apply bool_decide_eq_false in H; by rewrite <- H6 end.
  - intros a Ha. unfold addAdmin. mrun. rewrite N.eqb_refl.
    destruct (negb (isAdminb s a)) eqn:E1; [|by eexists].
    destruct (negb (a =? 0)) eqn:E2; [|by eexists].
    exfalso. unfold isAdminb in *. props.
    match goal with H : bool_decide _ = false |- _ =>
      apply bool_decide_eq_false in H; rewrite H6 in H end.
    destruct Ha; done.
  - intros a Ha. unfold removeAdmin, fails_with. mrun. rewrite N.eqb_refl.
    destruct (isAdminb s a) eqn:E1; [|by eexists].
    destruct (1 <? _) eqn:E2; [|by eexists].
    exfalso. unfold isAdminb in *. props.
    match goal with H : bool_decide _ = true |- _ =>
      apply bool_decide_eq_true in H; rewrite H6 in H end.
    destruct Ha; [done|lia].
  - intros a Ha Hlen.
    destruct (removeAdmin_loop_spec (adminList s) a (length (adminList s)) 0)
      as (j & Hj & Hloop); [done|intros; lia|lia|].
    exists j. eexists. split; [exact Hj|].
    split; [apply removeAdmin_eq; [done|by apply H6|done]|]. simpl.
    split; [exact Hloop|]. rewrite Hloop.
    split; [by apply swap_pop_length|].
    intros x. by apply swap_pop_elem.
Qed.

Lemma C9_witness :
  (1 ≤ length (adminList Sample.submitted))%nat
  ∧ ∃ j s',
      adminList Sample.submitted !! j = Some Sample.admin2
      ∧ removeAdmin (owner Sample.submitted) Sample.admin2 Sample.submitted
        = Ok (tt, s', [AdminRemoved Sample.admin2])
      ∧ adminList s' = swap_pop j (adminList Sample.submitted).
Proof.
  assert (reachable Sample.deployer Sample.submitted) as Hr
    by (repeat apply reach_step; apply reach_init).
  destruct (C9_roster Sample.deployer Sample.submitted Hr)
    as (_ & Hlen & _ & _ & _ & _ & Hrem).
  split; [exact Hlen|].
  destruct (Hrem Sample.admin2) as (j & s' & Hj & Hcall & Hlist & _).
  - vm_compute. apply list_elem_of_further, list_elem_of_here.
  - vm_compute. lia.
  - exists j, s'. auto.
Defined.

(** C9, as stated, fails: once a second admin is on the roster the owner
    can remove the deployer, and the roster of the reachable state that
    results starts with the other admin. *)
Lemma C9_counterexample :
  reachable Sample.deployer Sample.deployer_left
  ∧ adminList Sample.deployer_left = [Sample.admin2]
  ∧ head (adminList Sample.deployer_left) ≠ Some Sample.deployer.
Proof.
  split; [repeat apply reach_step; apply reach_init|].
  split; [vm_compute; reflexivity|]. vm_compute. congruence.
Qed.

(** * The milestone status machine *)

Lemma evolves_same s s' :
  projectMilestones s' = projectMilestones s → evolves s s'.
Proof.
  intros E pid mid. unfold milestoneOf, getMilestones. rewrite E.
  destruct (_ !! N.to_nat mid) as [m|]; [|done]. exists m. auto.
Qed.

Lemma evolves_upd pid0 mid0 f s :
  (∀ m, milestoneOf s pid0 mid0 = Some m →
        status_step (m_status m) (m_status (f m)) = true) →
  evolves s (updMilestone pid0 mid0 f s).
Proof.
  intros Hf pid mid.
  destruct (decide ((pid, mid) = (pid0, mid0))) as [[= -> ->]|Hne].
  - rewrite milestoneOf_upd. destruct (milestoneOf s pid0 mid0) as [m|] eqn:Hm;
      [|done].
    exists (f m). split; [done|]. right. by apply Hf.
  - rewrite milestoneOf_upd_ne by done.
    destruct (milestoneOf s pid mid) as [m|]; [|done]. exists m. auto.
Qed.

Lemma evolves_frame s s1 s2 :
  projectMilestones s2 = projectMilestones s1 → evolves s s1 → evolves s s2.
Proof.
  intros E H pid mid. specialize (H pid mid).
  unfold milestoneOf, getMilestones in *. by rewrite E.
Qed.

Lemma newMilestones_pending descs amounts deadlines i m :
  newMilestones descs amounts deadlines !! i = Some m →
  m_status m = MilestoneStatus.PENDING.
Proof.
  revert amounts deadlines i.
  induction descs as [|d descs IH]; intros [|a amounts] [|t deadlines] i;
    try done.
  destruct i as [|i]; simpl; [by intros [= <-]|apply IH].
Qed.

Lemma getMilestones_set pid ms s pid' :
  getMilestones (set_milestones pid ms s) pid'
  = if decide (pid = pid') then ms else getMilestones s pid'.
Proof.
  unfold getMilestones. simpl. rewrite lookup_insert.
  by destruct (decide (pid = pid')).
Qed.

Lemma evolves_create f descs amounts deadlines s :
  evolves s
    (set_milestones (projectCounter s)
       (getMilestones s (projectCounter s)
          ++ newMilestones descs amounts deadlines)
       (updProject (projectCounter s) f
          (set_projectCounter (projectCounter s + 1) s))).
Proof.
  intros pid mid. unfold milestoneOf. rewrite getMilestones_set. frame.
  destruct (decide (projectCounter s = pid)) as [<-|Hne].
  - destruct (getMilestones s (projectCounter s) !! N.to_nat mid)
      as [m|] eqn:Hm.
    + exists m. split; [by apply lookup_app_l_Some|auto].
    + intros m' Hm'. apply lookup_ge_None in Hm.
      rewrite lookup_app_r in Hm' by done.
      by apply newMilestones_pending in Hm'.
  - destruct (getMilestones s pid !! N.to_nat mid) as [m|]; [|done].
    exists m. auto.
Qed.

Lemma dispatch_evolves msg_sender block_timestamp c s s' log :
  Inv s →
  dispatch msg_sender block_timestamp c s = Ok (tt, s', log) →
  evolves s s'.
Proof.
  intros [Hl HC] H. destruct c; simpl in H.
  - unfold addAdmin in H. xinv. by apply evolves_same.
  - unfold removeAdmin in H. xinv. by apply evolves_same.
  - unfold pause in H. xinv. by apply evolves_same.
  - unfold unpause in H. xinv. by apply evolves_same.
  - unfold createProject in H. xinv.
    all: match goal with H : sumMilestoneAmounts _ _ _ _ _ = Ok _ |- _ =>
           apply sum_state in H as [-> ->] end.
    all: simpl in *.
    all: eapply evolves_frame; [|eapply (evolves_create id _ _ _ s)];
      reflexivity.
  - unfold acceptProject in H. xinv. by apply evolves_same.
  - unfold submitMilestone in H. xinv. props. frame.
    apply evolves_upd. intros m Hm. unfold milestoneOf in Hm.
    match goal with H : getMilestones _ _ !! _ = Some ?m',
                    Hs : m_status ?m' = _ |- _ =>
      rewrite H in Hm; injection Hm as <-; by rewrite Hs end.
  - apply approve_Ok in H as (m & Hm & _ & _ & _ & _ & _ & Hst & _ & -> & _).
    intros pid mid. frame.
    destruct (decide ((pid, mid) = (_projectId, _milestoneId)))
      as [[= -> ->]|Hne].
    + rewrite Hm, released_milestone by done. eexists. split; [done|].
      right. by rewrite Hst.
    + rewrite released_milestone_ne by done. frame.
      destruct (milestoneOf s pid mid) as [m0|]; [|done]. exists m0. auto.
  - apply autoApprove_Ok in H
      as (m & Hm & _ & _ & _ & _ & Hst & _ & _ & _ & -> & _).
    intros pid mid. frame.
    destruct (decide ((pid, mid) = (_projectId, _milestoneId)))
      as [[= -> ->]|Hne].
    + rewrite Hm, released_milestone by done. eexists. split; [done|].
      right. by rewrite Hst.
    + rewrite released_milestone_ne by done. frame.
      destruct (milestoneOf s pid mid) as [m0|]; [|done]. exists m0. auto.
  - unfold raiseDispute in H. xinv. props. frame. simpl.
    eapply evolves_frame;
      [|apply (evolves_upd _projectId _milestoneId
                 (m_set_status MilestoneStatus.DISPUTED) s)].
    + reflexivity.
    + intros m Hm. unfold milestoneOf in Hm.
      match goal with H : getMilestones _ _ !! _ = Some ?m',
                      Hs : m_status ?m' = _ |- _ =>
        rewrite H in Hm; injection Hm as <-; by rewrite Hs end.
  - apply vote_Ok in H. cbv zeta in H.
    destruct H as (_ & _ & Hd & Hr & _ & _ & H).
    destruct (REQUIRED_ADMIN_VOTES <=? _).
    + destruct H as (m & _ & _ & Hm & _ & _ & -> & _).
      destruct (inv_dispute s HC _ Hd Hr) as (m0 & Hm0 & Hs0).
      rewrite Hm in Hm0. injection Hm0 as <-.
      set (sv := updDispute _disputeId
                   (voted msg_sender _percentageToFreelancer) s) in *.
      assert (getDispute sv _disputeId
              = voted msg_sender _percentageToFreelancer
                  (getDispute s _disputeId)) as Hdv by apply getDispute_upd.
      assert (milestoneOf sv (d_projectId (getDispute sv _disputeId))
                (d_milestoneId (getDispute sv _disputeId)) = Some m) as Hmv
        by (by rewrite Hdv).
      intros pid mid.
      destruct (decide ((pid, mid)
                        = (d_projectId (getDispute sv _disputeId),
                           d_milestoneId (getDispute sv _disputeId))))
        as [[= -> ->]|Hne].
      * rewrite resolved_milestone by done.
        change (milestoneOf s ?p ?i) with (milestoneOf sv p i).
        rewrite Hmv. eexists. split; [done|]. right. by rewrite Hs0.
      * rewrite resolved_milestone_ne by done.
        change (milestoneOf sv pid mid) with (milestoneOf s pid mid).
        destruct (milestoneOf s pid mid) as [m0|]; [|done]. exists m0. auto.
    + destruct H as [-> _]. by apply evolves_same.
  - unfold rateUser in H. xinv. by apply evolves_same.
  - unfold cancelProject in H. xinv. by apply evolves_same.
  - unfold setPlatformFee in H. xinv. by apply evolves_same.
Qed.

Lemma exec_evolves msg_sender block_timestamp c s :
  Inv s → evolves s (exec msg_sender block_timestamp c s).
Proof.
  intros HI. unfold exec.
  destruct (dispatch _ _ _ _) as [[[[] s'] log]|] eqn:H.
  - by apply (dispatch_evolves _ _ _ _ _ _ HI H).
  - by apply evolves_same.
Qed.

Lemma approve_again sender pid mid s m :
  Inv s → milestoneOf s pid mid = Some m →
  m_status m = MilestoneStatus.APPROVED →
  (∃ msg, approveMilestone sender pid mid s = Revert msg)
  ∧ (sender = p_client (getProject s pid) → paused s = false →
     fails_with (approveMilestone sender pid mid s) StateError).
Proof.
  intros [Hl HC] Hm Hst.
  pose proof (milestone_project_exists _ _ _ _ HC Hm) as Hp.
  apply N.ltb_lt in Hp.
  unfold fails_with, approveMilestone. mrun. rewrite Hp, Hl. frame.
  rewrite (milestoneOf_lt _ _ _ _ Hm), Hm. mrun. rewrite Hst. simpl. split.
  - destruct (sender =? _); [|by eexists].
    destruct (paused s); simpl; [by eexists|].
    destruct (ProjectStatus.eqb _ _); by eexists.
  - intros -> Hpa. rewrite N.eqb_refl, Hpa. simpl.
    destruct (ProjectStatus.eqb _ _); by eexists.
Qed.

Lemma autoApprove_again now pid mid s m :
  Inv s → milestoneOf s pid mid = Some m →
  m_status m = MilestoneStatus.APPROVED →
  (∃ msg, autoApproveMilestone now pid mid s = Revert msg)
  ∧ (paused s = false →
     fails_with (autoApproveMilestone now pid mid s) StateError).
Proof.
  intros [Hl HC] Hm Hst.
  pose proof (milestone_project_exists _ _ _ _ HC Hm) as Hp.
  apply N.ltb_lt in Hp.
  unfold fails_with, autoApproveMilestone. mrun. rewrite Hp, Hl. frame.
  rewrite (milestoneOf_lt _ _ _ _ Hm), Hm. mrun. rewrite Hst. simpl. split.
  - destruct (paused s); simpl; [by eexists|].
    destruct (ProjectStatus.eqb _ _); by eexists.
  - intros Hpa. rewrite Hpa. simpl.
    destruct (ProjectStatus.eqb _ _); by eexists.
Qed.

Lemma raiseDispute_again sender now pid mid reason s m :
  Inv s → milestoneOf s pid mid = Some m →
  m_status m = MilestoneStatus.APPROVED →
  (∃ msg, raiseDispute sender now pid mid reason s = Revert msg)
  ∧ ((sender =? p_client (getProject s pid))
     || (sender =? p_freelancer (getProject s pid)) = true →
     paused s = false →
     fails_with (raiseDispute sender now pid mid reason s) StateError).
Proof.
  intros [Hl HC] Hm Hst.
  pose proof (milestone_project_exists _ _ _ _ HC Hm) as Hp.
  apply N.ltb_lt in Hp.
  unfold fails_with, raiseDispute. mrun. rewrite Hp.
  rewrite (milestoneOf_lt _ _ _ _ Hm), Hm. mrun. rewrite Hst. simpl. split.
  - destruct (_ || _); [|by eexists].
    destruct (paused s); simpl; [by eexists|].
    destruct (ProjectStatus.eqb _ _); by eexists.
  - intros -> Hpa. rewrite Hpa. simpl.
    destruct (ProjectStatus.eqb _ _); by eexists.
Qed.

Lemma vote_again sender did pct s m :
  Inv s → did < disputeCounter s →
  milestoneOf s (d_projectId (getDispute s did))
    (d_milestoneId (getDispute s did)) = Some m →
  m_status m = MilestoneStatus.APPROVED →
  (∃ msg, voteOnDispute sender did pct s = Revert msg)
  ∧ (isAdminb s sender || (sender =? owner s) = true →
     paused s = false →
     fails_with (voteOnDispute sender did pct s) StateError).
Proof.
  intros [Hl HC] Hd Hm Hst.
  assert (d_isResolved (getDispute s did) = true) as Hr.
  { destruct (d_isResolved (getDispute s did)) eqn:E; [done|].
    destruct (inv_dispute s HC did Hd E) as (m' & Hm' & Hs').
    rewrite Hm in Hm'. injection Hm' as <-. congruence. }
  apply N.ltb_lt in Hd.
  unfold fails_with, voteOnDispute. mrun. rewrite Hd, Hr. simpl. split.
  - destruct (_ || _); [|by eexists].
    destruct (paused s); simpl; by eexists.
  - intros -> Hpa. rewrite Hpa. simpl. by eexists.
Qed.

Lemma reachable_run deployer run s :
  reachable deployer s → reachable deployer (exec_run run s).
Proof.
  revert s. induction run as [|t run IH]; intros s Hr; [done|].
  apply IH. by apply reach_step.
Qed.

Lemma run_status deployer run s pid mid m :
  reachable deployer s →
  milestoneOf s pid mid = Some m →
  ∃ m', milestoneOf (exec_run run s) pid mid = Some m'
        ∧ status_path (m_status m) (m_status m').
Proof.
  revert s m. induction run as [|[[sender now] c] run IH]; intros s m Hr Hm.
  - exists m. split; [done|]. apply rtc_refl.
  - pose proof (exec_evolves sender now c s (reachable_Inv _ _ Hr) pid mid) as H.
    rewrite Hm in H. destruct H as (m1 & Hm1 & Hstep).
    destruct (IH (exec sender now c s) m1) as (m' & Hm' & Hpath);
      [by apply reach_step|done|].
    exists m'. split; [exact Hm'|].
    destruct Hstep as [<-|Hstep]; [done|].
    by apply (rtc_l _ _ (m_status m1)).
Qed.

Lemma status_path_approved b :
  status_path MilestoneStatus.APPROVED b → b = MilestoneStatus.APPROVED.
Proof.
  intros H. apply rtc_inv in H as [->|(c & Hc & _)]; [done|]. discriminate Hc.
Qed.

(** C3: in every reachable state, a transaction leaves each milestone's
    status where it was or moves it along one edge of
    PENDING -> SUBMITTED -> {APPROVED | DISPUTED -> APPROVED}, and a
    milestone that appears is PENDING; over any run of transactions the
    status at the end is reached from the status at the start along those
    edges, and APPROVED is never left.  A further
    release of an APPROVED milestone aborts whoever calls (hence without a
    transfer), and with StateError when the caller passes the role and pause
    checks: by manual approval, by auto-approval, by raising a dispute on
    it, or by voting on a dispute that points at it. *)
Theorem C3_status_machine deployer s :
  reachable deployer s →
  (∀ msg_sender block_timestamp c,
     evolves s (exec msg_sender block_timestamp c s))
  ∧ (∀ run pid mid m,
       milestoneOf s pid mid = Some m →
       ∃ m', milestoneOf (exec_run run s) pid mid = Some m'
             ∧ status_path (m_status m) (m_status m')
             ∧ (m_status m = MilestoneStatus.APPROVED →
                m_status m' = MilestoneStatus.APPROVED))
  ∧ (∀ pid mid m,
       milestoneOf s pid mid = Some m →
       m_status m = MilestoneStatus.APPROVED →
       (∀ msg_sender,
          (∃ msg, approveMilestone msg_sender pid mid s = Revert msg)
          ∧ (msg_sender = p_client (getProject s pid) → paused s = false →
             fails_with (approveMilestone msg_sender pid mid s) StateError))
       ∧ (∀ block_timestamp,
            (∃ msg, autoApproveMilestone block_timestamp pid mid s = Revert msg)
            ∧ (paused s = false →
               fails_with (autoApproveMilestone block_timestamp pid mid s)
                 StateError))
       ∧ (∀ msg_sender block_timestamp reason,
            (∃ msg, raiseDispute msg_sender block_timestamp pid mid reason s
                    = Revert msg)
            ∧ ((msg_sender =? p_client (getProject s pid))
               || (msg_sender =? p_freelancer (getProject s pid)) = true →
               paused s = false →
               fails_with
                 (raiseDispute msg_sender block_timestamp pid mid reason s)
                 StateError))
       ∧ (∀ msg_sender did pct,
            did < disputeCounter s →
            d_projectId (getDispute s did) = pid →
            d_milestoneId (getDispute s did) = mid →
            (∃ msg, voteOnDispute msg_sender did pct s = Revert msg)
            ∧ (isAdminb s msg_sender || (msg_sender =? owner s) = true →
               paused s = false →
               fails_with (voteOnDispute msg_sender did pct s) StateError))).
Proof.
  intros Hr. pose proof (reachable_Inv _ _ Hr) as HI.
  split; [|split].
  - intros. by apply exec_evolves.
  - intros run pid mid m Hm.
    destruct (run_status deployer run s pid mid m Hr Hm) as (m' & Hm' & Hp).
    exists m'. split; [exact Hm'|]. split; [exact Hp|].
    intros E. rewrite E in Hp. by apply status_path_approved.
  - intros pid mid m Hm Hst. split; [|split; [|split]].
    + intros. by apply (approve_again _ _ _ _ m).
    + intros. by apply (autoApprove_again _ _ _ _ m).
    + intros. by apply (raiseDispute_again _ _ _ _ _ _ m).
    + intros sender did pct Hd <- <-. by apply (vote_again _ _ _ _ m).
Qed.

Lemma C3_witness :
  evolves Sample.approved
    (exec Sample.client 1010 (ApproveMilestone 0 0) Sample.approved)
  ∧ ∃ msg, approveMilestone Sample.client 0 0 Sample.approved = Revert msg.
Proof.
  assert (reachable Sample.deployer Sample.approved) as Hr
    by (repeat apply reach_step; apply reach_init).
  destruct (C3_status_machine Sample.deployer Sample.approved Hr)
    as (Hev & _ & Hagain).
  split; [apply Hev|].
  assert (milestoneOf Sample.approved 0 0
          = Some (mkMilestone "Milestone 1" 1000 700000
                    MilestoneStatus.APPROVED "QmHash123" 1002)) as Hm
    by (vm_compute; reflexivity).
  destruct (Hagain 0 0 _ Hm eq_refl) as (Ha & _).
  exact (proj1 (Ha Sample.client)).
Defined.

(** * Project creation *)

Lemma sum_cases now amounts deadlines t s :
  length amounts = length deadlines →
  t + sumN amounts ≤ MAX_UINT256 →
  (Forall (fun a => 0 < a) amounts ∧ Forall (fun d => now < d) deadlines
   ∧ sumMilestoneAmounts now amounts deadlines t s
     = Ok (t + sumN amounts, s, []))
  ∨ ((Exists (fun a => a = 0) amounts ∨ Exists (fun d => d ≤ now) deadlines)
     ∧ fails_with (sumMilestoneAmounts now amounts deadlines t s)
         ValidationError).
Proof.
  revert deadlines t.
  induction amounts as [|a amounts IH]; intros [|d deadlines] t Hlen Hsum;
    try discriminate Hlen.
  - left. simpl. rewrite N.add_0_r. by repeat constructor.
  - simpl in Hsum. simpl sumMilestoneAmounts. mrun.
    destruct (0 <? a) eqn:Ea;
      [|right; split;
        [left; apply Exists_cons_hd; apply N.ltb_ge in Ea; lia
        |by eexists]].
    destruct (now <? d) eqn:Ed;
      [|right; split;
        [right; apply Exists_cons_hd; by apply N.ltb_ge in Ed|by eexists]].
    replace (t + a <=? MAX_UINT256) with true
      by (symmetry; apply N.leb_le; lia).
    apply N.ltb_lt in Ea, Ed.
    destruct (IH deadlines (t + a)) as [(Ha & Hd & ->)|[Hex Hf]];
      [by injection Hlen|lia| |].
    + left. repeat split; [by constructor|by constructor|].
      simpl. by rewrite N.add_assoc.
    + right. split; [|exact Hf].
      destruct Hex; [left|right]; by apply Exists_cons_tl.
Qed.

(** Past the capacity of a word the loop aborts: on an amount or a deadline
    it turns down, or on the addition. *)
Lemma sum_overflow now amounts deadlines t s :
  length amounts = length deadlines →
  MAX_UINT256 < t + sumN amounts →
  t ≤ MAX_UINT256 →
  ∃ msg, sumMilestoneAmounts now amounts deadlines t s = Revert msg
    ∧ (error_kind msg = Some ValidationError ∨ msg = "Panic(0x11)").
Proof.
  revert deadlines t.
  induction amounts as [|a amounts IH]; intros [|d deadlines] t Hlen Hsum Ht;
    try discriminate Hlen.
  - simpl in Hsum. lia.
  - simpl in Hsum. simpl sumMilestoneAmounts. mrun.
    destruct (0 <? a); [|eexists; split; [reflexivity|by left]].
    destruct (now <? d); [|eexists; split; [reflexivity|by left]].
    destruct (t + a <=? MAX_UINT256) eqn:E;
      [|eexists; split; [reflexivity|by right]].
    apply N.leb_le in E.
    apply IH; [by injection Hlen|lia|done].
Qed.

Lemma newMilestones_amounts descs amounts deadlines :
  length descs = length amounts → length amounts = length deadlines →
  map m_amount (newMilestones descs amounts deadlines) = amounts.
Proof.
  revert amounts deadlines.
  induction descs as [|d descs IH]; intros [|a amounts] [|t deadlines] H1 H2;
    try discriminate; [done|].
  simpl. f_equal. apply IH; [by injection H1|by injection H2].
Qed.

Lemma newMilestones_status descs amounts deadlines :
  Forall (fun m => m_status m = MilestoneStatus.PENDING)
    (newMilestones descs amounts deadlines).
Proof.
  apply Forall_lookup. intros i m. apply newMilestones_pending.
Qed.

(** The storage a successful [createProject] builds before the refund. *)
Lemma createProject_eq sender now title hash descs amounts deadlines value s :
  paused s = false →
  descs ≠ [] →
  length descs = length amounts → length amounts = length deadlines →
  Forall (fun a => 0 < a) amounts → Forall (fun d => now < d) deadlines →
  sumN amounts ≤ value → value ≤ MAX_UINT256 →
  projectCounter s < MAX_UINT256 →
  (sumN amounts < value → sender ∉ refusing s) →
  ∃ s' log,
    createProject sender now title hash descs amounts deadlines value s
    = Ok (projectCounter s, s', log)
    ∧ projectCounter s' = projectCounter s + 1
    ∧ getProject s' (projectCounter s)
      = mkProject (projectCounter s) sender
          (p_freelancer (getProject s (projectCounter s))) title hash
          (sumN amounts) ProjectStatus.CREATED now
          (p_acceptedAt (getProject s (projectCounter s))) true
    ∧ getMilestones s' (projectCounter s)
      = getMilestones s (projectCounter s)
          ++ newMilestones descs amounts deadlines
    ∧ transfers log
      = (if sumN amounts <? value then [(sender, value - sumN amounts)] else [])
    ∧ balance s' = balance s + sumN amounts.
Proof.
  intros Hpa Hne Hl1 Hl2 Ha Hd Hsum Hv Hpc Hacc.
  unfold createProject. mrun. simpl paused. rewrite Hpa. simpl negb. cbv iota.
  replace (0 <? N.of_nat (length descs)) with true
    by (symmetry; apply N.ltb_lt; destruct descs; [done|simpl; lia]).
  rewrite Hl1, Hl2, !N.eqb_refl. simpl andb. cbv iota.
  destruct (sum_cases now amounts deadlines 0
              (set_balance (balance s + value) s) Hl2)
    as [(_ & _ & Hrun)|[Hex _]]; [rewrite N.add_0_l; lia| |].
  2: { exfalso. destruct Hex as [Hex|Hex]; apply Exists_exists in Hex
         as (x & Hx & Hbad).
       - apply (proj1 (Forall_forall _ _) Ha) in Hx. lia.
       - apply (proj1 (Forall_forall _ _) Hd) in Hx. lia. }
  rewrite N.add_0_l in Hrun. unfold bind at 1. rewrite Hrun.
  mrun. simpl projectCounter.
  replace (sumN amounts <=? value) with true by (symmetry; by apply N.leb_le).
  replace (projectCounter s + 1 <=? MAX_UINT256) with true
    by (symmetry; apply N.leb_le; unfold MAX_UINT256 in *; lia).
  destruct (sumN amounts <? value) eqn:Elt.
  - mrun. replace (sumN amounts <=? value) with true
      by (symmetry; by apply N.leb_le).
    mrun. simpl balance.
    replace (value - sumN amounts <=? balance s + value) with true
      by (symmetry; apply N.leb_le; lia).
    simpl refusing.
    rewrite bool_decide_eq_false_2 by (apply Hacc; by apply N.ltb_lt).
    simpl. eexists _, _. split; [reflexivity|]. simpl.
    frame. rewrite getProject_upd, getMilestones_set, decide_True by done.
    frame. repeat split; try done. lia.
  - mrun. simpl. eexists _, _. split; [reflexivity|]. simpl.
    frame. rewrite getProject_upd, getMilestones_set, decide_True by done.
    frame. repeat split; try done. apply N.ltb_ge in Elt. lia.
Qed.

(** The refund of an excess deposit to a caller who refuses it aborts the
    call. *)
Lemma createProject_refused sender now title hash descs amounts deadlines value s :
  paused s = false →
  descs ≠ [] →
  length descs = length amounts → length amounts = length deadlines →
  Forall (fun a => 0 < a) amounts → Forall (fun d => now < d) deadlines →
  sumN amounts < value → value ≤ MAX_UINT256 →
  projectCounter s < MAX_UINT256 →
  sender ∈ refusing s →
  createProject sender now title hash descs amounts deadlines value s
  = Revert "Transfer failed".
Proof.
  intros Hpa Hne Hl1 Hl2 Ha Hd Hsum Hv Hpc Hacc.
  unfold createProject. mrun. simpl paused. rewrite Hpa. simpl negb. cbv iota.
  replace (0 <? N.of_nat (length descs)) with true
    by (symmetry; apply N.ltb_lt; destruct descs; [done|simpl; lia]).
  rewrite Hl1, Hl2, !N.eqb_refl. simpl andb. cbv iota.
  destruct (sum_cases now amounts deadlines 0
              (set_balance (balance s + value) s) Hl2)
    as [(_ & _ & Hrun)|[Hex _]]; [rewrite N.add_0_l; lia| |].
  2: { exfalso. destruct Hex as [Hex|Hex]; apply Exists_exists in Hex
         as (x & Hx & Hbad).
       - apply (proj1 (Forall_forall _ _) Ha) in Hx. lia.
       - apply (proj1 (Forall_forall _ _) Hd) in Hx. lia. }
  rewrite N.add_0_l in Hrun. unfold bind at 1. rewrite Hrun.
  mrun. simpl projectCounter.
  replace (sumN amounts <=? value) with true
    by (symmetry; apply N.leb_le; lia).
  replace (projectCounter s + 1 <=? MAX_UINT256) with true
    by (symmetry; apply N.leb_le; unfold MAX_UINT256 in *; lia).
  replace (sumN amounts <? value) with true by (symmetry; by apply N.ltb_lt).
  mrun. replace (sumN amounts <=? value) with true
    by (symmetry; apply N.leb_le; lia).
  mrun. simpl balance.
  replace (value - sumN amounts <=? balance s + value) with true
    by (symmetry; apply N.leb_le; lia).
  simpl refusing. by rewrite bool_decide_eq_true_2.
Qed.

(** Past the capacity of a word the sum is never formed. *)
Lemma createProject_overflow sender now title hash descs amounts deadlines value s :
  paused s = false →
  MAX_UINT256 < sumN amounts →
  ∃ msg,
    createProject sender now title hash descs amounts deadlines value s
    = Revert msg
    ∧ (error_kind msg = Some ValidationError ∨ msg = "Panic(0x11)").
Proof.
  intros Hpa Hbig.
  unfold createProject. mrun. simpl paused. rewrite Hpa.
  simpl negb. cbv iota.
  destruct (0 <? N.of_nat (length descs)) eqn:E0;
    [|eexists; split; [reflexivity|by left]].
  destruct ((N.of_nat (length descs) =? N.of_nat (length amounts))
            && (N.of_nat (length amounts) =? N.of_nat (length deadlines)))
    eqn:E1; [|eexists; split; [reflexivity|by left]].
  props.
  assert (length amounts = length deadlines) as Hl2 by lia.
  destruct (sum_overflow now amounts deadlines 0
              (set_balance (balance s + value) s) Hl2)
    as (msg & Hrun & Hk); [rewrite N.add_0_l; lia|unfold MAX_UINT256; lia|].
  unfold bind at 1. rewrite Hrun. by exists msg.
Qed.

Lemma createProject_invalid sender now title hash descs amounts deadlines value s :
  paused s = false →
  sumN amounts ≤ MAX_UINT256 →
  descs = []
  ∨ length descs ≠ length amounts
  ∨ length amounts ≠ length deadlines
  ∨ Exists (fun a => a = 0) amounts
  ∨ Exists (fun d => d ≤ now) deadlines
  ∨ value < sumN amounts →
  fails_with
    (createProject sender now title hash descs amounts deadlines value s)
    ValidationError.
Proof.
  intros Hpa Hrep Hbad.
  unfold fails_with, createProject. mrun. simpl paused. rewrite Hpa.
  simpl negb. cbv iota.
  destruct (0 <? N.of_nat (length descs)) eqn:E0; [|by eexists].
  destruct ((N.of_nat (length descs) =? N.of_nat (length amounts))
            && (N.of_nat (length amounts) =? N.of_nat (length deadlines)))
    eqn:E1; [|by eexists].
  props.
  assert (length descs = length amounts) as Hl1 by lia.
  assert (length amounts = length deadlines) as Hl2 by lia.
  destruct (sum_cases now amounts deadlines 0
              (set_balance (balance s + value) s) Hl2)
    as [(Ha & Hd & Hrun)|[_ (msg & Hrun & Hk)]]; [rewrite N.add_0_l; lia| |].
  - rewrite N.add_0_l in Hrun. unfold bind at 1. rewrite Hrun. mrun.
    destruct Hbad as [->|[?|[?|[Hex|[Hex|Hlt]]]]];
      [simpl in E0; lia|done|done| | |].
    + exfalso. apply Exists_exists in Hex as (x & Hx & Hbad).
      apply (proj1 (Forall_forall _ _) Ha) in Hx. lia.
    + exfalso. apply Exists_exists in Hex as (x & Hx & Hbad).
      apply (proj1 (Forall_forall _ _) Hd) in Hx. lia.
    + replace (sumN amounts <=? value) with false
        by (symmetry; by apply N.leb_gt).
      by eexists.
  - unfold bind at 1. rewrite Hrun. by exists msg.
Qed.

(** C8, amended: on an unpaused contract, [createProject] with a non-empty
    list of milestones, three arrays of one length, every amount positive,
    every deadline after the current time, a deposit of at least the sum of
    the amounts and, when the deposit exceeds that sum, a caller who accepts
    the refund, creates the project under the next id in CREATED state, with
    [totalAmount] the sum of the amounts and [fundsDeposited] set, creates
    its milestones all PENDING with the given amounts, and refunds the
    excess of the deposit to the caller when there is one.  When the caller
    refuses the refund the call aborts.  When a precondition is violated the
    call aborts: with ValidationError, or else with the arithmetic panic of
    a sum of amounts beyond a word.  Each abort leaves the storage as it
    was. *)
Theorem C8_createProject deployer s msg_sender block_timestamp
    title hash descs amounts deadlines msg_value :
  reachable deployer s →
  paused s = false →
  msg_value ≤ MAX_UINT256 →
  projectCounter s < MAX_UINT256 →
  (descs ≠ [] →
   length descs = length amounts → length amounts = length deadlines →
   Forall (fun a => 0 < a) amounts →
   Forall (fun d => block_timestamp < d) deadlines →
   sumN amounts ≤ msg_value →
   (sumN amounts < msg_value → msg_sender ∉ refusing s) →
   ∃ s' log,
     createProject msg_sender block_timestamp title hash descs amounts
       deadlines msg_value s = Ok (projectCounter s, s', log)
     ∧ getProject s' (projectCounter s)
       = mkProject (projectCounter s) msg_sender 0 title hash (sumN amounts)
           ProjectStatus.CREATED block_timestamp 0 true
     ∧ getMilestones s' (projectCounter s)
       = newMilestones descs amounts deadlines
     ∧ Forall (fun m => m_status m = MilestoneStatus.PENDING)
         (getMilestones s' (projectCounter s))
     ∧ map m_amount (getMilestones s' (projectCounter s)) = amounts
     ∧ sumN (map m_amount (getMilestones s' (projectCounter s)))
       = p_totalAmount (getProject s' (projectCounter s))
     ∧ p_totalAmount (getProject s' (projectCounter s)) ≤ msg_value
     ∧ transfers log
       = (if sumN amounts <? msg_value
          then [(msg_sender, msg_value - sumN amounts)] else []))
  ∧ (descs ≠ [] →
     length descs = length amounts → length amounts = length deadlines →
     Forall (fun a => 0 < a) amounts →
     Forall (fun d => block_timestamp < d) deadlines →
     sumN amounts < msg_value →
     msg_sender ∈ refusing s →
     createProject msg_sender block_timestamp title hash descs amounts
       deadlines msg_value s = Revert "Transfer failed"
     ∧ exec msg_sender block_timestamp
         (CreateProject title hash descs amounts deadlines msg_value) s = s)
  ∧ (descs = []
     ∨ length descs ≠ length amounts
     ∨ length amounts ≠ length deadlines
     ∨ Exists (fun a => a = 0) amounts
     ∨ Exists (fun d => d ≤ block_timestamp) deadlines
     ∨ msg_value < sumN amounts →
     (∃ msg,
        createProject msg_sender block_timestamp title hash descs amounts
          deadlines msg_value s = Revert msg
        ∧ (error_kind msg = Some ValidationError
           ∨ msg = "Panic(0x11)" ∧ MAX_UINT256 < sumN amounts))
     ∧ exec msg_sender block_timestamp
         (CreateProject title hash descs amounts deadlines msg_value) s = s).
Proof.
  intros Hr Hpa Hv Hpc. pose proof (reachable_Inv _ _ Hr) as [Hl HC].
  split; [|split].
  - intros Hne Hl1 Hl2 Ha Hd Hsum Hacc.
    destruct (createProject_eq msg_sender block_timestamp title hash descs
                amounts deadlines msg_value s)
      as (s' & log & Hrun & _ & Hp & Hm & Ht & _); try done.
    destruct (inv_fresh s HC (projectCounter s) ltac:(lia)) as [Hfp Hfm].
    assert (getProject s (projectCounter s) = zeroProject) as Hzp
      by (unfold getProject; by rewrite Hfp).
    assert (getMilestones s (projectCounter s) = []) as Hzm
      by (unfold getMilestones; by rewrite Hfm).
    rewrite Hzp in Hp. rewrite Hzm in Hm. simpl in Hp, Hm.
    exists s', log. rewrite Hp, Hm. simpl.
    rewrite newMilestones_amounts by done.
    repeat split; try done. apply newMilestones_status.
  - intros Hne Hl1 Hl2 Ha Hd Hsum Hacc.
    pose proof (createProject_refused msg_sender block_timestamp title hash
                  descs amounts deadlines msg_value s Hpa Hne Hl1 Hl2 Ha Hd
                  Hsum Hv Hpc Hacc) as Hrun.
    split; [exact Hrun|].
    apply (exec_Revert _ _ _ _ "Transfer failed"). simpl. unfold void, bind.
    by rewrite Hrun.
  - intros Hbad.
    assert (∃ msg,
        createProject msg_sender block_timestamp title hash descs amounts
          deadlines msg_value s = Revert msg
        ∧ (error_kind msg = Some ValidationError
           ∨ msg = "Panic(0x11)" ∧ MAX_UINT256 < sumN amounts))
      as (msg & Hrun & Hk).
    { destruct (decide (sumN amounts ≤ MAX_UINT256)) as [Hrep|Hbig].
      - destruct (createProject_invalid msg_sender block_timestamp title hash
                    descs amounts deadlines msg_value s Hpa Hrep Hbad)
          as (msg & Hrun & Hk).
        exists msg. split; [exact Hrun|by left].
      - destruct (createProject_overflow msg_sender block_timestamp title hash
                    descs amounts deadlines msg_value s Hpa ltac:(lia))
          as (msg & Hrun & [Hk| ->]).
        + exists msg. split; [exact Hrun|by left].
        + eexists. split; [exact Hrun|]. right. split; [done|lia]. }
    split; [by exists msg|].
    apply (exec_Revert _ _ _ _ msg). simpl. unfold void, bind.
    by rewrite Hrun.
Qed.

Lemma C8_witness :
  (∃ s' log,
     createProject Sample.client 1000 "Test Project" "hash" ["M1"; "M2"]
       [1000; 2000] [700000; 800000] 3500 (constructor Sample.deployer)
     = Ok (0, s', log)
     ∧ p_totalAmount (getProject s' 0) = 3000
     ∧ transfers log = [(Sample.client, 500)])
  ∧ fails_with
      (createProject Sample.client 1000 "Test Project" "hash" ["M1"; "M2"]
         [1000; 2000] [700000; 800000] 2999 (constructor Sample.deployer))
      ValidationError.
Proof.
  pose proof (reach_init Sample.deployer) as Hr.
  split.
  - destruct (proj1 (C8_createProject Sample.deployer
                       (constructor Sample.deployer) Sample.client 1000
                       "Test Project" "hash" ["M1"; "M2"] [1000; 2000]
                       [700000; 800000] 3500 Hr eq_refl
                       ltac:(vm_compute; congruence)
                       ltac:(vm_compute; reflexivity)))
      as (s' & log & Hrun & Hp & _ & _ & _ & _ & _ & Ht);
      try done; try (repeat constructor; lia);
      try (intros _; vm_compute; congruence).
    exists s', log. split; [exact Hrun|].
    change (getProject s' 0)
      with (getProject s' (projectCounter (constructor Sample.deployer))).
    rewrite Hp. split; [reflexivity|]. exact Ht.
  - destruct (proj2 (proj2 (C8_createProject Sample.deployer
                    (constructor Sample.deployer) Sample.client 1000
                    "Test Project" "hash" ["M1"; "M2"] [1000; 2000]
                    [700000; 800000] 2999 Hr eq_refl
                    ltac:(vm_compute; congruence)
                    ltac:(vm_compute; reflexivity))))
      as [(msg & Hrun & [Hk|[_ Hbig]]) _].
    + do 5 right. vm_compute. reflexivity.
    + by exists msg.
    + vm_compute in Hbig. discriminate Hbig.
Defined.

(** C8, as stated, fails twice.  A deposit of 5 against two milestones of
    [2 ^ 255] each violates the deposit precondition, yet the call aborts on
    the addition of the amounts, which is no ValidationError.  And with all
    preconditions met and a deposit above the total, no project is created
    when the caller is an account that refuses the refund. *)
Lemma C8_counterexample :
  (reachable Sample.deployer (constructor Sample.deployer)
   ∧ paused (constructor Sample.deployer) = false
   ∧ Forall (fun a => 0 < a) [2 ^ 255; 2 ^ 255]
   ∧ Forall (fun d => 1000 < d) [700000; 800000]
   ∧ 5 < sumN [2 ^ 255; 2 ^ 255]
   ∧ createProject Sample.client 1000 "Test Project" "hash" ["M1"; "M2"]
       [2 ^ 255; 2 ^ 255] [700000; 800000] 5 (constructor Sample.deployer)
     = Revert "Panic(0x11)"
   ∧ ¬ fails_with
         (createProject Sample.client 1000 "Test Project" "hash" ["M1"; "M2"]
            [2 ^ 255; 2 ^ 255] [700000; 800000] 5
            (constructor Sample.deployer))
         ValidationError)
  ∧ (reachable Sample.deployer
       (set_refusing {[Sample.client]} (constructor Sample.deployer))
     ∧ Forall (fun a => 0 < a) [1000; 2000]
     ∧ Forall (fun d => 1000 < d) [700000; 800000]
     ∧ sumN [1000; 2000] ≤ 3500
     ∧ createProject Sample.client 1000 "Test Project" "hash" ["M1"; "M2"]
         [1000; 2000] [700000; 800000] 3500
         (set_refusing {[Sample.client]} (constructor Sample.deployer))
       = Revert "Transfer failed"
     ∧ exec Sample.client 1000
         (CreateProject "Test Project" "hash" ["M1"; "M2"] [1000; 2000]
            [700000; 800000] 3500)
         (set_refusing {[Sample.client]} (constructor Sample.deployer))
       = set_refusing {[Sample.client]} (constructor Sample.deployer)).
Proof.
  assert (createProject Sample.client 1000 "Test Project" "hash" ["M1"; "M2"]
            [2 ^ 255; 2 ^ 255] [700000; 800000] 5 (constructor Sample.deployer)
          = Revert "Panic(0x11)") as Hrun by (vm_compute; reflexivity).
  split.
  - split; [apply reach_init|]. split; [reflexivity|].
    split; [repeat constructor|]. split; [repeat constructor|].
    split; [vm_compute; reflexivity|]. split; [exact Hrun|].
    intros (msg & Hm & Hk). rewrite Hrun in Hm. injection Hm as <-.
    vm_compute in Hk. discriminate Hk.
  - split; [apply reach_world, reach_init|].
    split; [repeat constructor|]. split; [repeat constructor|].
    split; [vm_compute; discriminate|].
    split; vm_compute; reflexivity.
Qed.

(** * What each transaction leaves behind *)

Lemma Storage_eq s s' :
  owner s = owner s' → paused s = paused s' → locked s = locked s' →
  balance s = balance s' → projectCounter s = projectCounter s' →
  disputeCounter s = disputeCounter s' →
  platformFeePercent s = platformFeePercent s' →
  projects s = projects s' → projectMilestones s = projectMilestones s' →
  disputes s = disputes s' → userProjects s = userProjects s' →
  userRatings s = userRatings s' → userRatingCount s = userRatingCount s' →
  isAdmin s = isAdmin s' → adminList s = adminList s' →
  refusing s = refusing s' → s = s'.
Proof. destruct s, s'; simpl; intros; by subst. Qed.

Lemma unlock_id s : locked s = false → set_locked false s = s.
Proof. intros H. by apply Storage_eq. Qed.

Transparent released resolved.

Lemma released_state pid mid m s :
  locked s = false → release_ok m s = true →
  set_locked false (fst (released pid mid m (set_locked true s)))
  = approved_state pid mid m s.
Proof.
  intros Hl Hok. apply release_ok_split in Hok as (H1 & H2 & H3).
  unfold released, approved_state. cbv zeta. simpl fst.
  change (allMilestonesApproved (set_balance ?b (set_balance ?b' ?x)) pid)
    with (allMilestonesApproved x pid).
  change (allMilestonesApproved
            (updMilestone pid mid ?f (set_locked true s)) pid)
    with (allMilestonesApproved (updMilestone pid mid f s) pid).
  destruct (allMilestonesApproved _ pid);
    apply Storage_eq; simpl; try done;
    set (fee := m_amount m * platformFeePercent s / 100) in *; lia.
Qed.

Lemma resolved_state_eq did m avg s :
  locked s = false → m_amount m * avg / 100 ≤ m_amount m →
  fst (resolved did m avg s) = resolved_state did m s.
Proof.
  intros Hl Hb. unfold resolved, resolved_state. cbv zeta. simpl fst.
  set (fa := m_amount m * avg / 100) in *.
  destruct (0 <? fa) eqn:E1; destruct (0 <? m_amount m - fa) eqn:E2;
    apply Storage_eq; simpl; try done;
    apply N.ltb_lt in E1 || apply N.ltb_ge in E1;
    apply N.ltb_lt in E2 || apply N.ltb_ge in E2; lia.
Qed.

Opaque released resolved.

Lemma sum_Ok now amounts deadlines t s r s' l :
  length amounts = length deadlines → t ≤ MAX_UINT256 →
  sumMilestoneAmounts now amounts deadlines t s = Ok (r, s', l) →
  r = t + sumN amounts ∧ t + sumN amounts ≤ MAX_UINT256
  ∧ Forall (fun a => 0 < a) amounts ∧ Forall (fun d => now < d) deadlines.
Proof.
  revert deadlines t l.
  induction amounts as [|a amounts IH]; intros [|d deadlines] t l Hlen Ht H;
    try discriminate Hlen; simpl in H.
  - apply ret_Ok in H as (-> & _ & _). simpl. rewrite N.add_0_r.
    repeat split; try constructor; done.
  - minv. props.
    match goal with H : sumMilestoneAmounts _ _ _ _ _ = Ok _ |- _ =>
      apply IH in H as (-> & Hs & Ha & Hd); [|by injection Hlen|done] end.
    simpl. rewrite N.add_assoc. repeat split; try done; by constructor.
Qed.

Lemma resolution_funds did s u s' log m :
  _executeDisputeResolution did s = Ok (u, s', log) →
  milestoneOf s (d_projectId (getDispute s did))
    (d_milestoneId (getDispute s did)) = Some m →
  m_amount m ≤ balance s.
Proof.
  unfold _executeDisputeResolution. intros H Hm. xinv.
  all: match goal with H : tallyVotes _ _ _ _ _ = Ok _ |- _ =>
         apply tallyVotes_Ok in H as (-> & -> & ->) end.
  all: simpl in * |-; frame; props.
  all: match goal with H : getMilestones _ _ !! _ = Some ?m' |- _ =>
         unfold milestoneOf in Hm; rewrite Hm in H; injection H as <- end.
  all: repeat match goal with
         | H : context [?a * ?b / 100] |- _ =>
             generalize dependent (a * b / 100); intros
         end.
  all: lia.
Qed.

Lemma vote_resolution sender did pct s u s' log :
  voteOnDispute sender did pct s = Ok (u, s', log) →
  REQUIRED_ADMIN_VOTES ≤ d_voteCount (getDispute s did) + 1 →
  ∃ log', _executeDisputeResolution did
            (updDispute did (voted sender pct) s) = Ok (tt, s', log').
Proof.
  unfold voteOnDispute. intros H Hq. xinv.
  - match goal with H : _executeDisputeResolution _ _ = Ok (?u, _, _) |- _ =>
      destruct u; eauto end.
  - props. lia.
Qed.

Lemma dispatch_effect msg_sender block_timestamp c s s' log :
  locked s = false →
  dispatch msg_sender block_timestamp c s = Ok (tt, s', log) →
  effect msg_sender block_timestamp c s s'.
Proof.
  intros Hl H. destruct c; simpl in H |- *.
  - unfold addAdmin in H. xinv. unfold isAdminb in *. props.
    match goal with H : bool_decide _ = false |- _ =>
      apply bool_decide_eq_false in H end. done.
  - unfold removeAdmin in H. xinv. unfold isAdminb in *. props.
    match goal with H : bool_decide _ = true |- _ =>
      apply bool_decide_eq_true in H end.
    repeat split; try done. lia.
  - unfold pause in H. xinv. by props.
  - unfold unpause in H. xinv. by props.
  - unfold createProject in H. xinv.
    all: match goal with H : sumMilestoneAmounts _ _ _ _ _ = Ok _ |- _ =>
           pose proof H as Hst; apply sum_state in Hst as [-> ->];
           apply sum_Ok in H; [destruct H as (-> & Hs & Ha & Hd)| |done] end.
    all: props; try lia.
    all: rewrite N.add_0_l in *; simpl in * |-.
    all: repeat (split; [first [done|by destruct _milestoneDescriptions|lia]|]).
    all: apply Storage_eq; simpl; try done; lia.
  - unfold acceptProject in H. xinv. props. done.
  - unfold submitMilestone in H. xinv. props.
    match goal with Hm : getMilestones _ _ !! _ = Some ?m |- _ => exists m end.
    repeat split; try done.
    intros ->. simpl in *. lia.
  - apply approve_Ok in H
      as (m & Hm & Hp & Hs & _ & Hpa & Hst & Hms & Hok & -> & _).
    exists m. repeat split; try done. by apply released_state.
  - apply autoApprove_Ok in H
      as (m & Hm & Hp & _ & Hpa & Hst & Hms & _ & Hdue & Hok & -> & _).
    exists m. repeat split; try done. by apply released_state.
  - unfold raiseDispute in H. xinv. props.
    match goal with Hm : getMilestones _ _ !! _ = Some ?m |- _ => exists m end.
    match goal with H : (_ || _) = true |- _ =>
      apply orb_prop in H; destruct H; props end.
    all: repeat split; auto.
  - pose proof H as H0. apply vote_Ok in H. cbv zeta in H.
    destruct H as (Hadm & Hpa & Hd & Hr & Hpct & Hv & H).
    unfold isAdminb, hasVoted in *.
    apply orb_prop in Hadm.
    apply bool_decide_eq_false in Hv.
    assert (msg_sender ∈ isAdmin s ∨ msg_sender = owner s) as Hadm'.
    { destruct Hadm as [Ha|Ha]; [left; by apply bool_decide_eq_true in Ha
                                |right; by apply N.eqb_eq]. }
    repeat (split; [done|]).
    destruct (REQUIRED_ADMIN_VOTES <=? _) eqn:Hq; [|by destruct H].
    destruct H as (m & _ & _ & Hm & _ & Hb & -> & Hlog).
    exists m. split; [done|]. split; [|by apply resolved_state_eq].
    apply N.leb_le in Hq.
    destruct (vote_resolution _ _ _ _ _ _ _ H0 Hq) as (log' & Hres).
    apply (resolution_funds _ _ _ _ _ m) in Hres; [exact Hres|].
    by rewrite getDispute_upd.
  - unfold rateUser in H. xinv. by props.
  - unfold cancelProject in H. xinv. props. simpl in *.
    repeat split; try done. by apply Storage_eq.
  - unfold setPlatformFee in H. xinv. by props.
Qed.

(** * Invariants of the reachable states, by induction on the run *)

Lemma reachable_effect_ind deployer (P : Storage → Prop) :
  (∀ s w, P s → P (set_refusing w s)) →
  P (constructor deployer) →
  (∀ s msg_sender block_timestamp c s',
     reachable deployer s → P s →
     effect msg_sender block_timestamp c s s' → P s') →
  ∀ s, reachable deployer s → P s.
Proof.
  intros Hw H0 Hstep s Hr.
  induction Hr as [|s sender now c Hr IH|s w Hr IH]; [done| |by apply Hw].
  unfold exec.
  destruct (dispatch sender now c s) as [[[[] s'] log]|msg] eqn:E; [|done].
  apply (Hstep s sender now c s' Hr IH).
  apply (dispatch_effect _ _ _ _ _ log); [|done].
  by destruct (reachable_Inv _ _ Hr).
Qed.

Ltac by_call c :=
  destruct c as [a|a| | |title hash descs amounts deadlines value|pid
                |pid mid hash|pid mid|pid mid|pid mid reason|did pct
                |user rating|pid|fee].

Ltac open_effect H :=
  simpl in H;
  repeat match type of H with
         | ∃ _, _ => destruct H as [? H]
         | _ ∧ _ => let H' := fresh "Hc" in destruct H as [H' H]
         end.

Lemma reachable_fee deployer s :
  reachable deployer s → platformFeePercent s ≤ 10.
Proof.
  revert s. apply reachable_effect_ind; [by intros s w H|simpl; lia|].
  intros s sender now c s' _ IH H.
  by_call c; open_effect H.
  all: try (subst s'; exact IH).
  all: try (subst s'; simpl; done).
  - subst s'. unfold approved_state. cbv zeta.
    by destruct (allMilestonesApproved _ _).
  - subst s'. unfold approved_state. cbv zeta.
    by destruct (allMilestonesApproved _ _).
  - destruct (REQUIRED_ADMIN_VOTES <=? _).
    + destruct H as (m & _ & _ & ->). exact IH.
    + subst s'. exact IH.
Qed.

(** X1: the platform fee of a reachable state is at most 10 per cent, so
    the fee taken from a payment is at most a tenth of it, the freelancer
    receives at least nine tenths, and the fee arithmetic of a release of
    an amount up to [MAX_UINT256 / 10] cannot overflow. *)
Theorem fee_at_most_a_tenth deployer s :
  reachable deployer s →
  platformFeePercent s ≤ 10
  ∧ ∀ m, m_amount m * platformFeePercent s / 100 ≤ m_amount m / 10
       ∧ (m_amount m ≤ MAX_UINT256 / 10 →
          release_ok m s = (m_amount m <=? balance s)).
Proof.
  intros Hr. pose proof (reachable_fee _ _ Hr) as Hf.
  split; [done|]. intros m.
  assert (m_amount m * platformFeePercent s / 100 ≤ m_amount m / 10) as Hfee.
  { transitivity (m_amount m * 10 / 100).
    - apply N.Div0.div_le_mono. by apply N.mul_le_mono_l.
    - replace 100 with (10 * 10) by done.
      rewrite <- N.Div0.div_div, N.div_mul by done. done. }
  split; [done|]. intros Ha. unfold release_ok.
  pose proof (N.Div0.mul_div_le MAX_UINT256 10).
  pose proof (N.Div0.mul_div_le (m_amount m) 10).
  replace (_ <=? MAX_UINT256) with true; [|symmetry; apply N.leb_le; nia].
  replace (_ <=? m_amount m) with true; [done|].
  symmetry; apply N.leb_le. lia.
Qed.

Lemma fee_at_most_a_tenth_witness :
  platformFeePercent Sample.submitted ≤ 10
  ∧ release_ok (mkMilestone "Milestone 1" 1000 700000
                  MilestoneStatus.SUBMITTED "QmHash123" 1002)
      Sample.submitted = true.
Proof.
  assert (reachable Sample.deployer Sample.submitted) as Hr
    by (repeat apply reach_step; apply reach_init).
  destruct (fee_at_most_a_tenth Sample.deployer Sample.submitted Hr)
    as (Hf & Hm).
  split; [exact Hf|].
  destruct (Hm (mkMilestone "Milestone 1" 1000 700000
                  MilestoneStatus.SUBMITTED "QmHash123" 1002)) as (_ & Hok).
  rewrite Hok; [vm_compute; reflexivity|vm_compute; congruence].
Defined.

Lemma reachable_rating deployer s u :
  reachable deployer s → rating_bounds s u.
Proof.
  intros Hr. revert s Hr.
  apply reachable_effect_ind;
    [by intros s w H|unfold rating_bounds; simpl; lia|].
  intros s sender now c s' _ IH H.
  by_call c; open_effect H.
  all: try (subst s'; exact IH).
  - subst s'. unfold approved_state. cbv zeta.
    by destruct (allMilestonesApproved _ _).
  - subst s'. unfold approved_state. cbv zeta.
    by destruct (allMilestonesApproved _ _).
  - destruct (REQUIRED_ADMIN_VOTES <=? _).
    + destruct H as (m & _ & _ & ->). exact IH.
    + subst s'. exact IH.
  - subst s'. unfold rating_bounds in *. simpl.
    destruct (decide (user = u)) as [->|Hne].
    + rewrite !lookup_insert_eq. simpl. lia.
    + rewrite !lookup_insert_ne by done. exact IH.
Qed.

(** X2: in a reachable state the rating points of every user lie between
    one and five times the number of ratings; hence [getUserRating] of a
    rated user is a mark from 1 to 5, and 0 is returned only for a user
    that was never rated. *)
Theorem rating_in_range deployer s _user :
  reachable deployer s →
  rating_bounds s _user
  ∧ (0 < default 0 (userRatingCount s !! _user) →
     ∃ r, getUserRating s _user = Ok r ∧ 1 ≤ r ∧ r ≤ 5)
  ∧ (getUserRating s _user = Ok 0
     ↔ default 0 (userRatingCount s !! _user) = 0).
Proof.
  intros Hr. pose proof (reachable_rating _ _ _user Hr) as Hb.
  split; [done|]. unfold rating_bounds, getUserRating, div256 in *.
  set (c := default 0 (userRatingCount s !! _user)) in *.
  set (t := default 0 (userRatings s !! _user)) in *.
  assert (0 < c → 1 ≤ t / c ∧ t / c ≤ 5) as Hdiv.
  { intros Hc. split.
    - apply N.div_le_lower_bound; lia.
    - apply N.Div0.div_le_upper_bound; lia. }
  split.
  - intros Hc. destruct (c =? 0) eqn:E; [apply N.eqb_eq in E; lia|].
    exists (t / c). split; [done|auto].
  - destruct (c =? 0) eqn:E.
    + apply N.eqb_eq in E. done.
    + apply N.eqb_neq in E. split; [|done]. intros [= Hz].
      destruct Hdiv; lia.
Qed.

Lemma rating_in_range_witness :
  ∃ r, getUserRating Sample.rated Sample.freelancer = Ok r ∧ 1 ≤ r ∧ r ≤ 5.
Proof.
  assert (reachable Sample.deployer Sample.rated) as Hr
    by (repeat apply reach_step; apply reach_init).
  destruct (rating_in_range Sample.deployer Sample.rated Sample.freelancer Hr)
    as (_ & H & _).
  apply H. vm_compute. reflexivity.
Defined.

(** * Votes *)

Lemma Votes_frame s s' :
  disputeCounter s' = disputeCounter s →
  disputes s' = disputes s →
  Votes s → Votes s'.
Proof.
  intros Hc Hd [H1 H2 H3 H4].
  constructor; unfold getDispute in *; rewrite ?Hc, ?Hd; assumption.
Qed.

Lemma Votes_approved pid mid m s : Votes s → Votes (approved_state pid mid m s).
Proof.
  unfold approved_state. cbv zeta.
  destruct (allMilestonesApproved _ _); by apply Votes_frame.
Qed.

Lemma getDispute_cases did did' d s :
  getDispute (set_dispute did d s) did'
  = if decide (did = did') then d else getDispute s did'.
Proof.
  unfold getDispute; simpl. destruct (decide (did = did')) as [->|Hne].
  - by rewrite lookup_insert_eq.
  - by rewrite lookup_insert_ne.
Qed.

Lemma Votes_voted did sender pct s :
  Votes s → did < disputeCounter s → pct ≤ 100 →
  (sender ∉ d_hasVoted (getDispute s did)) →
  d_isResolved (getDispute s did) = false →
  d_voteCount (getDispute s did) + 1 < REQUIRED_ADMIN_VOTES →
  Votes (updDispute did (voted sender pct) s).
Proof.
  intros [H1 H2 H3 H4] Hd Hp Hv Hr Hq. unfold updDispute.
  constructor; simpl.
  - intros d Hle. rewrite lookup_insert_ne by lia. by apply H1.
  - intros d a. rewrite getDispute_cases. destruct (decide _) as [<-|]; [|done].
    unfold getVote; simpl. destruct (decide (sender = a)) as [->|Hne].
    + by rewrite lookup_insert_eq.
    + rewrite lookup_insert_ne by done. apply H2.
  - intros d. rewrite getDispute_cases. destruct (decide _) as [<-|]; [|done].
    simpl. rewrite H3, size_union, size_singleton by set_solver. lia.
  - intros d Hlt. rewrite getDispute_cases.
    destruct (decide _) as [<-|]; [|by apply H4]. simpl. by rewrite Hr.
Qed.

Lemma Votes_resolved did sender pct m s :
  Votes s → did < disputeCounter s → pct ≤ 100 →
  (sender ∉ d_hasVoted (getDispute s did)) →
  d_isResolved (getDispute s did) = false →
  REQUIRED_ADMIN_VOTES ≤ d_voteCount (getDispute s did) + 1 →
  Votes (resolved_state did m (updDispute did (voted sender pct) s)).
Proof.
  intros [H1 H2 H3 H4] Hd Hp Hv Hr Hq.
  pose proof (H4 did Hd) as Hold. rewrite Hr in Hold.
  unfold resolved_state. cbv zeta.
  apply (Votes_frame
           (updDispute did d_set_resolved
              (updDispute did (voted sender pct) s))); [done..|].
  unfold updDispute at 1. rewrite getDispute_upd. unfold updDispute.
  constructor; simpl.
  - intros d Hle. rewrite !lookup_insert_ne by lia. by apply H1.
  - intros d a. rewrite !getDispute_cases.
    destruct (decide _) as [<-|]; [|done].
    unfold getVote; simpl. destruct (decide (sender = a)) as [->|Hne].
    + by rewrite lookup_insert_eq.
    + rewrite lookup_insert_ne by done. apply H2.
  - intros d. rewrite !getDispute_cases.
    destruct (decide _) as [<-|]; [|done].
    simpl. rewrite H3, size_union, size_singleton by set_solver. lia.
  - intros d Hlt. rewrite !getDispute_cases.
    destruct (decide _) as [<-|]; [|by apply H4]. simpl. lia.
Qed.

Lemma Votes_raised sender now pid mid reason s :
  Votes s → Votes (raised_state sender now pid mid reason s).
Proof.
  intros [H1 H2 H3 H4]. unfold raised_state.
  apply (Votes_frame
           (updDispute (disputeCounter s)
              (fun d => mkDispute pid mid sender reason false now
                          (d_hasVoted d) (d_votes d) 0)
              (set_disputeCounter (disputeCounter s + 1) s))); [done..|].
  assert (getDispute s (disputeCounter s) = zeroDispute) as Hz.
  { unfold getDispute. by rewrite H1. }
  unfold updDispute.
  replace (getDispute (set_disputeCounter _ s) (disputeCounter s))
    with zeroDispute by (symmetry; exact Hz).
  constructor; simpl.
  - intros d Hle. rewrite lookup_insert_ne by lia. apply H1. lia.
  - intros d a. rewrite getDispute_cases.
    destruct (decide _) as [<-|]; [|apply H2].
    unfold getVote; simpl. by rewrite lookup_empty.
  - intros d. rewrite getDispute_cases.
    destruct (decide _) as [<-|]; [|apply H3].
    simpl. reflexivity.
  - intros d Hlt. rewrite getDispute_cases.
    destruct (decide _) as [<-|]; [simpl; unfold REQUIRED_ADMIN_VOTES; lia|].
    apply H4. lia.
Qed.

Lemma reachable_Votes deployer s : reachable deployer s → Votes s.
Proof.
  revert s. apply reachable_effect_ind.
  { intros s w H. by apply (Votes_frame s). }
  { constructor; simpl; intros; unfold getDispute, getVote; simpl;
      rewrite ?lookup_empty; simpl; try done; try lia. }
  intros s sender now c s' _ IH H.
  by_call c; open_effect H.
  all: try (subst s'; by apply (Votes_frame s)).
  - subst s'. by apply Votes_approved.
  - subst s'. by apply Votes_approved.
  - subst s'. by apply Votes_raised.
  - destruct (REQUIRED_ADMIN_VOTES <=? _) eqn:Hq.
    + destruct H as (m & _ & _ & ->). apply N.leb_le in Hq.
      by apply Votes_resolved.
    + subst s'. apply N.leb_gt in Hq. by apply Votes_voted.
Qed.

Lemma voters_counted s d :
  NoDup (adminList s) →
  (length (voters s d) ≤ size (d_hasVoted d))%nat.
Proof.
  intros Hnd. unfold voters.
  assert (NoDup (List.filter (hasVoted d) (adminList s))) as Hnd'.
  { apply NoDup_ListNoDup, List.NoDup_filter, NoDup_ListNoDup, Hnd. }
  rewrite <- (size_list_to_set (C := gset N)) by done.
  apply subseteq_size. intros a Ha.
  apply elem_of_list_to_set, list_elem_of_In, List.filter_In in Ha as [_ Ha].
  unfold hasVoted in Ha. by apply bool_decide_eq_true in Ha.
Qed.

(** X3: in a reachable state the vote count of a dispute is the number of
    addresses flagged as having voted, it never exceeds the quorum, and the
    dispute is resolved exactly when the count has reached the quorum; the
    roster members whose votes a tally reads are at most that many. *)
Theorem quorum_accounting deployer s _disputeId :
  reachable deployer s →
  _disputeId < disputeCounter s →
  let dispute := getDispute s _disputeId in
  d_voteCount dispute = N.of_nat (size (d_hasVoted dispute))
  ∧ d_voteCount dispute ≤ REQUIRED_ADMIN_VOTES
  ∧ (d_isResolved dispute = true
     ↔ d_voteCount dispute = REQUIRED_ADMIN_VOTES)
  ∧ N.of_nat (length (voters s dispute)) ≤ d_voteCount dispute.
Proof.
  intros Hr Hd. cbv zeta.
  destruct (reachable_Votes _ _ Hr) as [_ _ H3 H4].
  destruct (reachable_Inv _ _ Hr) as [_ HC].
  specialize (H4 _ Hd).
  split; [apply H3|].
  split; [destruct (d_isResolved _); lia|].
  split.
  - destruct (d_isResolved _); split; try done; lia.
  - rewrite H3.
    pose proof (voters_counted s (getDispute s _disputeId)
                  (inv_admin_nodup _ HC)). lia.
Qed.

Lemma quorum_accounting_witness :
  d_voteCount (getDispute Sample.one_vote 0) = 1
  ∧ d_isResolved (getDispute Sample.one_vote 0) = false
  ∧ d_voteCount (getDispute Sample.resolved 0) = REQUIRED_ADMIN_VOTES.
Proof.
  assert (reachable Sample.deployer Sample.one_vote) as Hr1
    by (repeat apply reach_step; apply reach_init).
  assert (reachable Sample.deployer Sample.resolved) as Hr2
    by (repeat apply reach_step; apply reach_init).
  assert (0 < disputeCounter Sample.one_vote) as Hd1
    by (vm_compute; reflexivity).
  assert (0 < disputeCounter Sample.resolved) as Hd2
    by (vm_compute; reflexivity).
  destruct (quorum_accounting Sample.deployer Sample.one_vote 0 Hr1 Hd1)
    as (Hc & _ & Hres & _).
  destruct (quorum_accounting Sample.deployer Sample.resolved 0 Hr2 Hd2)
    as (_ & _ & Hres2 & _).
  split; [rewrite Hc; vm_compute; reflexivity|].
  split.
  - destruct (d_isResolved (getDispute Sample.one_vote 0)) eqn:E; [|done].
    rewrite Hc in Hres. destruct Hres as [Hres _].
    specialize (Hres eq_refl). vm_compute in Hres. discriminate Hres.
  - apply Hres2. vm_compute. reflexivity.
Defined.

Lemma sum_votes_bound d l :
  (∀ a, getVote d a ≤ 100) →
  sum_votes d l ≤ 100 * N.of_nat (length l).
Proof.
  intros H. induction l as [|a l IH]; simpl; [lia|].
  specialize (H a). lia.
Qed.

(** X4: every vote recorded in a reachable state is a percentage, so the
    average that a resolution computes is at most 100 and the freelancer's
    share of any amount is at most that amount: the client's share,
    amount minus freelancer's share, cannot underflow. *)
Theorem resolution_share_bounded deployer s _disputeId :
  reachable deployer s →
  let dispute := getDispute s _disputeId in
  (∀ a, getVote dispute a ≤ 100)
  ∧ avg_vote s dispute ≤ 100
  ∧ ∀ amount, amount * avg_vote s dispute / 100 ≤ amount.
Proof.
  intros Hr. cbv zeta.
  destruct (reachable_Votes _ _ Hr) as [_ H2 _ _].
  assert (avg_vote s (getDispute s _disputeId) ≤ 100) as Havg.
  { unfold avg_vote. fold (sum_votes (getDispute s _disputeId)
                             (voters s (getDispute s _disputeId))).
    pose proof (sum_votes_bound (getDispute s _disputeId)
                  (voters s (getDispute s _disputeId))
                  (H2 _disputeId)) as Hs.
    destruct (decide (N.of_nat (length (voters s (getDispute s _disputeId))) = 0))
      as [E|E].
    - rewrite E. by destruct (sum_votes _ _).
    - apply N.Div0.div_le_upper_bound. lia. }
  split; [apply H2|]. split; [done|].
  intros amount. apply N.Div0.div_le_upper_bound. nia.
Qed.

Lemma resolution_share_bounded_witness :
  avg_vote Sample.one_vote
    (voted Sample.admin2 40 (getDispute Sample.one_vote 0)) = 50
  ∧ avg_vote Sample.resolved (getDispute Sample.resolved 0) ≤ 100.
Proof.
  assert (reachable Sample.deployer Sample.resolved) as Hr
    by (repeat apply reach_step; apply reach_init).
  destruct (resolution_share_bounded Sample.deployer Sample.resolved 0 Hr)
    as (_ & Havg & _).
  split; [vm_compute; reflexivity|exact Havg].
Defined.

(** * The vote view *)

Lemma collectVotes_spec admins d accV accP padV padP :
  length accV = length accP →
  length padV = length padP →
  (length (List.filter (hasVoted d) admins) ≤ length padV)%nat →
  N.of_nat (length accV + length padV) ≤ MAX_UINT256 →
  let vs := List.filter (hasVoted d) admins in
  collectVotes admins d (accV ++ padV) (accP ++ padP) (N.of_nat (length accV))
  = Ok (accV ++ vs ++ drop (length vs) padV,
        accP ++ map (getVote d) vs ++ drop (length vs) padP,
        N.of_nat (length accV + length vs)).
Proof.
  cbv zeta.
  revert accV accP padV padP.
  induction admins as [|a admins IH]; intros accV accP padV padP HA HP Hk Hmax.
  - simpl. rewrite !drop_0, Nat.add_0_r. done.
  - simpl in *. destruct (hasVoted d a) eqn:Hv; [|by apply IH].
    simpl in Hk.
    destruct padV as [|x padV]; [simpl in Hk; lia|].
    destruct padP as [|y padP]; [discriminate HP|].
    simpl in HP, Hk. injection HP as HP.
    rewrite !length_app. simpl.
    replace (N.of_nat (length accV) <? N.of_nat (length accV + S (length padV)))
      with true by (symmetry; apply N.ltb_lt; lia).
    replace (N.of_nat (length accV) <? N.of_nat (length accP + S (length padP)))
      with true by (symmetry; apply N.ltb_lt; lia).
    replace (N.of_nat (length accV) + 1 <=? MAX_UINT256)
      with true by (symmetry; apply N.leb_le; simpl in Hmax; lia).
    rewrite Nat2N.id.
    rewrite (insert_app_r_alt accV) by lia.
    rewrite (insert_app_r_alt accP) by lia.
    replace (length accV - length accP)%nat with O by lia.
    rewrite Nat.sub_diag. simpl.
    replace (N.of_nat (length accV) + 1)
      with (N.of_nat (length (accV ++ [a])))
      by (rewrite length_app; simpl; lia).
    rewrite (cons_middle a accV padV), (cons_middle (getVote d a) accP padP).
    rewrite !app_assoc.
    rewrite IH.
    + rewrite <- !app_assoc. simpl. rewrite length_app. simpl.
      do 3 f_equal. lia.
    + rewrite !length_app. simpl. lia.
    + done.
    + lia.
    + rewrite length_app. simpl. simpl in Hmax. lia.
Qed.

Lemma copyVotes_spec n i tV tP :
  (i + n ≤ length tV)%nat → (i + n ≤ length tP)%nat →
  copyVotes n i tV tP (take i tV ++ replicate n 0) (take i tP ++ replicate n 0)
  = Ok (take (i + n) tV, take (i + n) tP).
Proof.
  revert i. induction n as [|n IH]; intros i HV HP.
  - simpl. by rewrite !app_nil_r, Nat.add_0_r.
  - simpl.
    destruct (lookup_lt_is_Some_2 tV i ltac:(lia)) as [v Hv].
    destruct (lookup_lt_is_Some_2 tP i ltac:(lia)) as [p Hp].
    rewrite Hv, Hp.
    rewrite !length_app, !length_take. cbn [length].
    rewrite !length_replicate.
    replace (i <? i `min` length tV + S n)%nat
      with true by (symmetry; apply Nat.ltb_lt; lia).
    replace (i <? i `min` length tP + S n)%nat
      with true by (symmetry; apply Nat.ltb_lt; lia).
    simpl.
    rewrite !insert_app_r_alt by (rewrite length_take; lia).
    rewrite !length_take.
    replace (i - i `min` length tV)%nat with O by lia.
    replace (i - i `min` length tP)%nat with O by lia.
    simpl.
    rewrite (cons_middle v), (cons_middle p), !app_assoc.
    rewrite <- (take_S_r tV i v), <- (take_S_r tP i p) by done.
    rewrite IH by lia. do 3 f_equal; lia.
Qed.

(** X5: the two loops of [getDisputeVotes] never run out of their arrays:
    for an existing dispute the view returns the vote count, the resolved
    flag, the roster members that voted, in roster order, and their
    percentages; for any other id it reverts.  The length of a storage
    array fits a word. *)
Theorem getDisputeVotes_lists_roster_votes s _disputeId :
  N.of_nat (length (adminList s)) ≤ MAX_UINT256 →
  let dispute := getDispute s _disputeId in
  getDisputeVotes s _disputeId
  = if _disputeId <? disputeCounter s
    then Ok (d_voteCount dispute, d_isResolved dispute, voters s dispute,
             map (getVote dispute) (voters s dispute))
    else Revert "Dispute does not exist".
Proof.
  intros Hlen. cbv zeta. unfold getDisputeVotes.
  destruct (_disputeId <? disputeCounter s); [|done].
  set (d := getDispute s _disputeId).
  pose proof (List.filter_length_le (hasVoted d) (adminList s)) as Hle.
  pose proof (collectVotes_spec (adminList s) d [] []
                (replicate (length (adminList s)) 0)
                (replicate (length (adminList s)) 0)) as Hc.
  cbv zeta in Hc. simpl in Hc. change (N.of_nat 0) with 0 in Hc.
  rewrite Hc; clear Hc.
  2: done. 2: done. 2: by rewrite length_replicate. 2: by rewrite length_replicate.
  fold (voters s d). rewrite Nat2N.id.
  set (k := length (voters s d)).
  pose proof (copyVotes_spec k 0
                (voters s d ++ drop k (replicate (length (adminList s)) 0))
                (map (getVote d) (voters s d)
                   ++ drop k (replicate (length (adminList s)) 0))) as Hcp.
  simpl in Hcp. rewrite Hcp; clear Hcp.
  - rewrite !take_app_length'; [done| |done].
    by rewrite length_map.
  - rewrite length_app. lia.
  - rewrite length_app, length_map. lia.
Qed.

Lemma getDisputeVotes_lists_roster_votes_witness :
  getDisputeVotes Sample.one_vote 0
  = Ok (1, false, [Sample.deployer], [60]).
Proof.
  rewrite (getDisputeVotes_lists_roster_votes Sample.one_vote 0).
  - vm_compute. reflexivity.
  - vm_compute. congruence.
Defined.

(** * Projects and their disputes *)

Lemma getProject_cases pid pid' f s :
  getProject (updProject pid f s) pid'
  = if decide (pid = pid') then f (getProject s pid) else getProject s pid'.
Proof.
  destruct (decide _) as [<-|Hne].
  - apply getProject_upd.
  - by apply getProject_upd_ne.
Qed.

Lemma getMilestones_cases pid mid pid' f s :
  getMilestones (updMilestone pid mid f s) pid'
  = if decide (pid = pid')
    then alter f (N.to_nat mid) (getMilestones s pid)
    else getMilestones s pid'.
Proof.
  unfold updMilestone, getMilestones; simpl.
  destruct (decide _) as [<-|Hne].
  - by rewrite lookup_insert_eq.
  - by rewrite lookup_insert_ne.
Qed.

Lemma getMilestones_set_cases pid ms pid' s :
  getMilestones (set_milestones pid ms s) pid'
  = if decide (pid = pid') then ms else getMilestones s pid'.
Proof.
  unfold getMilestones; simpl.
  destruct (decide _) as [<-|Hne].
  - by rewrite lookup_insert_eq.
  - by rewrite lookup_insert_ne.
Qed.

Lemma getDispute_upd_cases did did' f s :
  getDispute (updDispute did f s) did'
  = if decide (did = did') then f (getDispute s did) else getDispute s did'.
Proof. unfold updDispute. apply getDispute_cases. Qed.

(** Reads of the storage that calls leave behind. *)
Ltac reads :=
  repeat first
    [ progress frame
    | rewrite getProject_cases
    | rewrite getMilestones_cases
    | rewrite getMilestones_set_cases
    | rewrite getDispute_upd_cases ].

Lemma approved_milestones pid mid m s pid' :
  getMilestones (approved_state pid mid m s) pid'
  = getMilestones
      (updMilestone pid mid (m_set_status MilestoneStatus.APPROVED) s) pid'.
Proof.
  unfold approved_state. cbv zeta. by destruct (allMilestonesApproved _ _).
Qed.

Lemma approved_project pid mid m s pid' :
  getProject (approved_state pid mid m s) pid'
  = if decide (pid = pid')
    then if allMilestonesApproved
              (updMilestone pid mid (m_set_status MilestoneStatus.APPROVED) s)
              pid
         then p_set_status ProjectStatus.COMPLETED (getProject s pid)
         else getProject s pid
    else getProject s pid'.
Proof.
  unfold approved_state. cbv zeta.
  destruct (allMilestonesApproved _ _); reads; by destruct (decide _) as [<-|].
Qed.

Lemma approved_frame pid mid m s :
  projectCounter (approved_state pid mid m s) = projectCounter s
  ∧ disputeCounter (approved_state pid mid m s) = disputeCounter s
  ∧ disputes (approved_state pid mid m s) = disputes s
  ∧ balance (approved_state pid mid m s) = balance s - m_amount m.
Proof.
  unfold approved_state. cbv zeta. by destruct (allMilestonesApproved _ _).
Qed.

(** A call that leaves the disputes alone and neither opens nor closes a
    DISPUTED status keeps the invariant. *)
Lemma Disputed_quiet s s' :
  disputeCounter s' = disputeCounter s →
  (∀ did, d_projectId (getDispute s' did) = d_projectId (getDispute s did)
          ∧ d_isResolved (getDispute s' did) = d_isResolved (getDispute s did)) →
  (∀ pid, p_status (getProject s' pid) = ProjectStatus.DISPUTED
          ↔ p_status (getProject s pid) = ProjectStatus.DISPUTED) →
  Disputed s → Disputed s'.
Proof.
  intros Hc Hd Hp [H1 H2 H3]. constructor.
  - intros did Hlt Hr. rewrite Hc in Hlt.
    destruct (Hd did) as [Hpid Hres]. rewrite Hres in Hr. rewrite Hpid.
    apply Hp. by apply H1.
  - intros d1 d2 Hl1 Hl2 Hr1 Hr2 Hpid. rewrite Hc in Hl1, Hl2.
    destruct (Hd d1) as [Hp1 Hres1], (Hd d2) as [Hp2 Hres2].
    rewrite Hres1 in Hr1. rewrite Hres2 in Hr2. rewrite Hp1, Hp2 in Hpid.
    by apply H2.
  - intros pid Hst. apply Hp, H3 in Hst as (did & Hlt & Hr & Hpid).
    destruct (Hd did) as [Hp1 Hres1].
    exists did. rewrite Hc, Hres1, Hp1. done.
Qed.

Lemma Disputed_frame s s' :
  disputeCounter s' = disputeCounter s →
  disputes s' = disputes s →
  projects s' = projects s →
  Disputed s → Disputed s'.
Proof.
  intros Hc Hd Hp. apply Disputed_quiet; [done|..].
  - intros did. unfold getDispute. by rewrite Hd.
  - intros pid. unfold getProject. by rewrite Hp.
Qed.

Lemma Disputed_raised sender now pid mid reason s :
  Disputed s →
  p_status (getProject s pid) = ProjectStatus.ACTIVE →
  Disputed (raised_state sender now pid mid reason s).
Proof.
  intros [H1 H2 H3] Hact. unfold raised_state.
  assert (∀ did, did ≠ disputeCounter s →
            getDispute
              (updMilestone pid mid (m_set_status MilestoneStatus.DISPUTED)
                 (updProject pid (p_set_status ProjectStatus.DISPUTED)
                    (updDispute (disputeCounter s)
                       (fun d => mkDispute pid mid sender reason false now
                                   (d_hasVoted d) (d_votes d) 0)
                       (set_disputeCounter (disputeCounter s + 1) s)))) did
            = getDispute s did) as Hold.
  { intros did Hne. reads. by destruct (decide _). }
  assert (∀ d, getDispute
              (updMilestone pid mid (m_set_status MilestoneStatus.DISPUTED)
                 (updProject pid (p_set_status ProjectStatus.DISPUTED)
                    (updDispute (disputeCounter s)
                       (fun d => mkDispute pid mid sender reason false now
                                   (d_hasVoted d) (d_votes d) 0)
                       (set_disputeCounter (disputeCounter s + 1) s))))
              (disputeCounter s) = d →
            d_projectId d = pid ∧ d_isResolved d = false) as Hnew.
  { intros d <-. reads. by destruct (decide _). }
  assert (∀ pid', p_status (getProject
              (updMilestone pid mid (m_set_status MilestoneStatus.DISPUTED)
                 (updProject pid (p_set_status ProjectStatus.DISPUTED)
                    (updDispute (disputeCounter s)
                       (fun d => mkDispute pid mid sender reason false now
                                   (d_hasVoted d) (d_votes d) 0)
                       (set_disputeCounter (disputeCounter s + 1) s)))) pid')
            = if decide (pid = pid') then ProjectStatus.DISPUTED
              else p_status (getProject s pid')) as Hst.
  { intros pid'. reads. by destruct (decide _). }
  set (s' := updMilestone _ _ _ _) in *.
  assert (disputeCounter s' = disputeCounter s + 1) as Hc by done.
  constructor.
  - intros did Hlt Hr. rewrite Hc in Hlt. rewrite Hst.
    destruct (decide (did = disputeCounter s)) as [->|Hne].
    + destruct (Hnew _ eq_refl) as [-> _]. by rewrite decide_True.
    + rewrite Hold in * by done. destruct (decide _) as [|Hp]; [done|].
      apply H1; [lia|done].
  - intros d1 d2 Hl1 Hl2 Hr1 Hr2 Hpid. rewrite Hc in Hl1, Hl2.
    destruct (decide (d1 = disputeCounter s)) as [->|Hn1];
      destruct (decide (d2 = disputeCounter s)) as [->|Hn2]; [done|..].
    + destruct (Hnew _ eq_refl) as [Hp _]. rewrite Hp in Hpid.
      rewrite Hold in * by done.
      specialize (H1 d2 ltac:(lia) Hr2). rewrite <- Hpid in H1. congruence.
    + destruct (Hnew _ eq_refl) as [Hp _]. rewrite Hp in Hpid.
      rewrite Hold in * by done.
      specialize (H1 d1 ltac:(lia) Hr1). rewrite Hpid in H1. congruence.
    + rewrite !Hold in * by done. apply H2; try done; lia.
  - intros pid' Hd. rewrite Hst in Hd. rewrite Hc.
    destruct (decide (pid = pid')) as [<-|Hne].
    + exists (disputeCounter s). destruct (Hnew _ eq_refl) as [Hp Hr].
      split; [lia|done].
    + destruct (H3 _ Hd) as (did & Hlt & Hr & Hp).
      exists did. rewrite Hold by lia. split; [lia|done].
Qed.

Lemma Disputed_resolved did m s :
  Disputed s → did < disputeCounter s →
  d_isResolved (getDispute s did) = false →
  Disputed (resolved_state did m s).
Proof.
  intros [H1 H2 H3] Hlt Hr. unfold resolved_state. cbv zeta.
  set (pid := d_projectId (getDispute s did)).
  set (mid := d_milestoneId (getDispute s did)).
  set (s' := set_balance _ _).
  assert (∀ did', getDispute s' did'
            = if decide (did = did') then d_set_resolved (getDispute s did)
              else getDispute s did') as Hd.
  { intros did'. unfold s'. reads. done. }
  assert (∀ pid', p_status (getProject s' pid')
            = if decide (pid = pid') then ProjectStatus.ACTIVE
              else p_status (getProject s pid')) as Hst.
  { intros pid'. unfold s'. reads. by destruct (decide _). }
  assert (disputeCounter s' = disputeCounter s) as Hc by done.
  constructor.
  - intros d' Hl' Hr'. rewrite Hc in Hl'. rewrite Hd in *.
    destruct (decide (did = d')) as [<-|Hne]; [done|].
    rewrite Hst. destruct (decide _) as [E|]; [|by apply H1].
    destruct Hne. by apply H2.
  - intros d1 d2 Hl1 Hl2 Hr1 Hr2 Hpid. rewrite Hc in Hl1, Hl2.
    rewrite !Hd in *.
    destruct (decide (did = d1)) as [<-|]; [done|].
    destruct (decide (did = d2)) as [<-|]; [done|].
    by apply H2.
  - intros pid' Hdp. rewrite Hst in Hdp.
    destruct (decide (pid = pid')) as [<-|Hne]; [done|].
    destruct (H3 _ Hdp) as (d' & Hl' & Hr' & Hp').
    exists d'. rewrite Hc, Hd.
    destruct (decide (did = d')) as [<-|]; [by destruct Hne|done].
Qed.

Lemma Disputed_voted did sender pct s :
  Disputed s → Disputed (updDispute did (voted sender pct) s).
Proof.
  apply Disputed_quiet; [done|..].
  - intros d. reads. by destruct (decide _) as [<-|].
  - intros pid. by reads.
Qed.

Lemma reachable_Disputed deployer s : reachable deployer s → Disputed s.
Proof.
  revert s. apply reachable_effect_ind.
  { intros s w H. by apply (Disputed_frame s). }
  { constructor; simpl; intros; try lia.
    unfold getProject in *. simpl in *. by rewrite lookup_empty in *. }
  intros s sender now c s' Hr IH H.
  destruct (reachable_Inv _ _ Hr) as [_ HC].
  by_call c; open_effect H.
  all: try (subst s'; by apply (Disputed_frame s)).
  - (* createProject *)
    subst s'. revert IH. apply Disputed_quiet; [done|done|].
    intros pid. unfold created_state. reads.
    destruct (decide _) as [<-|]; [|done]. simpl.
    unfold getProject. rewrite (proj1 (inv_fresh _ HC _ (N.le_refl _))).
    simpl. split; discriminate.
  - (* acceptProject *)
    subst s'. revert IH. apply Disputed_quiet; [done|done|].
    intros pid'. unfold accepted_state. reads.
    destruct (decide _) as [<-|]; [|done]. simpl.
    rewrite Hc1. split; discriminate.
  - (* approveMilestone *)
    subst s'. revert IH.
    destruct (approved_frame pid mid x s) as (_ & Hdc & Hds & _).
    apply Disputed_quiet; [done| |].
    + intros did. unfold getDispute. by rewrite Hds.
    + intros pid'. rewrite approved_project.
      destruct (decide _) as [<-|]; [|done].
      destruct (allMilestonesApproved _ _); [|done]. simpl.
      rewrite Hc3. split; discriminate.
  - (* autoApproveMilestone *)
    subst s'. revert IH.
    destruct (approved_frame pid mid x s) as (_ & Hdc & Hds & _).
    apply Disputed_quiet; [done| |].
    + intros did. unfold getDispute. by rewrite Hds.
    + intros pid'. rewrite approved_project.
      destruct (decide _) as [<-|]; [|done].
      destruct (allMilestonesApproved _ _); [|done]. simpl.
      rewrite Hc2. split; discriminate.
  - (* raiseDispute *)
    subst s'. by apply Disputed_raised.
  - (* voteOnDispute *)
    destruct (REQUIRED_ADMIN_VOTES <=? _).
    + destruct H as (m & _ & _ & ->).
      apply Disputed_resolved.
      * by apply Disputed_voted.
      * done.
      * rewrite getDispute_upd. done.
    + subst s'. by apply Disputed_voted.
  - (* cancelProject *)
    subst s'. revert IH. apply Disputed_quiet; [done|done|].
    intros pid'. unfold cancelled_state. reads.
    destruct (decide _) as [<-|]; [|done]. simpl.
    rewrite Hc2. split; discriminate.
Qed.

(** * Funds *)

Lemma sumN_app l1 l2 : sumN (l1 ++ l2) = sumN l1 + sumN l2.
Proof. induction l1 as [|a l1 IH]; simpl; [done|]. rewrite IH. lia. Qed.

Lemma sumN_update (f g : N → N) ids pid :
  NoDup ids → pid ∈ ids →
  (∀ x, x ≠ pid → g x = f x) →
  sumN (map g ids) + f pid = sumN (map f ids) + g pid.
Proof.
  intros Hnd Hin Hext. induction ids as [|x ids IH]; [by inversion Hin|].
  apply NoDup_cons in Hnd as [Hx Hnd]. simpl.
  destruct (decide (x = pid)) as [->|Hne].
  - assert (map g ids = map f ids) as ->; [|lia].
    apply map_ext_in. intros y Hy. apply Hext. intros ->.
    by apply Hx, list_elem_of_In.
  - rewrite (Hext x Hne).
    apply elem_of_cons in Hin as [->|Hin]; [done|].
    specialize (IH Hnd Hin). lia.
Qed.

Lemma project_ids_NoDup s : NoDup (project_ids s).
Proof.
  unfold project_ids. apply NoDup_fmap_2; [apply _|].
  apply NoDup_ListNoDup, List.seq_NoDup.
Qed.

Lemma project_ids_elem s pid : pid ∈ project_ids s ↔ pid < projectCounter s.
Proof.
  unfold project_ids. rewrite list_elem_of_fmap. split.
  - intros (n & -> & Hn). apply list_elem_of_In, List.in_seq in Hn. lia.
  - intros Hlt. exists (N.to_nat pid). split; [lia|].
    apply list_elem_of_In, List.in_seq. lia.
Qed.

Lemma escrow_eq s s' pid :
  getProject s' pid = getProject s pid →
  getMilestones s' pid = getMilestones s pid →
  project_escrow s' pid = project_escrow s pid.
Proof. unfold project_escrow. by intros -> ->. Qed.

Lemma escrowed_update s s' pid :
  projectCounter s' = projectCounter s →
  pid < projectCounter s →
  (∀ pid', pid' ≠ pid → project_escrow s' pid' = project_escrow s pid') →
  escrowed s' + project_escrow s pid = escrowed s + project_escrow s' pid.
Proof.
  intros Hc Hlt Hext. unfold escrowed, project_ids. rewrite Hc.
  apply sumN_update; [apply project_ids_NoDup| |done].
  by apply project_ids_elem.
Qed.

(** The amount a milestone contributes to what is held. *)
Lemma held_cons m ms :
  held (m :: ms)
  = (if MilestoneStatus.eqb (m_status m) MilestoneStatus.APPROVED
     then 0 else m_amount m) + held ms.
Proof. done. Qed.

Lemma held_alter f i ms m :
  ms !! i = Some m →
  held (alter f i ms)
  + (if MilestoneStatus.eqb (m_status m) MilestoneStatus.APPROVED
     then 0 else m_amount m)
  = held ms
    + (if MilestoneStatus.eqb (m_status (f m)) MilestoneStatus.APPROVED
       then 0 else m_amount (f m)).
Proof.
  revert i. induction ms as [|x ms IH]; intros i Hi; [done|].
  destruct i as [|i]; simpl in Hi.
  - injection Hi as ->. simpl. rewrite !held_cons.
    do 2 destruct (MilestoneStatus.eqb _ _); lia.
  - simpl. rewrite !held_cons. specialize (IH i Hi). revert IH.
    change (held (alter f i ms)) with (held (list_alter f i ms)).
    do 3 destruct (MilestoneStatus.eqb _ _); lia.
Qed.

Lemma amounts_alter f i (ms : list Milestone) :
  (∀ m, m_amount (f m) = m_amount m) →
  map m_amount (alter f i ms) = map m_amount ms.
Proof.
  intros Hf. revert i. induction ms as [|x ms IH]; intros i; [done|].
  destruct i as [|i]; simpl; [by rewrite Hf|].
  f_equal. apply IH.
Qed.

Lemma held_pending ms :
  Forall (fun m => m_status m = MilestoneStatus.PENDING) ms →
  held ms = sumN (map m_amount ms).
Proof.
  induction 1 as [|m ms Hm _ IH]; [done|].
  rewrite held_cons, Hm. simpl. by rewrite IH.
Qed.

Lemma Funds_frame s s' :
  projectCounter s' = projectCounter s →
  projects s' = projects s →
  projectMilestones s' = projectMilestones s →
  balance s' = balance s →
  Funds s → Funds s'.
Proof.
  intros Hc Hp Hm Hb [H1 H2 H3 H4].
  assert (∀ pid, getProject s' pid = getProject s pid) as HP
    by (intros; unfold getProject; by rewrite Hp).
  assert (∀ pid, getMilestones s' pid = getMilestones s pid) as HM
    by (intros; unfold getMilestones; by rewrite Hm).
  constructor.
  - intros pid. rewrite HP, HM. apply H1.
  - intros pid. rewrite HP, HM. apply H2.
  - intros pid. unfold allMilestonesApproved. rewrite HP, HM. apply H3.
  - rewrite Hb, H4. unfold escrowed, project_ids. rewrite Hc.
    apply f_equal, map_ext. intros pid. by apply escrow_eq.
Qed.

(** A call that touches one existing project keeps the invariant when it
    keeps it on that project. *)
Lemma Funds_local s s' pid :
  Funds s →
  projectCounter s' = projectCounter s →
  pid < projectCounter s →
  (∀ pid', pid' ≠ pid →
     getProject s' pid' = getProject s pid'
     ∧ getMilestones s' pid' = getMilestones s pid') →
  p_status (getProject s' pid) ≠ ProjectStatus.CREATED →
  p_totalAmount (getProject s' pid)
  = sumN (map m_amount (getMilestones s' pid)) →
  (p_status (getProject s' pid) = ProjectStatus.COMPLETED →
   allMilestonesApproved s' pid = true) →
  balance s' + project_escrow s pid = balance s + project_escrow s' pid →
  Funds s'.
Proof.
  intros [H1 H2 H3 H4] Hc Hlt Hext Hcr Htot Hcomp Hbal.
  constructor.
  - intros pid' Hst. destruct (decide (pid' = pid)) as [->|Hne]; [done|].
    destruct (Hext _ Hne) as [HP HM]. rewrite HP, HM in *. by apply H1.
  - intros pid'. destruct (decide (pid' = pid)) as [->|Hne]; [done|].
    destruct (Hext _ Hne) as [HP HM]. rewrite HP, HM. apply H2.
  - intros pid' Hst. destruct (decide (pid' = pid)) as [->|Hne]; [auto|].
    destruct (Hext _ Hne) as [HP HM]. unfold allMilestonesApproved.
    rewrite HP in Hst. rewrite HM. by apply H3.
  - pose proof (escrowed_update s s' pid Hc Hlt) as Hup.
    rewrite H4 in Hbal. rewrite <- Hup in Hbal; [lia|].
    intros pid' Hne. destruct (Hext _ Hne). by apply escrow_eq.
Qed.

Lemma Funds_created sender now title hash descs amounts deadlines s :
  Core s → Funds s →
  length descs = length amounts → length amounts = length deadlines →
  Funds (created_state sender now title hash descs amounts deadlines s).
Proof.
  intros HC [H1 H2 H3 H4] Hl1 Hl2.
  destruct (inv_fresh _ HC _ (N.le_refl (projectCounter s))) as [Hp0 Hm0].
  set (s' := created_state _ _ _ _ _ _ _ _).
  set (new := newMilestones descs amounts deadlines).
  assert (∀ pid, getProject s' pid
            = if decide (projectCounter s = pid)
              then mkProject (projectCounter s) sender 0 title hash
                     (sumN amounts) ProjectStatus.CREATED now 0 true
              else getProject s pid) as HP.
  { intros pid. unfold s', created_state. reads.
    destruct (decide _); [|done].
    unfold getProject. simpl. by rewrite Hp0. }
  assert (∀ pid, getMilestones s' pid
            = if decide (projectCounter s = pid) then new
              else getMilestones s pid) as HM.
  { intros pid. unfold s', created_state. reads.
    destruct (decide _); [|done].
    unfold getMilestones. simpl. by rewrite Hm0. }
  assert (map m_amount new = amounts) as Hamt
    by (by apply newMilestones_amounts).
  assert (Forall (fun m => m_status m = MilestoneStatus.PENDING) new) as Hpend.
  { apply Forall_forall. intros m Hm.
    apply list_elem_of_lookup in Hm as [i Hi].
    by apply (newMilestones_pending descs amounts deadlines i). }
  constructor.
  - intros pid. rewrite HP, HM. destruct (decide _); [done|apply H1].
  - intros pid. rewrite HP, HM. destruct (decide _); [simpl|apply H2].
    by rewrite Hamt.
  - intros pid. unfold allMilestonesApproved. rewrite HP, HM.
    destruct (decide _); [done|apply H3].
  - change (balance s') with (balance s + sumN amounts). rewrite H4.
    unfold escrowed, project_ids.
    change (projectCounter s') with (projectCounter s + 1).
    replace (N.to_nat (projectCounter s + 1))
      with (S (N.to_nat (projectCounter s))) by lia.
    rewrite seq_S, !map_app, sumN_app. simpl.
    rewrite N2Nat.id, N.add_0_r. f_equal.
    + apply f_equal, map_ext_in. intros pid Hin.
      apply list_elem_of_In, (project_ids_elem s) in Hin.
      symmetry. apply escrow_eq; [rewrite HP|rewrite HM];
        destruct (decide _); try done; lia.
    + unfold project_escrow. rewrite HP, HM. rewrite !decide_True by done.
      cbn [p_status ProjectStatus.eqb].
      rewrite held_pending by done. by rewrite Hamt.
Qed.

Lemma statusM_neq a b : a ≠ b → MilestoneStatus.eqb a b = false.
Proof. destruct a, b; simpl; congruence. Qed.

Lemma statusP_neq a b : a ≠ b → ProjectStatus.eqb a b = false.
Proof. destruct a, b; simpl; congruence. Qed.

Ltac held_lia Hh :=
  revert Hh;
  repeat match goal with
         | |- context [held ?l] => generalize (held l)
         end;
  intros; lia.

Lemma Funds_accepted sender now pid s :
  Funds s → pid < projectCounter s →
  p_status (getProject s pid) = ProjectStatus.CREATED →
  Funds (accepted_state sender now pid s).
Proof.
  intros HF Hlt Hst. pose proof HF as [H1 H2 H3 H4].
  apply (Funds_local s _ pid); try done; unfold accepted_state.
  - intros pid' Hne. reads. by rewrite decide_False.
  - reads. by rewrite decide_True.
  - reads. rewrite decide_True by done. simpl. apply H2.
  - reads. by rewrite decide_True.
  - unfold project_escrow. reads. rewrite decide_True by done. simpl.
    by rewrite Hst.
Qed.

Lemma Funds_altered pid mid f m s :
  Funds s → pid < projectCounter s →
  milestoneOf s pid mid = Some m →
  p_status (getProject s pid) = ProjectStatus.ACTIVE →
  (∀ m, m_amount (f m) = m_amount m) →
  m_status m ≠ MilestoneStatus.APPROVED →
  m_status (f m) ≠ MilestoneStatus.APPROVED →
  Funds (updMilestone pid mid f s).
Proof.
  intros HF Hlt Hm Hst Hf Hm1 Hm2. pose proof HF as [H1 H2 H3 H4].
  apply (Funds_local s _ pid); try done.
  - intros pid' Hne. reads. by rewrite decide_False.
  - reads. by rewrite Hst.
  - reads. rewrite decide_True, amounts_alter by done. apply H2.
  - reads. by rewrite Hst.
  - unfold project_escrow. reads. rewrite decide_True by done.
    pose proof (held_alter f (N.to_nat mid) _ _ Hm) as Hh.
    rewrite (statusM_neq _ _ Hm1), (statusM_neq _ _ Hm2), Hf in Hh.
    simpl. destruct (ProjectStatus.eqb _ _); [lia|]. held_lia Hh.
Qed.

Lemma Funds_approved pid mid m s :
  Funds s → pid < projectCounter s →
  milestoneOf s pid mid = Some m →
  p_status (getProject s pid) = ProjectStatus.ACTIVE →
  m_status m ≠ MilestoneStatus.APPROVED →
  m_amount m ≤ balance s →
  Funds (approved_state pid mid m s).
Proof.
  intros HF Hlt Hm Hst Hm1 Hb. pose proof HF as [H1 H2 H3 H4].
  destruct (approved_frame pid mid m s) as (Hpc & _ & _ & Hbal).
  apply (Funds_local s _ pid); try done.
  - intros pid' Hne. rewrite approved_project, approved_milestones. reads.
    by rewrite !decide_False.
  - rewrite approved_project, decide_True by done.
    destruct (allMilestonesApproved _ _); simpl; by rewrite ?Hst.
  - rewrite approved_project, approved_milestones. reads.
    rewrite !decide_True, amounts_alter by done.
    destruct (allMilestonesApproved _ _); simpl; apply H2.
  - rewrite approved_project, decide_True by done.
    destruct (allMilestonesApproved _ _) eqn:E.
    + intros _. unfold allMilestonesApproved in *.
      by rewrite approved_milestones.
    + by rewrite Hst.
  - rewrite Hbal. unfold project_escrow.
    rewrite approved_project, approved_milestones. reads.
    rewrite !decide_True by done. rewrite Hst.
    pose proof (held_alter (m_set_status MilestoneStatus.APPROVED)
                  (N.to_nat mid) _ _ Hm) as Hh.
    rewrite (statusM_neq _ _ Hm1) in Hh. simpl in Hh.
    destruct (allMilestonesApproved _ _); simpl; rewrite ?Hst; simpl;
      held_lia Hh.
Qed.

Lemma Funds_raised sender now pid mid reason m s :
  Funds s → pid < projectCounter s →
  milestoneOf s pid mid = Some m →
  p_status (getProject s pid) = ProjectStatus.ACTIVE →
  m_status m = MilestoneStatus.SUBMITTED →
  Funds (raised_state sender now pid mid reason s).
Proof.
  intros HF Hlt Hm Hst Hm1. pose proof HF as [H1 H2 H3 H4].
  apply (Funds_local s _ pid); try done; unfold raised_state.
  - intros pid' Hne. reads. by rewrite !decide_False.
  - reads. by rewrite decide_True.
  - reads. rewrite !decide_True, amounts_alter by done. apply H2.
  - reads. by rewrite decide_True.
  - unfold project_escrow. reads. rewrite !decide_True by done. rewrite Hst.
    pose proof (held_alter (m_set_status MilestoneStatus.DISPUTED)
                  (N.to_nat mid) _ _ Hm) as Hh.
    rewrite Hm1 in Hh. simpl in *. held_lia Hh.
Qed.

Lemma Funds_resolved did m s :
  let pid := d_projectId (getDispute s did) in
  let mid := d_milestoneId (getDispute s did) in
  Funds s → pid < projectCounter s →
  milestoneOf s pid mid = Some m →
  p_status (getProject s pid) = ProjectStatus.DISPUTED →
  m_status m = MilestoneStatus.DISPUTED →
  m_amount m ≤ balance s →
  Funds (resolved_state did m s).
Proof.
  intros pid mid HF Hlt Hm Hst Hm1 Hb. pose proof HF as [H1 H2 H3 H4].
  unfold resolved_state. cbv zeta. fold pid mid.
  apply (Funds_local s _ pid); try done.
  - intros pid' Hne. reads. by rewrite !decide_False.
  - reads. by rewrite decide_True.
  - reads. rewrite !decide_True, amounts_alter by done. apply H2.
  - reads. by rewrite decide_True.
  - unfold project_escrow. reads. rewrite !decide_True by done. rewrite Hst.
    pose proof (held_alter (m_set_status MilestoneStatus.APPROVED)
                  (N.to_nat mid) _ _ Hm) as Hh.
    rewrite Hm1 in Hh. simpl in *. held_lia Hh.
Qed.

Lemma Funds_cancelled pid s :
  Funds s → pid < projectCounter s →
  p_status (getProject s pid) = ProjectStatus.CREATED →
  p_totalAmount (getProject s pid) ≤ balance s →
  Funds (cancelled_state pid s).
Proof.
  intros HF Hlt Hst Hb. pose proof HF as [H1 H2 H3 H4].
  apply (Funds_local s _ pid); try done; unfold cancelled_state.
  - intros pid' Hne. reads. by rewrite !decide_False.
  - reads. by rewrite decide_True.
  - reads. rewrite !decide_True by done. apply H2.
  - reads. by rewrite decide_True.
  - unfold project_escrow. reads. rewrite !decide_True by done. rewrite Hst.
    simpl. rewrite held_pending by (by apply H1). rewrite <- H2. lia.
Qed.

Lemma reachable_Funds deployer s : reachable deployer s → Funds s.
Proof.
  revert s. apply reachable_effect_ind.
  { intros s w H. by apply (Funds_frame s). }
  { constructor; simpl; try done; intros pid; unfold getProject, getMilestones;
      simpl; rewrite ?lookup_empty; done. }
  intros s sender now c s' Hr IH H.
  destruct (reachable_Inv _ _ Hr) as [_ HC].
  pose proof (reachable_Disputed _ _ Hr) as HD.
  by_call c; simpl in H.
  - destruct H as (_ & _ & _ & ->). by apply (Funds_frame s).
  - destruct H as (_ & _ & _ & ->). by apply (Funds_frame s).
  - destruct H as (_ & _ & ->). by apply (Funds_frame s).
  - destruct H as (_ & _ & ->). by apply (Funds_frame s).
  - destruct H as (_ & _ & Hl1 & Hl2 & _ & _ & _ & _ & ->).
    by apply Funds_created.
  - destruct H as (Hlt & _ & Hst & _ & _ & ->). by apply Funds_accepted.
  - destruct H as (m & Hm & Hlt & _ & _ & Hst & Hms & _ & ->).
    apply (Funds_altered pid mid _ m); try done.
    by rewrite Hms.
  - destruct H as (m & Hm & Hlt & _ & _ & Hst & Hms & Hok & ->).
    apply Funds_approved; try done; [by rewrite Hms|].
    unfold release_ok in Hok. props. done.
  - destruct H as (m & Hm & Hlt & _ & Hst & Hms & _ & Hok & ->).
    apply Funds_approved; try done; [by rewrite Hms|].
    unfold release_ok in Hok. props. done.
  - destruct H as (m & Hm & Hlt & _ & _ & Hst & Hms & _ & ->).
    by apply (Funds_raised _ _ _ _ _ m).
  - destruct H as (_ & _ & Hlt & Hres & _ & _ & H).
    assert (Funds (updDispute did (voted sender pct) s)) as HF
      by (by apply (Funds_frame s)).
    destruct (REQUIRED_ADMIN_VOTES <=? _); [|by subst s'].
    destruct H as (m & Hm & Hb & ->).
    destruct (inv_dispute _ HC _ Hlt Hres) as (m' & Hm' & Hms).
    rewrite Hm in Hm'. injection Hm' as <-.
    apply Funds_resolved; try done; rewrite ?getDispute_upd; simpl; frame.
    + by apply (milestone_project_exists _ _ _ _ HC Hm).
    + done.
    + by apply (dis_status _ HD).
  - destruct H as (_ & _ & _ & ->). by apply (Funds_frame s).
  - destruct H as (Hlt & _ & _ & Hst & _ & Hb & ->).
    by apply Funds_cancelled.
  - destruct H as (_ & _ & ->). by apply (Funds_frame s).
Qed.

Lemma exec_effect deployer msg_sender block_timestamp c s :
  reachable deployer s →
  exec msg_sender block_timestamp c s = s
  ∨ effect msg_sender block_timestamp c s (exec msg_sender block_timestamp c s).
Proof.
  intros Hr. destruct (reachable_Inv _ _ Hr) as [Hl _]. unfold exec.
  destruct (dispatch _ _ _ _) as [[[[] s'] log]|msg] eqn:E; [|by left].
  right. by apply (dispatch_effect _ _ _ _ _ log).
Qed.

Lemma held_ge ms i m :
  ms !! i = Some m →
  m_status m ≠ MilestoneStatus.APPROVED →
  m_amount m ≤ held ms.
Proof.
  revert i. induction ms as [|x ms IH]; intros i Hi Hm; [done|].
  rewrite held_cons. destruct i as [|i]; simpl in Hi.
  - injection Hi as ->. rewrite (statusM_neq _ _ Hm). lia.
  - specialize (IH i Hi Hm). lia.
Qed.

Lemma sumN_ge (f : N → N) ids pid :
  pid ∈ ids → f pid ≤ sumN (map f ids).
Proof.
  induction ids as [|x ids IH]; [by inversion 1|].
  rewrite elem_of_cons. simpl. intros [->|Hin]; [lia|].
  specialize (IH Hin). lia.
Qed.

Lemma escrow_covered s pid :
  pid < projectCounter s → project_escrow s pid ≤ escrowed s.
Proof.
  intros Hlt. unfold escrowed.
  by apply (sumN_ge (project_escrow s)), project_ids_elem.
Qed.

Lemma milestone_covered deployer s pid mid m :
  reachable deployer s →
  milestoneOf s pid mid = Some m →
  m_status m ≠ MilestoneStatus.APPROVED →
  p_status (getProject s pid) ≠ ProjectStatus.CANCELLED →
  m_amount m ≤ balance s.
Proof.
  intros Hr Hm Hst Hp. destruct (reachable_Inv _ _ Hr) as [_ HC].
  rewrite (fun_balance _ (reachable_Funds _ _ Hr)).
  pose proof (milestone_project_exists _ _ _ _ HC Hm) as Hlt.
  pose proof (escrow_covered s pid Hlt) as Hcov.
  unfold project_escrow in Hcov. rewrite (statusP_neq _ _ Hp) in Hcov.
  pose proof (held_ge _ _ _ Hm Hst). lia.
Qed.

Lemma release_funded deployer s pid mid m :
  reachable deployer s →
  milestoneOf s pid mid = Some m →
  m_status m ≠ MilestoneStatus.APPROVED →
  p_status (getProject s pid) ≠ ProjectStatus.CANCELLED →
  m_amount m ≤ MAX_UINT256 / 10 →
  release_ok m s = true.
Proof.
  intros Hr Hm Hst Hp Ha.
  pose proof (milestone_covered _ _ _ _ _ Hr Hm Hst Hp) as Hb.
  pose proof (reachable_fee _ _ Hr) as Hfee.
  unfold release_ok.
  pose proof (N.Div0.mul_div_le MAX_UINT256 10).
  pose proof (N.Div0.mul_div_le (m_amount m * platformFeePercent s) 100).
  apply andb_true_intro. split; [apply andb_true_intro; split|].
  - apply N.leb_le. nia.
  - apply N.leb_le. nia.
  - by apply N.leb_le.
Qed.

(** X6: the balance of a reachable state is exactly what the contract owes:
    the amounts of the milestones not yet APPROVED, over the projects that
    are not CANCELLED.  Hence the payment of any such milestone is covered,
    a release of an amount up to [MAX_UINT256 / 10] passes its arithmetic
    and funds checks, and the refund of a project that is still CREATED is
    covered too. *)
Theorem balance_is_escrow deployer s :
  reachable deployer s →
  getContractBalance s = escrowed s
  ∧ (∀ pid mid m,
       milestoneOf s pid mid = Some m →
       m_status m ≠ MilestoneStatus.APPROVED →
       p_status (getProject s pid) ≠ ProjectStatus.CANCELLED →
       m_amount m ≤ balance s
       ∧ (m_amount m ≤ MAX_UINT256 / 10 → release_ok m s = true))
  ∧ (∀ pid,
       pid < projectCounter s →
       p_status (getProject s pid) = ProjectStatus.CREATED →
       p_totalAmount (getProject s pid) ≤ balance s).
Proof.
  intros Hr. destruct (reachable_Inv _ _ Hr) as [_ HC].
  destruct (reachable_Funds _ _ Hr) as [H1 H2 H3 H4].
  split; [exact H4|]. split.
  - intros pid mid m Hm Hst Hp.
    split; [by apply (milestone_covered deployer s pid mid)|].
    by apply (release_funded deployer s pid mid).
  - intros pid Hlt Hst. rewrite H4.
    pose proof (escrow_covered s pid Hlt) as Hcov.
    unfold project_escrow in Hcov. rewrite Hst in Hcov. simpl in Hcov.
    rewrite held_pending in Hcov by (by apply H1). by rewrite H2.
Qed.

Lemma balance_is_escrow_witness :
  getContractBalance Sample.submitted = 1000
  ∧ escrowed Sample.submitted = 1000
  ∧ release_ok (mkMilestone "Milestone 1" 1000 700000
                  MilestoneStatus.SUBMITTED "QmHash123" 1002)
      Sample.submitted = true.
Proof.
  assert (reachable Sample.deployer Sample.submitted) as Hr
    by (repeat apply reach_step; apply reach_init).
  destruct (balance_is_escrow Sample.deployer Sample.submitted Hr)
    as (Hb & Hm & _).
  split; [vm_compute; reflexivity|].
  split; [rewrite <- Hb; vm_compute; reflexivity|].
  apply (Hm 0 0).
  - vm_compute. reflexivity.
  - simpl. discriminate.
  - vm_compute. discriminate.
  - vm_compute. discriminate.
Defined.

Lemma effect_project_step msg_sender block_timestamp c s s' pid :
  Core s → Disputed s →
  effect msg_sender block_timestamp c s s' →
  p_status (getProject s' pid) = p_status (getProject s pid)
  ∨ project_step (p_status (getProject s pid)) (p_status (getProject s' pid))
    = true.
Proof.
  intros HC HD H. rename pid into pid0.
  by_call c; simpl in H.
  - destruct H as (_ & _ & _ & ->). by left.
  - destruct H as (_ & _ & _ & ->). by left.
  - destruct H as (_ & _ & ->). by left.
  - destruct H as (_ & _ & ->). by left.
  - destruct H as (_ & _ & _ & _ & _ & _ & _ & _ & ->). left.
    unfold created_state. reads. destruct (decide _) as [<-|]; [|done].
    simpl. unfold getProject.
    by rewrite (proj1 (inv_fresh _ HC _ (N.le_refl _))).
  - destruct H as (_ & _ & Hst & _ & _ & ->).
    unfold accepted_state. reads. destruct (decide _) as [<-|]; [|by left].
    right. simpl. by rewrite Hst.
  - destruct H as (m & _ & _ & _ & _ & _ & _ & _ & ->). left. by reads.
  - destruct H as (m & _ & _ & _ & _ & Hst & _ & _ & ->).
    rewrite approved_project. destruct (decide _) as [<-|]; [|by left].
    destruct (allMilestonesApproved _ _); [|by left].
    right. simpl. by rewrite Hst.
  - destruct H as (m & _ & _ & _ & Hst & _ & _ & _ & ->).
    rewrite approved_project. destruct (decide _) as [<-|]; [|by left].
    destruct (allMilestonesApproved _ _); [|by left].
    right. simpl. by rewrite Hst.
  - destruct H as (m & _ & _ & _ & _ & Hst & _ & _ & ->).
    unfold raised_state. reads. destruct (decide _) as [<-|]; [|by left].
    right. simpl. by rewrite Hst.
  - destruct H as (_ & _ & Hlt & Hres & _ & _ & H).
    destruct (REQUIRED_ADMIN_VOTES <=? _).
    + destruct H as (m & _ & _ & ->). unfold resolved_state. cbv zeta.
      rewrite !getDispute_upd. cbn [voted d_projectId d_milestoneId]. reads.
      destruct (decide _) as [<-|]; [|by left].
      right. simpl. by rewrite (dis_status _ HD _ Hlt Hres).
    + subst s'. left. by reads.
  - destruct H as (_ & _ & _ & ->). by left.
  - destruct H as (_ & _ & _ & Hst & _ & _ & ->).
    unfold cancelled_state. reads. destruct (decide _) as [<-|]; [|by left].
    right. simpl. by rewrite Hst.
  - destruct H as (_ & _ & ->). by left.
Qed.

Lemma exec_project_step deployer msg_sender block_timestamp c s pid :
  reachable deployer s →
  p_status (getProject (exec msg_sender block_timestamp c s) pid)
  = p_status (getProject s pid)
  ∨ project_step (p_status (getProject s pid))
      (p_status (getProject (exec msg_sender block_timestamp c s) pid))
    = true.
Proof.
  intros Hr.
  destruct (exec_effect _ msg_sender block_timestamp c _ Hr) as [->|H];
    [by left|].
  destruct (reachable_Inv _ _ Hr) as [_ HC].
  by apply (effect_project_step _ _ _ _ _ _ HC (reachable_Disputed _ _ Hr) H).
Qed.

Lemma run_project_path deployer run s pid :
  reachable deployer s →
  project_path (p_status (getProject s pid))
    (p_status (getProject (exec_run run s) pid)).
Proof.
  revert s. induction run as [|[[sender now] c] run IH]; intros s Hr.
  - apply rtc_refl.
  - simpl. destruct (exec_project_step _ sender now c s pid Hr) as [E|E].
    + rewrite <- E. apply IH. by apply reach_step.
    + eapply rtc_l; [exact E|]. apply IH. by apply reach_step.
Qed.

Lemma project_path_closed a b :
  project_path a b →
  a = ProjectStatus.COMPLETED ∨ a = ProjectStatus.CANCELLED → b = a.
Proof.
  induction 1 as [|a b c Hab _ IH]; [done|].
  intros [-> | ->]; by destruct b.
Qed.

(** X7: in every reachable state a transaction leaves the status of each
    project where it was or moves it along one edge of
    CREATED -> {ACTIVE | CANCELLED}, ACTIVE -> {COMPLETED | DISPUTED},
    DISPUTED -> ACTIVE; over any run the status at the end is reached from
    the status at the start along those edges, the status of every project
    is reached that way from CREATED, and COMPLETED and CANCELLED are never
    left. *)
Theorem project_status_machine deployer s :
  reachable deployer s →
  (∀ msg_sender block_timestamp c pid,
     p_status (getProject (exec msg_sender block_timestamp c s) pid)
     = p_status (getProject s pid)
     ∨ project_step (p_status (getProject s pid))
         (p_status (getProject (exec msg_sender block_timestamp c s) pid))
       = true)
  ∧ (∀ run pid,
       project_path (p_status (getProject s pid))
         (p_status (getProject (exec_run run s) pid)))
  ∧ (∀ pid, project_path ProjectStatus.CREATED (p_status (getProject s pid)))
  ∧ (∀ run pid,
       p_status (getProject s pid) = ProjectStatus.COMPLETED
       ∨ p_status (getProject s pid) = ProjectStatus.CANCELLED →
       p_status (getProject (exec_run run s) pid)
       = p_status (getProject s pid)).
Proof.
  intros Hr. split; [|split; [|split]].
  - intros. by eapply exec_project_step.
  - intros. by eapply run_project_path.
  - intros pid. clear -Hr. induction Hr as [|s sender now c Hr IH|s w Hr IH].
    + apply rtc_refl.
    + destruct (exec_project_step _ sender now c s pid Hr) as [->|E]; [done|].
      eapply rtc_r; [exact IH|exact E].
    + exact IH.
  - intros run pid Hst.
    by apply (project_path_closed _ _ (run_project_path _ run _ pid Hr)).
Qed.

Lemma project_status_machine_witness :
  project_path ProjectStatus.CREATED
    (p_status (getProject Sample.resolved 0))
  ∧ p_status (getProject Sample.approved 0) = ProjectStatus.COMPLETED
  ∧ p_status (getProject
                (exec Sample.client 2000 (RaiseDispute 0 0 "Late")
                   Sample.approved) 0) = ProjectStatus.COMPLETED.
Proof.
  assert (reachable Sample.deployer Sample.resolved) as Hr1
    by (repeat apply reach_step; apply reach_init).
  assert (reachable Sample.deployer Sample.approved) as Hr2
    by (repeat apply reach_step; apply reach_init).
  destruct (project_status_machine Sample.deployer Sample.resolved Hr1)
    as (_ & _ & Hpath & _).
  destruct (project_status_machine Sample.deployer Sample.approved Hr2)
    as (_ & _ & _ & Hclosed).
  assert (p_status (getProject Sample.approved 0) = ProjectStatus.COMPLETED)
    as Hst by (vm_compute; reflexivity).
  split; [apply Hpath|]. split; [exact Hst|].
  exact (eq_trans
           (Hclosed [(Sample.client, 2000, RaiseDispute 0 0 "Late")] 0
              (or_introl Hst)) Hst).
Defined.

(** X8: in a reachable state a project is DISPUTED exactly while a dispute
    on it is unresolved; at most one dispute on a project is unresolved at
    a time, and the milestone it names is DISPUTED. *)
Theorem disputed_iff_open_dispute deployer s :
  reachable deployer s →
  (∀ pid,
     p_status (getProject s pid) = ProjectStatus.DISPUTED
     ↔ ∃ did, did < disputeCounter s
              ∧ d_isResolved (getDispute s did) = false
              ∧ d_projectId (getDispute s did) = pid)
  ∧ (∀ d1 d2,
       d1 < disputeCounter s → d2 < disputeCounter s →
       d_isResolved (getDispute s d1) = false →
       d_isResolved (getDispute s d2) = false →
       d_projectId (getDispute s d1) = d_projectId (getDispute s d2) →
       d1 = d2)
  ∧ (∀ did,
       did < disputeCounter s →
       d_isResolved (getDispute s did) = false →
       (m_status <$> milestoneOf s (d_projectId (getDispute s did))
                       (d_milestoneId (getDispute s did)))
       = Some MilestoneStatus.DISPUTED).
Proof.
  intros Hr. destruct (reachable_Inv _ _ Hr) as [_ HC].
  destruct (reachable_Disputed _ _ Hr) as [H1 H2 H3].
  split; [|split].
  - intros pid. split; [apply H3|].
    intros (did & Hlt & Hres & <-). by apply H1.
  - exact H2.
  - intros did Hlt Hres.
    destruct (inv_dispute _ HC _ Hlt Hres) as (m & -> & Hm). simpl.
    by rewrite Hm.
Qed.

Lemma disputed_iff_open_dispute_witness :
  p_status (getProject Sample.one_vote 0) = ProjectStatus.DISPUTED
  ∧ p_status (getProject Sample.resolved 0) ≠ ProjectStatus.DISPUTED.
Proof.
  assert (reachable Sample.deployer Sample.one_vote) as Hr1
    by (repeat apply reach_step; apply reach_init).
  assert (reachable Sample.deployer Sample.resolved) as Hr2
    by (repeat apply reach_step; apply reach_init).
  destruct (disputed_iff_open_dispute Sample.deployer Sample.one_vote Hr1)
    as (Hiff & _ & _).
  destruct (disputed_iff_open_dispute Sample.deployer Sample.resolved Hr2)
    as (Hiff2 & _ & _).
  split.
  - apply Hiff. exists 0.
    split; [vm_compute; reflexivity|]. split; vm_compute; reflexivity.
  - vm_compute. discriminate.
Defined.

(** * Projects that no call acts on *)

Lemma allApproved_lookup s pid mid m :
  allMilestonesApproved s pid = true →
  milestoneOf s pid mid = Some m →
  m_status m = MilestoneStatus.APPROVED.
Proof.
  unfold allMilestonesApproved, milestoneOf. intros Hall Hm.
  rewrite forallb_forall in Hall.
  apply statusM_eqb, Hall, list_elem_of_In, (list_elem_of_lookup_2 _ _ _ Hm).
Qed.

Lemma effect_settled msg_sender block_timestamp c s s' pid :
  Core s → Disputed s →
  effect msg_sender block_timestamp c s s' →
  settled s pid = true →
  getProject s' pid = getProject s pid
  ∧ getMilestones s' pid = getMilestones s pid.
Proof.
  intros HC HD H Hs. rename pid into pid0. unfold settled in Hs.
  assert (∀ q mid m st,
            milestoneOf s q mid = Some m →
            p_status (getProject s q) = ProjectStatus.ACTIVE →
            m_status m = st → st ≠ MilestoneStatus.APPROVED →
            q ≠ pid0) as Hbusy.
  { intros q mid m st Hm Hst Hms Hne ->. rewrite Hst in Hs.
    rewrite (allApproved_lookup _ _ _ _ Hs Hm) in Hms. by subst st. }
  by_call c; simpl in H.
  - by destruct H as (_ & _ & _ & ->).
  - by destruct H as (_ & _ & _ & ->).
  - by destruct H as (_ & _ & ->).
  - by destruct H as (_ & _ & ->).
  - destruct H as (_ & _ & _ & _ & _ & _ & _ & _ & ->).
    unfold created_state. reads.
    destruct (decide _) as [<-|]; [|done]. exfalso.
    destruct (inv_fresh _ HC _ (N.le_refl (projectCounter s))) as [Hp _].
    unfold getProject in Hs. by rewrite Hp in Hs.
  - destruct H as (_ & _ & Hst & _ & _ & ->).
    unfold accepted_state. reads.
    destruct (decide _) as [<-|]; [|done]. by rewrite Hst in Hs.
  - destruct H as (m & Hm & _ & _ & _ & Hst & Hms & _ & ->).
    reads. rewrite decide_False; [done|].
    by apply (Hbusy _ _ _ _ Hm Hst Hms).
  - destruct H as (m & Hm & _ & _ & _ & Hst & Hms & _ & ->).
    rewrite approved_project, approved_milestones. reads.
    rewrite !decide_False; [done|by apply (Hbusy _ _ _ _ Hm Hst Hms)..].
  - destruct H as (m & Hm & _ & _ & Hst & Hms & _ & _ & ->).
    rewrite approved_project, approved_milestones. reads.
    rewrite !decide_False; [done|by apply (Hbusy _ _ _ _ Hm Hst Hms)..].
  - destruct H as (m & Hm & _ & _ & _ & Hst & Hms & _ & ->).
    unfold raised_state. reads.
    rewrite !decide_False; [done|by apply (Hbusy _ _ _ _ Hm Hst Hms)..].
  - destruct H as (_ & _ & Hlt & Hres & _ & _ & H).
    destruct (REQUIRED_ADMIN_VOTES <=? _); [|by subst s'].
    destruct H as (m & _ & _ & ->). unfold resolved_state. cbv zeta.
    rewrite !getDispute_upd. cbn [voted d_projectId d_milestoneId]. reads.
    pose proof (dis_status _ HD _ Hlt Hres) as Hst.
    rewrite !decide_False; [done|intros E; rewrite E in Hst;
                                  by rewrite Hst in Hs..].
  - by destruct H as (_ & _ & _ & ->).
  - destruct H as (_ & _ & _ & Hst & _ & _ & ->).
    unfold cancelled_state. reads.
    destruct (decide _) as [<-|]; [|done]. by rewrite Hst in Hs.
  - by destruct H as (_ & _ & ->).
Qed.

Lemma run_settled deployer run s pid :
  reachable deployer s → settled s pid = true →
  getProject (exec_run run s) pid = getProject s pid
  ∧ getMilestones (exec_run run s) pid = getMilestones s pid.
Proof.
  revert s. induction run as [|[[sender now] c] run IH]; intros s Hr Hs; [done|].
  simpl.
  assert (getProject (exec sender now c s) pid = getProject s pid
          ∧ getMilestones (exec sender now c s) pid = getMilestones s pid)
    as [HP HM].
  { destruct (exec_effect _ sender now c _ Hr) as [->|H]; [done|].
    destruct (reachable_Inv _ _ Hr) as [_ HC].
    by apply (effect_settled _ _ _ _ _ _ HC (reachable_Disputed _ _ Hr) H). }
  destruct (IH (exec sender now c s)) as [HP' HM'].
  - by apply reach_step.
  - unfold settled, allMilestonesApproved in *. by rewrite HP, HM.
  - by rewrite HP', HM'.
Qed.

Lemma held_approved ms :
  forallb (fun m => MilestoneStatus.eqb (m_status m) MilestoneStatus.APPROVED)
    ms = true →
  held ms = 0.
Proof.
  induction ms as [|m ms IH]; [done|]. simpl.
  intros [Hm Hms]%andb_prop. rewrite held_cons, Hm, IH; done.
Qed.

(** X9: a project that is COMPLETED or CANCELLED, or that is ACTIVE with
    every milestone APPROVED, is never touched again: over any run its
    record and its milestones stay as they are, and the contract holds
    nothing for it.  In particular a project whose last open milestone was
    settled by a dispute stays ACTIVE and is never COMPLETED. *)
Theorem settled_project_is_frozen deployer s pid :
  reachable deployer s →
  settled s pid = true →
  project_escrow s pid = 0
  ∧ ∀ run,
      getProject (exec_run run s) pid = getProject s pid
      ∧ getMilestones (exec_run run s) pid = getMilestones s pid
      ∧ (p_status (getProject s pid) = ProjectStatus.ACTIVE →
         p_status (getProject (exec_run run s) pid) ≠ ProjectStatus.COMPLETED).
Proof.
  intros Hr Hs. split.
  - destruct (reachable_Funds _ _ Hr) as [_ _ H3 _].
    unfold settled in Hs. unfold project_escrow.
    specialize (H3 pid).
    destruct (p_status (getProject s pid)); simpl; try done.
    + by apply held_approved.
    + by apply held_approved, H3.
  - intros run. destruct (run_settled _ run _ _ Hr Hs) as [HP HM].
    split; [done|]. split; [done|]. rewrite HP. by intros ->.
Qed.

Lemma settled_project_is_frozen_witness :
  p_status (getProject Sample.resolved 0) = ProjectStatus.ACTIVE
  ∧ allMilestonesApproved Sample.resolved 0 = true
  ∧ p_status (getProject
                (exec_run [(Sample.client, 2000, ApproveMilestone 0 0)]
                   Sample.resolved) 0) ≠ ProjectStatus.COMPLETED.
Proof.
  assert (reachable Sample.deployer Sample.resolved) as Hr
    by (repeat apply reach_step; apply reach_init).
  assert (settled Sample.resolved 0 = true) as Hs by (vm_compute; reflexivity).
  assert (p_status (getProject Sample.resolved 0) = ProjectStatus.ACTIVE)
    as Hst by (vm_compute; reflexivity).
  destruct (settled_project_is_frozen Sample.deployer Sample.resolved 0 Hr Hs)
    as (_ & Hrun).
  destruct (Hrun [(Sample.client, 2000, ApproveMilestone 0 0)])
    as (_ & _ & Hnever).
  split; [exact Hst|]. split; [vm_compute; reflexivity|].
  exact (Hnever Hst).
Defined.

(** * The terms of a project *)

Lemma map_alter_same {A B} (g : A → B) (f : A → A) i (l : list A) :
  (∀ x, g (f x) = g x) → map g (alter f i l) = map g l.
Proof.
  intros Hf. revert i. induction l as [|x l IH]; intros i; [done|].
  destruct i as [|i]; simpl; [by rewrite Hf|].
  f_equal. apply IH.
Qed.

Lemma effect_terms msg_sender block_timestamp c s s' pid :
  effect msg_sender block_timestamp c s s' →
  pid < projectCounter s →
  terms s' pid = terms s pid
  ∧ (p_status (getProject s pid) ≠ ProjectStatus.CREATED →
     p_freelancer (getProject s' pid) = p_freelancer (getProject s pid)
     ∧ p_acceptedAt (getProject s' pid) = p_acceptedAt (getProject s pid))
  ∧ projectCounter s ≤ projectCounter s'.
Proof.
  intros H Hlt. rename pid into pid0. unfold terms.
  by_call c; simpl in H.
  - by destruct H as (_ & _ & _ & ->).
  - by destruct H as (_ & _ & _ & ->).
  - by destruct H as (_ & _ & ->).
  - by destruct H as (_ & _ & ->).
  - destruct H as (_ & _ & _ & _ & _ & _ & _ & _ & ->).
    unfold created_state. reads. rewrite !decide_False by lia.
    split; [done|]. split; [done|]. simpl. lia.
  - destruct H as (_ & _ & Hst & _ & _ & ->).
    unfold accepted_state. reads.
    destruct (decide _) as [<-|]; [|done]. simpl.
    split; [done|]. split; [by rewrite Hst|done].
  - destruct H as (m & _ & _ & _ & _ & _ & _ & _ & ->). reads.
    destruct (decide _) as [<-|]; [|done].
    by rewrite map_alter_same.
  - destruct H as (m & _ & _ & _ & _ & _ & _ & _ & ->).
    rewrite approved_project, approved_milestones.
    destruct (approved_frame pid mid m s) as (-> & _). reads.
    destruct (decide _) as [<-|]; [|done].
    rewrite map_alter_same by done.
    by destruct (allMilestonesApproved _ _).
  - destruct H as (m & _ & _ & _ & _ & _ & _ & _ & ->).
    rewrite approved_project, approved_milestones.
    destruct (approved_frame pid mid m s) as (-> & _). reads.
    destruct (decide _) as [<-|]; [|done].
    rewrite map_alter_same by done.
    by destruct (allMilestonesApproved _ _).
  - destruct H as (m & _ & _ & _ & _ & _ & _ & _ & ->).
    unfold raised_state. reads.
    destruct (decide _) as [<-|]; [|done].
    by rewrite map_alter_same.
  - destruct H as (_ & _ & _ & _ & _ & _ & H).
    destruct (REQUIRED_ADMIN_VOTES <=? _); [|by subst s'].
    destruct H as (m & _ & _ & ->). unfold resolved_state. cbv zeta.
    rewrite !getDispute_upd. cbn [voted d_projectId d_milestoneId]. reads.
    destruct (decide _) as [<-|]; [|done].
    by rewrite map_alter_same.
  - by destruct H as (_ & _ & _ & ->).
  - destruct H as (_ & _ & _ & _ & _ & _ & ->).
    unfold cancelled_state. reads.
    by destruct (decide _) as [<-|].
  - by destruct H as (_ & _ & ->).
Qed.

Lemma project_path_accepted a b :
  project_path a b → a ≠ ProjectStatus.CREATED → b ≠ ProjectStatus.CREATED.
Proof.
  induction 1 as [|a b c Hab _ IH]; [done|].
  intros Ha. apply IH. by destruct a, b.
Qed.

Lemma run_terms deployer run s pid :
  reachable deployer s →
  pid < projectCounter s →
  terms (exec_run run s) pid = terms s pid
  ∧ (p_status (getProject s pid) ≠ ProjectStatus.CREATED →
     p_freelancer (getProject (exec_run run s) pid)
     = p_freelancer (getProject s pid)
     ∧ p_acceptedAt (getProject (exec_run run s) pid)
       = p_acceptedAt (getProject s pid))
  ∧ projectCounter s ≤ projectCounter (exec_run run s).
Proof.
  revert s. induction run as [|[[sender now] c] run IH]; intros s Hr Hlt.
  { split; [done|]. split; [done|]. simpl. lia. }
  simpl.
  assert (terms (exec sender now c s) pid = terms s pid
          ∧ (p_status (getProject s pid) ≠ ProjectStatus.CREATED →
             p_freelancer (getProject (exec sender now c s) pid)
             = p_freelancer (getProject s pid)
             ∧ p_acceptedAt (getProject (exec sender now c s) pid)
               = p_acceptedAt (getProject s pid))
          ∧ projectCounter s ≤ projectCounter (exec sender now c s))
    as (Ht & Hf & Hc).
  { destruct (exec_effect _ sender now c _ Hr) as [->|H].
    - split; [done|]. split; [done|]. lia.
    - by apply (effect_terms _ _ _ _ _ _ H). }
  destruct (IH (exec sender now c s)) as (Ht' & Hf' & Hc').
  - by apply reach_step.
  - lia.
  - split; [by rewrite Ht'|]. split; [|lia].
    intros Hst. destruct (Hf Hst) as [<- <-]. apply Hf'.
    apply (project_path_accepted (p_status (getProject s pid))); [|done].
    apply (run_project_path deployer [(sender, now, c)] s pid Hr).
Qed.

(** X10: the terms of an existing project are fixed at creation: over any
    run its id, client, title, description hash, total amount, creation
    time and deposit flag stay as they are, and so do the description,
    amount and deadline of each of its milestones, whose number does not
    change; once the project has left CREATED its freelancer and acceptance
    time are fixed as well; the project counter never decreases. *)
Theorem project_terms_are_fixed deployer s pid run :
  reachable deployer s →
  pid < projectCounter s →
  terms (exec_run run s) pid = terms s pid
  ∧ length (getMilestones (exec_run run s) pid) = length (getMilestones s pid)
  ∧ (p_status (getProject s pid) ≠ ProjectStatus.CREATED →
     p_freelancer (getProject (exec_run run s) pid)
     = p_freelancer (getProject s pid)
     ∧ p_acceptedAt (getProject (exec_run run s) pid)
       = p_acceptedAt (getProject s pid))
  ∧ projectCounter s ≤ projectCounter (exec_run run s).
Proof.
  intros Hr Hlt. destruct (run_terms _ run _ _ Hr Hlt) as (Ht & Hf & Hc).
  split; [done|]. split; [|by split].
  apply (f_equal snd) in Ht. unfold terms in Ht. cbn [snd] in Ht.
  apply (f_equal length) in Ht. by rewrite !length_map in Ht.
Qed.

Lemma project_terms_are_fixed_witness :
  terms
    (exec_run [(Sample.client, 1003, RaiseDispute 0 0 "Work incomplete");
               (Sample.deployer, 1004, VoteOnDispute 0 60);
               (Sample.admin2, 1005, VoteOnDispute 0 40)]
       Sample.submitted) 0
  = ((0, Sample.client, "Test Project", "hash", 1000, 1000, true),
     [("Milestone 1", 1000, 700000)])
  ∧ p_freelancer
      (getProject
         (exec_run [(Sample.client, 1003, RaiseDispute 0 0 "Work incomplete");
                    (Sample.deployer, 1004, VoteOnDispute 0 60);
                    (Sample.admin2, 1005, VoteOnDispute 0 40)]
            Sample.submitted) 0)
    = Sample.freelancer.
Proof.
  assert (reachable Sample.deployer Sample.submitted) as Hr
    by (repeat apply reach_step; apply reach_init).
  assert (0 < projectCounter Sample.submitted) as Hlt
    by (vm_compute; reflexivity).
  assert (p_status (getProject Sample.submitted 0) ≠ ProjectStatus.CREATED)
    as Hst by (vm_compute; discriminate).
  destruct (project_terms_are_fixed Sample.deployer Sample.submitted 0
              [(Sample.client, 1003, RaiseDispute 0 0 "Work incomplete");
               (Sample.deployer, 1004, VoteOnDispute 0 60);
               (Sample.admin2, 1005, VoteOnDispute 0 40)] Hr Hlt)
    as (Ht & _ & Hf & _).
  destruct (Hf Hst) as [Hfr _].
  rewrite Ht, Hfr. split; vm_compute; reflexivity.
Defined.

(** * Acceptance and cancellation *)

Lemma accept_closed sender now pid s :
  p_status (getProject s pid) ≠ ProjectStatus.CREATED →
  ∃ msg, acceptProject sender now pid s = Revert msg.
Proof.
  intros Hst. unfold acceptProject. mrun.
  destruct (pid <? projectCounter s); [|by eexists].
  destruct (paused s); simpl; [by eexists|].
  rewrite (statusP_neq _ _ Hst). by eexists.
Qed.

Lemma cancel_closed sender pid s :
  p_status (getProject s pid) ≠ ProjectStatus.CREATED →
  ∃ msg, cancelProject sender pid s = Revert msg.
Proof.
  intros Hst. unfold cancelProject. mrun.
  destruct (pid <? projectCounter s); [|by eexists].
  destruct (sender =? _); [|by eexists].
  destruct (locked s); simpl; [by eexists|].
  destruct (paused s); simpl; [by eexists|]. frame.
  rewrite (statusP_neq _ _ Hst). by eexists.
Qed.

(** X11: in a reachable state a project that is still CREATED has no
    freelancer and only PENDING milestones, and its whole total is held; so
    the freelancer checks of [acceptProject] and [cancelProject] never
    fire: whatever the caller, neither call aborts with its
    already-accepted message.  Once a project has left CREATED, every later
    acceptance or cancellation of it aborts. *)
Theorem created_project_is_unaccepted deployer s pid :
  reachable deployer s →
  (p_status (getProject s pid) = ProjectStatus.CREATED →
   p_freelancer (getProject s pid) = 0
   ∧ Forall (fun m => m_status m = MilestoneStatus.PENDING)
       (getMilestones s pid)
   ∧ project_escrow s pid = p_totalAmount (getProject s pid))
  ∧ (∀ msg_sender block_timestamp,
       acceptProject msg_sender block_timestamp pid s
       ≠ Revert "Project already accepted")
  ∧ (∀ msg_sender,
       cancelProject msg_sender pid s
       ≠ Revert "Cannot cancel accepted project")
  ∧ (p_status (getProject s pid) ≠ ProjectStatus.CREATED →
     ∀ run msg_sender block_timestamp,
       (∃ msg, acceptProject msg_sender block_timestamp pid (exec_run run s)
               = Revert msg)
       ∧ (∃ msg, cancelProject msg_sender pid (exec_run run s) = Revert msg)).
Proof.
  intros Hr. destruct (reachable_Funds _ _ Hr) as [H1 H2 _ _].
  split; [|split; [|split]].
  - intros Hst. destruct (H1 _ Hst) as [Hf Hp]. split; [done|]. split; [done|].
    unfold project_escrow. rewrite Hst. simpl.
    by rewrite held_pending, H2.
  - intros sender now. unfold acceptProject. mrun.
    destruct (pid <? projectCounter s); [|done].
    destruct (paused s); simpl; [done|].
    destruct (ProjectStatus.eqb _ _) eqn:Hst; [|done].
    apply statusP_eqb in Hst. rewrite (proj1 (H1 _ Hst)). simpl.
    by destruct (sender =? _).
  - intros sender. unfold cancelProject. mrun.
    destruct (pid <? projectCounter s); [|done].
    destruct (sender =? _); [|done].
    destruct (locked s); simpl; [done|].
    destruct (paused s); simpl; [done|]. frame.
    destruct (ProjectStatus.eqb _ _) eqn:Hst; [|done].
    apply statusP_eqb in Hst. rewrite (proj1 (H1 _ Hst)). simpl.
    mrun. unfold transfer. simpl. destruct (_ <=? _); [|done].
    by case_bool_decide.
  - intros Hst run sender now.
    assert (p_status (getProject (exec_run run s) pid)
            ≠ ProjectStatus.CREATED) as Hst'.
    { apply (project_path_accepted (p_status (getProject s pid))); [|done].
      by apply (run_project_path deployer). }
    split; [by apply accept_closed|by apply cancel_closed].
Qed.

Lemma created_project_is_unaccepted_witness :
  (∃ msg, acceptProject Sample.admin2 3000 0
            (exec_run [(Sample.client, 1003, ApproveMilestone 0 0)]
               Sample.submitted) = Revert msg)
  ∧ acceptProject Sample.admin2 3000 0 Sample.submitted
    ≠ Revert "Project already accepted".
Proof.
  assert (reachable Sample.deployer Sample.submitted) as Hr
    by (repeat apply reach_step; apply reach_init).
  assert (p_status (getProject Sample.submitted 0) ≠ ProjectStatus.CREATED)
    as Hst by (vm_compute; discriminate).
  destruct (created_project_is_unaccepted Sample.deployer Sample.submitted 0 Hr)
    as (_ & Hacc & _ & Hlater).
  split.
  - exact (proj1 (Hlater Hst [(Sample.client, 1003, ApproveMilestone 0 0)]
                    Sample.admin2 3000)).
  - apply Hacc.
Defined.

Lemma cancel_eq pid s :
  pid < projectCounter s →
  locked s = false → paused s = false →
  p_status (getProject s pid) = ProjectStatus.CREATED →
  p_freelancer (getProject s pid) = 0 →
  p_totalAmount (getProject s pid) ≤ balance s →
  p_client (getProject s pid) ∉ refusing s →
  cancelProject (p_client (getProject s pid)) pid s
  = Ok (tt, cancelled_state pid s,
        [Transfer (p_client (getProject s pid))
           (p_totalAmount (getProject s pid))
           (set_locked true (cancelled_state pid s))]).
Proof.
  intros Hlt Hl Hpa Hst Hf Hb Hacc. unfold cancelProject. mrun.
  apply N.ltb_lt in Hlt. rewrite Hlt, N.eqb_refl, Hl. simpl.
  rewrite Hpa. simpl. frame. rewrite Hst, Hf. simpl. mrun.
  unfold transfer. simpl. apply N.leb_le in Hb. rewrite Hb.
  rewrite (bool_decide_eq_false_2 _ Hacc).
  f_equal.
  replace (set_locked false _) with (cancelled_state pid s)
    by (by apply Storage_eq).
  reflexivity.
Qed.

(** A client who refuses transfers cannot take the deposit back. *)
Lemma cancel_refused pid s :
  pid < projectCounter s →
  locked s = false → paused s = false →
  p_status (getProject s pid) = ProjectStatus.CREATED →
  p_freelancer (getProject s pid) = 0 →
  p_totalAmount (getProject s pid) ≤ balance s →
  p_client (getProject s pid) ∈ refusing s →
  cancelProject (p_client (getProject s pid)) pid s = Revert "Transfer failed".
Proof.
  intros Hlt Hl Hpa Hst Hf Hb Hacc. unfold cancelProject. mrun.
  apply N.ltb_lt in Hlt. rewrite Hlt, N.eqb_refl, Hl. simpl.
  rewrite Hpa. simpl. frame. rewrite Hst, Hf. simpl. mrun.
  unfold transfer. simpl. apply N.leb_le in Hb. rewrite Hb.
  by rewrite (bool_decide_eq_true_2 _ Hacc).
Qed.

Lemma cancel_log sender pid s u s' log :
  cancelProject sender pid s = Ok (u, s', log) →
  sender = p_client (getProject s pid)
  ∧ transfers log
    = [(p_client (getProject s pid), p_totalAmount (getProject s pid))].
Proof.
  unfold cancelProject. mrun.
  destruct (pid <? projectCounter s); [|done].
  destruct (sender =? _) eqn:Hs; [|done]. apply N.eqb_eq in Hs.
  destruct (locked s); simpl; [done|].
  destruct (paused s); simpl; [done|]. frame.
  destruct (ProjectStatus.eqb _ _); simpl; [|done].
  destruct (_ =? 0); simpl; [|done]. mrun. unfold transfer. simpl.
  destruct (_ <=? _); [|done]. case_bool_decide as Hacc; [done|].
  intros H. injection H as _ _ <-. done.
Qed.

(** X12: a cancellation that succeeds in a reachable state was called by the
    client and pays the client the project's total, in one transfer; that
    total is the sum of the milestone amounts, none of which had been
    submitted, and it is what the contract held for the project: balance
    and escrow both go down by it, and the project ends CANCELLED. *)
Theorem cancel_refunds_deposit deployer s msg_sender pid s' log :
  reachable deployer s →
  cancelProject msg_sender pid s = Ok (tt, s', log) →
  let project := getProject s pid in
  msg_sender = p_client project
  ∧ transfers log = [(p_client project, p_totalAmount project)]
  ∧ p_totalAmount project = sumN (map m_amount (getMilestones s pid))
  ∧ Forall (fun m => m_status m = MilestoneStatus.PENDING)
      (getMilestones s pid)
  ∧ p_totalAmount project ≤ balance s
  ∧ balance s' = balance s - p_totalAmount project
  ∧ escrowed s' = escrowed s - p_totalAmount project
  ∧ p_status (getProject s' pid) = ProjectStatus.CANCELLED.
Proof.
  intros Hr H. cbv zeta.
  destruct (reachable_Inv _ _ Hr) as [Hl _].
  destruct (reachable_Funds _ _ Hr) as [H1 H2 _ H4].
  destruct (cancel_log _ _ _ _ _ _ H) as [Hs Hlog].
  pose proof (dispatch_effect msg_sender 0 (CancelProject pid) s s' log Hl H)
    as He.
  simpl in He. destruct He as (Hlt & _ & _ & Hst & _ & Hb & Hs').
  assert (reachable deployer s') as Hr'.
  { replace s' with (exec msg_sender 0 (CancelProject pid) s);
      [by apply reach_step|].
    unfold exec. simpl. by rewrite H. }
  destruct (reachable_Funds _ _ Hr') as [_ _ _ H4'].
  assert (balance s' = balance s - p_totalAmount (getProject s pid)) as Hbal
    by (by subst s').
  split; [done|]. split; [done|]. split; [apply H2|].
  split; [by apply H1|]. split; [done|]. split; [done|].
  split; [by rewrite <- H4, <- H4'|].
  subst s'. unfold cancelled_state. reads. by rewrite decide_True.
Qed.

Lemma cancel_refunds_deposit_witness :
  ∃ s' log,
    cancelProject Sample.client 0
      (exec Sample.client 1000
         (CreateProject "Test Project" "hash" ["Milestone 1"] [1000] [700000]
            1000) (constructor Sample.deployer)) = Ok (tt, s', log)
    ∧ transfers log = [(Sample.client, 1000)]
    ∧ balance s' = 0.
Proof.
  assert (reachable Sample.deployer
            (exec Sample.client 1000
               (CreateProject "Test Project" "hash" ["Milestone 1"] [1000]
                  [700000] 1000) (constructor Sample.deployer))) as Hr
    by (repeat apply reach_step; apply reach_init).
  assert (∃ s' log,
            cancelProject Sample.client 0
              (exec Sample.client 1000
                 (CreateProject "Test Project" "hash" ["Milestone 1"] [1000]
                    [700000] 1000) (constructor Sample.deployer))
            = Ok (tt, s', log)) as (s' & log & Hrun)
    by (eexists _, _; vm_compute; reflexivity).
  destruct (cancel_refunds_deposit _ _ _ _ _ _ Hr Hrun)
    as (_ & Hlog & _ & _ & _ & Hbal & _).
  exists s', log. split; [exact Hrun|].
  split; [rewrite Hlog|rewrite Hbal]; vm_compute; reflexivity.
Defined.

(** X13: creating a project and cancelling it returns the deposit to a
    creator who accepts transfers: after a successful [createProject] in a
    reachable state, the creator's [cancelProject] of the new project
    succeeds, whatever the time, and pays back the sum of the milestone
    amounts; balance and escrow are then what they were before the project
    was created.  A creator who refuses transfers cannot cancel: the call
    aborts on the refund and the deposit stays in the contract. *)
Theorem create_then_cancel deployer s msg_sender block_timestamp
    title hash descs amounts deadlines msg_value s1 log1 :
  reachable deployer s →
  dispatch msg_sender block_timestamp
    (CreateProject title hash descs amounts deadlines msg_value) s
  = Ok (tt, s1, log1) →
  balance s1 = balance s + sumN amounts
  ∧ (msg_sender ∉ refusing s →
     ∃ s2 log2,
       cancelProject msg_sender (projectCounter s) s1 = Ok (tt, s2, log2)
       ∧ transfers log2 = [(msg_sender, sumN amounts)]
       ∧ balance s2 = balance s
       ∧ escrowed s2 = escrowed s
       ∧ p_status (getProject s2 (projectCounter s))
         = ProjectStatus.CANCELLED)
  ∧ (msg_sender ∈ refusing s →
     cancelProject msg_sender (projectCounter s) s1
     = Revert "Transfer failed"
     ∧ exec msg_sender block_timestamp (CancelProject (projectCounter s)) s1
       = s1).
Proof.
  intros Hr H.
  destruct (reachable_Inv _ _ Hr) as [Hl HC].
  destruct (reachable_Funds _ _ Hr) as [_ _ _ H4].
  pose proof (dispatch_effect _ _ _ _ _ _ Hl H) as He. simpl in He.
  destruct He as (Hpa & _ & _ & _ & _ & _ & _ & _ & Hs1).
  destruct (inv_fresh _ HC _ (N.le_refl (projectCounter s))) as [Hp0 _].
  assert (getProject s1 (projectCounter s)
          = mkProject (projectCounter s) msg_sender 0 title hash
              (sumN amounts) ProjectStatus.CREATED block_timestamp 0 true)
    as Hp.
  { subst s1. unfold created_state. reads. rewrite decide_True by done.
    unfold getProject. simpl. by rewrite Hp0. }
  assert (balance s1 = balance s + sumN amounts) as Hb1 by (by subst s1).
  assert (refusing s1 = refusing s) as Hw by (by subst s1).
  assert (reachable deployer s1) as Hr1.
  { replace s1 with (exec msg_sender block_timestamp
                       (CreateProject title hash descs amounts deadlines
                          msg_value) s); [by apply reach_step|].
    unfold exec. by rewrite H. }
  assert (projectCounter s < projectCounter s1) as Hlt
    by (subst s1; simpl; lia).
  assert (locked s1 = false) as Hl1 by (by subst s1).
  assert (paused s1 = false) as Hpa1 by (by subst s1).
  split; [done|]. split.
  - intros Hacc.
    pose proof (cancel_eq (projectCounter s) s1) as Hc.
    rewrite Hp in Hc. simpl in Hc.
    specialize (Hc Hlt Hl1 Hpa1 eq_refl eq_refl ltac:(lia)
                  ltac:(by rewrite Hw)).
    rewrite Hc. eexists _, _. split; [done|]. split; [done|].
    assert (balance (cancelled_state (projectCounter s) s1) = balance s)
      as Hb2.
    { unfold cancelled_state. simpl. rewrite Hp. simpl. lia. }
    split; [done|]. split.
    + assert (reachable deployer (cancelled_state (projectCounter s) s1))
        as Hr2.
      { replace (cancelled_state (projectCounter s) s1)
          with (exec msg_sender 0 (CancelProject (projectCounter s)) s1);
          [by apply reach_step|].
        unfold exec. simpl. by rewrite Hc. }
      destruct (reachable_Funds _ _ Hr2) as [_ _ _ H4'].
      by rewrite <- H4', Hb2.
    + unfold cancelled_state. reads. by rewrite decide_True.
  - intros Hacc.
    pose proof (cancel_refused (projectCounter s) s1) as Hc.
    rewrite Hp in Hc. simpl in Hc.
    specialize (Hc Hlt Hl1 Hpa1 eq_refl eq_refl ltac:(lia)
                  ltac:(by rewrite Hw)).
    split; [exact Hc|]. unfold exec. simpl. by rewrite Hc.
Qed.

Lemma create_then_cancel_witness :
  ∃ s2 log2,
    cancelProject Sample.client 0
      (exec Sample.client 1000
         (CreateProject "Test Project" "hash" ["Milestone 1"] [1000] [700000]
            1200) (constructor Sample.deployer)) = Ok (tt, s2, log2)
    ∧ transfers log2 = [(Sample.client, 1000)]
    ∧ balance s2 = 0.
Proof.
  assert (reachable Sample.deployer (constructor Sample.deployer)) as Hr
    by apply reach_init.
  assert (∃ s1 log1,
            dispatch Sample.client 1000
              (CreateProject "Test Project" "hash" ["Milestone 1"] [1000]
                 [700000] 1200) (constructor Sample.deployer)
            = Ok (tt, s1, log1)) as (s1 & log1 & Hrun)
    by (eexists _, _; vm_compute; reflexivity).
  destruct (create_then_cancel _ _ _ _ _ _ _ _ _ _ _ _ Hr Hrun)
    as (_ & Hok & _).
  destruct Hok as (s2 & log2 & Hc & Hlog & Hb & _);
    [vm_compute; congruence|].
  exists s2, log2. unfold exec. rewrite Hrun.
  split; [exact Hc|]. split; [exact Hlog|]. exact Hb.
Defined.

(** * The auto-approval view *)

Lemma canAutoApprove_true s now pid mid :
  canAutoApprove s now pid mid = Ok true →
  ∃ m, milestoneOf s pid mid = Some m
    ∧ pid < projectCounter s
    ∧ m_status m = MilestoneStatus.SUBMITTED
    ∧ m_submittedAt m + AUTO_APPROVE_TIMEOUT ≤ MAX_UINT256
    ∧ m_submittedAt m + AUTO_APPROVE_TIMEOUT ≤ now.
Proof.
  unfold canAutoApprove, milestoneOf.
  destruct (projectCounter s <=? pid) eqn:Hp; [done|].
  destruct (_ <=? mid); [done|].
  destruct (getMilestones s pid !! N.to_nat mid) as [m|]; [|done].
  destruct (MilestoneStatus.eqb _ _) eqn:Hst; [|done].
  destruct (_ <=? MAX_UINT256) eqn:Hov; [|done].
  intros H. injection H as H. props. by exists m.
Qed.

(** X14: [canAutoApprove] agrees with [autoApproveMilestone] on the
    milestone and the time, but reads neither the project status, nor the
    pause switch, nor whether the payment can be delivered.  Whenever the
    call succeeds the view answers true; when the view answers true in a
    reachable state, the project is ACTIVE, the contract is not paused and
    the amount is at most [MAX_UINT256 / 10], the funds being there, the
    call succeeds if the freelancer and the owner accept their payment and
    aborts on the transfer if one of them refuses it; and it aborts when
    the project is not ACTIVE or the contract is paused, although the view
    answers true. *)
Theorem canAutoApprove_agrees deployer s block_timestamp pid mid :
  reachable deployer s →
  (∀ s' log,
     autoApproveMilestone block_timestamp pid mid s = Ok (tt, s', log) →
     canAutoApprove s block_timestamp pid mid = Ok true)
  ∧ (canAutoApprove s block_timestamp pid mid = Ok true →
     ∃ m, milestoneOf s pid mid = Some m
       ∧ (p_status (getProject s pid) = ProjectStatus.ACTIVE →
          paused s = false →
          m_amount m ≤ MAX_UINT256 / 10 →
          (p_freelancer (getProject s pid) ∉ refusing s →
           owner s ∉ refusing s →
           ∃ s' log,
             autoApproveMilestone block_timestamp pid mid s
             = Ok (tt, s', log))
          ∧ (p_freelancer (getProject s pid) ∈ refusing s
             ∨ owner s ∈ refusing s →
             autoApproveMilestone block_timestamp pid mid s
             = Revert "Transfer failed"))
       ∧ (p_status (getProject s pid) ≠ ProjectStatus.ACTIVE
          ∨ paused s = true →
          ∃ msg,
            autoApproveMilestone block_timestamp pid mid s = Revert msg)).
Proof.
  intros Hr. destruct (reachable_Inv _ _ Hr) as [Hl HC]. split.
  - intros s' log H.
    apply autoApprove_Ok in H
      as (m & Hm & Hp & _ & _ & _ & Hms & Hov & Hdue & _).
    unfold canAutoApprove.
    replace (projectCounter s <=? pid) with false
      by (symmetry; by apply N.leb_gt).
    pose proof (milestoneOf_lt _ _ _ _ Hm) as Hlt. apply N.ltb_lt in Hlt.
    replace (_ <=? mid) with false by (symmetry; by apply N.leb_gt).
    unfold milestoneOf in Hm. rewrite Hm, Hms. simpl.
    replace (_ <=? MAX_UINT256) with true by (symmetry; by apply N.leb_le).
    f_equal. by apply N.leb_le.
  - intros H.
    apply canAutoApprove_true in H as (m & Hm & Hp & Hms & Hov & Hdue).
    exists m. split; [done|]. split.
    + intros Hst Hpa Ha.
      assert (release_ok m s = true) as Hok.
      { apply (release_funded deployer s pid mid); try done.
        - by rewrite Hms.
        - by rewrite Hst. }
      split.
      * intros Hf Ho. eexists _, _.
        by apply (autoApprove_eq _ _ _ _ m).
      * intros Hrf. by apply (autoApprove_refused _ _ _ _ m).
    + intros Hbad. unfold autoApproveMilestone. mrun.
      apply N.ltb_lt in Hp. rewrite Hp, Hl. simpl.
      destruct (paused s) eqn:Hpa; simpl; [by eexists|]. frame.
      destruct Hbad as [Hst|]; [|done].
      rewrite (statusP_neq _ _ Hst). by eexists.
Qed.

Lemma canAutoApprove_agrees_witness :
  canAutoApprove Sample.submitted (1002 + AUTO_APPROVE_TIMEOUT) 0 0 = Ok true
  ∧ (∃ s' log,
       autoApproveMilestone (1002 + AUTO_APPROVE_TIMEOUT) 0 0 Sample.submitted
       = Ok (tt, s', log))
  ∧ canAutoApprove Sample.halted_submitted (1002 + AUTO_APPROVE_TIMEOUT) 0 0
    = Ok true
  ∧ (∃ msg,
       autoApproveMilestone (1002 + AUTO_APPROVE_TIMEOUT) 0 0
         Sample.halted_submitted = Revert msg)
  ∧ canAutoApprove Sample.unpayable (1002 + AUTO_APPROVE_TIMEOUT) 0 0
    = Ok true
  ∧ autoApproveMilestone (1002 + AUTO_APPROVE_TIMEOUT) 0 0 Sample.unpayable
    = Revert "Transfer failed".
Proof.
  assert (reachable Sample.deployer Sample.submitted) as Hr1
    by (repeat apply reach_step; apply reach_init).
  assert (reachable Sample.deployer Sample.halted_submitted) as Hr2
    by (repeat apply reach_step; apply reach_init).
  assert (canAutoApprove Sample.submitted (1002 + AUTO_APPROVE_TIMEOUT) 0 0
          = Ok true) as Hv1 by (vm_compute; reflexivity).
  assert (canAutoApprove Sample.halted_submitted
            (1002 + AUTO_APPROVE_TIMEOUT) 0 0 = Ok true) as Hv2
    by (vm_compute; reflexivity).
  destruct (canAutoApprove_agrees Sample.deployer Sample.submitted
              (1002 + AUTO_APPROVE_TIMEOUT) 0 0 Hr1) as (_ & H1).
  destruct (canAutoApprove_agrees Sample.deployer Sample.halted_submitted
              (1002 + AUTO_APPROVE_TIMEOUT) 0 0 Hr2) as (_ & H2).
  assert (reachable Sample.deployer Sample.unpayable) as Hr3
    by (apply reach_world; repeat apply reach_step; apply reach_init).
  assert (canAutoApprove Sample.unpayable (1002 + AUTO_APPROVE_TIMEOUT) 0 0
          = Ok true) as Hv3 by (vm_compute; reflexivity).
  destruct (canAutoApprove_agrees Sample.deployer Sample.unpayable
              (1002 + AUTO_APPROVE_TIMEOUT) 0 0 Hr3) as (_ & H3).
  destruct (H1 Hv1) as (m1 & Hm1 & Hgo & _).
  destruct (H2 Hv2) as (m2 & _ & _ & Hstop).
  destruct (H3 Hv3) as (m3 & Hm3 & Hno & _).
  split; [exact Hv1|]. split; [|split; [exact Hv2|split; [|split; [exact Hv3|]]]].
  - vm_compute in Hm1. injection Hm1 as <-.
    destruct Hgo as [Hyes _];
      [vm_compute; reflexivity..|vm_compute; discriminate|].
    apply Hyes; vm_compute; congruence.
  - apply Hstop. right. vm_compute. reflexivity.
  - vm_compute in Hm3. injection Hm3 as <-.
    destruct Hno as [_ Hrefused];
      [vm_compute; reflexivity..|vm_compute; discriminate|].
    apply Hrefused. left. vm_compute. reflexivity.
Defined.

(** * The per-user index *)

Lemma getUserProjects_push u pid s v :
  getUserProjects (pushUserProject u pid s) v
  = if decide (u = v) then getUserProjects s u ++ [pid]
    else getUserProjects s v.
Proof.
  unfold getUserProjects, pushUserProject; simpl.
  destruct (decide _) as [<-|Hne].
  - by rewrite lookup_insert_eq.
  - by rewrite lookup_insert_ne.
Qed.

(** A call that leaves the index alone and keeps the parties of every
    project, and whether it was accepted, keeps the invariant. *)
Lemma Index_quiet s s' :
  projectCounter s' = projectCounter s →
  userProjects s' = userProjects s →
  (∀ pid, p_client (getProject s' pid) = p_client (getProject s pid)
          ∧ p_freelancer (getProject s' pid) = p_freelancer (getProject s pid)
          ∧ accepted (p_status (getProject s' pid))
            = accepted (p_status (getProject s pid))) →
  Index s → Index s'.
Proof.
  intros Hc Hu Hp [H1 H2].
  assert (∀ u, getUserProjects s' u = getUserProjects s u) as HU
    by (intros; unfold getUserProjects; by rewrite Hu).
  constructor.
  - intros u pid. destruct (Hp pid) as (-> & -> & ->). rewrite HU, Hc.
    apply H1.
  - intros u. rewrite HU. apply H2.
Qed.

Lemma Index_frame s s' :
  projectCounter s' = projectCounter s →
  userProjects s' = userProjects s →
  projects s' = projects s →
  Index s → Index s'.
Proof.
  intros Hc Hu Hp. apply Index_quiet; [done..|].
  intros pid. unfold getProject. by rewrite Hp.
Qed.

Lemma Index_created sender now title hash descs amounts deadlines s :
  Core s → Index s →
  Index (created_state sender now title hash descs amounts deadlines s).
Proof.
  intros HC [H1 H2].
  destruct (inv_fresh _ HC _ (N.le_refl (projectCounter s))) as [Hp0 _].
  set (s' := created_state _ _ _ _ _ _ _ _).
  assert (∀ pid, getProject s' pid
            = if decide (projectCounter s = pid)
              then mkProject (projectCounter s) sender 0 title hash
                     (sumN amounts) ProjectStatus.CREATED now 0 true
              else getProject s pid) as HP.
  { intros pid. unfold s', created_state. reads.
    destruct (decide _); [|done].
    unfold getProject. simpl. by rewrite Hp0. }
  assert (∀ u, getUserProjects s' u
            = if decide (sender = u)
              then getUserProjects s sender ++ [projectCounter s]
              else getUserProjects s u) as HU.
  { intros u. unfold s', created_state.
    change (getUserProjects (set_balance ?b ?x) u)
      with (getUserProjects x u).
    by rewrite getUserProjects_push. }
  assert (projectCounter s' = projectCounter s + 1) as Hc by done.
  constructor.
  - intros u pid. rewrite HU, HP, Hc.
    destruct (decide (projectCounter s = pid)) as [<-|Hne]; simpl.
    + destruct (decide (sender = u)) as [<-|Hu].
      * rewrite elem_of_app, list_elem_of_singleton. split; [|by right].
        intros _. split; [lia|by left].
      * split.
        -- intros Hin. apply H1 in Hin as [Hlt _]. lia.
        -- intros (_ & [E|[_ E]]); [by subst|done].
    + destruct (decide (sender = u)) as [<-|Hu].
      * rewrite elem_of_app, list_elem_of_singleton, H1. split.
        -- intros [[Hlt Hx]|E]; [|by subst]. split; [lia|done].
        -- intros [Hlt Hx]. left. split; [lia|done].
      * rewrite H1. split; intros [Hlt Hx]; (split; [lia|done]).
  - intros u. rewrite HU. destruct (decide _) as [<-|]; [|apply H2].
    apply NoDup_app. split; [apply H2|]. split; [|apply NoDup_singleton].
    intros x Hx ->%list_elem_of_singleton.
    apply H1 in Hx as [Hlt _]. lia.
Qed.

Lemma Index_accepted sender now pid s :
  Index s → pid < projectCounter s →
  p_status (getProject s pid) = ProjectStatus.CREATED →
  sender ≠ p_client (getProject s pid) →
  Index (accepted_state sender now pid s).
Proof.
  intros [H1 H2] Hlt Hst Hne.
  set (s' := accepted_state _ _ _ _).
  assert (∀ q, p_client (getProject s' q) = p_client (getProject s q)
               ∧ p_freelancer (getProject s' q)
                 = (if decide (pid = q) then sender
                    else p_freelancer (getProject s q))
               ∧ p_status (getProject s' q)
                 = (if decide (pid = q) then ProjectStatus.ACTIVE
                    else p_status (getProject s q))) as HP.
  { intros q. unfold s', accepted_state. reads.
    by destruct (decide _) as [<-|]. }
  assert (∀ u, getUserProjects s' u
            = if decide (sender = u) then getUserProjects s sender ++ [pid]
              else getUserProjects s u) as HU.
  { intros u. unfold s', accepted_state. by rewrite getUserProjects_push. }
  assert (projectCounter s' = projectCounter s) as Hc by done.
  assert (pid ∉ getUserProjects s sender) as Hfresh.
  { intros Hin. apply H1 in Hin as (_ & [E|[_ E]]); [done|].
    by rewrite Hst in E. }
  constructor.
  - intros u q. destruct (HP q) as (-> & -> & ->). rewrite HU, Hc.
    destruct (decide (pid = q)) as [<-|Hq]; simpl.
    + destruct (decide (sender = u)) as [<-|Hu].
      * rewrite elem_of_app, list_elem_of_singleton. split; [|by right].
        intros _. split; [done|by right].
      * rewrite H1, Hst. simpl. split.
        -- intros (_ & [E|[_ E]]); [|done]. split; [done|by left].
        -- intros (_ & [E|[E _]]); [|by subst]. split; [done|by left].
    + destruct (decide (sender = u)) as [<-|Hu]; [|apply H1].
      rewrite elem_of_app, list_elem_of_singleton, H1. split.
      * intros [?|E]; [done|by subst].
      * intros ?. by left.
  - intros u. rewrite HU. destruct (decide _) as [<-|]; [|apply H2].
    apply NoDup_app. split; [apply H2|]. split; [|apply NoDup_singleton].
    by intros x Hx ->%list_elem_of_singleton.
Qed.

Lemma reachable_Index deployer s : reachable deployer s → Index s.
Proof.
  revert s. apply reachable_effect_ind.
  { intros s w H. by apply (Index_frame s). }
  { constructor.
    - intros u pid. unfold getUserProjects. simpl. rewrite lookup_empty.
      simpl. split; [by intros ?%elem_of_nil|]. intros [? _]. lia.
    - intros u. unfold getUserProjects. simpl. rewrite lookup_empty.
      apply NoDup_nil_2. }
  intros s sender now c s' Hr IH H.
  destruct (reachable_Inv _ _ Hr) as [_ HC].
  pose proof (reachable_Disputed _ _ Hr) as HD.
  by_call c; simpl in H.
  - destruct H as (_ & _ & _ & ->). by apply (Index_frame s).
  - destruct H as (_ & _ & _ & ->). by apply (Index_frame s).
  - destruct H as (_ & _ & ->). by apply (Index_frame s).
  - destruct H as (_ & _ & ->). by apply (Index_frame s).
  - destruct H as (_ & _ & _ & _ & _ & _ & _ & _ & ->).
    by apply Index_created.
  - destruct H as (Hlt & _ & Hst & _ & Hne & ->). by apply Index_accepted.
  - destruct H as (m & _ & _ & _ & _ & _ & _ & _ & ->).
    by apply (Index_frame s).
  - destruct H as (m & _ & _ & _ & _ & Hst & _ & _ & ->).
    revert IH.
    destruct (approved_frame pid mid m s) as (Hpc & _).
    apply Index_quiet; [done| |].
    + unfold approved_state. cbv zeta. by destruct (allMilestonesApproved _ _).
    + intros q. rewrite approved_project.
      destruct (decide _) as [<-|]; [|done].
      destruct (allMilestonesApproved _ _); [|done]. simpl. by rewrite Hst.
  - destruct H as (m & _ & _ & _ & Hst & _ & _ & _ & ->).
    revert IH.
    destruct (approved_frame pid mid m s) as (Hpc & _).
    apply Index_quiet; [done| |].
    + unfold approved_state. cbv zeta. by destruct (allMilestonesApproved _ _).
    + intros q. rewrite approved_project.
      destruct (decide _) as [<-|]; [|done].
      destruct (allMilestonesApproved _ _); [|done]. simpl. by rewrite Hst.
  - destruct H as (m & _ & _ & _ & _ & Hst & _ & _ & ->).
    revert IH. apply Index_quiet; [done..|].
    intros q. unfold raised_state. reads.
    destruct (decide _) as [<-|]; [|done]. simpl. by rewrite Hst.
  - destruct H as (_ & _ & Hlt & Hres & _ & _ & H).
    destruct (REQUIRED_ADMIN_VOTES <=? _).
    + destruct H as (m & _ & _ & ->). revert IH.
      apply Index_quiet; [done..|].
      intros q. unfold resolved_state. cbv zeta.
      rewrite !getDispute_upd. cbn [voted d_projectId d_milestoneId]. reads.
      destruct (decide _) as [<-|]; [|done]. simpl.
      by rewrite (dis_status _ HD _ Hlt Hres).
    + subst s'. by apply (Index_frame s).
  - destruct H as (_ & _ & _ & ->). by apply (Index_frame s).
  - destruct H as (_ & _ & _ & Hst & _ & _ & ->).
    revert IH. apply Index_quiet; [done..|].
    intros q. unfold cancelled_state. reads.
    destruct (decide _) as [<-|]; [|done]. simpl. by rewrite Hst.
  - destruct H as (_ & _ & ->). by apply (Index_frame s).
Qed.

(** X15: in a reachable state [getUserProjects] lists, each once, exactly
    the existing projects that the user created and those that the user
    accepted; no project is listed for anyone else. *)
Theorem getUserProjects_lists_own_projects deployer s _user :
  reachable deployer s →
  NoDup (getUserProjects s _user)
  ∧ ∀ pid,
      pid ∈ getUserProjects s _user
      ↔ pid < projectCounter s
        ∧ (_user = p_client (getProject s pid)
           ∨ (_user = p_freelancer (getProject s pid)
              ∧ accepted (p_status (getProject s pid)) = true)).
Proof.
  intros Hr. destruct (reachable_Index _ _ Hr) as [H1 H2].
  split; [apply H2|]. intros pid. apply H1.
Qed.

Lemma getUserProjects_lists_own_projects_witness :
  getUserProjects Sample.submitted Sample.freelancer = [0]
  ∧ 0 ∈ getUserProjects Sample.submitted Sample.client
  ∧ (0 ∉ getUserProjects Sample.submitted Sample.admin2).
Proof.
  assert (reachable Sample.deployer Sample.submitted) as Hr
    by (repeat apply reach_step; apply reach_init).
  destruct (getUserProjects_lists_own_projects Sample.deployer
              Sample.submitted Sample.client Hr) as (_ & Hc).
  destruct (getUserProjects_lists_own_projects Sample.deployer
              Sample.submitted Sample.admin2 Hr) as (_ & Ha).
  split; [vm_compute; reflexivity|]. split.
  - apply Hc. split; [vm_compute; reflexivity|]. left. vm_compute. reflexivity.
  - intros Hin. apply Ha in Hin as (_ & [E|[E _]]); vm_compute in E;
      discriminate E.
Defined.

(** * The shape of the records *)

Lemma Shape_frame s s' :
  projectCounter s' = projectCounter s →
  projects s' = projects s →
  projectMilestones s' = projectMilestones s →
  Shape s → Shape s'.
Proof.
  intros Hc Hp Hm [H1 H2].
  constructor; unfold getProject, getMilestones in *;
    rewrite ?Hc, ?Hp, ?Hm; assumption.
Qed.

(** A call that rewrites one existing project, keeping its id, flag and
    number of milestones, keeps the invariant when the milestones it leaves
    are in shape. *)
Lemma Shape_local s s' pid :
  Shape s →
  projectCounter s' = projectCounter s →
  (∀ q, q ≠ pid →
     getProject s' q = getProject s q
     ∧ getMilestones s' q = getMilestones s q) →
  p_id (getProject s' pid) = p_id (getProject s pid) →
  p_fundsDeposited (getProject s' pid) = p_fundsDeposited (getProject s pid) →
  length (getMilestones s' pid) = length (getMilestones s pid) →
  Forall wf_milestone (getMilestones s' pid) →
  Shape s'.
Proof.
  intros [H1 H2] Hc Hext Hid Hfd Hlen Hwf. constructor.
  - intros q Hlt. rewrite Hc in Hlt.
    destruct (decide (q = pid)) as [->|Hne].
    + destruct (H1 _ Hlt) as (Ha & Hb & Hn). rewrite Hid, Hfd.
      split; [done|]. split; [done|].
      intros E. rewrite E in Hlen. by destruct (getMilestones s pid).
    + destruct (Hext _ Hne) as [-> ->]. by apply H1.
  - intros q. destruct (decide (q = pid)) as [->|Hne]; [done|].
    destruct (Hext _ Hne) as [_ ->]. apply H2.
Qed.

Lemma Shape_altered pid mid f s :
  Shape s →
  (∀ m, milestoneOf s pid mid = Some m → wf_milestone m → wf_milestone (f m)) →
  Shape (updMilestone pid mid f s).
Proof.
  intros HS Hf. pose proof HS as [H1 H2].
  apply (Shape_local s _ pid); try done.
  - intros q Hne. reads. by rewrite decide_False.
  - reads. rewrite decide_True by done. apply length_alter.
  - reads. rewrite decide_True by done. apply Forall_alter; [apply H2|].
    intros m Hm. by apply Hf.
Qed.

Lemma Shape_updProject pid f s :
  Shape s →
  (∀ p, p_id (f p) = p_id p ∧ p_fundsDeposited (f p) = p_fundsDeposited p) →
  Shape (updProject pid f s).
Proof.
  intros HS Hf. pose proof HS as [H1 H2].
  apply (Shape_local s _ pid); try done.
  - intros q Hne. reads. by rewrite decide_False.
  - reads. rewrite decide_True by done. apply Hf.
  - reads. rewrite decide_True by done. apply Hf.
  - reads. apply H2.
Qed.

Lemma wf_set_status st m :
  m_status m ≠ MilestoneStatus.PENDING → st ≠ MilestoneStatus.PENDING →
  wf_milestone m → wf_milestone (m_set_status st m).
Proof.
  intros Hm Hst (Ha & _ & Hh). split; [done|]. split; [done|].
  intros _. by apply Hh.
Qed.

Lemma wf_set_submission hash now m :
  hash ≠ EmptyString →
  wf_milestone m → wf_milestone (m_set_submission hash now m).
Proof. intros Hh (Ha & _ & _). split; [done|]. by split. Qed.

Lemma newMilestones_wf descs amounts deadlines :
  Forall (fun a => 0 < a) amounts →
  Forall wf_milestone (newMilestones descs amounts deadlines).
Proof.
  revert amounts deadlines.
  induction descs as [|d descs IH]; intros [|a amounts] [|t deadlines] Ha;
    try apply Forall_nil_2.
  simpl. apply Forall_cons in Ha as [Ha Has].
  apply Forall_cons. split; [|by apply IH].
  split; [done|]. split; [done|]. simpl. done.
Qed.

Lemma newMilestones_nonempty descs amounts deadlines :
  descs ≠ [] →
  length descs = length amounts → length amounts = length deadlines →
  newMilestones descs amounts deadlines ≠ [].
Proof. by destruct descs, amounts, deadlines. Qed.

Lemma Shape_created sender now title hash descs amounts deadlines s :
  Core s → Shape s →
  descs ≠ [] →
  length descs = length amounts → length amounts = length deadlines →
  Forall (fun a => 0 < a) amounts →
  Shape (created_state sender now title hash descs amounts deadlines s).
Proof.
  intros HC [H1 H2] Hne Hl1 Hl2 Ha.
  destruct (inv_fresh _ HC _ (N.le_refl (projectCounter s))) as [Hp0 Hm0].
  set (s' := created_state _ _ _ _ _ _ _ _).
  assert (∀ pid, getProject s' pid
            = if decide (projectCounter s = pid)
              then mkProject (projectCounter s) sender 0 title hash
                     (sumN amounts) ProjectStatus.CREATED now 0 true
              else getProject s pid) as HP.
  { intros pid. unfold s', created_state. reads.
    destruct (decide _); [|done].
    unfold getProject. simpl. by rewrite Hp0. }
  assert (∀ pid, getMilestones s' pid
            = if decide (projectCounter s = pid)
              then newMilestones descs amounts deadlines
              else getMilestones s pid) as HM.
  { intros pid. unfold s', created_state. reads.
    destruct (decide _); [|done].
    unfold getMilestones. simpl. by rewrite Hm0. }
  constructor.
  - intros pid Hlt. change (projectCounter s') with (projectCounter s + 1) in Hlt.
    rewrite HP, HM. destruct (decide _) as [<-|Hq]; simpl.
    + split; [done|]. split; [done|]. by apply newMilestones_nonempty.
    + apply H1. lia.
  - intros pid. rewrite HM. destruct (decide _); [|apply H2].
    by apply newMilestones_wf.
Qed.

Lemma reachable_Shape deployer s : reachable deployer s → Shape s.
Proof.
  revert s. apply reachable_effect_ind.
  { intros s w H. by apply (Shape_frame s). }
  { constructor; simpl; [intros; lia|].
    intros pid. unfold getMilestones. simpl. rewrite lookup_empty.
    apply Forall_nil_2. }
  intros s sender now c s' Hr IH H.
  destruct (reachable_Inv _ _ Hr) as [_ HC].
  by_call c; simpl in H.
  - destruct H as (_ & _ & _ & ->). by apply (Shape_frame s).
  - destruct H as (_ & _ & _ & ->). by apply (Shape_frame s).
  - destruct H as (_ & _ & ->). by apply (Shape_frame s).
  - destruct H as (_ & _ & ->). by apply (Shape_frame s).
  - destruct H as (_ & Hne & Hl1 & Hl2 & Ha & _ & _ & _ & ->).
    by apply Shape_created.
  - destruct H as (_ & _ & _ & _ & _ & ->). unfold accepted_state.
    apply (Shape_frame (updProject pid
             (fun p => mkProject (p_id p) (p_client p) sender (p_title p)
                         (p_descriptionHash p) (p_totalAmount p)
                         ProjectStatus.ACTIVE (p_createdAt p) now
                         (p_fundsDeposited p)) s)); [done..|].
    by apply Shape_updProject.
  - destruct H as (m & _ & _ & _ & _ & _ & _ & Hh & ->).
    apply Shape_altered; [done|]. intros m' _. by apply wf_set_submission.
  - destruct H as (m & Hm & _ & _ & _ & _ & Hms & _ & ->).
    assert (Shape (updMilestone pid mid
                     (m_set_status MilestoneStatus.APPROVED) s)) as HS.
    { apply Shape_altered; [done|]. intros m' Hm'.
      rewrite Hm in Hm'. injection Hm' as <-.
      apply wf_set_status; [by rewrite Hms|done]. }
    unfold approved_state. cbv zeta.
    destruct (allMilestonesApproved _ _).
    + apply (Shape_frame
               (updProject pid (p_set_status ProjectStatus.COMPLETED)
                  (updMilestone pid mid
                     (m_set_status MilestoneStatus.APPROVED) s)));
        [done..|].
      by apply Shape_updProject.
    + by apply (Shape_frame
                  (updMilestone pid mid
                     (m_set_status MilestoneStatus.APPROVED) s)).
  - destruct H as (m & Hm & _ & _ & _ & Hms & _ & _ & ->).
    assert (Shape (updMilestone pid mid
                     (m_set_status MilestoneStatus.APPROVED) s)) as HS.
    { apply Shape_altered; [done|]. intros m' Hm'.
      rewrite Hm in Hm'. injection Hm' as <-.
      apply wf_set_status; [by rewrite Hms|done]. }
    unfold approved_state. cbv zeta.
    destruct (allMilestonesApproved _ _).
    + apply (Shape_frame
               (updProject pid (p_set_status ProjectStatus.COMPLETED)
                  (updMilestone pid mid
                     (m_set_status MilestoneStatus.APPROVED) s)));
        [done..|].
      by apply Shape_updProject.
    + by apply (Shape_frame
                  (updMilestone pid mid
                     (m_set_status MilestoneStatus.APPROVED) s)).
  - destruct H as (m & Hm & _ & _ & _ & _ & Hms & _ & ->).
    unfold raised_state. apply Shape_altered.
    + apply Shape_updProject; [|done].
      by apply (Shape_frame s).
    + intros m' Hm'. frame.
      rewrite Hm in Hm'. injection Hm' as <-.
      apply wf_set_status; [by rewrite Hms|done].
  - destruct H as (_ & _ & Hlt & Hres & _ & _ & H).
    destruct (REQUIRED_ADMIN_VOTES <=? _);
      [|subst s'; by apply (Shape_frame s)].
    destruct H as (m & Hm & _ & ->).
    destruct (inv_dispute _ HC _ Hlt Hres) as (m' & Hm' & Hms).
    rewrite Hm in Hm'. injection Hm' as <-.
    unfold resolved_state. cbv zeta.
    rewrite !getDispute_upd. cbn [voted d_projectId d_milestoneId].
    set (pid := d_projectId (getDispute s did)) in *.
    set (mid := d_milestoneId (getDispute s did)) in *.
    apply (Shape_frame
             (updProject pid (p_set_status ProjectStatus.ACTIVE)
                (updMilestone pid mid (m_set_status MilestoneStatus.APPROVED)
                   s))); [done..|].
    apply Shape_updProject; [|done].
    apply Shape_altered; [done|]. intros m' Hm'.
    rewrite Hm in Hm'. injection Hm' as <-.
    apply wf_set_status; [by rewrite Hms|done].
  - destruct H as (_ & _ & _ & ->). by apply (Shape_frame s).
  - destruct H as (_ & _ & _ & _ & _ & _ & ->). unfold cancelled_state.
    apply (Shape_frame
             (updProject pid (p_set_status ProjectStatus.CANCELLED) s));
      [done..|].
    by apply Shape_updProject.
  - destruct H as (_ & _ & ->). by apply (Shape_frame s).
Qed.

Lemma sumN_positive l : l ≠ [] → Forall (fun a => 0 < a) l → 0 < sumN l.
Proof.
  destruct l as [|a l]; [done|]. intros _ [Ha _]%Forall_cons. simpl. lia.
Qed.

(** X16: every existing project of a reachable state carries its own id and
    the deposit flag, has at least one milestone and a positive total, and
    [getProjectMilestones] returns its milestones; each milestone has a
    positive amount, and it has a deliverable hash exactly when it is no
    longer PENDING, its submission time being zero until then.  For an id
    at or beyond the counter the view reverts. *)
Theorem projects_are_well_formed deployer s pid :
  reachable deployer s →
  (pid < projectCounter s →
   getProjectMilestones s pid = Ok (getMilestones s pid)
   ∧ getMilestones s pid ≠ []
   ∧ p_id (getProject s pid) = pid
   ∧ p_fundsDeposited (getProject s pid) = true
   ∧ 0 < p_totalAmount (getProject s pid)
   ∧ Forall (fun m =>
               0 < m_amount m
               ∧ (m_status m = MilestoneStatus.PENDING
                  ↔ m_deliverableHash m = EmptyString)
               ∧ (m_status m = MilestoneStatus.PENDING →
                  m_submittedAt m = 0))
       (getMilestones s pid))
  ∧ (projectCounter s ≤ pid →
     getProjectMilestones s pid = Revert "Project does not exist"
     ∧ getMilestones s pid = []).
Proof.
  intros Hr. destruct (reachable_Shape _ _ Hr) as [H1 H2].
  destruct (reachable_Funds _ _ Hr) as [_ Htot _ _].
  destruct (reachable_Inv _ _ Hr) as [_ HC]. split.
  - intros Hlt. destruct (H1 _ Hlt) as (Hid & Hfd & Hne).
    unfold getProjectMilestones.
    replace (pid <? projectCounter s) with true
      by (symmetry; by apply N.ltb_lt).
    split; [done|]. split; [done|]. split; [done|]. split; [done|].
    split.
    + rewrite Htot. apply sumN_positive.
      * by destruct (getMilestones s pid).
      * apply Forall_fmap. eapply Forall_impl; [apply H2|].
        by intros m (Ha & _).
    + eapply Forall_impl; [apply H2|].
      intros m (Ha & Hp & Hn). split; [done|]. split.
      * split; [by intros [? ?]%Hp|].
        intros Hh. destruct (m_status m) eqn:E; [done|exfalso..];
          by apply Hn.
      * by intros [? ?]%Hp.
  - intros Hge. unfold getProjectMilestones.
    replace (pid <? projectCounter s) with false
      by (symmetry; by apply N.ltb_ge).
    split; [done|]. unfold getMilestones.
    by rewrite (proj2 (inv_fresh _ HC _ Hge)).
Qed.

Lemma projects_are_well_formed_witness :
  getProjectMilestones Sample.submitted 0
  = Ok [mkMilestone "Milestone 1" 1000 700000 MilestoneStatus.SUBMITTED
          "QmHash123" 1002]
  ∧ getProjectMilestones Sample.submitted 1 = Revert "Project does not exist".
Proof.
  assert (reachable Sample.deployer Sample.submitted) as Hr
    by (repeat apply reach_step; apply reach_init).
  destruct (projects_are_well_formed Sample.deployer Sample.submitted 0 Hr)
    as (Hex & _).
  destruct (projects_are_well_formed Sample.deployer Sample.submitted 1 Hr)
    as (_ & Hno).
  split.
  - rewrite (proj1 (Hex ltac:(vm_compute; reflexivity))).
    vm_compute. reflexivity.
  - apply Hno. vm_compute. discriminate.
Defined.

(** * The parties of a dispute *)

Lemma effect_parties_kept msg_sender block_timestamp c s s' pid :
  Core s → Disputed s →
  effect msg_sender block_timestamp c s s' →
  pid < projectCounter s →
  accepted (p_status (getProject s pid)) = true →
  p_client (getProject s' pid) = p_client (getProject s pid)
  ∧ p_freelancer (getProject s' pid) = p_freelancer (getProject s pid)
  ∧ accepted (p_status (getProject s' pid)) = true.
Proof.
  intros HC HD He Hlt Hacc.
  destruct (effect_terms _ _ _ _ _ _ He Hlt) as (Ht & Hf & _).
  split; [|split].
  - unfold terms in Ht. by injection Ht.
  - apply Hf. intros E. by rewrite E in Hacc.
  - destruct (effect_project_step _ _ _ _ _ pid HC HD He) as [->|E]; [done|].
    by destruct (p_status (getProject s pid)), (p_status (getProject s' pid)).
Qed.

Lemma Parties_step s s' :
  projectCounter s ≤ projectCounter s' →
  (∀ pid, pid < projectCounter s →
     accepted (p_status (getProject s pid)) = true →
     p_client (getProject s' pid) = p_client (getProject s pid)
     ∧ p_freelancer (getProject s' pid) = p_freelancer (getProject s pid)
     ∧ accepted (p_status (getProject s' pid)) = true) →
  evolves s s' →
  (∀ did, did < disputeCounter s →
     d_projectId (getDispute s' did) = d_projectId (getDispute s did)
     ∧ d_milestoneId (getDispute s' did) = d_milestoneId (getDispute s did)
     ∧ d_initiator (getDispute s' did) = d_initiator (getDispute s did)) →
  (∀ did, did < disputeCounter s →
     d_isResolved (getDispute s did) = false →
     d_isResolved (getDispute s' did) = true →
     (m_status <$> milestoneOf s' (d_projectId (getDispute s did))
                     (d_milestoneId (getDispute s did)))
     = Some MilestoneStatus.APPROVED) →
  (∀ did, disputeCounter s ≤ did → did < disputeCounter s' →
     d_projectId (getDispute s' did) < projectCounter s'
     ∧ accepted (p_status (getProject s' (d_projectId (getDispute s' did))))
       = true
     ∧ (d_initiator (getDispute s' did)
        = p_client (getProject s' (d_projectId (getDispute s' did)))
        ∨ d_initiator (getDispute s' did)
          = p_freelancer (getProject s' (d_projectId (getDispute s' did))))
     ∧ d_isResolved (getDispute s' did) = false) →
  Parties s → Parties s'.
Proof.
  intros Hpc Hproj Hev Hold Hres Hnew HP did Hlt. cbv zeta.
  destruct (decide (did < disputeCounter s)) as [Hlt0|Hge].
  - destruct (HP _ Hlt0) as (Hp & Hacc & Hini & Hdone). cbv zeta in *.
    destruct (Hold _ Hlt0) as (-> & -> & ->).
    destruct (Hproj _ Hp Hacc) as (-> & -> & ->).
    split; [lia|]. split; [done|]. split; [done|].
    intros Hr'. destruct (d_isResolved (getDispute s did)) eqn:Hr.
    + specialize (Hdone eq_refl).
      specialize (Hev (d_projectId (getDispute s did))
                    (d_milestoneId (getDispute s did))).
      destruct (milestoneOf s _ _) as [m|]; [|done].
      simpl in Hdone. injection Hdone as Hm.
      destruct Hev as (m' & -> & [E|E]); simpl; [by rewrite E, Hm|].
      rewrite Hm in E. by destruct (m_status m').
    + by apply Hres.
  - destruct (Hnew did ltac:(lia) Hlt) as (Hp & Hacc & Hini & Hr).
    split; [done|]. split; [done|]. split; [done|]. by rewrite Hr.
Qed.

Lemma effect_disputes msg_sender block_timestamp c s s' :
  effect msg_sender block_timestamp c s s' →
  match c with
  | RaiseDispute pid mid reason =>
      s' = raised_state msg_sender block_timestamp pid mid reason s
      ∧ pid < projectCounter s
      ∧ (msg_sender = p_client (getProject s pid)
         ∨ msg_sender = p_freelancer (getProject s pid))
  | VoteOnDispute did pct =>
      did < disputeCounter s
      ∧ ((∃ m, s' = resolved_state did m
                      (updDispute did (voted msg_sender pct) s))
         ∨ s' = updDispute did (voted msg_sender pct) s)
  | _ => disputes s' = disputes s ∧ disputeCounter s' = disputeCounter s
  end
  ∧ projectCounter s ≤ projectCounter s'.
Proof.
  intros He. by_call c; simpl in He.
  - by destruct He as (_ & _ & _ & ->).
  - by destruct He as (_ & _ & _ & ->).
  - by destruct He as (_ & _ & ->).
  - by destruct He as (_ & _ & ->).
  - destruct He as (_ & _ & _ & _ & _ & _ & _ & _ & ->).
    split; [done|]. simpl. lia.
  - by destruct He as (_ & _ & _ & _ & _ & ->).
  - by destruct He as (m & _ & _ & _ & _ & _ & _ & _ & ->).
  - destruct He as (m & _ & _ & _ & _ & _ & _ & _ & ->).
    destruct (approved_frame pid mid m s) as (-> & -> & -> & _). done.
  - destruct He as (m & _ & _ & _ & _ & _ & _ & _ & ->).
    destruct (approved_frame pid mid m s) as (-> & -> & -> & _). done.
  - by destruct He as (m & _ & Hlt & Hpar & _ & _ & _ & _ & ->).
  - destruct He as (_ & _ & Hlt & _ & _ & _ & He).
    destruct (REQUIRED_ADMIN_VOTES <=? _).
    + destruct He as (m & _ & _ & ->). split; [|done].
      split; [done|]. left. by exists m.
    + subst s'. split; [|done]. split; [done|]. by right.
  - by destruct He as (_ & _ & _ & ->).
  - by destruct He as (_ & _ & _ & _ & _ & _ & ->).
  - by destruct He as (_ & _ & ->).
Qed.

Lemma reachable_Parties deployer s : reachable deployer s → Parties s.
Proof.
  induction 1 as [|s sender now c Hr IH|s w Hr IH];
    [intros did; simpl; lia| |exact IH].
  destruct (exec_effect _ sender now c _ Hr) as [->|He]; [done|].
  pose proof (reachable_Inv _ _ Hr) as HI. destruct HI as [Hl HC].
  pose proof (reachable_Disputed _ _ Hr) as HD.
  pose proof (exec_evolves sender now c s (conj Hl HC)) as Hev.
  set (s' := exec sender now c s) in *. clearbody s'.
  destruct (effect_disputes _ _ _ _ _ He) as [Hd Hpc].
  revert IH. apply Parties_step; [done|intros pid|done|..].
  { by apply (effect_parties_kept _ _ _ _ _ _ HC HD He). }
  all: destruct c as [a|a| | |title hash descs amounts deadlines value|pid
                     |pid mid hash|pid mid|pid mid|pid mid reason|did0 pct
                     |user rating|pid|fee].
  all: try (destruct Hd as [Hds Hdc]; unfold getDispute; rewrite ?Hds, ?Hdc;
            first [ by intros | intros; lia | intros ? ? ->; done ]).
  - (* raiseDispute, old disputes *)
    destruct Hd as (-> & _). intros did Hlt. unfold raised_state. reads.
    by rewrite decide_False by lia.
  - (* voteOnDispute, old disputes *)
    destruct Hd as (_ & [[m ->]| ->]); intros did Hlt.
    + unfold resolved_state. cbv zeta. reads.
      destruct (decide (did0 = did)) as [<-|]; [|done].
      by rewrite decide_True.
    + reads. by destruct (decide _) as [<-|].
  - (* raiseDispute resolves nothing *)
    destruct Hd as (-> & _). intros did Hlt Hr0. unfold raised_state. reads.
    rewrite decide_False by lia. by rewrite Hr0.
  - (* voteOnDispute resolves its dispute *)
    destruct Hd as (_ & [[m ->]| ->]); intros did Hlt Hr0.
    + unfold resolved_state. cbv zeta.
      rewrite !getDispute_upd. cbn [voted d_projectId d_milestoneId].
      reads. destruct (decide (did0 = did)) as [<-|Hne].
      * intros _. frame. rewrite milestoneOf_upd. frame.
        destruct (inv_dispute _ HC _ Hlt Hr0) as (m' & -> & _). done.
      * by rewrite Hr0.
    + reads. destruct (decide _) as [<-|]; simpl; by rewrite Hr0.
  - (* raiseDispute, the new dispute *)
    destruct Hd as (-> & Hp & Hpar). intros did Hge Hlt.
    change (disputeCounter (raised_state sender now pid mid reason s))
      with (disputeCounter s + 1) in Hlt.
    assert (did = disputeCounter s) as -> by lia.
    unfold raised_state. reads. rewrite !decide_True by done. simpl.
    split; [done|]. split; [done|]. split; [done|done].
  - (* voteOnDispute opens no dispute *)
    destruct Hd as (_ & [[m ->]| ->]); intros did Hge Hlt;
      simpl in Hlt; lia.
Qed.

(** X17: every dispute of a reachable state names an existing project that
    was accepted, its initiator is the client or the freelancer of that
    project, and its milestone is DISPUTED while the dispute is unresolved
    and APPROVED once it is resolved. *)
Theorem disputes_are_between_parties deployer s _disputeId :
  reachable deployer s →
  _disputeId < disputeCounter s →
  let dispute := getDispute s _disputeId in
  let project := getProject s (d_projectId dispute) in
  d_projectId dispute < projectCounter s
  ∧ accepted (p_status project) = true
  ∧ (d_initiator dispute = p_client project
     ∨ d_initiator dispute = p_freelancer project)
  ∧ (m_status <$> milestoneOf s (d_projectId dispute) (d_milestoneId dispute))
    = Some (if d_isResolved dispute then MilestoneStatus.APPROVED
            else MilestoneStatus.DISPUTED).
Proof.
  intros Hr Hlt. cbv zeta.
  destruct (reachable_Parties _ _ Hr _ Hlt) as (Hp & Hacc & Hini & Hdone).
  destruct (reachable_Inv _ _ Hr) as [_ HC].
  split; [done|]. split; [done|]. split; [done|].
  destruct (d_isResolved (getDispute s _disputeId)) eqn:E; [by apply Hdone|].
  destruct (inv_dispute _ HC _ Hlt E) as (m & -> & Hm). simpl. by rewrite Hm.
Qed.

Lemma disputes_are_between_parties_witness :
  d_initiator (getDispute Sample.resolved 0) = Sample.client
  ∧ (m_status <$> milestoneOf Sample.resolved 0 0)
    = Some MilestoneStatus.APPROVED.
Proof.
  assert (reachable Sample.deployer Sample.resolved) as Hr
    by (repeat apply reach_step; apply reach_init).
  assert (0 < disputeCounter Sample.resolved) as Hlt
    by (vm_compute; reflexivity).
  destruct (disputes_are_between_parties Sample.deployer Sample.resolved 0
              Hr Hlt) as (_ & _ & _ & Hm).
  split; [vm_compute; reflexivity|].
  assert (d_projectId (getDispute Sample.resolved 0) = 0) as Ep
    by (vm_compute; reflexivity).
  assert (d_milestoneId (getDispute Sample.resolved 0) = 0) as Em
    by (vm_compute; reflexivity).
  assert (d_isResolved (getDispute Sample.resolved 0) = true) as Er
    by (vm_compute; reflexivity).
  rewrite Ep, Em, Er in Hm. exact Hm.
Defined.

(** * Waiting for the votes *)

(** X18: while a project is DISPUTED nothing but the vote that resolves
    its dispute acts on it: any other transaction leaves its record and
    its milestones as they are, so no milestone of it can be submitted,
    approved, auto-approved or disputed meanwhile; the resolving vote puts
    it back to ACTIVE. *)
Theorem disputed_project_waits_for_votes deployer s pid
    msg_sender block_timestamp c :
  reachable deployer s →
  p_status (getProject s pid) = ProjectStatus.DISPUTED →
  let s' := exec msg_sender block_timestamp c s in
  (getProject s' pid = getProject s pid
   ∧ getMilestones s' pid = getMilestones s pid)
  ∨ (∃ did pct,
       c = VoteOnDispute did pct
       ∧ did < disputeCounter s
       ∧ d_projectId (getDispute s did) = pid
       ∧ d_isResolved (getDispute s did) = false
       ∧ REQUIRED_ADMIN_VOTES ≤ d_voteCount (getDispute s did) + 1
       ∧ d_isResolved (getDispute s' did) = true
       ∧ p_status (getProject s' pid) = ProjectStatus.ACTIVE).
Proof.
  intros Hr Hst. cbv zeta. rename pid into pid0.
  destruct (exec_effect _ msg_sender block_timestamp c _ Hr) as [->|He];
    [by left|].
  destruct (reachable_Inv _ _ Hr) as [_ HC].
  set (s' := exec msg_sender block_timestamp c s) in *. clearbody s'.
  by_call c; simpl in He.
  - destruct He as (_ & _ & _ & ->). by left.
  - destruct He as (_ & _ & _ & ->). by left.
  - destruct He as (_ & _ & ->). by left.
  - destruct He as (_ & _ & ->). by left.
  - destruct He as (_ & _ & _ & _ & _ & _ & _ & _ & ->). left.
    unfold created_state. reads.
    destruct (decide _) as [<-|]; [|done]. exfalso.
    destruct (inv_fresh _ HC _ (N.le_refl (projectCounter s))) as [Hp _].
    unfold getProject in Hst. by rewrite Hp in Hst.
  - destruct He as (_ & _ & Hs & _ & _ & ->). left.
    unfold accepted_state. reads.
    destruct (decide _) as [<-|]; [|done]. by rewrite Hs in Hst.
  - destruct He as (m & _ & _ & _ & _ & Hs & _ & _ & ->). left. reads.
    destruct (decide _) as [<-|]; [|done]. by rewrite Hs in Hst.
  - destruct He as (m & _ & _ & _ & _ & Hs & _ & _ & ->). left.
    rewrite approved_project, approved_milestones. reads.
    destruct (decide _) as [<-|]; [|done]. by rewrite Hs in Hst.
  - destruct He as (m & _ & _ & _ & Hs & _ & _ & _ & ->). left.
    rewrite approved_project, approved_milestones. reads.
    destruct (decide _) as [<-|]; [|done]. by rewrite Hs in Hst.
  - destruct He as (m & _ & _ & _ & _ & Hs & _ & _ & ->). left.
    unfold raised_state. reads.
    destruct (decide _) as [<-|]; [|done]. by rewrite Hs in Hst.
  - destruct He as (_ & _ & Hlt & Hres & _ & _ & He).
    destruct (REQUIRED_ADMIN_VOTES <=? _) eqn:Hq; [|subst s'; by left].
    destruct He as (m & _ & _ & ->). apply N.leb_le in Hq.
    destruct (decide (d_projectId (getDispute s did) = pid0)) as [Hp|Hp].
    + right. exists did, pct. repeat (split; [done|]).
      unfold resolved_state. cbv zeta.
      rewrite !getDispute_upd. cbn [voted d_projectId d_milestoneId]. reads.
      rewrite !decide_True by done. done.
    + left. unfold resolved_state. cbv zeta.
      rewrite !getDispute_upd. cbn [voted d_projectId d_milestoneId]. reads.
      by rewrite !decide_False.
  - destruct He as (_ & _ & _ & ->). by left.
  - destruct He as (_ & _ & _ & Hs & _ & _ & ->). left.
    unfold cancelled_state. reads.
    destruct (decide _) as [<-|]; [|done]. by rewrite Hs in Hst.
  - destruct He as (_ & _ & ->). by left.
Qed.

Lemma disputed_project_waits_for_votes_witness :
  getMilestones
    (exec Sample.client 1010 (ApproveMilestone 0 0) Sample.one_vote) 0
  = getMilestones Sample.one_vote 0
  ∧ p_status (getProject
                (exec Sample.admin2 1005 (VoteOnDispute 0 40) Sample.one_vote)
                0) = ProjectStatus.ACTIVE.
Proof.
  assert (reachable Sample.deployer Sample.one_vote) as Hr
    by (repeat apply reach_step; apply reach_init).
  assert (p_status (getProject Sample.one_vote 0) = ProjectStatus.DISPUTED)
    as Hst by (vm_compute; reflexivity).
  split.
  - destruct (disputed_project_waits_for_votes Sample.deployer
                Sample.one_vote 0 Sample.client 1010 (ApproveMilestone 0 0)
                Hr Hst) as [[_ Hm]|(did & pct & Hc & _)];
      [exact Hm|discriminate Hc].
  - destruct (disputed_project_waits_for_votes Sample.deployer
                Sample.one_vote 0 Sample.admin2 1005 (VoteOnDispute 0 40)
                Hr Hst) as [[Hp _]|(did & pct & _ & _ & _ & _ & _ & _ & Ha)];
      [|exact Ha].
    exfalso. apply (f_equal p_status) in Hp. rewrite Hst in Hp.
    vm_compute in Hp. discriminate Hp.
Defined.

(** * Dispute window and auto-approval window *)

Lemma raise_Ok sender now pid mid reason s r s' log :
  raiseDispute sender now pid mid reason s = Ok (r, s', log) →
  ∃ m, milestoneOf s pid mid = Some m
    ∧ p_status (getProject s pid) = ProjectStatus.ACTIVE
    ∧ m_status m = MilestoneStatus.SUBMITTED
    ∧ now ≤ m_submittedAt m + DISPUTE_TIMEOUT.
Proof.
  unfold raiseDispute. intros H. xinv. props.
  match goal with Hm : getMilestones _ _ !! _ = Some ?m |- _ => exists m end.
  repeat split; auto.
Qed.

(** X19: the dispute window closes before the auto-approval window opens.
    On no state and at no time do both [raiseDispute] and
    [autoApproveMilestone] succeed for the same milestone; a dispute is
    raised at most [DISPUTE_TIMEOUT] after the submission and an
    auto-approval happens at least [AUTO_APPROVE_TIMEOUT] after it; in
    between both calls abort, whoever calls. *)
Theorem dispute_window_precedes_auto_approval s block_timestamp pid mid :
  (∀ msg_sender reason r s1 log1 s2 log2,
     raiseDispute msg_sender block_timestamp pid mid reason s
     = Ok (r, s1, log1) →
     autoApproveMilestone block_timestamp pid mid s = Ok (tt, s2, log2) →
     False)
  ∧ (∀ m, milestoneOf s pid mid = Some m →
       (m_submittedAt m + DISPUTE_TIMEOUT < block_timestamp →
        ∀ msg_sender reason,
          ∃ msg, raiseDispute msg_sender block_timestamp pid mid reason s
                 = Revert msg)
       ∧ (block_timestamp < m_submittedAt m + AUTO_APPROVE_TIMEOUT →
          ∃ msg, autoApproveMilestone block_timestamp pid mid s
                 = Revert msg)).
Proof.
  split.
  - intros sender reason r s1 log1 s2 log2 Hraise Hauto.
    apply raise_Ok in Hraise as (m & Hm & _ & _ & Hin).
    apply autoApprove_Ok in Hauto
      as (m' & Hm' & _ & _ & _ & _ & _ & _ & Hout & _).
    rewrite Hm in Hm'. injection Hm' as <-.
    unfold DISPUTE_TIMEOUT, AUTO_APPROVE_TIMEOUT in *. lia.
  - intros m Hm. split.
    + intros Hlate sender reason.
      destruct (raiseDispute sender block_timestamp pid mid reason s)
        as [[[r s1] log1]|msg] eqn:E; [|by eexists].
      apply raise_Ok in E as (m' & Hm' & _ & _ & Hin).
      rewrite Hm in Hm'. injection Hm' as <-. lia.
    + intros Hearly.
      destruct (autoApproveMilestone block_timestamp pid mid s)
        as [[[[] s1] log1]|msg] eqn:E; [|by eexists].
      apply autoApprove_Ok in E
        as (m' & Hm' & _ & _ & _ & _ & _ & _ & Hout & _).
      rewrite Hm in Hm'. injection Hm' as <-. lia.
Qed.

Lemma dispute_window_precedes_auto_approval_witness :
  (∃ msg, raiseDispute Sample.client (1003 + DISPUTE_TIMEOUT) 0 0 "Late"
            Sample.submitted = Revert msg)
  ∧ (∃ msg, autoApproveMilestone (1003 + DISPUTE_TIMEOUT) 0 0
              Sample.submitted = Revert msg).
Proof.
  assert (milestoneOf Sample.submitted 0 0
          = Some (mkMilestone "Milestone 1" 1000 700000
                    MilestoneStatus.SUBMITTED "QmHash123" 1002)) as Hm
    by (vm_compute; reflexivity).
  destruct (proj2 (dispute_window_precedes_auto_approval Sample.submitted
                     (1003 + DISPUTE_TIMEOUT) 0 0) _ Hm) as [Hlate Hearly].
  split.
  - apply Hlate. vm_compute. reflexivity.
  - apply Hearly. vm_compute. reflexivity.
Defined.

(** * From submission to payment *)

(** X20: a submitted milestone is paid without the client, if the payment
    can be delivered: after a successful [submitMilestone] at time [t] in a
    reachable state, an [autoApproveMilestone] at any time from
    [t + AUTO_APPROVE_TIMEOUT] on, made by anyone on the state the
    submission left, succeeds when the submitter and the owner accept
    transfers, pays the submitter the amount less the fee and the owner the
    fee, and leaves the milestone APPROVED; when one of the two refuses
    transfers it aborts.  The amount is at most [MAX_UINT256 / 10] and the
    time fits a word. *)
Theorem silence_means_approval deployer s msg_sender t pid mid hash s1 log1
    m t' :
  reachable deployer s →
  dispatch msg_sender t (SubmitMilestone pid mid hash) s = Ok (tt, s1, log1) →
  milestoneOf s pid mid = Some m →
  m_amount m ≤ MAX_UINT256 / 10 →
  t + AUTO_APPROVE_TIMEOUT ≤ t' →
  t' ≤ MAX_UINT256 →
  (msg_sender ∉ refusing s →
   owner s ∉ refusing s →
   ∃ s2 log2,
     autoApproveMilestone t' pid mid s1 = Ok (tt, s2, log2)
     ∧ transfers log2
       = [(msg_sender, m_amount m - m_amount m * platformFeePercent s / 100);
          (owner s, m_amount m * platformFeePercent s / 100)]
     ∧ (m_status <$> milestoneOf s2 pid mid) = Some MilestoneStatus.APPROVED)
  ∧ (msg_sender ∈ refusing s ∨ owner s ∈ refusing s →
     autoApproveMilestone t' pid mid s1 = Revert "Transfer failed").
Proof.
  intros Hr H Hm Ha Ht Ht'.
  destruct (reachable_Inv _ _ Hr) as [Hl HC].
  pose proof (dispatch_effect _ _ _ _ _ _ Hl H) as He. simpl in He.
  destruct He as (m0 & Hm0 & Hlt & Hs & Hpa & Hst & Hms & _ & Hs1).
  rewrite Hm in Hm0. injection Hm0 as <-.
  assert (reachable deployer s1) as Hr1.
  { replace s1 with (exec msg_sender t (SubmitMilestone pid mid hash) s);
      [by apply reach_step|].
    unfold exec. by rewrite H. }
  set (m1 := m_set_submission hash t m).
  assert (milestoneOf s1 pid mid = Some m1) as Hm1
    by (subst s1; by rewrite milestoneOf_upd, Hm).
  assert (release_ok m1 s1 = true) as Hok.
  { apply (release_funded deployer s1 pid mid); try done.
    subst s1. frame. by rewrite Hst. }
  assert (pid < projectCounter s1) as Hlt1 by (by subst s1).
  assert (locked s1 = false) as Hl1 by (by subst s1).
  assert (paused s1 = false) as Hpa1 by (by subst s1).
  assert (p_status (getProject s1 pid) = ProjectStatus.ACTIVE) as Hst1
    by (subst s1; frame; done).
  assert (p_freelancer (getProject s1 pid) = msg_sender) as Hfr
    by (subst s1; frame; done).
  assert (owner s1 = owner s) as Ho1 by (by subst s1).
  assert (refusing s1 = refusing s) as Hw by (by subst s1).
  assert (platformFeePercent s1 = platformFeePercent s) as Hfee
    by (by subst s1).
  assert (m_submittedAt m1 + AUTO_APPROVE_TIMEOUT ≤ MAX_UINT256) as Hov
    by (simpl; lia).
  assert (m_submittedAt m1 + AUTO_APPROVE_TIMEOUT ≤ t') as Hdue
    by (simpl; lia).
  split.
  - intros Hf Ho.
    pose proof (autoApprove_eq t' pid mid s1 m1 Hm1 Hlt1 Hl1 Hpa1 Hst1
                  eq_refl Hov Hdue Hok) as Hrun.
    rewrite Hfr, Ho1, Hw in Hrun. specialize (Hrun Hf Ho).
    eexists _, _. split; [apply Hrun|split].
    + unfold transfers. simpl omap.
      fold (transfers (snd (released pid mid m1 (set_locked true s1)))).
      rewrite released_transfers. frame. simpl. by rewrite Hfr, Ho1, Hfee.
    + frame. by rewrite (released_milestone pid mid m1).
  - intros Hrf.
    apply (autoApprove_refused t' pid mid s1 m1); try done.
    by rewrite Hfr, Ho1, Hw.
Qed.

Lemma silence_means_approval_witness :
  ∃ s2 log2,
    autoApproveMilestone (1002 + AUTO_APPROVE_TIMEOUT) 0 0 Sample.submitted
    = Ok (tt, s2, log2)
    ∧ transfers log2 = [(Sample.freelancer, 980); (Sample.deployer, 20)].
Proof.
  assert (reachable Sample.deployer
            (exec Sample.freelancer 1001 (AcceptProject 0)
               (exec Sample.client 1000
                  (CreateProject "Test Project" "hash" ["Milestone 1"] [1000]
                     [700000] 1000)
                  (exec Sample.deployer 2 (AddAdmin Sample.admin3)
                     (exec Sample.deployer 1 (AddAdmin Sample.admin2)
                        (constructor Sample.deployer)))))) as Hr
    by (repeat apply reach_step; apply reach_init).
  assert (∃ log1,
            dispatch Sample.freelancer 1002 (SubmitMilestone 0 0 "QmHash123")
              (exec Sample.freelancer 1001 (AcceptProject 0)
                 (exec Sample.client 1000
                    (CreateProject "Test Project" "hash" ["Milestone 1"]
                       [1000] [700000] 1000)
                    (exec Sample.deployer 2 (AddAdmin Sample.admin3)
                       (exec Sample.deployer 1 (AddAdmin Sample.admin2)
                          (constructor Sample.deployer)))))
            = Ok (tt, Sample.submitted, log1)) as (log1 & Hsub)
    by (eexists; vm_compute; reflexivity).
  destruct (silence_means_approval _ _ _ _ _ _ _ _ _
              (mkMilestone "Milestone 1" 1000 700000 MilestoneStatus.PENDING
                 EmptyString 0)
              (1002 + AUTO_APPROVE_TIMEOUT) Hr Hsub)
    as (Hyes & _).
  - vm_compute. reflexivity.
  - vm_compute. discriminate.
  - vm_compute. discriminate.
  - vm_compute. discriminate.
  - destruct Hyes as (s2 & log2 & Hrun & Hlog & _);
      [vm_compute; congruence..|].
    exists s2, log2. split; [exact Hrun|]. rewrite Hlog.
    vm_compute. reflexivity.
Defined.

(** * Adding and removing an admin *)

Lemma swap_pop_last (l : list address) a :
  swap_pop (length l) (l ++ [a]) = l.
Proof.
  unfold swap_pop. rewrite last_snoc.
  rewrite insert_app_r_alt by lia. rewrite Nat.sub_diag. simpl.
  apply removelast_last.
Qed.

(** X21: adding an admin and removing it again is a round trip: in a
    reachable state, for an address that is not an admin and not zero, the
    owner's [addAdmin] succeeds, the owner's [removeAdmin] of the same
    address succeeds on the result, and the storage is then exactly what it
    was; the removal finds the address in the last slot of the roster. *)
Theorem addAdmin_removeAdmin_round_trip deployer s _admin :
  reachable deployer s →
  (_admin ∉ isAdmin s) →
  _admin ≠ 0 →
  ∃ s1,
    addAdmin (owner s) _admin s = Ok (tt, s1, [AdminAdded _admin])
    ∧ adminList s1 = adminList s ++ [_admin]
    ∧ removeAdmin (owner s) _admin s1 = Ok (tt, s, [AdminRemoved _admin]).
Proof.
  intros Hr Ha Hz. destruct (reachable_Inv _ _ Hr) as [_ HC].
  exists (set_admins (isAdmin s ∪ {[_admin]}) (adminList s ++ [_admin]) s).
  split; [by apply addAdmin_eq|]. split; [done|].
  rewrite removeAdmin_eq; [|done|simpl; set_solver|].
  2: { simpl. rewrite length_app. simpl.
       pose proof (inv_admin_nonempty _ HC).
       destruct (adminList s); [done|simpl; lia]. }
  simpl. do 2 f_equal.
  assert (_admin ∉ adminList s) as Hl
    by (intros E; by apply Ha, (inv_admin_member _ HC)).
  destruct (removeAdmin_loop_spec (adminList s ++ [_admin]) _admin
              (length (adminList s ++ [_admin])) 0) as (j & Hj & ->).
  { set_solver. }
  { intros k Hk. lia. }
  { lia. }
  assert (j = length (adminList s)) as ->.
  { destruct (decide (j < length (adminList s))%nat) as [Hlt|Hge].
    - rewrite lookup_app_l in Hj by done.
      destruct Hl. by apply (list_elem_of_lookup_2 _ j).
    - apply lookup_lt_Some in Hj. rewrite length_app in Hj. simpl in Hj. lia. }
  rewrite swap_pop_last. f_equal.
  apply Storage_eq; simpl; try done.
  apply set_eq. intros x.
  rewrite elem_of_difference, elem_of_union, elem_of_singleton.
  split; [tauto|]. intros Hx. split; [by left|]. by intros ->.
Qed.

Lemma addAdmin_removeAdmin_round_trip_witness :
  removeAdmin Sample.deployer 7
    (set_admins (isAdmin Sample.submitted ∪ {[7]})
       (adminList Sample.submitted ++ [7]) Sample.submitted)
  = Ok (tt, Sample.submitted, [AdminRemoved 7]).
Proof.
  assert (reachable Sample.deployer Sample.submitted) as Hr
    by (repeat apply reach_step; apply reach_init).
  destruct (addAdmin_removeAdmin_round_trip Sample.deployer Sample.submitted 7
              Hr) as (s1 & Hadd & _ & Hrem).
  - vm_compute. intros H. discriminate H.
  - discriminate.
  - rewrite addAdmin_eq in Hadd.
    + injection Hadd as <-. exact Hrem.
    + vm_compute. reflexivity.
    + vm_compute. intros H. discriminate H.
    + discriminate.
Defined.

(** * The first contract and the second *)

(** X22: the second contract changes the functions it took over from the
    first by the pause gate only.  On a storage that is not paused,
    [createProject], [acceptProject], [submitMilestone], [approveMilestone]
    (whose release the second contract moved to
    [_releaseMilestonePayment]), [rateUser] and [cancelProject] of the two
    contracts return the same result, storage and log, or abort with the
    same message; so does [raiseDispute] when the vote count of the next
    dispute slot is zero, which it is in every reachable state. *)
Theorem second_contract_adds_the_pause_gate s :
  paused s = false →
  (∀ msg_sender block_timestamp title hash descs amounts deadlines msg_value,
     V1.createProject msg_sender block_timestamp title hash descs amounts
       deadlines msg_value s
     = createProject msg_sender block_timestamp title hash descs amounts
         deadlines msg_value s)
  ∧ (∀ msg_sender block_timestamp pid,
       V1.acceptProject msg_sender block_timestamp pid s
       = acceptProject msg_sender block_timestamp pid s)
  ∧ (∀ msg_sender block_timestamp pid mid hash,
       V1.submitMilestone msg_sender block_timestamp pid mid hash s
       = submitMilestone msg_sender block_timestamp pid mid hash s)
  ∧ (∀ msg_sender pid mid,
       V1.approveMilestone msg_sender pid mid s
       = approveMilestone msg_sender pid mid s)
  ∧ (∀ _user _rating, V1.rateUser _user _rating s = rateUser _user _rating s)
  ∧ (∀ msg_sender pid,
       V1.cancelProject msg_sender pid s = cancelProject msg_sender pid s)
  ∧ (d_voteCount (getDispute s (disputeCounter s)) = 0 →
     ∀ msg_sender block_timestamp pid mid reason,
       V1.raiseDispute msg_sender block_timestamp pid mid reason s
       = raiseDispute msg_sender block_timestamp pid mid reason s)
  ∧ (∀ deployer, reachable deployer s →
       d_voteCount (getDispute s (disputeCounter s)) = 0).
Proof.
  intros Hpa. repeat split.
  - intros. unfold V1.createProject, createProject. mrun.
    simpl paused. by rewrite Hpa.
  - intros. unfold V1.acceptProject, acceptProject. mrun. by rewrite Hpa.
  - intros. unfold V1.submitMilestone, submitMilestone. mrun. by rewrite Hpa.
  - intros. unfold V1.approveMilestone, approveMilestone,
      _releaseMilestonePayment. mrun. simpl paused. by rewrite Hpa.
  - intros. unfold V1.rateUser, rateUser. mrun. by rewrite Hpa.
  - intros. unfold V1.cancelProject, cancelProject. mrun.
    simpl paused. by rewrite Hpa.
  - intros Hz sender now pid mid reason.
    unfold V1.raiseDispute, raiseDispute. mrun. rewrite Hpa.
    simpl negb. cbv iota.
    destruct (pid <? _); [|done]. destruct (_ || _); [|done].
    destruct (ProjectStatus.eqb _ _); [|done]. destruct (mid <? _); [|done].
    destruct (milestoneOf s pid mid) as [m|]; [|done]. mrun.
    destruct (MilestoneStatus.eqb _ _); [|done]. simpl.
    destruct (_ <=? MAX_UINT256); [|done]. simpl.
    destruct (now <=? _); [|done]. simpl.
    destruct (_ <=? MAX_UINT256); [|done]. simpl.
    unfold updDispute. frame. by rewrite Hz.
  - intros deployer Hr.
    destruct (reachable_Votes _ _ Hr) as [Hfresh _ _ _].
    unfold getDispute. by rewrite (Hfresh _ (N.le_refl _)).
Qed.

Lemma second_contract_adds_the_pause_gate_witness :
  V1.approveMilestone Sample.client 0 0 Sample.submitted
  = approveMilestone Sample.client 0 0 Sample.submitted
  ∧ V1.raiseDispute Sample.client 1003 0 0 "Work incomplete" Sample.submitted
    = raiseDispute Sample.client 1003 0 0 "Work incomplete" Sample.submitted.
Proof.
  assert (paused Sample.submitted = false) as Hpa by (vm_compute; reflexivity).
  destruct (second_contract_adds_the_pause_gate Sample.submitted Hpa)
    as (_ & _ & _ & Happ & _ & _ & Hraise & Hz).
  split; [apply Happ|]. apply Hraise. apply (Hz Sample.deployer).
  repeat apply reach_step; apply reach_init.
Defined.

Transparent resolved.

Lemma V1_resolve_eq did pct m s :
  locked s = false →
  did < disputeCounter s →
  d_isResolved (getDispute s did) = false →
  pct ≤ 100 →
  milestoneOf s (d_projectId (getDispute s did))
    (d_milestoneId (getDispute s did)) = Some m →
  m_amount m * pct ≤ MAX_UINT256 →
  m_amount m ≤ balance s →
  (0 < m_amount m * pct / 100 →
   p_freelancer (getProject s (d_projectId (getDispute s did)))
   ∉ refusing s) →
  (0 < m_amount m - m_amount m * pct / 100 →
   p_client (getProject s (d_projectId (getDispute s did))) ∉ refusing s) →
  V1.resolveDispute (owner s) did pct s
  = Ok (tt, fst (resolved did m pct s), snd (resolved did m pct s)).
Proof.
  intros Hl Hlt Hres Hpct Hm Hmul Hb Hf Hc.
  assert (m_amount m * pct / 100 ≤ m_amount m) as Hfa
    by (apply N.Div0.div_le_upper_bound; nia).
  unfold V1.resolveDispute. mrun. rewrite N.eqb_refl, Hl. simpl.
  apply N.ltb_lt in Hlt. rewrite Hlt. frame. rewrite Hres. simpl.
  apply N.leb_le in Hpct. rewrite Hpct. rewrite Hm. mrun.
  apply N.leb_le in Hmul. rewrite Hmul. simpl.
  apply N.leb_le in Hfa. rewrite Hfa. simpl. apply N.leb_le in Hfa.
  unfold resolved. cbv zeta. simpl fst. simpl snd.
  set (fa := m_amount m * pct / 100) in *.
  destruct (0 <? fa) eqn:E1; destruct (0 <? m_amount m - fa) eqn:E2.
  all: mrun; unfold transfer; simpl.
  all: repeat match goal with
         | |- context [?a <=? ?b] =>
             replace (a <=? b) with true by (symmetry; apply N.leb_le; lia)
         end.
  all: try (specialize (Hf (proj1 (N.ltb_lt _ _) E1));
            rewrite (bool_decide_eq_false_2 _ Hf)).
  all: try (specialize (Hc (proj1 (N.ltb_lt _ _) E2));
            rewrite (bool_decide_eq_false_2 _ Hc)).
  all: reflexivity.
Qed.

(** A resolution that went through paid recipients who accepted. *)
Lemma resolution_accepted did s u s' log m :
  _executeDisputeResolution did s = Ok (u, s', log) →
  milestoneOf s (d_projectId (getDispute s did))
    (d_milestoneId (getDispute s did)) = Some m →
  (0 < m_amount m * avg_vote s (getDispute s did) / 100 →
   p_freelancer (getProject s (d_projectId (getDispute s did)))
   ∉ refusing s)
  ∧ (0 < m_amount m - m_amount m * avg_vote s (getDispute s did) / 100 →
     p_client (getProject s (d_projectId (getDispute s did))) ∉ refusing s).
Proof.
  unfold _executeDisputeResolution. intros H Hm.
  repeat (first
    [ match goal with
      | H : transfer _ _ _ = Ok _ |- _ =>
          let Ha := fresh "Hacc" in
          pose proof (transfer_accepted _ _ _ _ _ _ H) as Ha;
          apply transfer_Ok in H; destruct H as (? & -> & ->)
      end
    | xinv1 ]).
  all: match goal with H : tallyVotes _ _ _ _ _ = Ok _ |- _ =>
         apply tallyVotes_Ok in H as (-> & -> & ->) end.
  all: simpl in * |-; rewrite !N.add_0_l in *; frame.
  all: match goal with H : getMilestones _ _ !! _ = Some ?m' |- _ =>
         unfold milestoneOf in Hm; rewrite Hm in H; injection H as <- end.
  all: unfold avg_vote, voters, sum_votes in *.
  all: props.
  all: split; intros Hpos; first [done|lia].
Qed.

Lemma V1_resolve_Ok sender did pct s u s' log :
  V1.resolveDispute sender did pct s = Ok (u, s', log) →
  ∃ m, sender = owner s
    ∧ locked s = false
    ∧ did < disputeCounter s
    ∧ d_isResolved (getDispute s did) = false
    ∧ pct ≤ 100
    ∧ milestoneOf s (d_projectId (getDispute s did))
        (d_milestoneId (getDispute s did)) = Some m
    ∧ m_amount m * pct ≤ MAX_UINT256
    ∧ m_amount m ≤ balance s
    ∧ (s', log) = resolved did m pct s.
Proof.
  unfold V1.resolveDispute. intros H. xinv.
  all: simpl in * |-; frame.
  all: match goal with Hm : getMilestones _ _ !! _ = Some ?m |- _ => exists m end.
  all: unfold resolved.
  all: repeat match goal with
         | H : (0 <? ?x) = _ |- context [0 <? ?x] => rewrite H
         end.
  all: props.
  all: repeat (split; [first [done|lia]|]).
  all: try (split; [repeat match goal with
                           | H : context [?a * ?b / 100] |- _ =>
                               generalize dependent (a * b / 100); intros
                           end; lia|]).
  all: subst; reflexivity.
Qed.

Opaque resolved.

(** X23: the owner's [resolveDispute] of the first contract.  A call that
    succeeds was made by the owner on an existing, unresolved dispute with
    a percentage of at most 100; it pays the freelancer that percentage of
    the milestone amount, rounded down, and the client the rest, each only
    when it is not zero, the two adding up to the amount, and no fee is
    taken; it leaves the dispute resolved, the milestone APPROVED and the
    project ACTIVE, and logs DisputeResolved last.  The lock is free again
    afterwards and a second resolution of the dispute aborts. *)
Theorem owner_resolution_splits_the_amount msg_sender did pct s s' log :
  V1.resolveDispute msg_sender did pct s = Ok (tt, s', log) →
  let dispute := getDispute s did in
  let project := getProject s (d_projectId dispute) in
  ∃ m,
    milestoneOf s (d_projectId dispute) (d_milestoneId dispute) = Some m
    ∧ msg_sender = owner s
    ∧ did < disputeCounter s
    ∧ pct ≤ 100
    ∧ transfers log
      = nonzero [(p_freelancer project, m_amount m * pct / 100);
                 (p_client project, m_amount m - m_amount m * pct / 100)]
    ∧ m_amount m * pct / 100 + (m_amount m - m_amount m * pct / 100)
      = m_amount m
    ∧ last log = Some (DisputeResolved did pct)
    ∧ d_isResolved (getDispute s' did) = true
    ∧ (m_status <$> milestoneOf s' (d_projectId dispute) (d_milestoneId dispute))
      = Some MilestoneStatus.APPROVED
    ∧ p_status (getProject s' (d_projectId dispute)) = ProjectStatus.ACTIVE
    ∧ locked s' = false
    ∧ ∀ sender' pct', ∃ msg,
        V1.resolveDispute sender' did pct' s' = Revert msg.
Proof.
  intros H. cbv zeta.
  apply V1_resolve_Ok in H
    as (m & Hs & Hl & Hlt & Hres & Hpct & Hm & Hmul & Hb & Heq).
  assert (s' = fst (resolved did m pct s)) as -> by (by rewrite <- Heq).
  assert (log = snd (resolved did m pct s)) as -> by (by rewrite <- Heq).
  assert (m_amount m * pct / 100 ≤ m_amount m) as Hfa
    by (apply N.Div0.div_le_upper_bound; nia).
  exists m. split; [done|]. split; [done|]. split; [done|]. split; [done|].
  split; [apply resolved_transfers|]. split; [lia|].
  split; [apply resolved_last|].
  split; [by rewrite resolved_dispute|].
  split; [by rewrite (resolved_milestone _ _ _ _ Hm)|].
  split; [by rewrite resolved_project|].
  destruct (resolved_frame did m pct s) as (Hl' & _ & _ & Hdc & _).
  cbv zeta in Hl', Hdc. split; [done|].
  intros sender' pct'. unfold V1.resolveDispute. mrun.
  destruct (sender' =? _); [|by eexists]. rewrite Hl'. simpl.
  destruct (did <? _); [|by eexists]. frame.
  rewrite resolved_dispute. simpl. by eexists.
Qed.

Lemma owner_resolution_splits_the_amount_witness :
  ∃ s' log,
    V1.resolveDispute Sample.deployer 0 50 Sample.one_vote = Ok (tt, s', log)
    ∧ transfers log = [(Sample.freelancer, 500); (Sample.client, 500)]
    ∧ p_status (getProject s' 0) = ProjectStatus.ACTIVE.
Proof.
  assert (∃ s' log,
            V1.resolveDispute Sample.deployer 0 50 Sample.one_vote
            = Ok (tt, s', log)) as (s' & log & Hrun)
    by (eexists _, _; vm_compute; reflexivity).
  destruct (owner_resolution_splits_the_amount _ _ _ _ _ _ Hrun)
    as (m & Hm & _ & _ & _ & Ht & _ & _ & _ & _ & Hp & _).
  exists s', log. split; [exact Hrun|]. split.
  - rewrite Ht. vm_compute in Hm. injection Hm as <-. vm_compute. reflexivity.
  - etransitivity; [|exact Hp]. reflexivity.
Defined.

Lemma avg_vote_bound s d :
  (∀ a, getVote d a ≤ 100) → avg_vote s d ≤ 100.
Proof.
  intros Hv. unfold avg_vote. fold (sum_votes d (voters s d)).
  pose proof (sum_votes_bound d (voters s d) Hv) as Hs.
  destruct (decide (N.of_nat (length (voters s d)) = 0)) as [E|E].
  - rewrite E. by destruct (sum_votes _ _).
  - apply N.Div0.div_le_upper_bound. lia.
Qed.

(** X24: the quorum resolution of the second contract is the owner's
    resolution of the first with the average vote as percentage: whenever
    [_executeDisputeResolution] succeeds on an existing dispute whose votes
    are percentages, the first contract's [resolveDispute], called by the
    owner with the average of the roster's votes on the same storage,
    succeeds with the same storage and the same log.  In particular the
    vote that reaches the quorum in a reachable state records the vote and
    then acts as that owner resolution. *)
Theorem quorum_resolution_is_owner_resolution :
  (∀ did s s' log,
     did < disputeCounter s →
     (∀ a, getVote (getDispute s did) a ≤ 100) →
     _executeDisputeResolution did s = Ok (tt, s', log) →
     V1.resolveDispute (owner s) did (avg_vote s (getDispute s did)) s
     = Ok (tt, s', log))
  ∧ (∀ deployer msg_sender did pct s s' log,
       reachable deployer s →
       voteOnDispute msg_sender did pct s = Ok (tt, s', log) →
       REQUIRED_ADMIN_VOTES ≤ d_voteCount (getDispute s did) + 1 →
       let sv := updDispute did (voted msg_sender pct) s in
       ∃ log',
         log = DisputeVoted did msg_sender pct :: log'
         ∧ V1.resolveDispute (owner s) did (avg_vote sv (getDispute sv did)) sv
           = Ok (tt, s', log')).
Proof.
  assert (∀ did s s' log,
            did < disputeCounter s →
            (∀ a, getVote (getDispute s did) a ≤ 100) →
            _executeDisputeResolution did s = Ok (tt, s', log) →
            V1.resolveDispute (owner s) did (avg_vote s (getDispute s did)) s
            = Ok (tt, s', log)) as Hgen.
  { intros did s s' log Hlt Hv H.
    pose proof H as H0. apply resolution_Ok in H. cbv zeta in H.
    destruct H as (m & Hl & Hres & _ & Hm & Hmul & _ & Heq).
    pose proof (resolution_funds _ _ _ _ _ m H0 Hm) as Hb.
    destruct (resolution_accepted _ _ _ _ _ m H0 Hm) as [Hf Hc].
    rewrite (V1_resolve_eq did _ m); try done.
    - by rewrite <- Heq.
    - by apply avg_vote_bound. }
  split; [exact Hgen|].
  intros deployer sender did pct s s' log Hr H Hq. cbv zeta.
  destruct (reachable_Votes _ _ Hr) as [_ Hrange _ _].
  pose proof H as H0. apply vote_Ok in H0. cbv zeta in H0.
  destruct H0 as (_ & _ & Hlt & _ & Hpct & _ & H0).
  destruct (vote_resolution _ _ _ _ _ _ _ H Hq) as (log' & Hres).
  exists log'. split.
  - apply N.leb_le in Hq. rewrite Hq in H0.
    destruct H0 as (m & _ & _ & Hm & _ & _ & _ & ->).
    f_equal. apply resolution_Ok in Hres. cbv zeta in Hres.
    destruct Hres as (m' & _ & _ & _ & Hm' & _ & _ & Heq).
    rewrite getDispute_upd in *. simpl in Hm'. frame.
    rewrite Hm in Hm'. injection Hm' as <-.
    by rewrite <- Heq.
  - apply (Hgen did (updDispute did (voted sender pct) s)); [done| |done].
    intros a. rewrite getDispute_upd. unfold getVote. simpl.
    destruct (decide (sender = a)) as [->|Hne].
    + by rewrite lookup_insert_eq.
    + rewrite lookup_insert_ne by done. apply Hrange.
Qed.

Lemma quorum_resolution_is_owner_resolution_witness :
  ∃ log',
    V1.resolveDispute (owner Sample.one_vote) 0
      (avg_vote (updDispute 0 (voted Sample.admin2 40) Sample.one_vote)
         (getDispute (updDispute 0 (voted Sample.admin2 40) Sample.one_vote)
            0))
      (updDispute 0 (voted Sample.admin2 40) Sample.one_vote)
    = Ok (tt, Sample.resolved, log').
Proof.
  assert (reachable Sample.deployer Sample.one_vote) as Hr
    by (repeat apply reach_step; apply reach_init).
  assert (∃ log,
            voteOnDispute Sample.admin2 0 40 Sample.one_vote
            = Ok (tt, Sample.resolved, log)) as (log & Hrun)
    by (eexists; vm_compute; reflexivity).
  destruct (proj2 quorum_resolution_is_owner_resolution Sample.deployer
              Sample.admin2 0 40 Sample.one_vote Sample.resolved log Hr Hrun)
    as (log' & _ & Hres).
  - vm_compute. discriminate.
  - exists log'. exact Hres.
Defined.

(** * Project status and milestone statuses *)

Lemma milestoneOf_cases pid mid f s pid' mid' :
  milestoneOf (updMilestone pid mid f s) pid' mid'
  = if decide ((pid', mid') = (pid, mid)) then f <$> milestoneOf s pid mid
    else milestoneOf s pid' mid'.
Proof.
  destruct (decide _) as [E|Hne].
  - injection E as -> ->. apply milestoneOf_upd.
  - by apply milestoneOf_upd_ne.
Qed.

Lemma approved_milestoneOf pid mid m s pid' mid' :
  milestoneOf (approved_state pid mid m s) pid' mid'
  = milestoneOf
      (updMilestone pid mid (m_set_status MilestoneStatus.APPROVED) s)
      pid' mid'.
Proof. unfold milestoneOf. by rewrite approved_milestones. Qed.

(** A call that keeps every dispute open or closed as it was, and leaves no
    milestone DISPUTED that was not, keeps the second clause. *)
Lemma disputed_kept s s' :
  disputeCounter s' = disputeCounter s →
  (∀ did, d_isResolved (getDispute s' did) = d_isResolved (getDispute s did)
          ∧ d_projectId (getDispute s' did) = d_projectId (getDispute s did)
          ∧ d_milestoneId (getDispute s' did)
            = d_milestoneId (getDispute s did)) →
  (∀ pid mid m', milestoneOf s' pid mid = Some m' →
     m_status m' = MilestoneStatus.DISPUTED →
     ∃ m, milestoneOf s pid mid = Some m
          ∧ m_status m = MilestoneStatus.DISPUTED) →
  Statuses s →
  ∀ pid mid m, milestoneOf s' pid mid = Some m →
    m_status m = MilestoneStatus.DISPUTED →
    ∃ did, did < disputeCounter s'
           ∧ d_isResolved (getDispute s' did) = false
           ∧ d_projectId (getDispute s' did) = pid
           ∧ d_milestoneId (getDispute s' did) = mid.
Proof.
  intros Hc Hd Hm [_ H2 _] pid mid m' Hm' Hst.
  destruct (Hm _ _ _ Hm' Hst) as (m & Hm0 & Hst0).
  destruct (H2 _ _ _ Hm0 Hst0) as (did & Hlt & Hr & Hp & Hi).
  exists did. destruct (Hd did) as (-> & -> & ->). by rewrite Hc.
Qed.

Lemma reachable_Statuses deployer s : reachable deployer s → Statuses s.
Proof.
  induction 1 as [|s sender now c Hr IH|s w Hr IH].
  3: { destruct IH as [H1 H2 H3]. by constructor. }
  { constructor.
    - intros pid mid m Hm. unfold milestoneOf, getMilestones in Hm.
      simpl in Hm. by rewrite lookup_empty in Hm.
    - intros pid mid m Hm. unfold milestoneOf, getMilestones in Hm.
      simpl in Hm. by rewrite lookup_empty in Hm.
    - intros pid Hst. unfold getProject in Hst. simpl in Hst.
      by rewrite lookup_empty in Hst. }
  destruct (exec_effect _ sender now c _ Hr) as [->|He]; [done|].
  pose proof (reachable_Inv _ _ Hr) as HI. destruct HI as [Hl HC].
  pose proof (reachable_Disputed _ _ Hr) as HD.
  pose proof (reachable_Funds _ _ Hr) as HF.
  pose proof (exec_evolves sender now c s (conj Hl HC)) as Hev.
  set (s' := exec sender now c s) in *. clearbody s'.
  assert (∀ pid mid m, milestoneOf s' pid mid = Some m →
            m_status m ≠ MilestoneStatus.REJECTED) as H1.
  { intros pid mid m' Hm'. specialize (Hev pid mid).
    destruct (milestoneOf s pid mid) as [m|] eqn:Hm.
    - destruct Hev as (m2 & Hm2 & [E|E]); rewrite Hm' in Hm2;
        injection Hm2 as <-.
      + rewrite E. by apply (sta_rejected _ IH pid mid).
      + intros E'. rewrite E' in E. by destruct (m_status m).
    - by rewrite (Hev _ Hm'). }
  assert (∀ pid,
            p_status (getProject s' pid) = ProjectStatus.CANCELLED →
            p_freelancer (getProject s' pid) = 0
            ∧ Forall (fun m => m_status m = MilestoneStatus.PENDING)
                (getMilestones s' pid)) as H3.
  { intros q Hst.
    assert (p_status (getProject s q) = ProjectStatus.CANCELLED
            ∨ p_status (getProject s q) ≠ ProjectStatus.CANCELLED)
      as [Hc|Hc] by (destruct (p_status (getProject s q)); auto).
    - destruct (effect_settled _ _ _ _ _ q HC HD He) as [-> ->];
        [unfold settled; by rewrite Hc|].
      by apply (sta_cancelled _ IH).
    - destruct (effect_project_step _ _ _ _ _ q HC HD He) as [E|E];
        [by rewrite <- E in Hc|].
      rewrite Hst in E.
      assert (p_status (getProject s q) = ProjectStatus.CREATED) as Hcr
        by (by destruct (p_status (getProject s q))).
      destruct (fun_created _ HF _ Hcr) as [Hf Hp].
      clear H1 Hev. by_call c; simpl in He.
      + destruct He as (_ & _ & _ & ->). done.
      + destruct He as (_ & _ & _ & ->). done.
      + destruct He as (_ & _ & ->). done.
      + destruct He as (_ & _ & ->). done.
      + destruct He as (_ & _ & _ & _ & _ & _ & _ & _ & ->).
        revert Hst. unfold created_state. reads.
        by destruct (decide _) as [<-|].
      + destruct He as (_ & _ & _ & _ & _ & ->).
        revert Hst. unfold accepted_state. reads.
        by destruct (decide _) as [<-|].
      + destruct He as (m & _ & _ & _ & _ & Ha & _ & _ & ->).
        revert Hst. reads. intros Hst. by rewrite Hst in Hcr.
      + destruct He as (m & _ & _ & _ & _ & Ha & _ & _ & ->).
        revert Hst. rewrite approved_project.
        destruct (decide _) as [<-|]; [|intros Hst; by rewrite Hst in Hcr].
        by rewrite Ha in Hcr.
      + destruct He as (m & _ & _ & _ & Ha & _ & _ & _ & ->).
        revert Hst. rewrite approved_project.
        destruct (decide _) as [<-|]; [|intros Hst; by rewrite Hst in Hcr].
        by rewrite Ha in Hcr.
      + destruct He as (m & _ & _ & _ & _ & Ha & _ & _ & ->).
        revert Hst. unfold raised_state. reads.
        by destruct (decide _) as [<-|].
      + destruct He as (_ & _ & Hlt & Hres & _ & _ & He).
        destruct (REQUIRED_ADMIN_VOTES <=? _).
        * destruct He as (m & _ & _ & ->). revert Hst.
          unfold resolved_state. cbv zeta.
          rewrite !getDispute_upd. cbn [voted d_projectId d_milestoneId].
          reads. by destruct (decide _) as [<-|].
        * subst s'. revert Hst. reads. intros Hst. by rewrite Hst in Hcr.
      + destruct He as (_ & _ & _ & ->). done.
      + destruct He as (_ & _ & _ & _ & _ & _ & ->).
        unfold cancelled_state. reads.
        destruct (decide _) as [<-|]; [done|].
        revert Hst. unfold cancelled_state. reads.
        rewrite decide_False by done. intros Hst. by rewrite Hst in Hcr.
      + destruct He as (_ & _ & ->). done. }
  constructor; [exact H1| |exact H3].
  clear H1 H3 Hev.
  by_call c; simpl in He.
  - destruct He as (_ & _ & _ & ->). apply (sta_disputed _ IH).
  - destruct He as (_ & _ & _ & ->). apply (sta_disputed _ IH).
  - destruct He as (_ & _ & ->). apply (sta_disputed _ IH).
  - destruct He as (_ & _ & ->). apply (sta_disputed _ IH).
  - (* createProject *)
    destruct He as (_ & _ & _ & _ & _ & _ & _ & _ & ->).
    apply (disputed_kept s); [done|done| |done].
    intros q mid m'. unfold milestoneOf, created_state. reads.
    destruct (decide _) as [<-|]; [|by eexists].
    destruct (inv_fresh _ HC _ (N.le_refl (projectCounter s))) as [_ Hm0].
    unfold getMilestones at 1. rewrite Hm0. simpl. intros Hm' Hst.
    by rewrite (newMilestones_pending _ _ _ _ _ Hm') in Hst.
  - destruct He as (_ & _ & _ & _ & _ & ->).
    apply (disputed_kept s); [done|done| |done]. intros q mid m'.
    unfold accepted_state. frame. by eexists.
  - (* submitMilestone *)
    destruct He as (m & Hm & _ & _ & _ & _ & _ & _ & ->).
    apply (disputed_kept s); [done|done| |done].
    intros q mid' m'. rewrite milestoneOf_cases.
    destruct (decide _) as [E|]; [|by eexists].
    rewrite Hm. simpl. by intros [= <-].
  - (* approveMilestone *)
    destruct He as (m & Hm & _ & _ & _ & _ & _ & _ & ->).
    destruct (approved_frame pid mid m s) as (_ & Hdc & Hds & _).
    apply (disputed_kept s); [done| | |done].
    + intros did. unfold getDispute. by rewrite Hds.
    + intros q mid' m'. rewrite approved_milestoneOf, milestoneOf_cases.
      destruct (decide _) as [E|]; [|by eexists].
      rewrite Hm. simpl. by intros [= <-].
  - (* autoApproveMilestone *)
    destruct He as (m & Hm & _ & _ & _ & _ & _ & _ & ->).
    destruct (approved_frame pid mid m s) as (_ & Hdc & Hds & _).
    apply (disputed_kept s); [done| | |done].
    + intros did. unfold getDispute. by rewrite Hds.
    + intros q mid' m'. rewrite approved_milestoneOf, milestoneOf_cases.
      destruct (decide _) as [E|]; [|by eexists].
      rewrite Hm. simpl. by intros [= <-].
  - (* raiseDispute *)
    destruct He as (m & Hm & _ & _ & _ & _ & _ & _ & ->).
    intros q mid' m'. unfold raised_state. rewrite milestoneOf_cases.
    change (disputeCounter (updMilestone _ _ _ _))
      with (disputeCounter s + 1).
    destruct (decide _) as [E|Hne].
    + injection E as -> ->. intros _ _. exists (disputeCounter s).
      split; [lia|]. reads. by rewrite decide_True.
    + frame. intros Hm' Hst.
      destruct (sta_disputed _ IH _ _ _ Hm' Hst) as (did & Hlt & Hr0 & Hp & Hi).
      exists did. split; [lia|]. reads. by rewrite decide_False by lia.
  - (* voteOnDispute *)
    destruct He as (_ & _ & Hlt & Hres & _ & _ & He).
    destruct (REQUIRED_ADMIN_VOTES <=? _).
    + destruct He as (m & Hm & _ & ->).
      intros q mid' m'. unfold resolved_state. cbv zeta.
      rewrite !getDispute_upd. cbn [voted d_projectId d_milestoneId].
      frame. rewrite milestoneOf_cases.
      destruct (decide _) as [E|Hne].
      * frame. rewrite Hm. simpl. by intros [= <-].
      * frame. intros Hm' Hst.
        destruct (sta_disputed _ IH _ _ _ Hm' Hst)
          as (did' & Hlt' & Hr' & Hp' & Hi').
        exists did'. split; [done|]. reads.
        destruct (decide (did = did')) as [<-|]; [|done].
        destruct Hne. by rewrite Hp', Hi'.
    + subst s'. apply (disputed_kept s); [done| |by eexists|done].
      intros did'. reads. by destruct (decide _) as [<-|].
  - destruct He as (_ & _ & _ & ->). apply (sta_disputed _ IH).
  - destruct He as (_ & _ & _ & _ & _ & _ & ->).
    apply (disputed_kept s); [done|done| |done]. intros q mid m'.
    unfold cancelled_state. frame. by eexists.
  - destruct He as (_ & _ & ->). apply (sta_disputed _ IH).
Qed.

(** X25: the status of a project and the statuses of its milestones go
    together in every reachable state.  No milestone is ever REJECTED.  A
    project that is CREATED or CANCELLED has no freelancer and only PENDING
    milestones; a COMPLETED project has only APPROVED milestones; a project
    has a DISPUTED milestone exactly when it is DISPUTED itself, and then
    it has one such milestone only, the one its unresolved dispute names. *)
Theorem statuses_go_together deployer s pid :
  reachable deployer s →
  (∀ mid m, milestoneOf s pid mid = Some m →
     m_status m ≠ MilestoneStatus.REJECTED)
  ∧ (p_status (getProject s pid) = ProjectStatus.CREATED
     ∨ p_status (getProject s pid) = ProjectStatus.CANCELLED →
     p_freelancer (getProject s pid) = 0
     ∧ Forall (fun m => m_status m = MilestoneStatus.PENDING)
         (getMilestones s pid))
  ∧ (p_status (getProject s pid) = ProjectStatus.COMPLETED →
     Forall (fun m => m_status m = MilestoneStatus.APPROVED)
       (getMilestones s pid))
  ∧ (p_status (getProject s pid) = ProjectStatus.DISPUTED
     ↔ ∃ mid m, milestoneOf s pid mid = Some m
                ∧ m_status m = MilestoneStatus.DISPUTED)
  ∧ (∀ mid1 mid2 m1 m2,
       milestoneOf s pid mid1 = Some m1 →
       milestoneOf s pid mid2 = Some m2 →
       m_status m1 = MilestoneStatus.DISPUTED →
       m_status m2 = MilestoneStatus.DISPUTED →
       mid1 = mid2).
Proof.
  intros Hr. destruct (reachable_Statuses _ _ Hr) as [H1 H2 H3].
  destruct (reachable_Funds _ _ Hr) as [Hcr _ Hco _].
  destruct (reachable_Disputed _ _ Hr) as [Hd1 Hd2 Hd3].
  destruct (reachable_Inv _ _ Hr) as [_ HC].
  split; [intros mid m; apply H1|].
  split; [intros [Hst|Hst]; [by apply Hcr|by apply H3]|].
  split.
  { intros Hst. specialize (Hco _ Hst). unfold allMilestonesApproved in Hco.
    rewrite forallb_forall in Hco. apply Forall_forall. intros m Hm.
    by apply statusM_eqb, Hco, list_elem_of_In. }
  split.
  { split.
    - intros Hst. destruct (Hd3 _ Hst) as (did & Hlt & Hres & <-).
      destruct (inv_dispute _ HC _ Hlt Hres) as (m & Hm & Hms).
      by exists (d_milestoneId (getDispute s did)), m.
    - intros (mid & m & Hm & Hms).
      destruct (H2 _ _ _ Hm Hms) as (did & Hlt & Hres & <- & _).
      by apply Hd1. }
  intros mid1 mid2 m1 m2 Hm1 Hm2 Hs1 Hs2.
  destruct (H2 _ _ _ Hm1 Hs1) as (d1 & Hl1 & Hr1 & Hp1 & <-).
  destruct (H2 _ _ _ Hm2 Hs2) as (d2 & Hl2 & Hr2 & Hp2 & <-).
  assert (d1 = d2) as -> by (apply Hd2; try done; by rewrite Hp1, Hp2).
  done.
Qed.

Lemma statuses_go_together_witness :
  (∃ mid m, milestoneOf Sample.one_vote 0 mid = Some m
            ∧ m_status m = MilestoneStatus.DISPUTED)
  ∧ Forall (fun m => m_status m = MilestoneStatus.APPROVED)
      (getMilestones Sample.approved 0).
Proof.
  assert (reachable Sample.deployer Sample.one_vote) as Hr1
    by (repeat apply reach_step; apply reach_init).
  assert (reachable Sample.deployer Sample.approved) as Hr2
    by (repeat apply reach_step; apply reach_init).
  destruct (statuses_go_together Sample.deployer Sample.one_vote 0 Hr1)
    as (_ & _ & _ & Hd & _).
  destruct (statuses_go_together Sample.deployer Sample.approved 0 Hr2)
    as (_ & _ & Hc & _).
  split.
  - apply Hd. vm_compute. reflexivity.
  - apply Hc. vm_compute. reflexivity.
Defined.

(** * Who can release a milestone *)


